(** * WhisperSermons: document model, quote review state machine, converter

    A shallow embedding of the renderer's pure logic:
    - [contexts/QuoteReviewContext] (the reducer, the provider's persistence
      and the selectors),
    - [features/quote-review/hooks] (boundary drag, quote creation,
      paragraph merge, interjection detection, keyboard navigation),
    - [features/document/history/documentHistory] (event-log pruning,
      saving and restoring history items),
    - [features/document/bridge/astTipTapConverter] (AST <-> editor tree,
      AST -> HTML).

    Conventions.  JavaScript numbers that hold offsets, counts and indices
    are integers of [Z]; confidences are rationals of [Q].  A string is a
    sequence of 8-bit code units ([string]); the white space class is
    JavaScript's on these code units.  [undefined]/[null] fields are [option]s.
    React state is threaded explicitly: every hook callback takes the state it
    closes over and returns the dispatched result. *)

From Stdlib Require Import ZArith QArith Ascii String List Bool Lia Permutation Sorted.
From stdpp Require Import gmap strings list.
Import ListNotations.

Local Open Scope string_scope.
Local Open Scope Z_scope.
Set Warnings "-register-all".

(* ===================================================================== *)
(** * Part I: the program *)
(* ===================================================================== *)

(** ** JavaScript primitives used by the sources *)
Module Js.

(** [\s] and the characters removed by [String.prototype.trim], among the
    code units below 256: TAB, LF, VT, FF, CR, SPACE and the no-break space
    U+00A0. *)
Definition isWhiteSpace (c : ascii) : bool :=
  let n := nat_of_ascii c in
  ((9 <=? n)%nat && (n <=? 13)%nat) || (n =? 32)%nat || (n =? 160)%nat.

(** [\d] *)
Definition isDigit (c : ascii) : bool :=
  let n := nat_of_ascii c in (48 <=? n)%nat && (n <=? 57)%nat.

Definition isUpper (c : ascii) : bool :=
  let n := nat_of_ascii c in (65 <=? n)%nat && (n <=? 90)%nat.

Definition isLower (c : ascii) : bool :=
  let n := nat_of_ascii c in (97 <=? n)%nat && (n <=? 122)%nat.

(** [[A-Za-z]] *)
Definition isAlpha (c : ascii) : bool := isUpper c || isLower c.

(** [\w] *)
Definition isWordChar (c : ascii) : bool :=
  isAlpha c || isDigit c || (nat_of_ascii c =? 95)%nat.

Definition toLower (c : ascii) : ascii :=
  if isUpper c then ascii_of_nat (nat_of_ascii c + 32) else c.

Fixpoint trimStart (s : string) : string :=
  match s with
  | String c s' => if isWhiteSpace c then trimStart s' else s
  | EmptyString => EmptyString
  end.

Fixpoint trimEnd (s : string) : string :=
  match s with
  | String c s' =>
      match trimEnd s' with
      | EmptyString => if isWhiteSpace c then EmptyString else String c EmptyString
      | t => String c t
      end
  | EmptyString => EmptyString
  end.

(** [s.trim()] *)
Definition trim (s : string) : string := trimEnd (trimStart s).

(** [s.startsWith(p)] *)
Definition startsWith (s p : string) : bool := String.prefix p s.

(** Truthiness of a string: non-empty. *)
Definition truthyStr (s : string) : bool :=
  match s with EmptyString => false | _ => true end.

(** Truthiness of an optional string ([undefined] and [''] are falsy). *)
Definition truthyOptStr (o : option string) : bool :=
  match o with Some s => truthyStr s | None => false end.

(** [a || b] on optional strings. *)
Definition orStr (a b : option string) : option string :=
  if truthyOptStr a then a else b.

(** [xs.join(sep)] *)
Definition join (sep : string) (xs : list string) : string := String.concat sep xs.

(** The integer a string of decimal digits denotes. *)
Definition digitVal (c : ascii) : Z := Z.of_nat (nat_of_ascii c) - 48.

Fixpoint parseDigits (acc : Z) (s : string) : Z :=
  match s with
  | String c s' => parseDigits (10 * acc + digitVal c) s'
  | EmptyString => acc
  end.

(** A number value that is an integer, or [Infinity]. *)
Inductive Integral : Type :=
| Integer (z : Z)
| Infinity.

(** The number value of a non-negative integer: the integer itself up to 53
    bits, beyond that the nearest number with a 53-bit mantissa (a tie goes
    to the even mantissa), and [Infinity] from [2^1024] on. *)
Definition toNumber (z : Z) : Integral :=
  let e := Z.log2 z in
  if e <? 53 then Integer z
  else
    let sh := e - 52 in
    let q := Z.shiftr z sh in
    let r := Z.land z (Z.ones sh) in
    let half := Z.shiftl 1 (sh - 1) in
    let q' := if (half <? r) || ((r =? half) && Z.odd q) then q + 1 else q in
    let v := Z.shiftl q' sh in
    if 2 ^ 1024 <=? v then Infinity else Integer v.

(** [parseInt(s, 10)] on a non-empty string of decimal digits. *)
Definition parseInt (s : string) : Integral := toNumber (parseDigits 0 s).

(** [xs[i]] for a number [i]: defined on the indices of the array only. *)
Definition index {A} (xs : list A) (i : Z) : option A :=
  if 0 <=? i then xs !! Z.to_nat i else None.

(** [xs.slice(start)]: a negative [start] counts from the end, and [-0] is
    [0]. *)
Definition slice {A} (xs : list A) (start : Z) : list A :=
  let len := Z.of_nat (length xs) in
  let k := if start <? 0 then Z.max (len + start) 0 else Z.min start len in
  drop (Z.to_nat k) xs.

(** [xs.sort((a, b) => key(a) - key(b))]: [Array.prototype.sort] is stable
    (ECMAScript 2019); here by insertion, an element going in front of the
    first later element whose key is not smaller. *)
Fixpoint insertBy {A} (key : A -> Z) (x : A) (l : list A) : list A :=
  match l with
  | [] => [x]
  | y :: l' => if key x <=? key y then x :: l else y :: insertBy key x l'
  end.

Definition sortBy {A} (key : A -> Z) (l : list A) : list A :=
  foldr (insertBy key) [] l.

(** The primitive values that can sit in an untyped record
    ([Record<string, unknown>]). *)
Inductive JValue : Type :=
| JUndefined
| JNull
| JBool (b : bool)
| JNum (q : Q)
| JStr (s : string).

Definition truthy (v : JValue) : bool :=
  match v with
  | JUndefined | JNull => false
  | JBool b => b
  | JNum q => negb (Qeq_bool q 0)
  | JStr s => truthyStr s
  end.

(** [a || b] and [a ?? b] on values. *)
Definition orValue (a b : JValue) : JValue := if truthy a then a else b.

Definition nullish (a b : JValue) : JValue :=
  match a with JUndefined | JNull => b | _ => a end.

(** How a call ends: it returns a value, or it throws an [Error] with a
    message. *)
Inductive Exc (A : Type) : Type :=
| Ok (a : A)
| Threw (message : string).
Arguments Ok {A}.
Arguments Threw {A}.

(** [o[k]]: a missing key reads as [undefined]. *)
Definition get (o : gmap string JValue) (k : string) : JValue :=
  default JUndefined (o !! k).

(** [o?.[k]] on an optional record. *)
Definition getOpt (o : option (gmap string JValue)) (k : string) : JValue :=
  match o with Some m => get m k | None => JUndefined end.

(** [v === n] for a number literal and [v === s] for a string literal. *)
Definition strictEqNum (v : JValue) (n : Q) : bool :=
  match v with JNum q => Qeq_bool q n | _ => false end.

Definition strictEqStr (v : JValue) (s : string) : bool :=
  match v with JStr t => String.eqb t s | _ => false end.

End Js.

(** ** types/quoteReview.ts and contexts/QuoteReviewContext: the reducer *)
Module QuoteReview.

Definition NodeId : Type := string.

Inductive Edge : Type := EdgeStart | EdgeEnd.

Record QuoteReviewItem : Type := mkQuoteReviewItem {
  id : NodeId;
  text : string;
  reference : option string;
  isNonBiblical : bool;
  isReviewed : bool;
  interjections : option (list string);
  startOffset : option Z;
  endOffset : option Z;
  paragraphId : option NodeId }.

(** [Partial<QuoteReviewItem>]: a key is absent ([None]) or carries a value;
    for the optional fields that value may itself be [undefined]. *)
Record QuoteReviewItemPatch : Type := mkQuoteReviewItemPatch {
  p_id : option NodeId;
  p_text : option string;
  p_reference : option (option string);
  p_isNonBiblical : option bool;
  p_isReviewed : option bool;
  p_interjections : option (option (list string));
  p_startOffset : option (option Z);
  p_endOffset : option (option Z);
  p_paragraphId : option (option NodeId) }.

(** [{ ...q, ...updates }] *)
Definition applyPatch (q : QuoteReviewItem) (u : QuoteReviewItemPatch) : QuoteReviewItem :=
  {| id := default (id q) (p_id u);
     text := default (text q) (p_text u);
     reference := default (reference q) (p_reference u);
     isNonBiblical := default (isNonBiblical q) (p_isNonBiblical u);
     isReviewed := default (isReviewed q) (p_isReviewed u);
     interjections := default (interjections q) (p_interjections u);
     startOffset := default (startOffset q) (p_startOffset u);
     endOffset := default (endOffset q) (p_endOffset u);
     paragraphId := default (paragraphId q) (p_paragraphId u) |}.

Record QuoteReviewState : Type := mkQuoteReviewState {
  isReviewModeActive : bool;
  focusedQuoteId : option NodeId;
  reviewedQuoteIds : gset NodeId;
  panelOpen : bool;
  panelWidth : Z;
  bannerDismissed : bool }.

Record PersistedQuoteReviewState : Type := mkPersisted {
  ps_panelOpen : bool;
  ps_panelWidth : Z;
  ps_reviewedQuoteIds : list string;
  ps_bannerDismissed : bool }.

Record QuoteBoundaryDragState : Type := mkDragState {
  isDragging : bool;
  edge : option Edge;
  originalOffset : Z;
  currentOffset : Z;
  dragQuoteId : option NodeId;
  wouldMergeParagraphs : bool;
  paragraphsToMerge : list NodeId }.

Record BoundaryEditModeState : Type := mkBoundaryEdit {
  be_isActive : bool;
  be_quoteId : option NodeId;
  previewStartOffset : option Z;
  previewEndOffset : option Z;
  lastChangeTimestamp : option Z }.

Record BibleLookupResult : Type := mkLookupResult {
  lr_success : bool;
  lr_verseText : option string;
  lr_normalizedReference : option string;
  lr_book : option string;
  lr_chapter : option Z;
  lr_verseStart : option (option Z);
  lr_verseEnd : option (option Z);
  lr_translation : option string;
  lr_error : option string }.

Record SelectedRange : Type := mkSelectedRange {
  startNodeId : NodeId;
  sr_startOffset : Z;
  endNodeId : NodeId;
  sr_endOffset : Z }.

Record QuoteCreationState : Type := mkCreation {
  isCreating : bool;
  selectedText : string;
  selectedRange : option SelectedRange;
  referenceInput : string;
  lookupResult : option BibleLookupResult;
  isLookingUp : bool;
  cr_isNonBiblical : bool;
  spannedParagraphIds : list NodeId }.

Record InterjectionCandidate : Type := mkCandidate {
  c_text : string;
  c_startOffset : Z;
  c_endOffset : Z;
  confirmed : bool;
  rejected : bool;
  confidence : Q;
  context : option string }.

Record InterjectionEditState : Type := mkInterjectionEdit {
  ie_isActive : bool;
  ie_quoteId : option NodeId;
  pendingCandidates : list InterjectionCandidate;
  ie_selectedText : option string;
  selectionRange : option (Z * Z) }.

Inductive QuotePanelFilterMode : Type := FilterAll | FilterUnverified | FilterByBook.

Record QuotePanelFilterState : Type := mkPanelFilter {
  mode : QuotePanelFilterMode;
  selectedBook : option string;
  searchQuery : string }.

Record QuoteReviewContextState : Type := mkState {
  quotes : list QuoteReviewItem;
  review : QuoteReviewState;
  boundaryEdit : BoundaryEditModeState;
  boundaryDrag : QuoteBoundaryDragState;
  creation : QuoteCreationState;
  interjectionEdit : InterjectionEditState;
  panelFilter : QuotePanelFilterState }.

Definition DEFAULT_PANEL_WIDTH : Z := 320.
Definition BOUNDARY_CHANGE_DEBOUNCE_MS : Z := 500.

Definition initialReviewState : QuoteReviewState :=
  {| isReviewModeActive := false; focusedQuoteId := None; reviewedQuoteIds := ∅;
     panelOpen := false; panelWidth := DEFAULT_PANEL_WIDTH; bannerDismissed := false |}.

Definition initialBoundaryEditState : BoundaryEditModeState :=
  {| be_isActive := false; be_quoteId := None; previewStartOffset := None;
     previewEndOffset := None; lastChangeTimestamp := None |}.

Definition initialBoundaryDragState : QuoteBoundaryDragState :=
  {| isDragging := false; edge := None; originalOffset := 0; currentOffset := 0;
     dragQuoteId := None; wouldMergeParagraphs := false; paragraphsToMerge := [] |}.

Definition initialCreationState : QuoteCreationState :=
  {| isCreating := false; selectedText := ""; selectedRange := None;
     referenceInput := ""; lookupResult := None; isLookingUp := false;
     cr_isNonBiblical := false; spannedParagraphIds := [] |}.

Definition initialInterjectionEditState : InterjectionEditState :=
  {| ie_isActive := false; ie_quoteId := None; pendingCandidates := [];
     ie_selectedText := None; selectionRange := None |}.

Definition initialPanelFilterState : QuotePanelFilterState :=
  {| mode := FilterAll; selectedBook := None; searchQuery := "" |}.

Definition initialState : QuoteReviewContextState :=
  {| quotes := []; review := initialReviewState; boundaryEdit := initialBoundaryEditState;
     boundaryDrag := initialBoundaryDragState; creation := initialCreationState;
     interjectionEdit := initialInterjectionEditState; panelFilter := initialPanelFilterState |}.

Inductive QuoteReviewAction : Type :=
| SET_QUOTES (payload : list QuoteReviewItem)
| ADD_QUOTE (payload : QuoteReviewItem)
| UPDATE_QUOTE (quoteId : NodeId) (updates : QuoteReviewItemPatch)
| REMOVE_QUOTE (payload : NodeId)
| SET_REVIEW_MODE_ACTIVE (payload : bool)
| SET_FOCUSED_QUOTE (payload : option NodeId)
| MARK_QUOTE_REVIEWED (payload : NodeId)
| TOGGLE_PANEL
| SET_PANEL_OPEN (payload : bool)
| SET_PANEL_WIDTH (payload : Z)
| DISMISS_BANNER
| ENTER_BOUNDARY_EDIT_MODE (payload : NodeId)
| EXIT_BOUNDARY_EDIT_MODE
| UPDATE_BOUNDARY_PREVIEW (startOffset endOffset : option Z)
| COMMIT_BOUNDARY_CHANGE
| START_BOUNDARY_DRAG (quoteId : NodeId) (edge : Edge) (offset : Z)
| UPDATE_BOUNDARY_DRAG (offset : Z) (wouldMerge : bool) (paragraphsToMerge : list NodeId)
| END_BOUNDARY_DRAG
| CANCEL_BOUNDARY_DRAG
| START_QUOTE_CREATION (selectedText : string) (range : option SelectedRange)
    (spannedParagraphIds : list NodeId)
| UPDATE_REFERENCE_INPUT (payload : string)
| SET_LOOKUP_RESULT (payload : option BibleLookupResult)
| SET_IS_LOOKING_UP (payload : bool)
| SET_IS_NON_BIBLICAL (payload : bool)
| CANCEL_QUOTE_CREATION
| CONFIRM_QUOTE_CREATION
| ENTER_INTERJECTION_EDIT_MODE (payload : NodeId)
| EXIT_INTERJECTION_EDIT_MODE
| SET_PENDING_INTERJECTION_CANDIDATES (payload : list InterjectionCandidate)
| CONFIRM_INTERJECTION_CANDIDATE (payload : Z)
| REJECT_INTERJECTION_CANDIDATE (payload : Z)
| SET_INTERJECTION_SELECTION (text : option string) (range : option (Z * Z))
| SET_FILTER_MODE (payload : QuotePanelFilterMode)
| SET_SELECTED_BOOK (payload : option string)
| SET_SEARCH_QUERY (payload : string)
| LOAD_PERSISTED_STATE (payload : PersistedQuoteReviewState)
| RESET_STATE.

(** Spread-and-override helpers: [{ ...state, slice: v }]. *)
Definition withQuotes (s : QuoteReviewContextState) v : QuoteReviewContextState :=
  mkState v (review s) (boundaryEdit s) (boundaryDrag s) (creation s) (interjectionEdit s) (panelFilter s).
Definition withReview (s : QuoteReviewContextState) v : QuoteReviewContextState :=
  mkState (quotes s) v (boundaryEdit s) (boundaryDrag s) (creation s) (interjectionEdit s) (panelFilter s).
Definition withBoundaryEdit (s : QuoteReviewContextState) v : QuoteReviewContextState :=
  mkState (quotes s) (review s) v (boundaryDrag s) (creation s) (interjectionEdit s) (panelFilter s).
Definition withBoundaryDrag (s : QuoteReviewContextState) v : QuoteReviewContextState :=
  mkState (quotes s) (review s) (boundaryEdit s) v (creation s) (interjectionEdit s) (panelFilter s).
Definition withCreation (s : QuoteReviewContextState) v : QuoteReviewContextState :=
  mkState (quotes s) (review s) (boundaryEdit s) (boundaryDrag s) v (interjectionEdit s) (panelFilter s).
Definition withInterjectionEdit (s : QuoteReviewContextState) v : QuoteReviewContextState :=
  mkState (quotes s) (review s) (boundaryEdit s) (boundaryDrag s) (creation s) v (panelFilter s).
Definition withPanelFilter (s : QuoteReviewContextState) v : QuoteReviewContextState :=
  mkState (quotes s) (review s) (boundaryEdit s) (boundaryDrag s) (creation s) (interjectionEdit s) v.

(** [a === b] on [NodeId | null] against a [NodeId]. *)
Definition focusIs (f : option NodeId) (q : NodeId) : bool :=
  match f with Some x => String.eqb x q | None => false end.

(** The CONFIRM/REJECT cases: copy the array, and overwrite index [i] when it
    holds a candidate. *)
Definition markCandidate (conf rej : bool) (i : Z) (cs : list InterjectionCandidate)
  : list InterjectionCandidate :=
  match Js.index cs i with
  | Some c =>
      <[Z.to_nat i := mkCandidate (c_text c) (c_startOffset c) (c_endOffset c) conf rej
                        (confidence c) (context c)]> cs
  | None => cs
  end.

(** [quoteReviewReducer]; [now] is the value [Date.now()] returns while the
    action is reduced. *)
Definition quoteReviewReducer (now : Z) (state : QuoteReviewContextState)
    (action : QuoteReviewAction) : QuoteReviewContextState :=
  let r := review state in
  let be := boundaryEdit state in
  let bd := boundaryDrag state in
  let cr := creation state in
  let ie := interjectionEdit state in
  let pf := panelFilter state in
  match action with
  | SET_QUOTES payload => withQuotes state payload
  | ADD_QUOTE payload => withQuotes state (quotes state ++ [payload])
  | UPDATE_QUOTE quoteId updates =>
      withQuotes state
        (map (fun q => if String.eqb (id q) quoteId then applyPatch q updates else q) (quotes state))
  | REMOVE_QUOTE payload =>
      mkState (List.filter (fun q => negb (String.eqb (id q) payload)) (quotes state))
        (mkQuoteReviewState (isReviewModeActive r)
           (if focusIs (focusedQuoteId r) payload then None else focusedQuoteId r)
           (reviewedQuoteIds r) (panelOpen r) (panelWidth r) (bannerDismissed r))
        be bd cr ie pf
  | SET_REVIEW_MODE_ACTIVE payload =>
      withReview state (mkQuoteReviewState payload (focusedQuoteId r) (reviewedQuoteIds r)
                          (panelOpen r) (panelWidth r) (bannerDismissed r))
  | SET_FOCUSED_QUOTE payload =>
      withReview state (mkQuoteReviewState (isReviewModeActive r) payload (reviewedQuoteIds r)
                          (panelOpen r) (panelWidth r) (bannerDismissed r))
  | MARK_QUOTE_REVIEWED payload =>
      withReview state (mkQuoteReviewState (isReviewModeActive r) (focusedQuoteId r)
                          (reviewedQuoteIds r ∪ {[payload]})
                          (panelOpen r) (panelWidth r) (bannerDismissed r))
  | TOGGLE_PANEL =>
      withReview state (mkQuoteReviewState (isReviewModeActive r) (focusedQuoteId r)
                          (reviewedQuoteIds r) (negb (panelOpen r)) (panelWidth r) (bannerDismissed r))
  | SET_PANEL_OPEN payload =>
      withReview state (mkQuoteReviewState (isReviewModeActive r) (focusedQuoteId r)
                          (reviewedQuoteIds r) payload (panelWidth r) (bannerDismissed r))
  | SET_PANEL_WIDTH payload =>
      withReview state (mkQuoteReviewState (isReviewModeActive r) (focusedQuoteId r)
                          (reviewedQuoteIds r) (panelOpen r) payload (bannerDismissed r))
  | DISMISS_BANNER =>
      withReview state (mkQuoteReviewState (isReviewModeActive r) (focusedQuoteId r)
                          (reviewedQuoteIds r) (panelOpen r) (panelWidth r) true)
  | ENTER_BOUNDARY_EDIT_MODE payload =>
      withBoundaryEdit state (mkBoundaryEdit true (Some payload) None None None)
  | EXIT_BOUNDARY_EDIT_MODE => withBoundaryEdit state initialBoundaryEditState
  | UPDATE_BOUNDARY_PREVIEW startOffset endOffset =>
      withBoundaryEdit state
        (mkBoundaryEdit (be_isActive be) (be_quoteId be) startOffset endOffset (Some now))
  | COMMIT_BOUNDARY_CHANGE =>
      withBoundaryEdit state (mkBoundaryEdit (be_isActive be) (be_quoteId be) None None None)
  | START_BOUNDARY_DRAG quoteId e offset =>
      withBoundaryDrag state (mkDragState true (Some e) offset offset (Some quoteId) false [])
  | UPDATE_BOUNDARY_DRAG offset wouldMerge ps =>
      withBoundaryDrag state
        (mkDragState (isDragging bd) (edge bd) (originalOffset bd) offset (dragQuoteId bd)
           wouldMerge ps)
  | END_BOUNDARY_DRAG | CANCEL_BOUNDARY_DRAG => withBoundaryDrag state initialBoundaryDragState
  | START_QUOTE_CREATION selectedText range spanned =>
      withCreation state (mkCreation true selectedText range "" None false false spanned)
  | UPDATE_REFERENCE_INPUT payload =>
      withCreation state
        (mkCreation (isCreating cr) (selectedText cr) (selectedRange cr) payload (lookupResult cr)
           (isLookingUp cr) (cr_isNonBiblical cr) (spannedParagraphIds cr))
  | SET_LOOKUP_RESULT payload =>
      withCreation state
        (mkCreation (isCreating cr) (selectedText cr) (selectedRange cr) (referenceInput cr) payload
           (isLookingUp cr) (cr_isNonBiblical cr) (spannedParagraphIds cr))
  | SET_IS_LOOKING_UP payload =>
      withCreation state
        (mkCreation (isCreating cr) (selectedText cr) (selectedRange cr) (referenceInput cr)
           (lookupResult cr) payload (cr_isNonBiblical cr) (spannedParagraphIds cr))
  | SET_IS_NON_BIBLICAL payload =>
      withCreation state
        (mkCreation (isCreating cr) (selectedText cr) (selectedRange cr) (referenceInput cr)
           (lookupResult cr) (isLookingUp cr) payload (spannedParagraphIds cr))
  | CANCEL_QUOTE_CREATION | CONFIRM_QUOTE_CREATION => withCreation state initialCreationState
  | ENTER_INTERJECTION_EDIT_MODE payload =>
      withInterjectionEdit state (mkInterjectionEdit true (Some payload) [] None None)
  | EXIT_INTERJECTION_EDIT_MODE => withInterjectionEdit state initialInterjectionEditState
  | SET_PENDING_INTERJECTION_CANDIDATES payload =>
      withInterjectionEdit state
        (mkInterjectionEdit (ie_isActive ie) (ie_quoteId ie) payload (ie_selectedText ie)
           (selectionRange ie))
  | CONFIRM_INTERJECTION_CANDIDATE payload =>
      withInterjectionEdit state
        (mkInterjectionEdit (ie_isActive ie) (ie_quoteId ie)
           (markCandidate true false payload (pendingCandidates ie)) (ie_selectedText ie)
           (selectionRange ie))
  | REJECT_INTERJECTION_CANDIDATE payload =>
      withInterjectionEdit state
        (mkInterjectionEdit (ie_isActive ie) (ie_quoteId ie)
           (markCandidate false true payload (pendingCandidates ie)) (ie_selectedText ie)
           (selectionRange ie))
  | SET_INTERJECTION_SELECTION text range =>
      withInterjectionEdit state
        (mkInterjectionEdit (ie_isActive ie) (ie_quoteId ie) (pendingCandidates ie) text range)
  | SET_FILTER_MODE payload =>
      withPanelFilter state (mkPanelFilter payload (selectedBook pf) (searchQuery pf))
  | SET_SELECTED_BOOK payload =>
      withPanelFilter state (mkPanelFilter (mode pf) payload (searchQuery pf))
  | SET_SEARCH_QUERY payload =>
      withPanelFilter state (mkPanelFilter (mode pf) (selectedBook pf) payload)
  | LOAD_PERSISTED_STATE payload =>
      withReview state
        (mkQuoteReviewState (isReviewModeActive r) (focusedQuoteId r)
           (list_to_set (ps_reviewedQuoteIds payload)) (ps_panelOpen payload)
           (ps_panelWidth payload) (ps_bannerDismissed payload))
  | RESET_STATE => initialState
  end.

(** A run of the reducer over a list of dispatched actions, each with its
    clock reading. *)
Definition dispatchAll (s : QuoteReviewContextState) (acts : list (Z * QuoteReviewAction))
  : QuoteReviewContextState :=
  fold_left (fun st '(now, a) => quoteReviewReducer now st a) acts s.

End QuoteReview.

(** ** features/document/history/documentHistory.ts *)
Module DocumentHistory.

Section DocumentState.
(** [shared/documentModel] is not part of the sources at hand: the root, the
    events, the snapshots and the remaining fields of [DocumentState] are kept
    abstract. *)
Context {Root Event Snapshot Other : Type}.

Record DocumentState : Type := mkDocumentState {
  root : Root;
  eventLog : list Event;
  undoStack : list Snapshot;
  redoStack : list Snapshot;
  otherFields : Other }.

Definition pruneEventLog (documentState : DocumentState) (maxEvents : Z) : DocumentState :=
  if Z.of_nat (length (eventLog documentState)) <=? maxEvents then documentState
  else
    {| root := root documentState;
       eventLog := Js.slice (eventLog documentState) (- maxEvents);
       undoStack := [];
       redoStack := [];
       otherFields := otherFields documentState |}.

End DocumentState.
Arguments DocumentState : clear implicits.

End DocumentHistory.

(** ** features/quote-review/hooks/useParagraphMerge.ts *)
Module ParagraphMerge.

Definition NodeId : Type := string.

Record ParagraphInfo : Type := mkParagraphInfo {
  id : NodeId;
  text : string;
  startOffset : Z;
  endOffset : Z }.

Record MergePreview : Type := mkMergePreview {
  paragraphIds : list NodeId;
  mergedText : string;
  mp_startOffset : Z;
  mp_endOffset : Z;
  requiresConfirmation : bool }.

Record UseParagraphMergeOptions : Type := mkOptions {
  getParagraphInfo : option (NodeId -> option ParagraphInfo);
  autoConfirm : option bool }.

(** [ids.map(getParagraphInfo).filter(p => p !== null).sort(...)] *)
Definition resolve (get : NodeId -> option ParagraphInfo) (ids : list NodeId) : list ParagraphInfo :=
  Js.sortBy startOffset (omap get ids).

Definition calculateMergedContent (o : UseParagraphMergeOptions) (ids : list NodeId) : string :=
  match getParagraphInfo o, ids with
  | None, _ | _, [] => ""
  | Some get, _ => Js.join " " (map (fun p => Js.trim (text p)) (resolve get ids))
  end.

Definition previewMerge (o : UseParagraphMergeOptions) (ids : list NodeId) : option MergePreview :=
  match getParagraphInfo o with
  | None => None
  | Some get =>
      if (length ids <? 2)%nat then None
      else
        let paragraphs := resolve get ids in
        if (length paragraphs <? 2)%nat then None
        else
          Some {| paragraphIds := ids;
                  mergedText := Js.join " " (map (fun p => Js.trim (text p)) paragraphs);
                  mp_startOffset := default 0 (startOffset <$> head paragraphs);
                  mp_endOffset := default 0 (endOffset <$> last paragraphs);
                  requiresConfirmation := negb (default false (autoConfirm o)) |}
  end.

(** The hook's state ([pendingMerge]) and the calls of [onMergeConfirmed]. *)
Record MergeState : Type := mkMergeState {
  pendingMerge : option MergePreview;
  confirmedCalls : list MergePreview }.

Definition requestMerge (o : UseParagraphMergeOptions) (hasCallback : bool) (st : MergeState)
    (ids : list NodeId) : MergeState :=
  match previewMerge o ids with
  | None => st
  | Some preview =>
      if default false (autoConfirm o)
      then if hasCallback
           then mkMergeState (pendingMerge st) (confirmedCalls st ++ [preview]) else st
      else mkMergeState (Some preview) (confirmedCalls st)
  end.

Definition confirmMerge (hasCallback : bool) (st : MergeState) : MergeState :=
  match pendingMerge st with
  | None => st
  | Some p => mkMergeState None (if hasCallback then confirmedCalls st ++ [p] else confirmedCalls st)
  end.

Definition cancelMerge (st : MergeState) : MergeState := mkMergeState None (confirmedCalls st).

End ParagraphMerge.

(** ** features/quote-review/hooks/useBoundaryMutation.ts *)
Module BoundaryMutation.
Import QuoteReview.

Record DocNode : Type := mkDocNode {
  dn_startOffset : Z;
  dn_endOffset : Z;
  dn_type : string }.

Record BoundaryMutationResult : Type := mkResult {
  requiresMerge : bool;
  rs_paragraphsToMerge : list NodeId;
  newStartOffset : Z;
  newEndOffset : Z }.

(** The two callbacks may be absent; [documentNodes] is a [Map], read in
    insertion order. *)
Record UseBoundaryMutationOptions : Type := mkOptions {
  onBoundaryCommit : bool;
  onParagraphMerge : bool;
  documentNodes : option (list (NodeId * DocNode)) }.

(** What the hook does to the outside: calls of the two callbacks. *)
Inductive Effect : Type :=
| BoundaryCommit (quoteId : NodeId) (result : BoundaryMutationResult)
| ParagraphMerge (paragraphIds : list NodeId).

(** The values a scheduled commit closes over. *)
Record PendingCommit : Type := mkPending {
  pc_quoteId : NodeId;
  pc_newOffset : Z;
  pc_edge : option Edge;
  pc_originalOffset : Z }.

(** The reducer state the hook reads, its two refs, and the effects so far. *)
Record Hook : Type := mkHook {
  ctx : QuoteReviewContextState;
  commitTimerRef : option PendingCommit;
  lastCommittedOffsetRef : option Z;
  effects : list Effect }.

Section Hook.
Variable options : UseBoundaryMutationOptions.
(** [Date.now()] is only read by actions this hook never dispatches. *)
Variable now : Z.

Definition dispatch (h : Hook) (a : QuoteReviewAction) : Hook :=
  mkHook (quoteReviewReducer now (ctx h) a) (commitTimerRef h) (lastCommittedOffsetRef h) (effects h).

Definition findSpannedParagraphs (startOffset endOffset : Z) : list NodeId :=
  match documentNodes options with
  | None => []
  | Some nodes =>
      omap (fun '(nodeId, node) =>
              if String.eqb (dn_type node) "paragraph"
                 && (dn_startOffset node <? endOffset) && (startOffset <? dn_endOffset node)
              then Some nodeId else None) nodes
  end.

Definition checkParagraphCrossing (startOffset endOffset : Z) : bool * list NodeId :=
  let spanned := findSpannedParagraphs startOffset endOffset in
  ((1 <? length spanned)%nat, spanned).

Definition snapToWordBoundary (offset : Z) (_direction : Edge) : Z := offset.

Definition startDrag (h : Hook) (quoteId : NodeId) (e : Edge) (initialOffset : Z) : Hook :=
  dispatch (mkHook (ctx h) (commitTimerRef h) (Some initialOffset) (effects h))
    (START_BOUNDARY_DRAG quoteId e initialOffset).

(** The [startOffset, endOffset] pair both [updateDrag] and the scheduled
    commit build: the dragged edge takes the new offset, the other one
    [boundaryDrag.originalOffset]. *)
Definition dragRange (e : option Edge) (originalOffset offset : Z) : Z * Z :=
  match e with
  | Some EdgeStart => (offset, originalOffset)
  | _ => (originalOffset, offset)
  end.

Definition dragActive (bd : QuoteBoundaryDragState) : bool :=
  isDragging bd && bool_decide (dragQuoteId bd ≠ None).

(** The range [updateDrag] hands to [checkParagraphCrossing], when it gets
    that far. *)
Definition updateDragRange (h : Hook) (newOffset : Z) : option (Z * Z) :=
  let bd := boundaryDrag (ctx h) in
  if dragActive bd then
    let snapped := snapToWordBoundary newOffset (default EdgeEnd (edge bd)) in
    Some (dragRange (edge bd) (originalOffset bd) snapped)
  else None.

Definition updateDrag (h : Hook) (newOffset _mouseX _mouseY : Z) : Hook :=
  let bd := boundaryDrag (ctx h) in
  match updateDragRange h newOffset with
  | None => h
  | Some (startOffset, endOffset) =>
      let snapped := snapToWordBoundary newOffset (default EdgeEnd (edge bd)) in
      let '(crosses, paragraphs) := checkParagraphCrossing startOffset endOffset in
      dispatch h (UPDATE_BOUNDARY_DRAG snapped crosses paragraphs)
  end.

(** [endDrag]: replaces the pending timer by one that closes over the current
    drag state. *)
Definition endDrag (h : Hook) : Hook :=
  let bd := boundaryDrag (ctx h) in
  match dragActive bd, dragQuoteId bd with
  | true, Some quoteId =>
      mkHook (ctx h)
        (Some (mkPending quoteId (currentOffset bd) (edge bd) (originalOffset bd)))
        (lastCommittedOffsetRef h) (effects h)
  | _, _ => h
  end.

(** The body of the timer [endDrag] sets, run when the debounce delay
    ([BOUNDARY_CHANGE_DEBOUNCE_MS]) has passed without the timer being
    cleared. *)
Definition timerFires (h : Hook) : Hook :=
  match commitTimerRef h with
  | None => h
  | Some pc =>
      let significantChange :=
        match lastCommittedOffsetRef h with
        | None => true
        | Some lastOffset => 5 <? Z.abs (pc_newOffset pc - lastOffset)
        end in
      let h1 :=
        if significantChange && onBoundaryCommit options then
          let '(newStart, newEnd) := dragRange (pc_edge pc) (pc_originalOffset pc) (pc_newOffset pc) in
          let '(crosses, paragraphs) := checkParagraphCrossing newStart newEnd in
          let result := mkResult crosses paragraphs newStart newEnd in
          let commit := [BoundaryCommit (pc_quoteId pc) result] in
          let merge := if crosses && onParagraphMerge options then [ParagraphMerge paragraphs] else [] in
          mkHook (ctx h) (commitTimerRef h) (Some (pc_newOffset pc)) (effects h ++ commit ++ merge)
        else h in
      let h2 := dispatch h1 END_BOUNDARY_DRAG in
      mkHook (ctx h2) None (lastCommittedOffsetRef h2) (effects h2)
  end.

Definition cancelDrag (h : Hook) : Hook :=
  dispatch (mkHook (ctx h) None None (effects h)) CANCEL_BOUNDARY_DRAG.

(** The ranges committed so far. *)
Definition committed (h : Hook) : list (Z * Z) :=
  omap (fun e => match e with
                 | BoundaryCommit _ r => Some (newStartOffset r, newEndOffset r)
                 | ParagraphMerge _ => None
                 end) (effects h).

End Hook.

End BoundaryMutation.

(** ** Regular expressions: the fragment the sources use, with the
    backtracking semantics of [RegExp.prototype.exec] *)
Module Regex.

Inductive Regex : Type :=
| Empty
| Class (p : ascii -> bool)
| Seq (r1 r2 : Regex)
| Alt (r1 r2 : Regex)
| Opt (r : Regex)
| Star (r : Regex)
| Group (n : nat) (r : Regex)
| Bol
| Eol
| WordBoundary.

(** [r+] *)
Definition Plus (r : Regex) : Regex := Seq r (Star r).

(** A literal character, and one under the [i] flag. *)
Definition Chr (c : ascii) : Regex := Class (Ascii.eqb c).
Definition ChrI (c : ascii) : Regex := Class (fun a => Ascii.eqb (Js.toLower a) (Js.toLower c)).

Fixpoint LitI (s : string) : Regex :=
  match s with
  | EmptyString => Empty
  | String c EmptyString => ChrI c
  | String c s' => Seq (ChrI c) (LitI s')
  end.

(** A literal string, without the [i] flag. *)
Fixpoint Lit (s : string) : Regex :=
  match s with
  | EmptyString => Empty
  | String c EmptyString => Chr c
  | String c s' => Seq (Chr c) (Lit s')
  end.

(** [a|b|...] *)
Fixpoint AltOf (rs : list Regex) : Regex :=
  match rs with
  | [] => Empty
  | [r] => r
  | r :: rs' => Alt r (AltOf rs')
  end.

Definition Captures : Type := nat -> option string.
Definition noCaptures : Captures := fun _ => None.
Definition setCapture (n : nat) (v : string) (c : Captures) : Captures :=
  fun m => if (m =? n)%nat then Some v else c m.

(** The matcher walks the input with the character before the current
    position ([None] at the start of the input) and what is left of the
    input; a continuation receives both and the captures, and answers with the
    input left after the whole match. *)
Definition Outcome : Type := string * Captures.
Definition Cont : Type := option ascii -> string -> Captures -> option Outcome.

Definition isWordAt (o : option ascii) : bool :=
  match o with Some a => Js.isWordChar a | None => false end.

Definition headChar (s : string) : option ascii :=
  match s with String a _ => Some a | EmptyString => None end.

(** The text consumed between input [s] and its suffix [s']. *)
Definition consumed (s s' : string) : string :=
  String.substring 0 (String.length s - String.length s') s.

(** Greedy iteration: at most one round per character left, since a round
    that consumes nothing is not retried. *)
Fixpoint starLoop (step : option ascii -> string -> Captures -> Cont -> option Outcome)
    (k : Cont) (fuel : nat) (prev : option ascii) (s : string) (c : Captures) : option Outcome :=
  match fuel with
  | O => k prev s c
  | S fuel' =>
      match step prev s c
              (fun prev' s' c' =>
                 if (String.length s' <? String.length s)%nat
                 then starLoop step k fuel' prev' s' c' else None) with
      | Some out => Some out
      | None => k prev s c
      end
  end.

Fixpoint run (r : Regex) (prev : option ascii) (s : string) (c : Captures) (k : Cont)
  : option Outcome :=
  match r with
  | Empty => k prev s c
  | Class p =>
      match s with
      | String a s' => if p a then k (Some a) s' c else None
      | EmptyString => None
      end
  | Seq r1 r2 => run r1 prev s c (fun prev' s' c' => run r2 prev' s' c' k)
  | Alt r1 r2 =>
      match run r1 prev s c k with
      | Some out => Some out
      | None => run r2 prev s c k
      end
  | Opt r1 =>
      match run r1 prev s c k with
      | Some out => Some out
      | None => k prev s c
      end
  | Star r1 => starLoop (run r1) k (String.length s) prev s c
  | Group n r1 => run r1 prev s c (fun prev' s' c' => k prev' s' (setCapture n (consumed s s') c'))
  | Bol => match prev with None => k prev s c | Some _ => None end
  | Eol => match s with EmptyString => k prev s c | String _ _ => None end
  | WordBoundary =>
      if xorb (isWordAt prev) (isWordAt (headChar s)) then k prev s c else None
  end.

Record MatchResult : Type := mkMatch {
  index : nat;
  matched : string;
  groups : Captures }.

(** A match attempt at the current position. *)
Definition matchHere (r : Regex) (prev : option ascii) (s : string) (idx : nat)
  : option MatchResult :=
  match run r prev s noCaptures (fun _ s' c => Some (s', c)) with
  | Some (rest, c) => Some (mkMatch idx (consumed s rest) c)
  | None => None
  end.

(** [exec]: the first position, from the current one on, where an attempt
    succeeds. *)
Fixpoint search (r : Regex) (prev : option ascii) (s : string) (idx : nat)
  : option MatchResult :=
  match matchHere r prev s idx with
  | Some m => Some m
  | None =>
      match s with
      | String a s' => search r (Some a) s' (S idx)
      | EmptyString => None
      end
  end.

(** [str.match(re)] for a pattern without the [g] flag. *)
Definition matchString (r : Regex) (s : string) : option MatchResult := search r None s 0.

(** [str.replace(re, '')] for a pattern without the [g] flag: the first match
    is cut out. *)
Definition removeFirst (r : Regex) (s : string) : string :=
  match matchString r s with
  | Some m =>
      String.substring 0 (index m) s
      +:+ String.substring (index m + String.length (matched m))
            (String.length s - (index m + String.length (matched m))) s
  | None => s
  end.

(** Moving [n] characters on. *)
Fixpoint advance (n : nat) (prev : option ascii) (s : string) : option ascii * string :=
  match n, s with
  | S n', String a s' => advance n' (Some a) s'
  | _, _ => (prev, s)
  end.

(** [while ((m = re.exec(text)) !== null)] for a pattern with the [g] flag:
    each search resumes at [lastIndex], the end of the previous match.  The
    fuel bounds the rounds; the patterns used never match the empty string, so
    [length text] rounds are enough. *)
Fixpoint execAll (fuel : nat) (r : Regex) (prev : option ascii) (s : string) (idx : nat)
  : list MatchResult :=
  match fuel with
  | O => []
  | S fuel' =>
      match search r prev s idx with
      | None => []
      | Some m =>
          let skip := (index m - idx + String.length (matched m))%nat in
          let '(prev', s') := advance skip prev s in
          m :: execAll fuel' r prev' s' (idx + skip)
      end
  end.

Definition matchAll (r : Regex) (s : string) : list MatchResult :=
  execAll (S (String.length s)) r None s 0.

(** The declarative reading of a pattern: [Matches r prev s prev' s'] when
    [r] can consume the input [s] down to its suffix [s'], [prev] and [prev']
    being the characters before the two positions. *)
Inductive Matches : Regex -> option ascii -> string -> option ascii -> string -> Prop :=
| M_Empty prev s : Matches Empty prev s prev s
| M_Class p prev a s : p a = true -> Matches (Class p) prev (String a s) (Some a) s
| M_Seq r1 r2 p0 s0 p1 s1 p2 s2 :
    Matches r1 p0 s0 p1 s1 -> Matches r2 p1 s1 p2 s2 -> Matches (Seq r1 r2) p0 s0 p2 s2
| M_AltL r1 r2 p0 s0 p1 s1 : Matches r1 p0 s0 p1 s1 -> Matches (Alt r1 r2) p0 s0 p1 s1
| M_AltR r1 r2 p0 s0 p1 s1 : Matches r2 p0 s0 p1 s1 -> Matches (Alt r1 r2) p0 s0 p1 s1
| M_OptSome r p0 s0 p1 s1 : Matches r p0 s0 p1 s1 -> Matches (Opt r) p0 s0 p1 s1
| M_OptNone r p0 s0 : Matches (Opt r) p0 s0 p0 s0
| M_StarDone r p0 s0 : Matches (Star r) p0 s0 p0 s0
| M_StarMore r p0 s0 p1 s1 p2 s2 :
    Matches r p0 s0 p1 s1 -> Matches (Star r) p1 s1 p2 s2 -> Matches (Star r) p0 s0 p2 s2
| M_Group n r p0 s0 p1 s1 : Matches r p0 s0 p1 s1 -> Matches (Group n r) p0 s0 p1 s1
| M_Bol s : Matches Bol None s None s
| M_Eol prev : Matches Eol prev EmptyString prev EmptyString
| M_WordBoundary prev s :
    xorb (isWordAt prev) (isWordAt (headChar s)) = true -> Matches WordBoundary prev s prev s.

(** The character before the position reached after reading [s], [prev] being
    the one before [s]. *)
Fixpoint lastCharFrom (prev : option ascii) (s : string) : option ascii :=
  match s with
  | EmptyString => prev
  | String a s' => lastCharFrom (Some a) s'
  end.

(** A string matches a pattern when an attempt succeeds at some position. *)
Definition MatchesSomewhere (r : Regex) (s : string) : Prop :=
  exists before rest prev' after,
    s = before +:+ rest /\ Matches r (lastCharFrom None before) rest prev' after.

(** It matches as a whole when the attempt at its start uses it up. *)
Definition MatchesWhole (r : Regex) (s : string) : Prop :=
  exists prev', Matches r None s prev' EmptyString.

End Regex.

(** ** features/quote-review/hooks/useQuoteCreation.ts *)
Module QuoteCreation.
Import Regex QuoteReview.

Definition inRange (lo hi : nat) (c : ascii) : bool :=
  let n := nat_of_ascii c in (lo <=? n)%nat && (n <=? hi)%nat.

Definition letters : Regex := Plus (Class Js.isAlpha).
Definition digits : Regex := Plus (Class Js.isDigit).
Definition spaces : Regex := Star (Class Js.isWhiteSpace).

(** [REFERENCE_PATTERN], token by token:
    [^ ( [1-3]? \s* [A-Za-z]+ (?: \s+ [A-Za-z]+ )* ) \s* ( \d+ ) : ( \d+ ) (?: - ( \d+ ) )? $] *)
Definition REFERENCE_PATTERN : Regex :=
  Seq Bol
  (Seq (Group 1
          (Seq (Opt (Class (inRange 49 51)))
          (Seq spaces
          (Seq letters
               (Star (Seq (Plus (Class Js.isWhiteSpace)) letters))))))
  (Seq spaces
  (Seq (Group 2 digits)
  (Seq (Chr ":")
  (Seq (Group 3 digits)
  (Seq (Opt (Seq (Chr "-") (Group 4 digits)))
       Eol)))))).

Definition LOOKUP_DEBOUNCE_MS : Z := 500.

Record ParsedReference : Type := mkParsed {
  valid : bool;
  book : option string;
  chapter : option Js.Integral;
  verseStart : option Js.Integral;
  verseEnd : option Js.Integral }.

Definition invalidReference : ParsedReference := mkParsed false None None None None.

(** [s ? parseInt(s, 10) : dflt] on a capture. *)
Definition parseCapture (o : option string) (dflt : option Js.Integral) : option Js.Integral :=
  if Js.truthyOptStr o then Js.parseInt <$> o else dflt.

Definition parseReference (reference : string) : ParsedReference :=
  match matchString REFERENCE_PATTERN (Js.trim reference) with
  | None => invalidReference
  | Some m =>
      let g := groups m in
      {| valid := true;
         book := Some (default "" (Js.trim <$> g 1%nat));
         chapter := parseCapture (g 2%nat) (Some (Js.Integer 0));
         verseStart := parseCapture (g 3%nat) (Some (Js.Integer 0));
         verseEnd := parseCapture (g 4%nat) None |}
  end.

(** How a call of [onLookupVerse] ends: the promise resolves, or rejects with
    an [Error] carrying a message or with some other value. *)
Inductive LookupOutcome : Type :=
| Resolved (result : BibleLookupResult)
| Rejected (message : option string).

(** What the hook does: actions dispatched to the reducer and calls of the
    lookup service. *)
Inductive Effect : Type :=
| Dispatch (a : QuoteReviewAction)
| LookupCall (reference : string).

Definition failure (msg : string) : BibleLookupResult :=
  mkLookupResult false None None None None None None None (Some msg).

Definition dquote : string := String (ascii_of_nat 34) EmptyString.

Definition invalidFormatMessage : string :=
  "Invalid reference format. Use " +:+ dquote +:+ "Book Chapter:Verse" +:+ dquote +:+ " format.".

Section Hook.
Variable onLookupVerse : option (string -> LookupOutcome).

Definition performLookup (reference : string) : list Effect :=
  match onLookupVerse with
  | None => []
  | Some lookup =>
      if negb (valid (parseReference reference))
      then [Dispatch (SET_LOOKUP_RESULT (Some (failure invalidFormatMessage)))]
      else
        [Dispatch (SET_IS_LOOKING_UP true); LookupCall reference;
         Dispatch (SET_LOOKUP_RESULT
                     (Some match lookup reference with
                           | Resolved r => r
                           | Rejected msg => failure (default "Lookup failed" msg)
                           end));
         Dispatch (SET_IS_LOOKING_UP false)]
  end.

(** [updateReference]: the effects it has at once, and the input its new
    debounce timer (if any) will look up; an older timer is cleared either
    way. *)
Definition updateReference (input : string) : list Effect * option string :=
  ([Dispatch (UPDATE_REFERENCE_INPUT input); Dispatch (SET_LOOKUP_RESULT None)],
   if Js.truthyStr (Js.trim input) && valid (parseReference input) then Some input else None).

(** The timer set by [updateReference] elapsing. *)
Definition lookupTimerFires (timer : option string) : list Effect :=
  match timer with Some input => performLookup input | None => [] end.

Definition lookupCalls (es : list Effect) : list string :=
  omap (fun e => match e with LookupCall r => Some r | Dispatch _ => None end) es.

End Hook.

End QuoteCreation.

(** ** features/quote-review/hooks/useInterjectionDetection.ts *)
Module InterjectionDetection.
Import Regex QuoteReview.

Record Pattern : Type := mkPattern {
  pattern : Regex;
  source : string;
  pt_confidence : Q;
  pt_context : string }.

(** [/\b(w1|w2|...)\b/gi] *)
Definition words (ws : list string) : Regex :=
  Seq WordBoundary (Seq (Group 1 (AltOf (map LitI ws))) WordBoundary).

Definition INTERJECTION_PATTERNS : list Pattern :=
  [ mkPattern (words ["amen"]) "\b(amen)\b" (95 # 100) "Common affirmation";
    mkPattern (words ["hallelujah"; "alleluia"]) "\b(hallelujah|alleluia)\b" (95 # 100)
      "Praise expression";
    mkPattern (words ["praise the lord"; "praise god"]) "\b(praise the lord|praise god)\b"
      (90 # 100) "Praise expression";
    mkPattern (words ["glory to god"; "glory be"]) "\b(glory to god|glory be)\b" (85 # 100)
      "Glorification";
    mkPattern (words ["yes lord"]) "\b(yes lord)\b" (75 # 100) "Affirmation";
    mkPattern (words ["thank you jesus"; "thank you lord"]) "\b(thank you jesus|thank you lord)\b"
      (80 # 100) "Thanksgiving";
    mkPattern (words ["come on"; "c'mon"]) "\b(come on|c'mon)\b" (60 # 100) "Encouragement";
    mkPattern (words ["that's right"]) "\b(that's right)\b" (55 # 100) "Agreement";
    mkPattern (words ["mmhmm"; "mhm"; "uh-huh"]) "\b(mmhmm|mhm|uh-huh)\b" (70 # 100)
      "Verbal affirmation";
    mkPattern (words ["wow"; "oh"; "ah"]) "\b(wow|oh|ah)\b" (40 # 100) "Exclamation" ].

Definition AUTO_DETECT_THRESHOLD : Q := 50 # 100.
Definition HIGH_CONFIDENCE_THRESHOLD : Q := 80 # 100.

Record UseInterjectionDetectionOptions : Type := mkOptions {
  threshold : option Q;
  highConfidenceOnly : option bool }.

Record InterjectionMatch : Type := mkInterjectionMatch {
  m_text : string;
  m_startOffset : Z;
  m_endOffset : Z;
  m_confidence : Q;
  m_context : string;
  m_pattern : string }.

Definition toMatch (p : Pattern) (m : MatchResult) : InterjectionMatch :=
  {| m_text := matched m;
     m_startOffset := Z.of_nat (index m);
     m_endOffset := Z.of_nat (index m + String.length (matched m));
     m_confidence := pt_confidence p;
     m_context := pt_context p;
     m_pattern := source p |}.

Definition overlaps (m f : InterjectionMatch) : bool :=
  ((m_startOffset f <=? m_startOffset m) && (m_startOffset m <? m_endOffset f))
  || ((m_startOffset f <? m_endOffset m) && (m_endOffset m <=? m_endOffset f)).

(** One round of the overlap filter: [find] the first kept match the new one
    overlaps; push when there is none, replace it when the new one is more
    confident. *)
Definition keepMatch (filtered : list InterjectionMatch) (m : InterjectionMatch)
  : list InterjectionMatch :=
  match list_find (fun f => overlaps m f = true) filtered with
  | None => filtered ++ [m]
  | Some (i, f) =>
      if negb (Qle_bool (m_confidence m) (m_confidence f)) then <[i := m]> filtered else filtered
  end.

Definition findMatches (text : string) : list InterjectionMatch :=
  let all := flat_map (fun p => map (toMatch p) (matchAll (pattern p) text)) INTERJECTION_PATTERNS in
  fold_left keepMatch (Js.sortBy m_startOffset all) [].

Definition toCandidate (m : InterjectionMatch) : InterjectionCandidate :=
  {| c_text := m_text m;
     c_startOffset := m_startOffset m;
     c_endOffset := m_endOffset m;
     confirmed := false;
     rejected := false;
     confidence := m_confidence m;
     context := Some (m_context m) |}.

Definition atLeast (t : Q) (m : InterjectionMatch) : bool := Qle_bool t (m_confidence m).

Definition effectiveThreshold (o : UseInterjectionDetectionOptions) : Q :=
  if default false (highConfidenceOnly o) then HIGH_CONFIDENCE_THRESHOLD
  else default AUTO_DETECT_THRESHOLD (threshold o).

Definition detectInterjections (o : UseInterjectionDetectionOptions) (text : string)
  : list InterjectionCandidate :=
  map toCandidate (List.filter (atLeast (effectiveThreshold o)) (findMatches text)).

Definition getHighConfidenceMatches (text : string) : list InterjectionCandidate :=
  map toCandidate (List.filter (atLeast HIGH_CONFIDENCE_THRESHOLD) (findMatches text)).

Definition hasLikelyInterjections (o : UseInterjectionDetectionOptions) (text : string) : bool :=
  existsb (atLeast (default AUTO_DETECT_THRESHOLD (threshold o))) (findMatches text).

(** The hook's callbacks, as the actions they dispatch. *)
Definition startEditing (o : UseInterjectionDetectionOptions) (quoteId text : string)
  : list QuoteReviewAction :=
  [ENTER_INTERJECTION_EDIT_MODE quoteId;
   SET_PENDING_INTERJECTION_CANDIDATES (detectInterjections o text)].

Definition confirmInterjection (i : Z) : list QuoteReviewAction :=
  [CONFIRM_INTERJECTION_CANDIDATE i].

Definition rejectInterjection (i : Z) : list QuoteReviewAction :=
  [REJECT_INTERJECTION_CANDIDATE i].

(** [findIndex(c => c.startOffset > startOffset)], the length when there is
    none. *)
Definition insertIndex (cs : list InterjectionCandidate) (startOffset : Z) : nat :=
  match list_find (fun c => startOffset < c_startOffset c) cs with
  | Some (i, _) => i
  | None => length cs
  end.

Definition markSelectionAsInterjection (st : QuoteReviewContextState)
    (text : string) (startOffset endOffset : Z) : list QuoteReviewAction :=
  let newCandidate := mkCandidate text startOffset endOffset true false 1 (Some "Manually marked") in
  let current := pendingCandidates (interjectionEdit st) in
  let i := insertIndex current startOffset in
  [SET_INTERJECTION_SELECTION (Some text) (Some (startOffset, endOffset));
   SET_PENDING_INTERJECTION_CANDIDATES (take i current ++ newCandidate :: drop i current)].

Definition exitEditing : list QuoteReviewAction := [EXIT_INTERJECTION_EDIT_MODE].

End InterjectionDetection.

(** ** features/document/bridge/astTipTapConverter.ts *)
Module Converter.
Import Js Regex.

Definition NodeId : Type := string.
Definition Attrs : Type := gmap string JValue.

Record Mark : Type := mkMark {
  mark_type : string;
  mark_attrs : option (gmap string JValue) }.

(** [TipTapNode] *)
Inductive TipTapNode : Type :=
| TT (type : string) (attrs : option (gmap string JValue)) (content : option (list TipTapNode))
     (text : option string) (marks : option (list Mark)).

Definition tt_type (n : TipTapNode) : string := let 'TT t _ _ _ _ := n in t.
Definition tt_attrs (n : TipTapNode) : option (gmap string JValue) := let 'TT _ a _ _ _ := n in a.
Definition tt_content (n : TipTapNode) : option (list TipTapNode) := let 'TT _ _ c _ _ := n in c.
Definition tt_text (n : TipTapNode) : option string := let 'TT _ _ _ t _ := n in t.
Definition tt_marks (n : TipTapNode) : option (list Mark) := let 'TT _ _ _ _ m := n in m.

(** [doc.content] is typed as an array, yet the converter guards against
    anything else: a missing field is [NotAnArray JUndefined]. *)
Inductive DocContent : Type :=
| NotAnArray (v : JValue)
| NodeArray (nodes : list TipTapNode).

Record TipTapDocument : Type := mkDoc { doc_content : DocContent }.

Record ConversionOptions : Type := mkOptions {
  preserveIds : option bool;
  includeMetadata : option bool;
  includeInterjections : option bool }.

Definition defaultOptions : ConversionOptions := mkOptions None None None.

(** Truthiness of an option that may be [undefined]. *)
Definition flag (o : option bool) : bool := default false o.

Record ConversionResult (T : Type) : Type := mkConversionResult {
  success : bool;
  data : option T;
  error : option string;
  warnings : option (list string) }.
Arguments mkConversionResult {T}.
Arguments success {T}.
Arguments data {T}.
Arguments error {T}.
Arguments warnings {T}.

Section DocumentModel.
(** [shared/documentModel] and [../events] are not part of the sources at
    hand.  The node types below follow the converter's own use of them.
    [createNodeId] and [createTimestamp] are taken as oracles: the value a
    call returns is a function of the number of calls made before it. *)
Context {Timestamp : Type}.
Variable idOf : nat -> NodeId.
Variable timeOf : nat -> Timestamp.

Record QuoteReference : Type := mkReference {
  book : string;
  chapter : Q;
  verseStart : option Q;
  verseEnd : option Q;
  originalText : string;
  normalizedReference : string }.

Record QuoteDetection : Type := mkDetection {
  confidence : Q;
  confidenceLevel : string;
  translation : string;
  translationAutoDetected : bool;
  verseText : string;
  isPartialMatch : bool }.

Record QuoteMetadata : Type := mkMetadata {
  reference : option QuoteReference;
  detection : option QuoteDetection;
  interjections : list NodeId;
  userVerified : bool }.

(** [DocumentNode]: every node has [id], [version] and [updatedAt]. *)
Inductive DocumentNode : Type :=
| ParagraphNode (id : NodeId) (version : Z) (updatedAt : Timestamp) (children : list DocumentNode)
| HeadingNode (id : NodeId) (version : Z) (updatedAt : Timestamp) (level : Q)
    (children : list DocumentNode)
| QuoteBlockNode (id : NodeId) (version : Z) (updatedAt : Timestamp) (metadata : QuoteMetadata)
    (children : list DocumentNode)
| TextNode (id : NodeId) (version : Z) (updatedAt : Timestamp) (content : string)
    (marks : option (list Mark))
| InterjectionNode (id : NodeId) (version : Z) (updatedAt : Timestamp) (content : string)
    (metadataId : NodeId).

(** [DocumentRootNode], over the type of its children. *)
Record RootOf (Child : Type) : Type := mkRoot {
  root_id : NodeId;
  root_version : Z;
  root_updatedAt : Timestamp;
  title : option string;
  biblePassage : option string;
  speaker : option string;
  tags : option (list string);
  root_children : list Child }.
Arguments mkRoot {Child}.
Arguments root_id {Child}.
Arguments root_version {Child}.
Arguments root_updatedAt {Child}.
Arguments title {Child}.
Arguments biblePassage {Child}.
Arguments speaker {Child}.
Arguments tags {Child}.
Arguments root_children {Child}.

Definition DocumentRootNode : Type := RootOf DocumentNode.

(** *** AST to TipTap *)

Definition textLeaf (s : string) (ms : option (list Mark)) : TipTapNode :=
  TT "text" None None (Some s) ms.

Definition optNum (o : option Q) : JValue :=
  match o with Some q => JNum q | None => JNull end.

(** The [attrs] record [convertQuoteToTipTap] fills in, assignment by
    assignment. *)
Definition quoteAttrs (o : ConversionOptions) (id : NodeId) (md : QuoteMetadata) : gmap string JValue :=
  let a0 : gmap string JValue := ∅ in
  let a1 := if flag (preserveIds o) then <["nodeId" := JStr id]> a0 else a0 in
  let a2 :=
    match reference md with
    | Some r =>
        if flag (includeMetadata o) then
          <["originalText" := JStr (originalText r)]>
          (<["verseEnd" := optNum (verseEnd r)]>
          (<["verseStart" := optNum (verseStart r)]>
          (<["chapter" := JNum (chapter r)]>
          (<["book" := JStr (book r)]>
          (<["reference" := JStr (normalizedReference r)]> a1)))))
        else a1
    | None => a1
    end in
  let a3 :=
    match detection md with
    | Some d =>
        if flag (includeMetadata o) then
          <["confidence" := JNum (confidence d)]> (<["translation" := JStr (translation d)]> a2)
        else a2
    | None => a2
    end in
  if flag (includeMetadata o) then <["userVerified" := JBool (userVerified md)]> a3 else a3.

(** Text leaves are wrapped in a paragraph inside a blockquote. *)
Definition wrapForQuote (converted : TipTapNode) : TipTapNode :=
  if String.eqb (tt_type converted) "text"
  then TT "paragraph" None (Some [converted]) None None
  else converted.

Fixpoint convertNodeToTipTap (o : ConversionOptions) (node : DocumentNode) : option TipTapNode :=
  match node with
  | ParagraphNode id _ _ children =>
      (* convertParagraphToTipTap *)
      Some (TT "paragraph"
              (if flag (preserveIds o) then Some {["nodeId" := JStr id]} else None)
              (Some (omap (convertNodeToTipTap o) children)) None None)
  | QuoteBlockNode id _ _ md children =>
      (* convertQuoteToTipTap *)
      let content := map wrapForQuote (omap (convertNodeToTipTap o) children) in
      let attrs := quoteAttrs o id md in
      Some (TT "blockquote"
              (if (0 <? size attrs)%nat then Some attrs else None)
              (Some match content with
                    | [] => [TT "paragraph" None (Some []) None None]
                    | _ => content
                    end) None None)
  | HeadingNode id _ _ level children =>
      (* convertHeadingToTipTap *)
      let a0 : gmap string JValue := {["level" := JNum level]} in
      Some (TT "heading"
              (Some (if flag (preserveIds o) then <["nodeId" := JStr id]> a0 else a0))
              (Some (omap (convertNodeToTipTap o) children)) None None)
  | TextNode _ _ _ content marks =>
      if truthyStr content then
        Some (textLeaf content
                match marks with
                | Some (m :: ms) => Some (map (fun k => mkMark (mark_type k) (mark_attrs k)) (m :: ms))
                | _ => None
                end)
      else None
  | InterjectionNode id _ _ content metadataId =>
      if flag (includeInterjections o) then
        Some (textLeaf content
                (Some [mkMark "interjection"
                         (Some (if flag (preserveIds o)
                                then <["metadataId" := JStr metadataId]> {["nodeId" := JStr id]}
                                else ∅))]))
      else None
  end.

Definition astToTipTapJson (root : DocumentRootNode) (options : ConversionOptions)
  : ConversionResult TipTapDocument :=
  let o := mkOptions (Some (default true (preserveIds options)))
                     (Some (default true (includeMetadata options)))
                     (Some (default true (includeInterjections options))) in
  let c1 :=
    match title root with
    | Some t =>
        if truthyStr t
        then [TT "heading" (Some (<["textAlign" := JStr "center"]> {["level" := JNum 1]}))
                (Some [textLeaf t None]) None None]
        else []
    | None => []
    end in
  let c2 :=
    match biblePassage root with
    | Some p =>
        if truthyStr p
        then [TT "paragraph" None
                (Some [textLeaf "Primary Reference: " (Some [mkMark "bold" None]); textLeaf p None])
                None None]
        else []
    | None => []
    end in
  let content := (c1 ++ c2 ++ omap (convertNodeToTipTap o) (root_children root))%list in
  let content := match content with [] => [TT "paragraph" None (Some []) None None] | _ => content end in
  mkConversionResult true (Some (mkDoc (NodeArray content))) None None.

(** *** Helpers *)

Fixpoint extractText (node : TipTapNode) : string :=
  match node with
  | TT _ _ content text _ =>
      if truthyOptStr text then default "" text
      else match content with
           | Some cs => join "" (map extractText cs)
           | None => ""
           end
  end.

(** [reference.match(/^([A-Za-z\s]+)/)?.[1]?.trim() ?? 'Unknown'] *)
Definition extractBook (reference : string) : string :=
  match matchString (Seq Bol (Group 1 (Plus (Class (fun c => isAlpha c || isWhiteSpace c))))) reference with
  | Some m => default "Unknown" (trim <$> groups m 1%nat)
  | None => "Unknown"
  end.

(** *** What the reverse direction builds *)

(** The reverse direction fills the fields of its nodes from [attrs], a
    [Record<string, unknown>], through casts that check nothing ([as NodeId],
    [as number], [as string], [as boolean]).  At run time such a field holds
    the value the attribute had, whatever its type: the nodes below are the
    objects as built, with a value where the source casts. *)
Record RawReference : Type := mkRawReference {
  raw_book : JValue;
  raw_chapter : JValue;
  raw_verseStart : JValue;
  raw_verseEnd : JValue;
  raw_originalText : JValue;
  raw_normalizedReference : JValue }.

Record RawDetection : Type := mkRawDetection {
  raw_confidence : JValue;
  raw_confidenceLevel : string;
  raw_translation : JValue;
  raw_translationAutoDetected : bool;
  raw_verseText : string;
  raw_isPartialMatch : bool }.

Record RawMetadata : Type := mkRawMetadata {
  raw_reference : option RawReference;
  raw_detection : option RawDetection;
  raw_interjections : list NodeId;
  raw_userVerified : JValue }.

Inductive RawNode : Type :=
| RawParagraph (id : JValue) (version : Z) (updatedAt : Timestamp) (children : list RawNode)
| RawHeading (id : JValue) (version : Z) (updatedAt : Timestamp) (level : JValue)
    (children : list RawNode)
| RawQuoteBlock (id : JValue) (version : Z) (updatedAt : Timestamp) (metadata : RawMetadata)
    (children : list RawNode)
| RawText (id : JValue) (version : Z) (updatedAt : Timestamp) (content : string)
    (marks : option (list Mark))
| RawInterjection (id : JValue) (version : Z) (updatedAt : Timestamp) (content : string)
    (metadataId : JValue).

(** A typed value as the run-time value it is. *)
Definition rawReference (r : QuoteReference) : RawReference :=
  {| raw_book := JStr (book r);
     raw_chapter := JNum (chapter r);
     raw_verseStart := optNum (verseStart r);
     raw_verseEnd := optNum (verseEnd r);
     raw_originalText := JStr (originalText r);
     raw_normalizedReference := JStr (normalizedReference r) |}.

Definition rawDetection (d : QuoteDetection) : RawDetection :=
  {| raw_confidence := JNum (confidence d);
     raw_confidenceLevel := confidenceLevel d;
     raw_translation := JStr (translation d);
     raw_translationAutoDetected := translationAutoDetected d;
     raw_verseText := verseText d;
     raw_isPartialMatch := isPartialMatch d |}.

Definition rawMetadata (md : QuoteMetadata) : RawMetadata :=
  {| raw_reference := rawReference <$> reference md;
     raw_detection := rawDetection <$> detection md;
     raw_interjections := interjections md;
     raw_userVerified := JBool (userVerified md) |}.

Fixpoint rawNode (x : DocumentNode) : RawNode :=
  match x with
  | ParagraphNode i v t cs => RawParagraph (JStr i) v t (map rawNode cs)
  | HeadingNode i v t l cs => RawHeading (JStr i) v t (JNum l) (map rawNode cs)
  | QuoteBlockNode i v t md cs => RawQuoteBlock (JStr i) v t (rawMetadata md) (map rawNode cs)
  | TextNode i v t c ms => RawText (JStr i) v t c ms
  | InterjectionNode i v t c m => RawInterjection (JStr i) v t c (JStr m)
  end.

(** The root [tipTapJsonToAst] returns: a [DocumentRootNode] over the nodes
    as built. *)
Definition RawRootNode : Type := RootOf RawNode.

(** *** The effects of the reverse direction *)

(** A computation that may call [createNodeId] and [createTimestamp]: it
    receives the number of calls made so far and returns the number after. *)
Definition Gen (A : Type) : Type := nat -> A * nat.
Definition ret {A} (x : A) : Gen A := fun n => (x, n).
Definition bind {A B} (m : Gen A) (f : A -> Gen B) : Gen B :=
  fun n => let '(x, n') := m n in f x n'.
Definition createNodeId : Gen NodeId := fun n => (idOf n, S n).
Definition createTimestamp : Gen Timestamp := fun n => (timeOf n, S n).

Notation "'let*' x ':=' m 'in' k" := (bind m (fun x => k))
  (at level 10, x name, m at level 100, k at level 200).

(** A computation that may also throw: it ends with a value or with the
    message of the error thrown; the calls made before the throw stay
    made. *)
Definition bindE {A B} (m : Gen (Exc A)) (f : A -> Gen (Exc B)) : Gen (Exc B) :=
  fun n => let '(r, n') := m n in
           match r with
           | Ok x => f x n'
           | Threw message => (Threw message, n')
           end.

Definition lift {A} (m : Gen A) : Gen (Exc A) := fun n => let '(x, n') := m n in (Ok x, n').

Notation "'let!' x ':=' m 'in' k" := (bindE m (fun x => k))
  (at level 10, x name, m at level 100, k at level 200).

(** [for (const x of xs) { const c = f(x); if (c) out.push(c); }] *)
Definition collect {A B} (f : A -> Gen (option B)) : list A -> Gen (list B) :=
  fix go (xs : list A) : Gen (list B) :=
    match xs with
    | [] => ret []
    | x :: xs' =>
        let* r := f x in
        let* rs := go xs' in
        ret (match r with Some y => y :: rs | None => rs end)
    end.

(** The same loop around a call that may throw: the first throw ends it. *)
Definition collectE {A B} (f : A -> Gen (Exc (option B))) : list A -> Gen (Exc (list B)) :=
  fix go (xs : list A) : Gen (Exc (list B)) :=
    match xs with
    | [] => ret (Ok [])
    | x :: xs' =>
        let! r := f x in
        let! rs := go xs' in
        ret (Ok (match r with Some y => y :: rs | None => rs end))
    end.

(** [cond && v ? v : createNodeId()]; with [cond] true this is
    [v || createNodeId()]. *)
Definition idFrom (cond : bool) (v : JValue) : Gen JValue :=
  if cond && truthy v then ret v
  else let* i := createNodeId in ret (JStr i).

Definition isInterjectionMark (m : Mark) : bool := String.eqb (mark_type m) "interjection".

(** [marks?.some(m => m.type === 'interjection')] *)
Definition hasInterjectionMark (marks : option (list Mark)) : bool :=
  match marks with Some ms => existsb isInterjectionMark ms | None => false end.

(** [marks?.find(m => m.type === 'interjection')?.attrs] *)
Definition interjectionAttrs (marks : option (list Mark)) : option (gmap string JValue) :=
  match marks with
  | Some ms => match List.find isInterjectionMark ms with Some m => mark_attrs m | None => None end
  | None => None
  end.

(** [text || ''] *)
Definition textOrEmpty (t : option string) : string := default "" t.

Definition emptyText : Gen RawNode :=
  let* i := createNodeId in
  let* t := createTimestamp in
  ret (RawText (JStr i) 1 t "" None).

Definition convertTipTapInterjection (node : TipTapNode) : Gen RawNode :=
  let attrs := default ∅ (interjectionAttrs (tt_marks node)) in
  let* i := idFrom true (get attrs "nodeId") in
  let* t := createTimestamp in
  let* m := idFrom true (get attrs "metadataId") in
  ret (RawInterjection i 1 t (textOrEmpty (tt_text node)) m).

(** The ['text'] case of [convertTipTapToNode]. *)
Definition convertTipTapText (o : ConversionOptions) (node : TipTapNode) : Gen RawNode :=
  if hasInterjectionMark (tt_marks node) then convertTipTapInterjection node
  else
    let otherMarks := List.filter (fun m => negb (isInterjectionMark m)) <$> tt_marks node in
    let* i := idFrom (flag (preserveIds o)) (getOpt (tt_attrs node) "nodeId") in
    let* t := createTimestamp in
    ret (RawText i 1 t (textOrEmpty (tt_text node))
           match otherMarks with
           | Some (m :: ms) => Some (map (fun k => mkMark (mark_type k) (mark_attrs k)) (m :: ms))
           | _ => None
           end).

(** One text leaf of a blockquote paragraph. *)
Definition convertQuoteLeaf (textNode : TipTapNode) : Gen (option RawNode) :=
  if String.eqb (tt_type textNode) "text" then
    if hasInterjectionMark (tt_marks textNode) then
      let attrs := default ∅ (interjectionAttrs (tt_marks textNode)) in
      let* i := idFrom true (get attrs "nodeId") in
      let* t := createTimestamp in
      let* m := idFrom true (get attrs "metadataId") in
      ret (Some (RawInterjection i 1 t (textOrEmpty (tt_text textNode)) m))
    else
      let* i := createNodeId in
      let* t := createTimestamp in
      ret (Some (RawText (JStr i) 1 t (textOrEmpty (tt_text textNode)) None))
  else ret None.

(** One child of a blockquote: the text leaves of a paragraph with content. *)
Definition convertQuoteParagraph (child : TipTapNode) : Gen (option (list RawNode)) :=
  match tt_content child with
  | Some leaves =>
      if String.eqb (tt_type child) "paragraph"
      then let* ls := collect convertQuoteLeaf leaves in ret (Some ls)
      else ret None
  | None => ret None
  end.

(** The children of a blockquote: the text leaves of its paragraphs. *)
Definition convertQuoteChildren (content : option (list TipTapNode)) : Gen (list RawNode) :=
  match content with
  | None => ret []
  | Some cs => let* rs := collect convertQuoteParagraph cs in ret (concat rs)
  end.

(** The call [extractBook(refString)].  [refString] is [attrs.reference] when
    that is truthy, cast to [string] unchecked; [extractBook] starts with
    [reference.match(...)], and a number or a boolean has no [match]: the
    call throws a [TypeError], with the message the engine of the renderer
    (V8) gives it. *)
Definition extractBookCall (reference : JValue) : Exc string :=
  match reference with
  | JStr s => Ok (extractBook s)
  | JNum _ | JBool _ => Threw "reference.match is not a function"
  | JUndefined => Threw "Cannot read properties of undefined (reading 'match')"
  | JNull => Threw "Cannot read properties of null (reading 'match')"
  end.

(** The [metadata] object of [convertTipTapBlockquote]; the one property
    whose value can throw is [book], the first. *)
Definition quoteMetadata (attrs : gmap string JValue) : Exc RawMetadata :=
  let refString := orValue (get attrs "reference") (JStr "Unknown") in
  match (if truthy (get attrs "book") then Ok (get attrs "book")
         else match extractBookCall refString with
              | Ok b => Ok (JStr b)
              | Threw message => Threw message
              end) with
  | Threw message => Threw message
  | Ok bookValue =>
      Ok {| raw_reference :=
              Some {| raw_book := bookValue;
                      raw_chapter := orValue (get attrs "chapter") (JNum 0);
                      raw_verseStart := orValue (get attrs "verseStart") JNull;
                      raw_verseEnd := nullish (get attrs "verseEnd") JNull;
                      raw_originalText := orValue (get attrs "originalText") refString;
                      raw_normalizedReference := refString |};
            raw_detection :=
              Some {| raw_confidence := orValue (get attrs "confidence") (JNum (1 # 2));
                      raw_confidenceLevel := "medium";
                      raw_translation := orValue (get attrs "translation") (JStr "KJV");
                      raw_translationAutoDetected := false;
                      raw_verseText := "";
                      raw_isPartialMatch := false |};
            raw_interjections := [];
            raw_userVerified := orValue (get attrs "userVerified") (JBool false) |}
  end.

Definition convertTipTapBlockquote (o : ConversionOptions) (node : TipTapNode)
  : Gen (Exc RawNode) :=
  let attrs := default ∅ (tt_attrs node) in
  let* children := convertQuoteChildren (tt_content node) in
  match quoteMetadata attrs with
  | Threw message => ret (Threw message)
  | Ok metadata =>
      let* i := idFrom (flag (preserveIds o)) (get attrs "nodeId") in
      let* t := createTimestamp in
      ret (Ok (RawQuoteBlock i 1 t metadata children))
  end.

(** "Ensure at least one text node". *)
Definition orEmptyText (children : list RawNode) : Gen (list RawNode) :=
  match children with
  | [] => let* e := emptyText in ret [e]
  | _ => ret children
  end.

Fixpoint convertTipTapToNode (o : ConversionOptions) (node : TipTapNode) {struct node}
  : Gen (Exc (option RawNode)) :=
  match node with
  | TT type attrs content text marks =>
      if String.eqb type "paragraph" then
        (* convertTipTapParagraph *)
        let! cs := match content with
                   | Some l => collectE (convertTipTapToNode o) l
                   | None => ret (Ok [])
                   end in
        lift (let* children := orEmptyText cs in
              let* i := idFrom (flag (preserveIds o)) (getOpt attrs "nodeId") in
              let* t := createTimestamp in
              ret (Some (RawParagraph i 1 t children)))
      else if String.eqb type "blockquote" then
        let! q := convertTipTapBlockquote o node in ret (Ok (Some q))
      else if String.eqb type "heading" then
        (* convertTipTapHeading *)
        let level := orValue (getOpt attrs "level") (JNum 1) in
        let! cs := match content with
                   | Some l => collectE (convertTipTapToNode o) l
                   | None => ret (Ok [])
                   end in
        lift (let* children := orEmptyText cs in
              let* i := idFrom (flag (preserveIds o)) (getOpt attrs "nodeId") in
              let* t := createTimestamp in
              ret (Some (RawHeading i 1 t level children)))
      else if String.eqb type "text" then
        lift (let* x := convertTipTapText o node in ret (Some x))
      else ret (Ok None)
  end.

(** *** TipTap to AST *)

(** The variables of [tipTapJsonToAst]'s loop. *)
Record LoopState : Type := mkLoop {
  ls_children : list RawNode;
  ls_title : option string;
  ls_biblePassage : option string;
  ls_speaker : option string;
  isFirstNode : bool }.

(** The test that makes a heading the document title. *)
Definition isTitleHeading (st : LoopState) (node : TipTapNode) : bool :=
  String.eqb (tt_type node) "heading"
  && strictEqNum (getOpt (tt_attrs node) "level") 1
  && negb (truthyOptStr (ls_title st))
  && isFirstNode st
  && strictEqStr (getOpt (tt_attrs node) "textAlign") "center".

Definition primaryReferencePrefix : Regex :=
  Seq Bol (Seq (Lit "Primary Reference") (Seq (Opt (Chr "s")) (Seq (Chr ":") (Star (Class isWhiteSpace))))).

Definition speakerPrefix : Regex :=
  Seq Bol (Seq (Lit "Speaker:") (Star (Class isWhiteSpace))).

(** What the loop does with a paragraph whose text carries metadata; [None]
    when the paragraph is ordinary content. *)
Definition metadataParagraph (st : LoopState) (text : string) : option LoopState :=
  if startsWith text "Primary Reference:" || startsWith text "Primary References:" then
    Some (mkLoop (ls_children st) (ls_title st) (Some (removeFirst primaryReferencePrefix text))
            (ls_speaker st) false)
  else if startsWith text "References from the Sermon:" || startsWith text "Tags:" then
    Some (mkLoop (ls_children st) (ls_title st) (ls_biblePassage st) (ls_speaker st) false)
  else if startsWith text "Speaker:" then
    Some (mkLoop (ls_children st) (ls_title st) (ls_biblePassage st)
            (Some (removeFirst speakerPrefix text)) false)
  else None.

(** The body of [for (const node of doc.content)]. *)
Definition loopBody (o : ConversionOptions) (st : LoopState) (node : TipTapNode)
  : Gen (Exc LoopState) :=
  if isTitleHeading st node then
    ret (Ok (mkLoop (ls_children st) (Some (extractText node)) (ls_biblePassage st)
               (ls_speaker st) false))
  else
    let st1 := mkLoop (ls_children st) (ls_title st) (ls_biblePassage st) (ls_speaker st) false in
    match (if String.eqb (tt_type node) "paragraph"
           then metadataParagraph st (extractText node) else None) with
    | Some st' => ret (Ok st')
    | None =>
        if String.eqb (tt_type node) "horizontalRule" then ret (Ok st1)
        else
          let! converted := convertTipTapToNode o node in
          ret (Ok (match converted with
                   | Some c => mkLoop (ls_children st ++ [c]) (ls_title st) (ls_biblePassage st)
                                 (ls_speaker st) false
                   | None => st1
                   end))
    end.

Fixpoint loop (o : ConversionOptions) (st : LoopState) (nodes : list TipTapNode)
  : Gen (Exc LoopState) :=
  match nodes with
  | [] => ret (Ok st)
  | node :: rest => let! st' := loopBody o st node in loop o st' rest
  end.

(** [preserveIds ? (existingRoot?.id || 'root-1') : createNodeId()], with
    [preserveIds] defaulting to [true]. *)
Definition rootIdFor (options : ConversionOptions) (existingRoot : option DocumentRootNode)
  : Gen NodeId :=
  if default true (preserveIds options)
  then ret (default "root-1" (orStr (root_id <$> existingRoot) None))
  else createNodeId.

(** The [try] block of [tipTapJsonToAst]. *)
Definition tipTapJsonToAstBody (doc : TipTapDocument) (options : ConversionOptions)
    (existingRoot : option DocumentRootNode) : Gen (Exc (ConversionResult RawRootNode)) :=
  match doc_content doc with
  | NotAnArray _ =>
      lift (let* rootId := rootIdFor options existingRoot in
            let* t := createTimestamp in
            ret (mkConversionResult true
                   (Some (mkRoot rootId 1 t (existingRoot ≫= title) (existingRoot ≫= biblePassage)
                            (existingRoot ≫= speaker) None []))
                   None (Some ["Document content was empty or invalid"])))
  | NodeArray nodes =>
      let! st := loop options (mkLoop [] None None None true) nodes in
      lift (let* rootId := rootIdFor options existingRoot in
            let* t := createTimestamp in
            ret (mkConversionResult true
                   (Some (mkRoot rootId 1 t
                            (orStr (ls_title st) (existingRoot ≫= title))
                            (orStr (ls_biblePassage st) (existingRoot ≫= biblePassage))
                            (orStr (ls_speaker st) (existingRoot ≫= speaker))
                            None (ls_children st)))
                   None None))
  end.

(** [try { ... } catch (error) { return { success: false, error:
    error.message } }]: what is thrown in the block is an [Error]. *)
Definition tipTapJsonToAst (doc : TipTapDocument) (options : ConversionOptions)
    (existingRoot : option DocumentRootNode) : Gen (ConversionResult RawRootNode) :=
  fun n =>
    let '(r, n') := tipTapJsonToAstBody doc options existingRoot n in
    match r with
    | Ok result => (result, n')
    | Threw message => (mkConversionResult false None (Some message) None, n')
    end.

(** The round trip of the editor: [astToTipTapJson], then [tipTapJsonToAst]
    with the original as [existingRoot]. *)
Definition roundTrip (root : DocumentRootNode) (options : ConversionOptions)
  : Gen (ConversionResult RawRootNode) :=
  match data (astToTipTapJson root options) with
  | Some doc => tipTapJsonToAst doc options (Some root)
  | None => ret (mkConversionResult false None (Some "conversion failed") None)
  end.

(** *** Observations on a tree *)

(** The ids of the structural nodes (paragraph, heading, quote block), in
    document order. *)
Fixpoint structuralIds (node : DocumentNode) : list NodeId :=
  match node with
  | ParagraphNode id _ _ cs | HeadingNode id _ _ _ cs | QuoteBlockNode id _ _ _ cs =>
      id :: flat_map structuralIds cs
  | TextNode _ _ _ _ _ | InterjectionNode _ _ _ _ _ => []
  end.

(** The text of a tree: its text and interjection leaves, concatenated. *)
Fixpoint plainText (node : DocumentNode) : string :=
  match node with
  | ParagraphNode _ _ _ cs | HeadingNode _ _ _ _ cs | QuoteBlockNode _ _ _ _ cs =>
      join "" (map plainText cs)
  | TextNode _ _ _ content _ | InterjectionNode _ _ _ content _ => content
  end.

(** The same two observations on a tree as built. *)
Fixpoint rawStructuralIds (node : RawNode) : list JValue :=
  match node with
  | RawParagraph id _ _ cs | RawHeading id _ _ _ cs | RawQuoteBlock id _ _ _ cs =>
      id :: flat_map rawStructuralIds cs
  | RawText _ _ _ _ _ | RawInterjection _ _ _ _ _ => []
  end.

Fixpoint rawPlainText (node : RawNode) : string :=
  match node with
  | RawParagraph _ _ _ cs | RawHeading _ _ _ _ cs | RawQuoteBlock _ _ _ _ cs =>
      join "" (map rawPlainText cs)
  | RawText _ _ _ content _ | RawInterjection _ _ _ content _ => content
  end.

End DocumentModel.

Arguments mkRoot {Timestamp Child}.
Arguments root_id {Timestamp Child}.
Arguments root_version {Timestamp Child}.
Arguments root_updatedAt {Timestamp Child}.
Arguments title {Timestamp Child}.
Arguments biblePassage {Timestamp Child}.
Arguments speaker {Timestamp Child}.
Arguments tags {Timestamp Child}.
Arguments root_children {Timestamp Child}.

End Converter.

(** ** contexts/QuoteReviewContext: the provider's persistence and the
    selectors *)
Module QuoteReviewProvider.
Import QuoteReview.

(** What [localStorage] holds under a key: the JSON text of a persisted
    record, or a text [JSON.parse] throws on. *)
Inductive Stored : Type :=
| JsonOf (p : PersistedQuoteReviewState)
| Unparsable.

Section Storage.
(** [STORAGE_KEYS.QUOTE_REVIEW_PREFIX] ([utils/storage] is not part of the
    sources at hand). *)
Variable QUOTE_REVIEW_PREFIX : string.

Definition storageKey (docId : string) : string := QUOTE_REVIEW_PREFIX +:+ docId.

(** [persistState]: [Array.from] lists the reviewed ids; the order of the
    list is lost again by [new Set] on loading.  [setItem] is taken to
    succeed (a storage that is full makes it throw, and the hook then
    leaves the storage as it is). *)
Definition persistState (state : QuoteReviewContextState) (docId : string)
    (localStorage : gmap string Stored) : gmap string Stored :=
  let persisted :=
    {| ps_panelOpen := panelOpen (review state);
       ps_panelWidth := panelWidth (review state);
       ps_reviewedQuoteIds := elements (reviewedQuoteIds (review state));
       ps_bannerDismissed := bannerDismissed (review state) |} in
  <[storageKey docId := JsonOf persisted]> localStorage.

(** [loadPersistedState], as the actions it dispatches: nothing for a missing
    key and for a text that does not parse (the exception is caught). *)
Definition loadPersistedState (docId : string) (localStorage : gmap string Stored)
  : list QuoteReviewAction :=
  match localStorage !! storageKey docId with
  | Some (JsonOf persisted) => [LOAD_PERSISTED_STATE persisted]
  | _ => []
  end.

(** The effect that runs when [documentId] changes. *)
Definition onDocumentChange (documentId : option string) (localStorage : gmap string Stored)
  : list QuoteReviewAction :=
  if Js.truthyOptStr documentId
  then loadPersistedState (default "" documentId) localStorage
  else [RESET_STATE].

End Storage.

(** *** Selectors *)

Definition isQuoteBeingEdited (state : QuoteReviewContextState) (quoteId : NodeId) : bool :=
  (be_isActive (boundaryEdit state) && focusIs (be_quoteId (boundaryEdit state)) quoteId)
  || (ie_isActive (interjectionEdit state) && focusIs (ie_quoteId (interjectionEdit state)) quoteId).

Definition isQuoteReviewed (state : QuoteReviewContextState) (quoteId : NodeId) : bool :=
  bool_decide (quoteId ∈ reviewedQuoteIds (review state)).

Definition getBoundaryChangeDebounceMs : Z := BOUNDARY_CHANGE_DEBOUNCE_MS.

End QuoteReviewProvider.

(** ** features/quote-review/hooks/useQuoteKeyboardNavigation.ts *)
Module KeyboardNavigation.
Import QuoteReview.

(** The options of the hook; the three callbacks may be absent. *)
Record UseQuoteKeyboardNavigationOptions : Type := mkOptions {
  opt_quotes : list QuoteReviewItem;
  enabled : option bool;
  onEditBoundaries : bool;
  onDelete : bool;
  onLookupVerse : bool }.

(** The fields of a keyboard event the handler reads. *)
Record KeyboardEvent : Type := mkEvent {
  key : string;
  metaKey : bool;
  ctrlKey : bool;
  shiftKey : bool }.

(** What the hook does: actions dispatched to the reducer, calls of the
    callbacks, and [event.preventDefault()]. *)
Inductive Effect : Type :=
| Dispatch (a : QuoteReviewAction)
| PreventDefault
| EditBoundaries (quoteId : NodeId)
| Delete (quoteId : NodeId)
| LookupVerse (reference : string).

(** [xs.findIndex(p)] *)
Definition findIndex {A} (p : A -> bool) (xs : list A) : Z :=
  match list_find (fun x => p x = true) xs with
  | Some (i, _) => Z.of_nat i
  | None => -1
  end.

Section Hook.
Variable options : UseQuoteKeyboardNavigationOptions.
(** [navigator.platform.includes('Mac')], which selects [MOD_KEY]. *)
Variable isMac : bool.
Variable state : QuoteReviewContextState.

Definition quotes : list QuoteReviewItem := opt_quotes options.
Definition focusedQuoteId : option NodeId := QuoteReview.focusedQuoteId (review state).
Definition quotesLength : Z := Z.of_nat (length quotes).

Definition getCurrentIndex : Z :=
  match focusedQuoteId with
  | Some f => if Js.truthyStr f then findIndex (fun q => String.eqb (id q) f) quotes else -1
  | None => -1
  end.

Definition getQuoteAtIndex (index : Z) : option QuoteReviewItem :=
  if (index <? 0) || (quotesLength <=? index) then None else Js.index quotes index.

(** [if (quote) setFocusedQuote(quote.id)] *)
Definition focusOn (quote : option QuoteReviewItem) : list QuoteReviewAction :=
  match quote with
  | Some q => [SET_FOCUSED_QUOTE (Some (id q))]
  | None => []
  end.

Definition navigateNext : list QuoteReviewAction :=
  let currentIndex := getCurrentIndex in
  let nextIndex := if currentIndex <? quotesLength - 1 then currentIndex + 1 else 0 in
  focusOn (getQuoteAtIndex nextIndex).

Definition navigatePrevious : list QuoteReviewAction :=
  let currentIndex := getCurrentIndex in
  let prevIndex := if 0 <? currentIndex then currentIndex - 1 else quotesLength - 1 in
  focusOn (getQuoteAtIndex prevIndex).

Definition navigateFirst : list QuoteReviewAction := focusOn (getQuoteAtIndex 0).

Definition navigateLast : list QuoteReviewAction := focusOn (getQuoteAtIndex (quotesLength - 1)).

(** [for (let i = from; i < from + rounds; i++)]: the first [quotes[i]] that is
    there and not reviewed. *)
Fixpoint firstUnreviewed (from : Z) (rounds : nat) : option QuoteReviewItem :=
  match rounds with
  | O => None
  | S rounds' =>
      match Js.index quotes from with
      | Some quote =>
          if negb (isReviewed quote) then Some quote else firstUnreviewed (from + 1) rounds'
      | None => firstUnreviewed (from + 1) rounds'
      end
  end.

Definition navigateNextUnverified : list QuoteReviewAction :=
  let currentIndex := getCurrentIndex in
  match firstUnreviewed (currentIndex + 1) (Z.to_nat (quotesLength - (currentIndex + 1))) with
  | Some quote => [SET_FOCUSED_QUOTE (Some (id quote))]
  | None =>
      match firstUnreviewed 0 (Z.to_nat (currentIndex + 1)) with
      | Some quote => [SET_FOCUSED_QUOTE (Some (id quote))]
      | None => []
      end
  end.

(** [quotes.find((q) => q.id === focusedQuoteId)] *)
Definition focusedQuote : option QuoteReviewItem :=
  match focusedQuoteId with
  | Some f => List.find (fun q => String.eqb (id q) f) quotes
  | None => None
  end.

Definition reviewedPatch (b : bool) : QuoteReviewItemPatch :=
  mkQuoteReviewItemPatch None None None None (Some b) None None None None.

Definition toggleVerify : list QuoteReviewAction :=
  match focusedQuoteId with
  | Some f =>
      if Js.truthyStr f then
        match focusedQuote with
        | Some quote => [UPDATE_QUOTE f (reviewedPatch (negb (isReviewed quote)))]
        | None => []
        end
      else []
  | None => []
  end.

(** [handleEscape]: what it dispatches, and whether it handled the key. *)
Definition handleEscape : list QuoteReviewAction * bool :=
  if isDragging (boundaryDrag state) then ([CANCEL_BOUNDARY_DRAG], true)
  else if be_isActive (boundaryEdit state) then ([EXIT_BOUNDARY_EDIT_MODE], true)
  else if ie_isActive (interjectionEdit state) then ([EXIT_INTERJECTION_EDIT_MODE], true)
  else ([], false).

Definition keyIs (event : KeyboardEvent) (k : string) : bool := String.eqb (key event) k.

(** [event.preventDefault()] followed by a navigation. *)
Definition prevented (acts : list QuoteReviewAction) : list Effect :=
  PreventDefault :: map Dispatch acts.

Definition handleKeyDown (event : KeyboardEvent) : list Effect :=
  if negb (default true (enabled options)) then []
  else
    let hasModifier := metaKey event || ctrlKey event in
    let hasShift := shiftKey event in
    let focused := Js.truthyOptStr focusedQuoteId in
    let f := default "" focusedQuoteId in
    if keyIs event "ArrowDown" || keyIs event "j" then
      if negb hasModifier then prevented navigateNext else []
    else if keyIs event "ArrowUp" || keyIs event "k" then
      if negb hasModifier then prevented navigatePrevious else []
    else if keyIs event "Home" then
      if negb hasModifier then prevented navigateFirst else []
    else if keyIs event "End" then
      if negb hasModifier then prevented navigateLast else []
    else if keyIs event "n" then
      if negb hasModifier then prevented navigateNextUnverified else []
    else if keyIs event "Enter" || keyIs event " " then
      if negb hasModifier && focused then prevented toggleVerify else []
    else if keyIs event "e" then
      if negb hasModifier && focused && onEditBoundaries options
      then [PreventDefault; EditBoundaries f] else []
    else if keyIs event "Delete" || keyIs event "Backspace" then
      if (hasModifier || hasShift) && focused && onDelete options
      then [PreventDefault; Delete f] else []
    else if keyIs event "l" then
      if (if isMac then metaKey event else ctrlKey event) && focused && onLookupVerse options
      then PreventDefault ::
           match focusedQuote with
           | Some quote =>
               match reference quote with
               | Some r => if Js.truthyStr r then [LookupVerse r] else []
               | None => []
               end
           | None => []
           end
      else []
    else if keyIs event "Escape" then
      let '(acts, handled) := handleEscape in
      (map Dispatch acts ++ if handled then [PreventDefault] else [])%list
    else [].

(** The effect that focuses the first quote when none is focused. *)
Definition focusFirstWhenUnfocused : list QuoteReviewAction :=
  if default true (enabled options) && (0 <? quotesLength)
     && negb (Js.truthyOptStr focusedQuoteId)
  then focusOn (head quotes) else [].

End Hook.

End KeyboardNavigation.

(** ** features/quote-review/hooks/useQuoteCreation.ts: the workflow *)
Module QuoteCreationFlow.
Import QuoteReview QuoteCreation.

Record UseQuoteCreationOptions : Type := mkOptions {
  onLookupVerse : option (string -> LookupOutcome);
  onQuoteCreated : bool;
  onParagraphMerge : bool }.

(** Calls of the three callbacks. *)
Inductive Call : Type :=
| LookupVerse (reference : string)
| QuoteCreated (quote : QuoteReviewItem)
| ParagraphMerge (paragraphIds : list NodeId).

(** The reducer state the hook reads, the input its debounce timer (if set)
    will look up, and the calls made so far. *)
Record Hook : Type := mkHook {
  ctx : QuoteReviewContextState;
  lookupTimerRef : option string;
  calls : list Call }.

Section Hook.
Variable options : UseQuoteCreationOptions.
(** [Date.now()] is only read by actions this hook never dispatches. *)
Variable now : Z.

(** An effect of [performLookup] or [updateReference] taking place. *)
Definition perform (h : Hook) (e : Effect) : Hook :=
  match e with
  | Dispatch a => mkHook (quoteReviewReducer now (ctx h) a) (lookupTimerRef h) (calls h)
  | LookupCall reference =>
      mkHook (ctx h) (lookupTimerRef h) (calls h ++ [LookupVerse reference])
  end.

Definition dispatch (h : Hook) (a : QuoteReviewAction) : Hook := perform h (Dispatch a).

Definition startCreation (h : Hook) (selectedText : string) (range : option SelectedRange)
    (spannedParagraphIds : list NodeId) : Hook :=
  dispatch h (START_QUOTE_CREATION selectedText range spannedParagraphIds).

(** [updateReference]: the input and the cleared result are dispatched at
    once; the old timer is cleared and a new one is set when the input parses. *)
Definition updateReference (h : Hook) (input : string) : Hook :=
  let '(effects, timer) := QuoteCreation.updateReference input in
  let h' := fold_left perform effects h in
  mkHook (ctx h') timer (calls h').

(** The debounce delay ([LOOKUP_DEBOUNCE_MS]) passing without the timer being
    cleared: [performLookup] runs on the input the timer closed over, and the
    lookup is taken to settle before anything else happens.  The ref then
    holds the id of a timer that has fired, which clearing does not affect:
    no timer is pending. *)
Definition lookupTimerFires (h : Hook) : Hook :=
  let h' := fold_left perform (QuoteCreation.lookupTimerFires (onLookupVerse options)
                                 (lookupTimerRef h)) h in
  mkHook (ctx h') None (calls h').

Definition setNonBiblicalFlag (h : Hook) (isNonBiblical : bool) : Hook :=
  let h' := dispatch h (SET_IS_NON_BIBLICAL isNonBiblical) in
  if isNonBiblical then dispatch h' (SET_LOOKUP_RESULT None) else h'.

(** [lookupResult?.normalizedReference || referenceInput] *)
Definition referenceFor (cr : QuoteCreationState) : string :=
  match lookupResult cr ≫= lr_normalizedReference with
  | Some r => if Js.truthyStr r then r else referenceInput cr
  | None => referenceInput cr
  end.

(** The quote [confirm] builds; [quoteId] is the id it generates from the
    clock and the random source. *)
Definition newQuote (quoteId : NodeId) (cr : QuoteCreationState) : QuoteReviewItem :=
  {| id := quoteId;
     text := selectedText cr;
     reference := if cr_isNonBiblical cr then None else Some (referenceFor cr);
     isNonBiblical := cr_isNonBiblical cr;
     isReviewed := false;
     interjections := Some [];
     startOffset := sr_startOffset <$> selectedRange cr;
     endOffset := sr_endOffset <$> selectedRange cr;
     paragraphId := startNodeId <$> selectedRange cr |}.

Definition confirm (quoteId : NodeId) (h : Hook) : Hook :=
  let cr := creation (ctx h) in
  if negb (isCreating cr) then h
  else
    let quote := newQuote quoteId cr in
    let merge :=
      if (1 <? length (spannedParagraphIds cr))%nat && onParagraphMerge options
      then [ParagraphMerge (spannedParagraphIds cr)] else [] in
    let h1 := mkHook (ctx h) (lookupTimerRef h) (calls h ++ merge) in
    let h2 := dispatch h1 (ADD_QUOTE quote) in
    let h3 := mkHook (ctx h2) (lookupTimerRef h2)
                (calls h2 ++ if onQuoteCreated options then [QuoteCreated quote] else []) in
    dispatch h3 CONFIRM_QUOTE_CREATION.

Definition cancel (h : Hook) : Hook :=
  dispatch (mkHook (ctx h) None (calls h)) CANCEL_QUOTE_CREATION.

Definition checkMultiParagraph (h : Hook) : bool :=
  (1 <? length (spannedParagraphIds (creation (ctx h))))%nat.

End Hook.

End QuoteCreationFlow.

(** ** features/document/history/documentHistory.ts: history items *)
Module HistoryItems.
Import Js.

Section Items.
(** [DocumentState] and the rest of a [HistoryItem] are kept abstract, and
    so are [compactSerialize] and [compactDeserialize] of
    [../serialization], which is not part of the sources at hand. *)
Context {DocumentState Other SermonOther : Type}.

Record SermonDocument : Type := mkSermonDocument {
  documentState : option DocumentState;
  sermonOther : SermonOther }.

(** [HistoryItemWithState]; a plain [HistoryItem] has no [documentStateJson]. *)
Record HistoryItem : Type := mkHistoryItem {
  documentStateJson : option string;
  sermonDocument : option SermonDocument;
  otherFields : Other }.

Record SaveToHistoryOptions : Type := mkSaveOptions {
  includeEventLog : option bool;
  maxEvents : option Z }.

Record SerializeOptions : Type := mkSerializeOptions {
  so_includeEventLog : bool;
  so_maxEvents : Z }.

Record DeserializeResult : Type := mkDeserializeResult {
  ds_success : bool;
  ds_state : option DocumentState;
  ds_error : option string }.

Record RestoreFromHistoryResult : Type := mkRestoreResult {
  success : bool;
  state : option DocumentState;
  error : option string;
  isLegacy : option bool }.

Variable compactSerialize : DocumentState -> SerializeOptions -> string.
Variable compactDeserialize : string -> DeserializeResult.

(** [const { includeEventLog = true, maxEvents = 100 } = options] *)
Definition serializeOptions (options : SaveToHistoryOptions) : SerializeOptions :=
  mkSerializeOptions (default true (includeEventLog options)) (default 100 (maxEvents options)).

Definition createHistoryItemWithState (baseItem : HistoryItem) (st : option DocumentState)
    (options : SaveToHistoryOptions) : HistoryItem :=
  let json := match st with
              | Some s => Some (compactSerialize s (serializeOptions options))
              | None => None
              end in
  mkHistoryItem json (sermonDocument baseItem) (otherFields baseItem).

Definition updateHistoryItemState (item : HistoryItem) (st : DocumentState)
    (options : SaveToHistoryOptions) : HistoryItem :=
  mkHistoryItem (Some (compactSerialize st (serializeOptions options)))
    (sermonDocument item) (otherFields item).

(** [item.sermonDocument?.documentState] *)
Definition pipelineState (item : HistoryItem) : option DocumentState :=
  sermonDocument item ≫= documentState.

Definition restoreFromHistoryItem (item : HistoryItem) : RestoreFromHistoryResult :=
  match documentStateJson item with
  | Some json =>
      if truthyStr json then
        let result := compactDeserialize json in
        match ds_success result, ds_state result with
        | true, Some s => mkRestoreResult true (Some s) None (Some false)
        | _, _ =>
            mkRestoreResult false None
              (Some (default "Failed to deserialize document state"
                       (orStr (ds_error result) None)))
              (Some false)
        end
      else
        match pipelineState item with
        | Some s => mkRestoreResult true (Some s) None (Some false)
        | None =>
            mkRestoreResult false None (Some "No document state available in history item")
              (Some false)
        end
  | None =>
      match pipelineState item with
      | Some s => mkRestoreResult true (Some s) None (Some false)
      | None =>
          mkRestoreResult false None (Some "No document state available in history item")
            (Some false)
      end
  end.

Definition hasDocumentState (item : HistoryItem) : bool :=
  truthyOptStr (documentStateJson item) || bool_decide (is_Some (pipelineState item)).

Definition hasNewFormatState (item : HistoryItem) : bool :=
  truthyOptStr (documentStateJson item) || bool_decide (is_Some (pipelineState item)).

Definition migrateHistoryItem {Html : Type} (item : HistoryItem)
    (_convertHtmlToState : Html -> option DocumentState) : option HistoryItem :=
  if hasNewFormatState item then Some item else None.

End Items.

Arguments SermonDocument : clear implicits.
Arguments HistoryItem : clear implicits.
Arguments DeserializeResult : clear implicits.
Arguments RestoreFromHistoryResult : clear implicits.

End HistoryItems.

(** ** features/document/bridge/astTipTapConverter.ts: HTML *)
Module Html.
Import Js Converter.

Definition dquote : string := String (ascii_of_nat 34) EmptyString.

(** The [map] of [escapeHtml], applied to one character. *)
Definition escapeChar (c : ascii) : string :=
  if Ascii.eqb c "&" then "&amp;"
  else if Ascii.eqb c "<" then "&lt;"
  else if Ascii.eqb c ">" then "&gt;"
  else if Ascii.eqb c (ascii_of_nat 34) then "&quot;"
  else if Ascii.eqb c "'" then "&#039;"
  else String c EmptyString.

(** [text.replace(re, (m) => map[m] || m)] with the global class of the five
    characters of [map] as [re]: a match is one character, so every
    character is replaced by its entry or stays. *)
Fixpoint escapeHtml (text : string) : string :=
  match text with
  | EmptyString => ""
  | String c rest => escapeChar c +:+ escapeHtml rest
  end.

(** [s.includes(c)] for a single character. *)
Fixpoint includesChar (s : string) (c : ascii) : bool :=
  match s with
  | EmptyString => false
  | String d rest => Ascii.eqb d c || includesChar rest c
  end.

(** The loops [content += nodeToHtml(child)] are the concatenation of the
    children's HTML. *)
Section Render.
Context {Timestamp : Type}.
(** The text a template literal puts for a number ([${node.level}]). *)
Variable numberToString : Q -> string.

Fixpoint nodeToHtml (node : @DocumentNode Timestamp) : string :=
  match node with
  | ParagraphNode _ _ _ children =>
      "<p>" +:+ join "" (map nodeToHtml children) +:+ "</p>"
  | QuoteBlockNode id _ _ metadata children =>
      let ref := default "Unknown" (normalizedReference <$> reference metadata) in
      "<div class=" +:+ dquote +:+ "bible-quote" +:+ dquote
        +:+ " data-quote-id=" +:+ dquote +:+ id +:+ dquote
        +:+ " data-reference=" +:+ dquote +:+ escapeHtml ref +:+ dquote +:+ ">"
        +:+ join "" (map nodeToHtml children) +:+ "</div>"
  | HeadingNode _ _ _ level children =>
      "<h" +:+ numberToString level +:+ ">" +:+ join "" (map nodeToHtml children)
        +:+ "</h" +:+ numberToString level +:+ ">"
  | TextNode _ _ _ content _ => escapeHtml content
  | InterjectionNode id _ _ content _ =>
      "<span class=" +:+ dquote +:+ "interjection" +:+ dquote
        +:+ " data-interjection-id=" +:+ dquote +:+ id +:+ dquote +:+ ">"
        +:+ escapeHtml content +:+ "</span>"
  end.

Definition astToHtml (root : @DocumentRootNode Timestamp) : string :=
  let html := "" in
  let html :=
    if truthyOptStr (title root)
    then html +:+ "<h1 style=" +:+ dquote +:+ "text-align: center" +:+ dquote +:+ ">"
           +:+ escapeHtml (default "" (title root)) +:+ "</h1>"
    else html in
  let html :=
    if truthyOptStr (biblePassage root)
    then
      let passage := default "" (biblePassage root) in
      let label := if includesChar passage ";" then "Primary References" else "Primary Reference" in
      html +:+ "<p><strong>" +:+ label +:+ ":</strong> " +:+ escapeHtml passage +:+ "</p>"
    else html in
  let html :=
    if truthyOptStr (title root) || truthyOptStr (biblePassage root)
    then html +:+ "<hr />" else html in
  html +:+ join "" (map nodeToHtml (root_children root)).

End Render.

End Html.

(* ===================================================================== *)
(** * Part II: properties *)
(* ===================================================================== *)

(** ** The reducer: removing quotes and stale quote ids *)
Module QuoteReviewSpec.
Import QuoteReview.

Definition absent (q : NodeId) (s : QuoteReviewContextState) : Prop :=
  Forall (fun x => id x ≠ q) (quotes s).

Lemma eqb_id_false (x : QuoteReviewItem) (q : NodeId) : id x ≠ q -> String.eqb (id x) q = false.
Proof. intros H. apply String.eqb_neq. exact H. Qed.

Lemma map_update_absent (q : NodeId) (u : QuoteReviewItemPatch) (l : list QuoteReviewItem) :
  Forall (fun x => id x ≠ q) l ->
  map (fun x => if String.eqb (id x) q then applyPatch x u else x) l = l.
Proof.
  induction 1 as [|x l Hx _ IH]; simpl; [reflexivity|].
  rewrite (eqb_id_false _ _ Hx), IH. reflexivity.
Qed.

Lemma filter_remove_absent (q : NodeId) (l : list QuoteReviewItem) :
  Forall (fun x => id x ≠ q) l ->
  List.filter (fun x => negb (String.eqb (id x) q)) l = l.
Proof.
  induction 1 as [|x l Hx _ IH]; simpl; [reflexivity|].
  rewrite (eqb_id_false _ _ Hx), IH. reflexivity.
Qed.

Lemma filter_remove_prop (q : NodeId) (l : list QuoteReviewItem) :
  List.filter (fun x => negb (String.eqb (id x) q)) l = filter (fun x => id x ≠ q) l.
Proof.
  induction l as [|x l IH]; simpl; [reflexivity|].
  rewrite filter_cons. destruct (String.eqb_spec (id x) q) as [E|E]; simpl.
  - rewrite decide_False by (intros H; apply H, E). exact IH.
  - rewrite decide_True by exact E. f_equal. exact IH.
Qed.

Lemma focusIs_spec (f : option NodeId) (q : NodeId) : focusIs f q = bool_decide (f = Some q).
Proof.
  destruct f as [x|]; unfold focusIs; case_bool_decide as H; try congruence.
  - apply String.eqb_eq. congruence.
  - apply String.eqb_neq. congruence.
Qed.

(** [focusedQuoteId] replaced, everything else kept. *)
Definition setFocus (s : QuoteReviewContextState) (f : option NodeId) : QuoteReviewContextState :=
  withReview s
    (mkQuoteReviewState (isReviewModeActive (review s)) f (reviewedQuoteIds (review s))
       (panelOpen (review s)) (panelWidth (review s)) (bannerDismissed (review s))).

Lemma setFocus_same (s : QuoteReviewContextState) : setFocus s (focusedQuoteId (review s)) = s.
Proof. destruct s as [qs [] be bd cr ie pf]. reflexivity. Qed.

(** The statement of stale-action tolerance for the two quote-list actions
    that carry a quote id. *)
Definition targetsQuote (a : QuoteReviewAction) (q : NodeId) : Prop :=
  (exists u, a = UPDATE_QUOTE q u) \/ a = REMOVE_QUOTE q.

Definition StaleActionIsNoop : Prop :=
  forall (now : Z) (s : QuoteReviewContextState) (q : NodeId) (a : QuoteReviewAction),
    absent q s -> targetsQuote a q -> quoteReviewReducer now s a = s.

(** A state reached by dispatching: a quote is added and focused, the list is
    then replaced, which leaves the focus pointing at an id that is gone. *)
Definition sampleQuote : QuoteReviewItem :=
  mkQuoteReviewItem "q1" "For God so loved the world" (Some "John 3:16") false false None None None None.

Definition danglingFocus : QuoteReviewContextState :=
  dispatchAll initialState
    [(0, ADD_QUOTE sampleQuote); (0, SET_FOCUSED_QUOTE (Some "q1")); (0, SET_QUOTES [])].

(** C10: REMOVE_QUOTE drops exactly the entries whose id is the payload,
    clears the focus when it pointed at that id and keeps it otherwise, and
    leaves every other slice (and every other review field) as it was; the
    focus never refers to the removed id afterwards. *)
Theorem remove_quote_frame (now : Z) (s : QuoteReviewContextState) (q : NodeId) :
  let s' := quoteReviewReducer now s (REMOVE_QUOTE q) in
  quotes s' = filter (fun x => id x ≠ q) (quotes s)
  /\ (forall x, x ∈ quotes s' <-> x ∈ quotes s /\ id x ≠ q)
  /\ focusedQuoteId (review s')
     = (if decide (focusedQuoteId (review s) = Some q) then None else focusedQuoteId (review s))
  /\ focusedQuoteId (review s') ≠ Some q
  /\ isReviewModeActive (review s') = isReviewModeActive (review s)
  /\ reviewedQuoteIds (review s') = reviewedQuoteIds (review s)
  /\ panelOpen (review s') = panelOpen (review s)
  /\ panelWidth (review s') = panelWidth (review s)
  /\ bannerDismissed (review s') = bannerDismissed (review s)
  /\ boundaryEdit s' = boundaryEdit s
  /\ boundaryDrag s' = boundaryDrag s
  /\ creation s' = creation s
  /\ interjectionEdit s' = interjectionEdit s
  /\ panelFilter s' = panelFilter s.
Proof.
  simpl. rewrite filter_remove_prop, focusIs_spec.
  split; [reflexivity|]. split.
  { intros x. rewrite list_elem_of_filter. tauto. }
  split.
  { unfold bool_decide. destruct (decide_rel _ _ _); reflexivity. }
  split.
  { unfold bool_decide. destruct (decide_rel _ _ _) as [E|E]; [discriminate | exact E]. }
  repeat split; reflexivity.
Qed.

(** C5, as the code has it: for a quote id that is not in the list,
    UPDATE_QUOTE returns the state it was given, whatever the updates;
    REMOVE_QUOTE changes nothing but the focus, which it clears when it
    pointed at that id, so it returns the state it was given whenever the
    focus is elsewhere. *)
Theorem stale_quote_action (now : Z) (s : QuoteReviewContextState) (q : NodeId) :
  absent q s ->
  (forall u, quoteReviewReducer now s (UPDATE_QUOTE q u) = s)
  /\ quoteReviewReducer now s (REMOVE_QUOTE q)
     = setFocus s (if decide (focusedQuoteId (review s) = Some q) then None
                   else focusedQuoteId (review s))
  /\ (focusedQuoteId (review s) ≠ Some q -> quoteReviewReducer now s (REMOVE_QUOTE q) = s).
Proof.
  intros Habs.
  assert (Hrm : quoteReviewReducer now s (REMOVE_QUOTE q)
                = setFocus s (if decide (focusedQuoteId (review s) = Some q) then None
                              else focusedQuoteId (review s))).
  { unfold quoteReviewReducer, setFocus, withReview.
    rewrite (filter_remove_absent q (quotes s) Habs), focusIs_spec.
    unfold bool_decide. destruct (decide_rel _ _ _); reflexivity. }
  split; [|split].
  - intros u. unfold quoteReviewReducer, withQuotes.
    rewrite (map_update_absent q u (quotes s) Habs). destruct s; reflexivity.
  - exact Hrm.
  - intros Hf. rewrite Hrm, decide_False by exact Hf. apply setFocus_same.
Qed.

(** The stale update of the specification's scenario: a quote is added,
    removed, and then updated. *)
Definition afterRemoval : QuoteReviewContextState :=
  dispatchAll initialState [(0, ADD_QUOTE sampleQuote); (0, REMOVE_QUOTE "q1")].

Lemma stale_quote_action_witness :
  absent "q1" afterRemoval
  /\ quoteReviewReducer 7 afterRemoval
       (UPDATE_QUOTE "q1" (mkQuoteReviewItemPatch None (Some "edited") None None (Some true)
                             None None None None))
     = afterRemoval.
Proof.
  assert (H : absent "q1" afterRemoval) by (vm_compute; constructor).
  split; [exact H|].
  exact (proj1 (stale_quote_action 7 afterRemoval "q1" H) _).
Defined.

(** C5 as stated fails: with the focus left on an id that is no longer in the
    list, REMOVE_QUOTE for that id returns a different state. *)
Lemma stale_remove_changes_state : ~ StaleActionIsNoop.
Proof.
  intros H.
  assert (Habs : absent "q1" danglingFocus) by (vm_compute; constructor).
  specialize (H 0 danglingFocus "q1" (REMOVE_QUOTE "q1") Habs (or_intror eq_refl)).
  apply (f_equal (fun s => focusedQuoteId (review s))) in H.
  vm_compute in H. discriminate H.
Qed.

End QuoteReviewSpec.

(** ** Pruning the event log *)
Module DocumentHistorySpec.
Import DocumentHistory.

Section Prune.
Context {Root Event Snapshot Other : Type}.
Abbreviation State := (DocumentState Root Event Snapshot Other).

(** The most recent [n] entries of a log. *)
Definition mostRecent (n : nat) (log : list Event) : list Event :=
  drop (length log - n) log.

(** For a positive bound [pruneEventLog] does what its documentation says:
    a log within the bound is returned as it is, a longer one is cut down to
    its most recent [maxEvents] entries with both stacks emptied, and no
    other field changes. *)
Lemma pruneEventLog_positive (st : State) (maxEvents : Z) :
  0 < maxEvents ->
  (Z.of_nat (length (eventLog st)) <= maxEvents -> pruneEventLog st maxEvents = st)
  /\ (maxEvents < Z.of_nat (length (eventLog st)) ->
      eventLog (pruneEventLog st maxEvents) = mostRecent (Z.to_nat maxEvents) (eventLog st)
      /\ Z.of_nat (length (eventLog (pruneEventLog st maxEvents))) = maxEvents
      /\ undoStack (pruneEventLog st maxEvents) = []
      /\ redoStack (pruneEventLog st maxEvents) = []
      /\ root (pruneEventLog st maxEvents) = root st
      /\ otherFields (pruneEventLog st maxEvents) = otherFields st).
Proof.
  intros Hpos. unfold pruneEventLog. split.
  - intros Hle. rewrite (proj2 (Z.leb_le _ _) Hle). reflexivity.
  - intros Hgt. rewrite (proj2 (Z.leb_gt _ _) Hgt). simpl.
    assert (Hs : Js.slice (eventLog st) (- maxEvents)
                 = mostRecent (Z.to_nat maxEvents) (eventLog st)).
    { unfold Js.slice, mostRecent.
      rewrite (proj2 (Z.ltb_lt _ _)) by lia. f_equal. lia. }
    rewrite Hs. repeat split.
    unfold mostRecent. rewrite length_drop. lia.
Qed.

End Prune.

(** C6 at the bound 0: the log is longer than the bound, so it is pruned, yet
    [slice(-0)] is [slice(0)] and the whole log stays, while the undo and redo
    stacks are emptied.  The most recent 0 entries would be none. *)
Theorem pruneEventLog_zero_keeps_log :
  let st := mkDocumentState "root" ["e1"; "e2"; "e3"] ["u1"] ["r1"] tt in
  eventLog (pruneEventLog st 0) = ["e1"; "e2"; "e3"]
  /\ mostRecent (Z.to_nat 0) (eventLog st) = []
  /\ undoStack (pruneEventLog st 0) = []
  /\ redoStack (pruneEventLog st 0) = [].
Proof. repeat split. Qed.

Lemma pruneEventLog_positive_witness :
  let st := mkDocumentState "root" ["e1"; "e2"; "e3"] ["u1"] ["r1"] tt in
  0 < 2 /\ eventLog (pruneEventLog st 2) = ["e2"; "e3"] /\ undoStack (pruneEventLog st 2) = [].
Proof.
  assert (H : 0 < 2) by lia.
  split; [exact H|].
  pose proof (proj2 (pruneEventLog_positive
                       (mkDocumentState "root" ["e1"; "e2"; "e3"] ["u1"] ["r1"] tt) 2 H)) as P.
  destruct P as (P1 & _ & P2 & _); [simpl; lia|].
  split; [exact P1 | exact P2].
Defined.

End DocumentHistorySpec.

(** ** The stable sort, trimming and number values *)
Module JsSpec.
Import Js.

Section SortBy.
Context {A : Type} (key : A -> Z).

Definition Ascending (l : list A) : Prop :=
  StronglySorted (fun a b => key a <= key b) l.

Lemma insertBy_perm (x : A) (l : list A) : insertBy key x l ≡ₚ x :: l.
Proof.
  induction l as [|y l IH]; simpl; [reflexivity|].
  destruct (key x <=? key y); [reflexivity|].
  rewrite IH. apply Permutation_swap.
Qed.

Lemma sortBy_perm (l : list A) : sortBy key l ≡ₚ l.
Proof.
  induction l as [|x l IH]; simpl; [reflexivity|].
  unfold sortBy in *. simpl. rewrite insertBy_perm, IH. reflexivity.
Qed.

Lemma insertBy_ascending (x : A) (l : list A) : Ascending l -> Ascending (insertBy key x l).
Proof.
  unfold Ascending. induction 1 as [|y l Hs IH Hy]; simpl.
  - repeat constructor.
  - destruct (Z.leb_spec (key x) (key y)) as [Hle|Hgt].
    + constructor; [constructor; assumption|].
      constructor; [exact Hle|].
      eapply Forall_impl; [exact Hy|]. simpl. intros z Hz. lia.
    + constructor; [exact IH|].
      rewrite insertBy_perm. constructor; [lia | exact Hy].
Qed.

Lemma sortBy_ascending (l : list A) : Ascending (sortBy key l).
Proof.
  induction l as [|x l IH]; [constructor|].
  unfold sortBy in *. simpl. apply insertBy_ascending, IH.
Qed.



Lemma ascending_head_least (l : list A) (x : A) :
  Ascending l -> head l = Some x -> forall y, y ∈ l -> key x <= key y.
Proof.
  intros Hs Hh y Hy. destruct l as [|z l]; [discriminate|].
  injection Hh as ->. apply StronglySorted_inv in Hs as [_ Hall].
  apply elem_of_cons in Hy as [->|Hy]; [lia|].
  rewrite Forall_forall in Hall. apply Hall, Hy.
Qed.


End SortBy.

(** *** White space and trimming *)

Fixpoint blank (s : string) : bool :=
  match s with
  | EmptyString => true
  | String c s' => isWhiteSpace c && blank s'
  end.

Definition firstChar (s : string) : option ascii :=
  match s with String c _ => Some c | EmptyString => None end.

Fixpoint lastChar (s : string) : option ascii :=
  match s with
  | EmptyString => None
  | String c EmptyString => Some c
  | String _ s' => lastChar s'
  end.

Definition isWhite (c : option ascii) : bool := from_option isWhiteSpace false c.

(** No white space at either end. *)
Definition tight (s : string) : bool := negb (isWhite (firstChar s)) && negb (isWhite (lastChar s)).

(** [t] is [s] without the white space around it. *)
Definition Trimmed (s t : string) : Prop :=
  exists pad pad', s = pad +:+ t +:+ pad' /\ blank pad = true /\ blank pad' = true
                   /\ tight t = true.

Lemma trimStart_spec (s : string) :
  exists pad, s = pad +:+ trimStart s /\ blank pad = true
              /\ isWhite (firstChar (trimStart s)) = false.
Proof.
  induction s as [|c s (pad & E & B & F)]; [exists ""; repeat split|].
  cbn [trimStart]. destruct (isWhiteSpace c) eqn:Ec.
  - exists (String c pad).
    split; [change (String c s = String c (pad +:+ trimStart s)); f_equal; exact E|].
    split; [cbn; rewrite Ec; exact B | exact F].
  - exists "". split; [reflexivity|]. split; [reflexivity | exact Ec].
Qed.

Lemma trimEnd_spec (s : string) :
  exists pad, s = trimEnd s +:+ pad /\ blank pad = true
              /\ isWhite (lastChar (trimEnd s)) = false
              /\ (trimEnd s = "" \/ firstChar (trimEnd s) = firstChar s).
Proof.
  induction s as [|c s (pad & E & B & L & F)]; [exists ""; repeat split; left; reflexivity|].
  cbn [trimEnd]. destruct (trimEnd s) as [|d t] eqn:Et.
  - destruct (isWhiteSpace c) eqn:Ec.
    + exists (String c pad). cbn in E. subst s. split; [reflexivity|].
      split; [cbn; rewrite Ec; exact B|]. split; [reflexivity | left; reflexivity].
    + exists pad. cbn in E. subst s. split; [reflexivity|]. split; [exact B|].
      split; [exact Ec | right; reflexivity].
  - exists pad.
    split; [change (String c s = String c (String d t +:+ pad)); f_equal; exact E|].
    split; [exact B|]. split; [exact L | right; reflexivity].
Qed.

(** [s.trim()] is [s] without the white space around it. *)
Lemma trim_spec (s : string) : Trimmed s (trim s).
Proof.
  unfold trim. destruct (trimStart_spec s) as (pad & E & B & F).
  destruct (trimEnd_spec (trimStart s)) as (pad' & E' & B' & L & F').
  exists pad, pad'. split; [rewrite <- E', <- E; reflexivity|]. split; [exact B|].
  split; [exact B'|]. unfold tight. rewrite L.
  destruct F' as [E1 | E2]; [rewrite E1; reflexivity | rewrite E2, F; reflexivity].
Qed.

(** Three white space characters: the no-break space, the tab and the line
    feed. *)
Definition nbsp : string := String (ascii_of_nat 160) EmptyString.
Definition tab : string := String (ascii_of_nat 9) EmptyString.
Definition newline : string := String (ascii_of_nat 10) EmptyString.

(** *** Numbers *)

Lemma toNumber_exact (z : Z) : 0 <= z < 2 ^ 53 -> toNumber z = Integer z.
Proof.
  intros [H0 H1]. unfold toNumber.
  destruct (Z.ltb_spec (Z.log2 z) 53) as [_|Hge]; [reflexivity|].
  exfalso. destruct (Z.eq_dec z 0) as [->|Hz]; [cbn in Hge; lia|].
  assert (Hl : Z.log2 z < 53) by (apply Z.log2_lt_pow2; lia). lia.
Qed.

Lemma parseDigits_bound (s : string) : forall acc,
  forallb isDigit (list_ascii_of_string s) = true -> 0 <= acc ->
  0 <= parseDigits acc s < (acc + 1) * 10 ^ Z.of_nat (String.length s).
Proof.
  induction s as [|c s IH]; intros acc Hd Ha; [cbn; lia|].
  cbn [list_ascii_of_string forallb] in Hd. apply andb_true_iff in Hd as [Hc Hs].
  assert (Hv : 0 <= digitVal c <= 9).
  { unfold isDigit in Hc. apply andb_true_iff in Hc as [H1 H2].
    apply Nat.leb_le in H1, H2. unfold digitVal. lia. }
  cbn [parseDigits String.length]. specialize (IH (10 * acc + digitVal c) Hs ltac:(lia)).
  rewrite Nat2Z.inj_succ, Z.pow_succ_r by lia. nia.
Qed.

(** Up to 15 digits [parseInt] gives the integer the digits denote. *)
Lemma parseInt_exact (s : string) :
  forallb isDigit (list_ascii_of_string s) = true -> (String.length s <= 15)%nat ->
  parseInt s = Integer (parseDigits 0 s).
Proof.
  intros Hd Hl. apply toNumber_exact.
  pose proof (parseDigits_bound s 0 Hd ltac:(lia)) as [H0 H1]. split; [exact H0|].
  assert (10 ^ Z.of_nat (String.length s) <= 10 ^ 15) by (apply Z.pow_le_mono_r; lia).
  assert (10 ^ 15 < 2 ^ 53) by reflexivity. lia.
Qed.

End JsSpec.

(** ** The merge preview *)
Module ParagraphMergeSpec.
Import ParagraphMerge JsSpec.


(** The paragraphs of a document lie one after the other: of two of them,
    the one that starts first also ends first. *)
Definition InSequence (ps : list ParagraphInfo) : Prop :=
  forall p q, p ∈ ps -> q ∈ ps -> startOffset p <= startOffset q -> endOffset p <= endOffset q.

(** Paragraphs with ranges apart from each other are in sequence. *)
Lemma separate_in_sequence (ps : list ParagraphInfo) :
  (forall p, p ∈ ps -> startOffset p <= endOffset p) ->
  (forall p q, p ∈ ps -> q ∈ ps ->
     p = q \/ endOffset p < startOffset q \/ endOffset q < startOffset p) ->
  InSequence ps.
Proof.
  intros Hr Hs p q Hp Hq Hle. pose proof (Hr p Hp). pose proof (Hr q Hq).
  destruct (Hs p q Hp Hq) as [->|[H1|H1]]; lia.
Qed.

(** The paragraphs of the hook's test suite. *)
Definition mockParagraphs (i : NodeId) : option ParagraphInfo :=
  if String.eqb i "para-1" then Some (mkParagraphInfo "para-1" "First paragraph." 0 16)
  else if String.eqb i "para-2" then Some (mkParagraphInfo "para-2" "Second paragraph." 17 34)
  else if String.eqb i "para-3" then Some (mkParagraphInfo "para-3" "Third paragraph." 35 51)
  else None.



Lemma omap_length_le {A B} (f : A -> option B) (l : list A) :
  (length (omap f l) <= length l)%nat.
Proof.
  induction l as [|x l IH]; simpl; [lia|].
  unfold omap in IH. destruct (f x); simpl; lia.
Qed.




End ParagraphMergeSpec.

(** ** Boundary drags *)
Module BoundaryMutationSpec.
Import QuoteReview BoundaryMutation.

(** One [updateDrag] call: the offset and the two mouse coordinates. *)
Definition Update : Type := Z * Z * Z.

Definition offsetOf (u : Update) : Z := fst (fst u).

Section Session.
Variable options : UseBoundaryMutationOptions.
Variable now : Z.

Definition applyUpdate (h : Hook) (u : Update) : Hook :=
  let '(x, mx, my) := u in updateDrag options now h x mx my.

(** [startDrag], then the [updateDrag] calls, each seeing the state the
    previous call left. *)
Definition dragging (h0 : Hook) (q : NodeId) (e : Edge) (o0 : Z) (ups : list Update) : Hook :=
  fold_left applyUpdate ups (startDrag now h0 q e o0).

(** ... then [endDrag], and the debounce delay passing. *)
Definition dragSession (h0 : Hook) (q : NodeId) (e : Edge) (o0 : Z) (ups : list Update) : Hook :=
  timerFires options now (endDrag (dragging h0 q e o0 ups)).

(** The offset the drag state holds after the updates. *)
Definition finalOffset (o0 : Z) (ups : list Update) : Z :=
  default o0 (offsetOf <$> last ups).

(** The two components of a range, seen from the dragged edge. *)
Definition fixedEdge (e : Edge) (r : Z * Z) : Z :=
  match e with EdgeStart => snd r | EdgeEnd => fst r end.
Definition draggedEdge (e : Edge) (r : Z * Z) : Z :=
  match e with EdgeStart => fst r | EdgeEnd => snd r end.

(** What the hook and the drag state hold while a drag is in progress. *)
Record Dragging (h0 h : Hook) (q : NodeId) (e : Edge) (o0 cur : Z) : Prop := mkDragging {
  dr_active : isDragging (boundaryDrag (ctx h)) = true;
  dr_edge : edge (boundaryDrag (ctx h)) = Some e;
  dr_original : originalOffset (boundaryDrag (ctx h)) = o0;
  dr_current : currentOffset (boundaryDrag (ctx h)) = cur;
  dr_quote : dragQuoteId (boundaryDrag (ctx h)) = Some q;
  dr_last : lastCommittedOffsetRef h = Some o0;
  dr_effects : effects h = effects h0 }.

Lemma startDrag_dragging (h0 : Hook) (q : NodeId) (e : Edge) (o0 : Z) :
  Dragging h0 (startDrag now h0 q e o0) q e o0 o0.
Proof. constructor; reflexivity. Qed.

Lemma updateDragRange_dragging (h0 h : Hook) (q : NodeId) (e : Edge) (o0 cur x : Z) :
  Dragging h0 h q e o0 cur ->
  updateDragRange h x = Some (dragRange (Some e) o0 x).
Proof.
  intros [Ha He Ho _ Hq _ _]. unfold updateDragRange, dragActive.
  rewrite Ha, He, Ho, Hq. reflexivity.
Qed.

Lemma updateDrag_dragging (h0 h : Hook) (q : NodeId) (e : Edge) (o0 cur : Z) (u : Update) :
  Dragging h0 h q e o0 cur -> Dragging h0 (applyUpdate h u) q e o0 (offsetOf u).
Proof.
  intros D. destruct u as [[x mx] my]. unfold applyUpdate, updateDrag.
  rewrite (updateDragRange_dragging _ _ _ _ _ _ x D).
  destruct D as [Ha He Ho Hc Hq Hl Hf].
  destruct (dragRange (Some e) o0 x) as [s t].
  destruct (checkParagraphCrossing options s t) as [crosses ps].
  constructor; simpl; try assumption. reflexivity.
Qed.

Lemma dragging_invariant (h0 : Hook) (q : NodeId) (e : Edge) (o0 : Z) (ups : list Update) :
  Dragging h0 (dragging h0 q e o0 ups) q e o0 (finalOffset o0 ups).
Proof.
  unfold dragging, finalOffset.
  induction ups as [|u ups IH] using rev_ind.
  - apply startDrag_dragging.
  - rewrite fold_left_app, last_snoc. simpl. eapply updateDrag_dragging, IH.
Qed.

Lemma dragRange_edges (e : Edge) (o0 x : Z) :
  fixedEdge e (dragRange (Some e) o0 x) = o0 /\ draggedEdge e (dragRange (Some e) o0 x) = x.
Proof. destruct e; split; reflexivity. Qed.

(** What one whole drag commits. *)
Definition sessionCommit (e : Edge) (o0 : Z) (ups : list Update) : list (Z * Z) :=
  if (5 <? Z.abs (finalOffset o0 ups - o0)) && onBoundaryCommit options
  then [dragRange (Some e) o0 (finalOffset o0 ups)] else [].

(** What one whole drag hands to the callbacks. *)
Definition sessionEffects (q : NodeId) (e : Edge) (o0 : Z) (ups : list Update) : list Effect :=
  if (5 <? Z.abs (finalOffset o0 ups - o0)) && onBoundaryCommit options then
    let r := dragRange (Some e) o0 (finalOffset o0 ups) in
    let c := checkParagraphCrossing options (fst r) (snd r) in
    BoundaryCommit q (mkResult (fst c) (snd c) (fst r) (snd r))
    :: (if fst c && onParagraphMerge options then [ParagraphMerge (snd c)] else [])
  else [].

Lemma dragSession_effects (h0 : Hook) (q : NodeId) (e : Edge) (o0 : Z) (ups : list Update) :
  effects (dragSession h0 q e o0 ups) = (effects h0 ++ sessionEffects q e o0 ups)%list.
Proof.
  unfold dragSession, sessionEffects.
  destruct (dragging_invariant h0 q e o0 ups) as [Ha He Ho Hc Hq Hl Hf].
  set (h := dragging h0 q e o0 ups) in *.
  unfold endDrag, dragActive. rewrite Ha, Hq. simpl.
  unfold timerFires. simpl. rewrite Hl, Hc, He, Ho.
  unfold checkParagraphCrossing.
  destruct (5 <? Z.abs (finalOffset o0 ups - o0)); destruct (onBoundaryCommit options);
    destruct e; simpl; rewrite Hf, ?app_nil_r; reflexivity.
Qed.

Lemma dragSession_committed (h0 : Hook) (q : NodeId) (e : Edge) (o0 : Z) (ups : list Update) :
  committed (dragSession h0 q e o0 ups) = (committed h0 ++ sessionCommit e o0 ups)%list.
Proof.
  unfold committed. rewrite dragSession_effects, omap_app. f_equal.
  unfold sessionEffects, sessionCommit.
  destruct ((5 <? Z.abs (finalOffset o0 ups - o0)) && onBoundaryCommit options); [|reflexivity].
  destruct (dragRange (Some e) o0 (finalOffset o0 ups)) as [s t].
  cbn [fst snd].
  destruct (fst (checkParagraphCrossing options s t) && onParagraphMerge options); reflexivity.
Qed.

End Session.

Definition idleHook : Hook := mkHook initialState None None [].

(** What a drag computes.  In a drag started by [startDrag q e o0], every
    range [updateDrag] computes has the dragged edge at the new offset and
    [o0] as the other edge.  After [endDrag] and the debounce delay, a range
    is committed when a commit callback is given and the drag ended more
    than 5 away from [o0]; that range again has [o0] as the other edge and
    the dragged edge at the last offset. *)
Lemma drag_session_ranges (options : UseBoundaryMutationOptions) (now : Z) (h0 : Hook)
    (q : NodeId) (e : Edge) (o0 : Z) (ups : list Update) :
  (forall before u after, ups = (before ++ u :: after)%list ->
     exists r, updateDragRange (dragging options now h0 q e o0 before) (offsetOf u) = Some r
               /\ fixedEdge e r = o0 /\ draggedEdge e r = offsetOf u)
  /\ committed (dragSession options now h0 q e o0 ups)
     = (committed h0 ++ sessionCommit options e o0 ups)%list
  /\ (forall r, r ∈ sessionCommit options e o0 ups ->
        fixedEdge e r = o0 /\ draggedEdge e r = finalOffset o0 ups
        /\ 5 < Z.abs (finalOffset o0 ups - o0)).
Proof.
  split; [|split].
  - intros before u after _. exists (dragRange (Some e) o0 (offsetOf u)). split.
    + eapply updateDragRange_dragging, dragging_invariant.
    + apply dragRange_edges.
  - apply dragSession_committed.
  - intros r Hr. unfold sessionCommit in Hr.
    destruct (Z.ltb_spec 5 (Z.abs (finalOffset o0 ups - o0))) as [Hsig|]; simpl in Hr;
      [|inversion Hr].
    destruct (onBoundaryCommit options); [|inversion Hr].
    apply list_elem_of_singleton in Hr as ->.
    destruct (dragRange_edges e o0 (finalOffset o0 ups)) as [H1 H2].
    split; [exact H1|]. split; [exact H2 | exact Hsig].
Qed.

(** C2, where the code departs from it.  [startDrag] is given the offset of
    the edge that is dragged and stores it as [originalOffset]; [updateDrag]
    and the commit of [endDrag] then put that offset in the place of the
    other edge ("Keep original end", "Keep original start" say their
    comments), so the edge that is not dragged is not where the quote has
    it, in the previews as in the committed range.  A drag that moves an
    edge towards the other one by more than 5 therefore commits a range whose
    start lies behind its end: with a commit callback, whenever the start
    edge ends more than 5 behind [o0], or the end edge more than 5 before
    it, the one range committed has [o0] as its other edge and
    [newStartOffset > newEndOffset]. *)
Theorem drag_commits_reversed_range (options : UseBoundaryMutationOptions) (now : Z)
    (h0 : Hook) (q : NodeId) (e : Edge) (o0 : Z) (ups : list Update) :
  onBoundaryCommit options = true ->
  match e with
  | EdgeStart => o0 + 5 < finalOffset o0 ups
  | EdgeEnd => finalOffset o0 ups < o0 - 5
  end ->
  exists r,
    committed (dragSession options now h0 q e o0 ups) = (committed h0 ++ [r])%list
    /\ fixedEdge e r = o0
    /\ draggedEdge e r = finalOffset o0 ups
    /\ snd r < fst r
    /\ (forall before u after, ups = (before ++ u :: after)%list ->
          exists r', updateDragRange (dragging options now h0 q e o0 before) (offsetOf u)
                     = Some r'
                     /\ fixedEdge e r' = o0).
Proof.
  intros Hcb Hmove. exists (dragRange (Some e) o0 (finalOffset o0 ups)).
  destruct (dragRange_edges e o0 (finalOffset o0 ups)) as [H1 H2].
  split; [|split; [exact H1|split; [exact H2|split]]].
  - rewrite dragSession_committed. unfold sessionCommit. rewrite Hcb.
    destruct (Z.ltb_spec 5 (Z.abs (finalOffset o0 ups - o0))) as [_|Hn]; [reflexivity|].
    destruct e; lia.
  - destruct e; cbn; lia.
  - intros before u after _. exists (dragRange (Some e) o0 (offsetOf u)). split.
    + eapply updateDragRange_dragging, dragging_invariant.
    + apply dragRange_edges.
Qed.

(** A quote that ends at 200: its end edge is dragged back to 150. *)
Lemma drag_commits_reversed_range_witness :
  onBoundaryCommit (mkOptions true false None) = true
  /\ finalOffset 200 [(180, 0, 0); (150, 0, 0)] < 200 - 5
  /\ exists r,
       committed (dragSession (mkOptions true false None) 0 idleHook "q1" EdgeEnd 200
                    [(180, 0, 0); (150, 0, 0)])
       = [r]
       /\ r = (200, 150).
Proof.
  assert (H1 : onBoundaryCommit (mkOptions true false None) = true) by reflexivity.
  assert (H2 : finalOffset 200 [(180, 0, 0); (150, 0, 0)] < 200 - 5) by (vm_compute; reflexivity).
  split; [exact H1|]. split; [exact H2|].
  destruct (drag_commits_reversed_range (mkOptions true false None) 0 idleHook "q1" EdgeEnd 200
              [(180, 0, 0); (150, 0, 0)] H1 H2) as (r & Hc & _).
  exists r. split; [exact Hc|].
  vm_compute in Hc. injection Hc as <-. reflexivity.
Defined.

End BoundaryMutationSpec.

(** ** The matcher against the declarative reading of a pattern *)
Module RegexSpec.
Import Regex.

(** A match leaves a suffix; if it consumed nothing, it did not move. *)
Lemma Matches_shrinks r p s p' s' :
  Matches r p s p' s' ->
  (String.length s' <= String.length s)%nat
  /\ (String.length s' = String.length s -> p' = p /\ s' = s).
Proof.
  induction 1 as
    [ prev s | cls prev a s Hc
    | r1 r2 p0 s0 p1 s1 p2 s2 _ [L1 E1] _ [L2 E2]
    | r1 r2 p0 s0 p1 s1 _ IH | r1 r2 p0 s0 p1 s1 _ IH
    | r p0 s0 p1 s1 _ IH | r p0 s0 | r p0 s0
    | r p0 s0 p1 s1 p2 s2 _ [L1 E1] _ [L2 E2]
    | n r p0 s0 p1 s1 _ IH | s | prev | prev s Hb ];
    try exact IH; try (split; [lia | intros _; split; reflexivity]).
  - simpl. split; [lia | intros H; lia].
  - split; [lia|]. intros H.
    destruct E2 as [-> ->]; [lia|]. apply E1. lia.
  - split; [lia|]. intros H.
    destruct E2 as [-> ->]; [lia|]. apply E1. lia.
Qed.

Section Soundness.

Definition StepSound (r : Regex) : Prop :=
  forall p s c (k : Cont) out, run r p s c k = Some out ->
    exists p' s' c', Matches r p s p' s' /\ k p' s' c' = Some out.

Lemma starLoop_sound r (k : Cont) :
  StepSound r ->
  forall fuel p s c out, starLoop (run r) k fuel p s c = Some out ->
    exists p' s' c', Matches (Star r) p s p' s' /\ k p' s' c' = Some out.
Proof.
  intros Hr. induction fuel as [|fuel IH]; intros p s c out H; simpl in H.
  - exists p, s, c. split; [constructor | exact H].
  - match type of H with context [run r p s c ?k'] => destruct (run r p s c k') as [o|] eqn:E end.
    + injection H as ->.
      apply Hr in E as (p1 & s1 & c1 & M1 & Hk). simpl in Hk.
      destruct (String.length s1 <? String.length s)%nat; [|discriminate].
      apply IH in Hk as (p2 & s2 & c2 & M2 & Hk).
      exists p2, s2, c2. split; [econstructor; eassumption | exact Hk].
    + exists p, s, c. split; [constructor | exact H].
Qed.

Lemma run_sound r : StepSound r.
Proof.
  induction r as [ | cls | r1 IH1 r2 IH2 | r1 IH1 r2 IH2 | r IH | r IH | n r IH | | | ];
    intros p s c k out H; simpl in H.
  - exists p, s, c. split; [constructor | exact H].
  - destruct s as [|a s]; [discriminate|]. destruct (cls a) eqn:E; [|discriminate].
    exists (Some a), s, c. split; [constructor; exact E | exact H].
  - apply IH1 in H as (p1 & s1 & c1 & M1 & H).
    apply IH2 in H as (p2 & s2 & c2 & M2 & H).
    exists p2, s2, c2. split; [econstructor; eassumption | exact H].
  - destruct (run r1 p s c k) as [o|] eqn:E.
    + injection H as ->. apply IH1 in E as (p1 & s1 & c1 & M1 & Hk).
      exists p1, s1, c1. split; [apply M_AltL; exact M1 | exact Hk].
    + apply IH2 in H as (p1 & s1 & c1 & M1 & Hk).
      exists p1, s1, c1. split; [apply M_AltR; exact M1 | exact Hk].
  - destruct (run r p s c k) as [o|] eqn:E.
    + injection H as ->. apply IH in E as (p1 & s1 & c1 & M1 & Hk).
      exists p1, s1, c1. split; [apply M_OptSome; exact M1 | exact Hk].
    + exists p, s, c. split; [apply M_OptNone | exact H].
  - eapply starLoop_sound; eassumption.
  - apply IH in H as (p1 & s1 & c1 & M1 & Hk).
    eexists p1, s1, _. split; [constructor; exact M1 | exact Hk].
  - destruct p; [discriminate|]. exists None, s, c. split; [constructor | exact H].
  - destruct s; [|discriminate]. exists p, EmptyString, c. split; [constructor | exact H].
  - destruct (xorb (isWordAt p) (isWordAt (headChar s))) eqn:E; [|discriminate].
    exists p, s, c. split; [constructor; exact E | exact H].
Qed.

End Soundness.

Section Completeness.

Definition StepComplete (r : Regex) : Prop :=
  forall p s p' s', Matches r p s p' s' ->
    forall c (k : Cont), (forall c', is_Some (k p' s' c')) -> is_Some (run r p s c k).

Lemma is_Some_first {A} (o : option A) (d : option A) :
  is_Some d -> is_Some (match o with Some x => Some x | None => d end).
Proof. destruct o; [eexists; reflexivity | trivial]. Qed.

Lemma is_Some_taken {A} (o : option A) (d : option A) :
  is_Some o -> is_Some (match o with Some x => Some x | None => d end).
Proof. intros [x ->]. eexists; reflexivity. Qed.

Lemma starLoop_complete r :
  StepComplete r ->
  forall p s p' s', Matches (Star r) p s p' s' ->
    forall fuel c (k : Cont), (String.length s <= fuel)%nat ->
      (forall c', is_Some (k p' s' c')) -> is_Some (starLoop (run r) k fuel p s c).
Proof.
  intros Hr p s p' s' HM. remember (Star r) as R eqn:ER.
  induction HM as
    [ | | | | | | | r0 p0 s0 | r0 p0 s0 p1 s1 p2 s2 HM1 _ HM2 IH2 | | | | ];
    try discriminate; injection ER as ->; intros fuel c k Hfuel Hk.
  - destruct fuel; simpl; [apply Hk | apply is_Some_first, Hk].
  - destruct (Matches_shrinks _ _ _ _ _ HM1) as [Hle Hsame].
    destruct (decide (String.length s1 = String.length s0)) as [E|E].
    + destruct (Hsame E) as [-> ->]. apply IH2; [reflexivity | exact Hfuel | exact Hk].
    + destruct fuel as [|fuel]; [lia|]. simpl. apply is_Some_taken.
      eapply Hr; [exact HM1|]. intros c'. simpl.
      rewrite (proj2 (Nat.ltb_lt _ _)) by lia.
      apply IH2; [reflexivity | lia | exact Hk].
Qed.

Lemma run_complete r : StepComplete r.
Proof.
  induction r as [ | cls | r1 IH1 r2 IH2 | r1 IH1 r2 IH2 | r IH | r IH | n r IH | | | ];
    intros p s p' s' HM c k Hk.
  - inversion HM; subst. apply Hk.
  - inversion HM as [ | ? ? a s0 Hc | | | | | | | | | | | ]; subst. simpl. rewrite Hc. apply Hk.
  - inversion HM as [ | | ? ? ? ? p1 s1 ? ? M1 M2 | | | | | | | | | | ]; subst. simpl.
    eapply IH1; [exact M1|]. intros c'. eapply IH2; [exact M2 | exact Hk].
  - simpl. inversion HM as [ | | | ? ? ? ? ? ? M1 | ? ? ? ? ? ? M1 | | | | | | | | ]; subst.
    + apply is_Some_taken. eapply IH1; [exact M1 | exact Hk].
    + apply is_Some_first. eapply IH2; [exact M1 | exact Hk].
  - simpl. inversion HM as [ | | | | | ? ? ? ? ? M1 | | | | | | | ]; subst.
    + apply is_Some_taken. eapply IH; [exact M1 | exact Hk].
    + apply is_Some_first, Hk.
  - simpl. eapply starLoop_complete; [exact IH | exact HM | lia | exact Hk].
  - simpl. inversion HM as [ | | | | | | | | | ? ? ? ? ? ? M1 | | | ]; subst.
    eapply IH; [exact M1|]. intros c'. apply Hk.
  - inversion HM; subst. apply Hk.
  - inversion HM; subst. apply Hk.
  - inversion HM as [ | | | | | | | | | | | | ? ? Hb ]; subst. simpl. rewrite Hb. apply Hk.
Qed.

End Completeness.

(** An attempt at a position succeeds exactly when the pattern can match
    there. *)
Lemma matchHere_is_Some r p s idx :
  is_Some (matchHere r p s idx) <-> exists p' s', Matches r p s p' s'.
Proof.
  unfold matchHere. split.
  - intros [m Hm].
    destruct (run r p s noCaptures (fun _ s' c => Some (s', c))) as [[rest c]|] eqn:E;
      [|discriminate].
    apply run_sound in E as (p' & s' & _ & M & _). eauto.
  - intros (p' & s' & M).
    pose proof (run_complete r p s p' s' M noCaptures (fun _ s' c => Some (s', c))
                  (fun c' => ltac:(eexists; reflexivity))) as [[rest c] ->].
    eexists; reflexivity.
Qed.

Lemma search_is_Some r s : forall p idx,
  is_Some (search r p s idx) <->
  exists before rest p' after,
    s = before +:+ rest /\ Matches r (lastCharFrom p before) rest p' after.
Proof.
  induction s as [|a s IH]; intros p idx; simpl.
  - destruct (matchHere r p EmptyString idx) as [m|] eqn:E.
    + split; [intros _ | intros _; eexists; reflexivity].
      assert (H : is_Some (matchHere r p EmptyString idx)) by (rewrite E; eexists; reflexivity).
      apply matchHere_is_Some in H as (p' & s' & M).
      exists EmptyString, EmptyString, p', s'. split; [reflexivity | exact M].
    + split; [intros [x Hx]; discriminate|].
      intros (before & rest & p' & after & Hs & M). exfalso.
      destruct before; [|discriminate]. change (EmptyString = rest) in Hs. simpl in M. subst rest.
      assert (H : is_Some (matchHere r p EmptyString idx))
        by (apply matchHere_is_Some; eauto).
      rewrite E in H. destruct H; discriminate.
  - destruct (matchHere r p (String a s) idx) as [m|] eqn:E.
    + split; [intros _ | intros _; eexists; reflexivity].
      assert (H : is_Some (matchHere r p (String a s) idx)) by (rewrite E; eexists; reflexivity).
      apply matchHere_is_Some in H as (p' & s' & M).
      exists EmptyString, (String a s), p', s'. split; [reflexivity | exact M].
    + rewrite IH. split.
      * intros (before & rest & p' & after & Hs & M).
        exists (String a before), rest, p', after. split; [subst s; reflexivity | exact M].
      * intros (before & rest & p' & after & Hs & M).
        destruct before as [|b before]; simpl in M.
        { exfalso. change (String a s = rest) in Hs. subst rest.
          assert (H : is_Some (matchHere r p (String a s) idx))
            by (apply matchHere_is_Some; eauto).
          rewrite E in H. destruct H; discriminate. }
        change (String a s = String b (before +:+ rest)) in Hs.
        injection Hs as <- ->. exists before, rest, p', after. split; [reflexivity | exact M].
Qed.

(** [str.match(re)] is not [null] exactly when the string matches the
    pattern somewhere. *)
Lemma matchString_is_Some r s : is_Some (matchString r s) <-> MatchesSomewhere r s.
Proof. apply search_is_Some. Qed.

(** Anchors. *)
Fixpoint startsAnchored (r : Regex) : bool :=
  match r with Bol => true | Seq r1 _ => startsAnchored r1 | _ => false end.

Fixpoint endsAnchored (r : Regex) : bool :=
  match r with Eol => true | Seq _ r2 => endsAnchored r2 | _ => false end.

Lemma startsAnchored_start r : startsAnchored r = true ->
  forall p s p' s', Matches r p s p' s' -> p = None.
Proof.
  induction r; try discriminate; simpl; intros Ha p s p' s' HM; inversion HM; subst; eauto.
Qed.

Lemma endsAnchored_end r : endsAnchored r = true ->
  forall p s p' s', Matches r p s p' s' -> s' = EmptyString.
Proof.
  induction r; try discriminate; simpl; intros Ha p s p' s' HM; inversion HM; subst; eauto.
Qed.

Lemma lastCharFrom_None s : forall p, lastCharFrom p s = None -> s = EmptyString.
Proof.
  induction s as [|a s IH]; intros p H; [reflexivity|].
  simpl in H. pose proof (IH _ H) as ->. simpl in H. discriminate H.
Qed.

Lemma anchored_whole r s :
  startsAnchored r = true -> endsAnchored r = true ->
  (MatchesSomewhere r s <-> MatchesWhole r s).
Proof.
  intros Hs He. split.
  - intros (before & rest & p' & after & -> & M).
    pose proof (startsAnchored_start r Hs _ _ _ _ M) as Hp.
    pose proof (endsAnchored_end r He _ _ _ _ M) as ->.
    apply lastCharFrom_None in Hp as ->. exists p'. exact M.
  - intros (p' & M). exists EmptyString, s, p', EmptyString. split; [reflexivity | exact M].
Qed.

End RegexSpec.

(** ** Parsing a reference *)
Module QuoteCreationSpec.
Import Regex RegexSpec QuoteReview QuoteCreation JsSpec.

Lemma parseReference_valid (s : string) :
  valid (parseReference s) = true <-> MatchesWhole REFERENCE_PATTERN (Js.trim s).
Proof.
  rewrite <- (anchored_whole REFERENCE_PATTERN) by reflexivity.
  rewrite <- matchString_is_Some. unfold parseReference.
  destruct (matchString REFERENCE_PATTERN (Js.trim s)) as [m|]; simpl.
  - split; [intros _; eexists; reflexivity | reflexivity].
  - split; [discriminate | intros [x Hx]; discriminate].
Qed.

Lemma parseReference_invalid (s : string) :
  valid (parseReference s) = false -> parseReference s = invalidReference.
Proof.
  unfold parseReference.
  destruct (matchString REFERENCE_PATTERN (Js.trim s)); [discriminate | reflexivity].
Qed.

Definition parsed (book : string) (chapter verseStart : Z) (verseEnd : option Z)
  : ParsedReference :=
  mkParsed true (Some book) (Some (Js.Integer chapter)) (Some (Js.Integer verseStart))
    (Js.Integer <$> verseEnd).

(** C3: every input is some text with white space around it and none at
    its ends, and [parseReference] answers [valid] exactly when that text
    matches [REFERENCE_PATTERN] from its first to its last character; on
    every other input it answers [{valid: false}], [performLookup] calls no
    lookup and [updateReference] schedules none.  The examples of the
    specification come out as written, also with white space around them (a
    no-break space is white space); the book is the first group without the
    white space around it, and a number of up to 15 digits is the number
    written (a longer one is rounded as numbers are). *)
Theorem parseReference_spec :
  (forall s, exists pad core pad',
      s = pad +:+ core +:+ pad' /\ blank pad = true /\ blank pad' = true /\ tight core = true
      /\ (valid (parseReference s) = true <-> MatchesWhole REFERENCE_PATTERN core)
      /\ (~ MatchesWhole REFERENCE_PATTERN core ->
          parseReference s = invalidReference
          /\ forall onLookupVerse,
               lookupCalls (performLookup onLookupVerse s) = []
               /\ snd (updateReference s) = None))
  /\ parseReference "John 3:16" = parsed "John" 3 16 None
  /\ parseReference "1 Corinthians 13:4-7" = parsed "1 Corinthians" 13 4 (Some 7)
  /\ parseReference "John" = invalidReference
  /\ parseReference "3:16" = invalidReference
  /\ parseReference "" = invalidReference
  /\ parseReference ("  John 3:16 " +:+ newline) = parsed "John" 3 16 None
  /\ parseReference (tab +:+ nbsp +:+ "1 Corinthians 13:4-7" +:+ nbsp)
     = parsed "1 Corinthians" 13 4 (Some 7)
  /\ parseReference ("Song of" +:+ nbsp +:+ "Solomon" +:+ tab +:+ "2:1")
     = parsed ("Song of" +:+ nbsp +:+ "Solomon") 2 1 None
  /\ parseReference ("John" +:+ nbsp +:+ "3:16") = parsed "John" 3 16 None
  /\ parseReference "2Kings4:7" = parsed "2Kings" 4 7 None
  /\ parseReference "John 3:16 KJV" = invalidReference
  /\ parseReference "John 3 :16" = invalidReference
  /\ parseReference "4 John 1:1" = invalidReference
  /\ parseReference "John 03:016-0" = parsed "John" 3 16 (Some 0)
  /\ parseReference "John 9007199254740993:1" = parsed "John" 9007199254740992 1 None
  /\ (forall s, forallb Js.isDigit (list_ascii_of_string s) = true ->
        (String.length s <= 15)%nat -> Js.parseInt s = Js.Integer (Js.parseDigits 0 s)).
Proof.
  split; [|repeat split; try (vm_compute; reflexivity); apply parseInt_exact].
  intros s. destruct (trim_spec s) as (pad & pad' & E & B & B' & T).
  exists pad, (Js.trim s), pad'. repeat (split; [assumption|]).
  split; [apply parseReference_valid|].
  intros Hno.
  assert (Hv : valid (parseReference s) = false).
  { destruct (valid (parseReference s)) eqn:Ev; [|reflexivity].
    exfalso. apply Hno, parseReference_valid, Ev. }
  split; [apply parseReference_invalid, Hv|].
  intros onLookupVerse. unfold performLookup, updateReference. rewrite Hv. simpl.
  rewrite andb_false_r. destruct onLookupVerse; split; reflexivity.
Qed.

End QuoteCreationSpec.

(** ** Interjection candidates *)
Module InterjectionSpec.
Import QuoteReview InterjectionDetection.

Definition pending (s : QuoteReviewContextState) : list InterjectionCandidate :=
  pendingCandidates (interjectionEdit s).

Lemma filter_sublist {A} (f : A -> bool) (l : list A) : sublist (List.filter f l) l.
Proof.
  induction l as [|x l IH]; simpl; [constructor|].
  destruct (f x); constructor; exact IH.
Qed.

Lemma map_sublist {A B} (f : A -> B) (l1 l2 : list A) :
  sublist l1 l2 -> sublist (map f l1) (map f l2).
Proof. induction 1; simpl; constructor; assumption. Qed.

Lemma detect_unconfirmed o text c :
  c ∈ detectInterjections o text -> confirmed c = false /\ rejected c = false.
Proof.
  unfold detectInterjections. intros H.
  apply list_elem_of_fmap in H as (m & -> & _). split; reflexivity.
Qed.

Lemma markCandidate_lookup conf rej (j : Z) (cs : list InterjectionCandidate) (i : nat) :
  markCandidate conf rej j cs !! i
  = if decide (j = Z.of_nat i)
    then (fun c => mkCandidate (c_text c) (c_startOffset c) (c_endOffset c) conf rej
                     (confidence c) (context c)) <$> cs !! i
    else cs !! i.
Proof.
  unfold markCandidate, Js.index.
  destruct (Z.leb_spec 0 j) as [Hj|Hj].
  - destruct (cs !! Z.to_nat j) as [c|] eqn:E.
    + destruct (decide (j = Z.of_nat i)) as [->|Hne].
      * rewrite Nat2Z.id in *. rewrite E. simpl.
        apply list_lookup_insert_eq. eapply lookup_lt_Some, E.
      * apply list_lookup_insert_ne. lia.
    + destruct (decide (j = Z.of_nat i)) as [->|Hne]; [|reflexivity].
      rewrite Nat2Z.id in E. rewrite E. reflexivity.
  - destruct (decide (j = Z.of_nat i)) as [->|Hne]; [lia | reflexivity].
Qed.

Definition defaults : UseInterjectionDetectionOptions := mkOptions None None.

(** *** What happens to the pending candidates *)

(** One thing that happens to the reducer state: a callback of the
    interjection hook is called, or some other part of the application
    dispatches an action. *)
Inductive Event : Type :=
| StartEditing (quoteId text : string)
| ConfirmInterjection (i : Z)
| RejectInterjection (i : Z)
| MarkSelection (text : string) (startOffset endOffset : Z)
| ExitEditing
| Dispatched (a : QuoteReviewAction).

(** SET_PENDING_INTERJECTION_CANDIDATES is dispatched by the hook only, from
    [startEditing] and from [markSelectionAsInterjection]: it does not occur
    as an action of its own. *)
Definition occurs (ev : Event) : bool :=
  match ev with
  | Dispatched (SET_PENDING_INTERJECTION_CANDIDATES _) => false
  | _ => true
  end.

(** The actions an event dispatches, in the state it happens in. *)
Definition actionsOf (o : UseInterjectionDetectionOptions) (s : QuoteReviewContextState)
    (ev : Event) : list QuoteReviewAction :=
  match ev with
  | StartEditing quoteId text => startEditing o quoteId text
  | ConfirmInterjection i => confirmInterjection i
  | RejectInterjection i => rejectInterjection i
  | MarkSelection text startOffset endOffset =>
      markSelectionAsInterjection s text startOffset endOffset
  | ExitEditing => exitEditing
  | Dispatched a => [a]
  end.

Definition happens (o : UseInterjectionDetectionOptions) (now : Z) (s : QuoteReviewContextState)
    (ev : Event) : QuoteReviewContextState :=
  dispatchAll s (map (pair now) (actionsOf o s ev)).

(** Where the candidate at index [j] after an event was before it: [None]
    when the event made it.  [startEditing] makes all its candidates;
    [markSelectionAsInterjection] makes the one it inserts and moves the
    later ones up by one; nothing else moves a candidate. *)
Definition origin (s : QuoteReviewContextState) (ev : Event) (j : nat) : option nat :=
  match ev with
  | StartEditing _ _ => None
  | MarkSelection _ startOffset _ =>
      let k := insertIndex (pending s) startOffset in
      if (j <? k)%nat then Some j else if (j =? k)%nat then None else Some (pred j)
  | _ => Some j
  end.

(** A candidate with its two flags set. *)
Definition flagged (conf rej : bool) (c : InterjectionCandidate) : InterjectionCandidate :=
  mkCandidate (c_text c) (c_startOffset c) (c_endOffset c) conf rej (confidence c) (context c).

(** The candidate [markSelectionAsInterjection] makes of the user's
    selection. *)
Definition handMarked (text : string) (startOffset endOffset : Z) : InterjectionCandidate :=
  mkCandidate text startOffset endOffset true false 1 (Some "Manually marked").

Lemma happens_reducer (o : UseInterjectionDetectionOptions) (now : Z)
    (s : QuoteReviewContextState) (a : QuoteReviewAction) :
  happens o now s (Dispatched a) = quoteReviewReducer now s a.
Proof. reflexivity. Qed.

Lemma lookup_inserted {A} (l : list A) (k j : nat) (x : A) :
  (k <= length l)%nat ->
  (take k l ++ x :: drop k l)%list !! j
  = if (j <? k)%nat then l !! j else if (j =? k)%nat then Some x else l !! pred j.
Proof.
  intros Hk. destruct (Nat.ltb_spec j k) as [Hlt|Hge].
  - rewrite lookup_app_l by (rewrite length_take; lia). apply lookup_take_lt, Hlt.
  - rewrite lookup_app_r by (rewrite length_take; lia). rewrite length_take.
    replace (k `min` length l)%nat with k by lia.
    destruct (Nat.eqb_spec j k) as [->|Hne].
    + rewrite Nat.sub_diag. reflexivity.
    + destruct (j - k)%nat as [|d] eqn:Ed; [lia|]. cbn [lookup list_lookup].
      change (drop k l !! d = l !! pred j). rewrite lookup_drop. f_equal. lia.
Qed.

Lemma insertIndex_le (cs : list InterjectionCandidate) (startOffset : Z) :
  (insertIndex cs startOffset <= length cs)%nat.
Proof.
  unfold insertIndex. destruct (list_find _ cs) as [[i x]|] eqn:E; [|lia].
  apply list_find_Some in E as (Hi & _). apply lookup_lt_Some in Hi. lia.
Qed.

(** One event, candidate by candidate. *)
Lemma event_tracks (o : UseInterjectionDetectionOptions) (now : Z)
    (s : QuoteReviewContextState) (ev : Event) (j : nat) (c' : InterjectionCandidate) :
  occurs ev = true ->
  pending (happens o now s ev) !! j = Some c' ->
  match origin s ev j with
  | Some i =>
      exists c, pending s !! i = Some c
                /\ (c' = c
                    \/ (CONFIRM_INTERJECTION_CANDIDATE (Z.of_nat i) ∈ actionsOf o s ev
                        /\ c' = flagged true false c)
                    \/ (REJECT_INTERJECTION_CANDIDATE (Z.of_nat i) ∈ actionsOf o s ev
                        /\ c' = flagged false true c))
  | None =>
      (exists q text, ev = StartEditing q text /\ c' ∈ detectInterjections o text
                      /\ confirmed c' = false /\ rejected c' = false)
      \/ (exists text a b, ev = MarkSelection text a b /\ c' = handMarked text a b)
  end.
Proof.
  intros Hev Hc'.
  assert (Hmark : forall conf rej i,
            markCandidate conf rej i (pending s) !! j = Some c' ->
            exists c, pending s !! j = Some c
                      /\ (c' = c \/ (i = Z.of_nat j /\ c' = flagged conf rej c))).
  { intros conf rej i H. rewrite markCandidate_lookup in H.
    destruct (decide (i = Z.of_nat j)) as [->|Hne].
    - destruct (pending s !! j) as [c|]; [|discriminate]. injection H as <-.
      exists c. split; [reflexivity|]. right. split; reflexivity.
    - exists c'. split; [exact H | left; reflexivity]. }
  destruct ev as [q text|i|i|text a b| |act]; cbn [origin].
  - left. exists q, text. split; [reflexivity|].
    change (pending (happens o now s (StartEditing q text))) with (detectInterjections o text)
      in Hc'.
    apply list_elem_of_lookup_2 in Hc'. split; [exact Hc'|].
    exact (detect_unconfirmed o text c' Hc').
  - change (pending (happens o now s (ConfirmInterjection i)))
      with (markCandidate true false i (pending s)) in Hc'.
    destruct (Hmark true false i Hc') as (c & Hc & [->|[-> ->]]).
    + exists c. split; [exact Hc | left; reflexivity].
    + exists c. split; [exact Hc|]. right. left. split; [|reflexivity].
      apply elem_of_cons. left. reflexivity.
  - change (pending (happens o now s (RejectInterjection i)))
      with (markCandidate false true i (pending s)) in Hc'.
    destruct (Hmark false true i Hc') as (c & Hc & [->|[-> ->]]).
    + exists c. split; [exact Hc | left; reflexivity].
    + exists c. split; [exact Hc|]. right. right. split; [|reflexivity].
      apply elem_of_cons. left. reflexivity.
  - change (pending (happens o now s (MarkSelection text a b)))
      with (take (insertIndex (pending s) a) (pending s)
            ++ handMarked text a b :: drop (insertIndex (pending s) a) (pending s))%list in Hc'.
    rewrite lookup_inserted in Hc' by apply insertIndex_le.
    destruct (j <? insertIndex (pending s) a)%nat.
    + exists c'. split; [exact Hc' | left; reflexivity].
    + destruct (j =? insertIndex (pending s) a)%nat.
      * injection Hc' as <-. right. exists text, a, b. split; reflexivity.
      * exists c'. split; [exact Hc' | left; reflexivity].
  - change (pending (happens o now s ExitEditing)) with (@nil InterjectionCandidate) in Hc'.
    rewrite lookup_nil in Hc'. discriminate Hc'.
  - rewrite happens_reducer in Hc'. cbn [actionsOf].
    destruct act; try discriminate Hev; unfold pending in *; cbn in Hc';
      try (exists c'; split; [exact Hc' | left; reflexivity]);
      try (rewrite lookup_nil in Hc'; discriminate Hc').
    + destruct (Hmark true false payload Hc') as (c & Hc & [->|[-> ->]]).
      * exists c. split; [exact Hc | left; reflexivity].
      * exists c. split; [exact Hc|]. right. left. split; [|reflexivity].
        apply elem_of_cons. left. reflexivity.
    + destruct (Hmark false true payload Hc') as (c & Hc & [->|[-> ->]]).
      * exists c. split; [exact Hc | left; reflexivity].
      * exists c. split; [exact Hc|]. right. right. split; [|reflexivity].
        apply elem_of_cons. left. reflexivity.
Qed.

(** Marking a selection by hand keeps every pending candidate as it is. *)
Lemma mark_keeps (o : UseInterjectionDetectionOptions) (now : Z) (s : QuoteReviewContextState)
    (text : string) (a b : Z) (i : nat) (c : InterjectionCandidate) :
  pending s !! i = Some c ->
  exists j, origin s (MarkSelection text a b) j = Some i
            /\ pending (happens o now s (MarkSelection text a b)) !! j = Some c.
Proof.
  intros Hc.
  change (pending (happens o now s (MarkSelection text a b)))
    with (take (insertIndex (pending s) a) (pending s)
          ++ handMarked text a b :: drop (insertIndex (pending s) a) (pending s))%list.
  cbn [origin]. destruct (Nat.ltb_spec i (insertIndex (pending s) a)) as [Hlt|Hge].
  - exists i. rewrite lookup_inserted by apply insertIndex_le.
    destruct (Nat.ltb_spec i (insertIndex (pending s) a)); [|lia]. split; [reflexivity | exact Hc].
  - exists (S i). rewrite lookup_inserted by apply insertIndex_le.
    destruct (Nat.ltb_spec (S i) (insertIndex (pending s) a)); [lia|].
    destruct (Nat.eqb_spec (S i) (insertIndex (pending s) a)); [lia|].
    split; [reflexivity | exact Hc].
Qed.

(** C7.  Every candidate [detectInterjections] returns is neither confirmed
    nor rejected, whatever its confidence (a match of "amen", at 0.95,
    included); the threshold selects among the matches and changes none of
    them; [startEditing] installs exactly those candidates.  Whatever
    happens to the reducer state afterwards (a callback of the hook, or an
    action dispatched by another part of the application), a pending
    candidate that was not confirmed and now is has been confirmed by
    CONFIRM_INTERJECTION_CANDIDATE for its index, which changes its two
    flags and nothing else.  Every candidate is, after an event, what it was
    before, up to the flags a CONFIRM or REJECT action for its index has
    set; the candidates an event makes are the detected ones, unconfirmed,
    and the selection the user marks by hand, which never was a pending
    unconfirmed candidate; and marking a selection keeps every pending
    candidate as it is. *)
Theorem interjection_confirmation_spec :
  (forall o text,
      Forall (fun c => confirmed c = false /\ rejected c = false) (detectInterjections o text)
      /\ detectInterjections o text
         = map toCandidate (List.filter (atLeast (effectiveThreshold o)) (findMatches text))
      /\ sublist (detectInterjections o text) (map toCandidate (findMatches text))
      /\ forall now s q,
           pending (happens o now s (StartEditing q text)) = detectInterjections o text)
  /\ detectInterjections defaults "amen"
     = [mkCandidate "amen" 0 4 false false (95 # 100) (Some "Common affirmation")]
  /\ (forall o now s ev j i c c',
        occurs ev = true ->
        origin s ev j = Some i ->
        pending s !! i = Some c -> confirmed c = false ->
        pending (happens o now s ev) !! j = Some c' -> confirmed c' = true ->
        CONFIRM_INTERJECTION_CANDIDATE (Z.of_nat i) ∈ actionsOf o s ev
        /\ c' = flagged true false c)
  /\ (forall o now s ev j c',
        occurs ev = true ->
        pending (happens o now s ev) !! j = Some c' ->
        match origin s ev j with
        | Some i =>
            exists c, pending s !! i = Some c
                      /\ (c' = c
                          \/ (CONFIRM_INTERJECTION_CANDIDATE (Z.of_nat i) ∈ actionsOf o s ev
                              /\ c' = flagged true false c)
                          \/ (REJECT_INTERJECTION_CANDIDATE (Z.of_nat i) ∈ actionsOf o s ev
                              /\ c' = flagged false true c))
        | None =>
            (exists q text, ev = StartEditing q text /\ c' ∈ detectInterjections o text
                            /\ confirmed c' = false /\ rejected c' = false)
            \/ (exists text a b, ev = MarkSelection text a b /\ c' = handMarked text a b)
        end)
  /\ (forall o now s text a b i c,
        pending s !! i = Some c ->
        exists j, origin s (MarkSelection text a b) j = Some i
                  /\ pending (happens o now s (MarkSelection text a b)) !! j = Some c).
Proof.
  split; [|split; [|split; [|split]]].
  - intros o text. split; [|split; [|split]].
    + apply Forall_forall. intros c Hc. eapply detect_unconfirmed, Hc.
    + reflexivity.
    + unfold detectInterjections. apply map_sublist, filter_sublist.
    + intros now s q. reflexivity.
  - vm_compute. reflexivity.
  - intros o now s ev j i c c' Hev Ho Hc Hu Hc' Hconf.
    pose proof (event_tracks o now s ev j c' Hev Hc') as H. rewrite Ho in H.
    destruct H as (c0 & Hc0 & H). rewrite Hc in Hc0. injection Hc0 as <-.
    destruct H as [->|[[Hin ->]|[_ ->]]].
    + congruence.
    + split; [exact Hin | reflexivity].
    + discriminate Hconf.
  - intros o now s ev j c'. apply event_tracks.
  - intros o now s text a b i c. apply mark_keeps.
Qed.

(** Editing "so oh amen" with the threshold lowered to 0.3: "oh" and "amen"
    are pending, unconfirmed.  "amen" is confirmed; then "so" is marked by
    hand in front, which moves "amen" from index 1 to index 2, confirmed by
    that one action. *)
Definition lowered : UseInterjectionDetectionOptions := mkOptions (Some (3 # 10)) None.

Definition editingSoOhAmen : QuoteReviewContextState :=
  happens lowered 0 initialState (StartEditing "q1" "so oh amen").

Definition amenConfirmed : QuoteReviewContextState :=
  happens lowered 0 editingSoOhAmen (ConfirmInterjection 1).

Lemma interjection_confirmation_spec_witness :
  pending editingSoOhAmen
  = [mkCandidate "oh" 3 5 false false (40 # 100) (Some "Exclamation");
     mkCandidate "amen" 6 10 false false (95 # 100) (Some "Common affirmation")]
  /\ pending amenConfirmed
     = [mkCandidate "oh" 3 5 false false (40 # 100) (Some "Exclamation");
        mkCandidate "amen" 6 10 true false (95 # 100) (Some "Common affirmation")]
  /\ (CONFIRM_INTERJECTION_CANDIDATE 1 ∈ actionsOf lowered editingSoOhAmen (ConfirmInterjection 1))
  /\ pending (happens lowered 0 amenConfirmed (MarkSelection "so" 0 2))
     = [handMarked "so" 0 2;
        mkCandidate "oh" 3 5 false false (40 # 100) (Some "Exclamation");
        mkCandidate "amen" 6 10 true false (95 # 100) (Some "Common affirmation")]
  /\ origin amenConfirmed (MarkSelection "so" 0 2) 2 = Some 1%nat.
Proof.
  split; [vm_compute; reflexivity|]. split; [vm_compute; reflexivity|].
  split; [|split; [vm_compute; reflexivity | vm_compute; reflexivity]].
  destruct interjection_confirmation_spec as (_ & _ & H & _).
  exact (proj1 (H lowered 0 editingSoOhAmen (ConfirmInterjection 1) 1%nat 1%nat
                  (mkCandidate "amen" 6 10 false false (95 # 100) (Some "Common affirmation"))
                  (mkCandidate "amen" 6 10 true false (95 # 100) (Some "Common affirmation"))
                  eq_refl eq_refl ltac:(vm_compute; reflexivity) eq_refl
                  ltac:(vm_compute; reflexivity) eq_refl)).
Defined.

End InterjectionSpec.

(** ** The converter *)
Module ConverterSpec.
Import Js Converter.

Section Spec.
Context {Timestamp : Type}.
Variable idOf : nat -> NodeId.
Variable timeOf : nat -> Timestamp.

Abbreviation Root := (@DocumentRootNode Timestamp).
Abbreviation Node := (@DocumentNode Timestamp).
Abbreviation Raw := (@RawNode Timestamp).
Abbreviation toAst := (tipTapJsonToAst idOf timeOf).
Abbreviation runLoop := (loop idOf timeOf).
Abbreviation convert := (convertTipTapToNode idOf timeOf).

(** *** Degenerate documents *)

(** No content, content that is not an array, or an empty array. *)
Definition Degenerate (d : DocContent) : Prop :=
  match d with NotAnArray _ => True | NodeArray nodes => nodes = [] end.

(** The id [tipTapJsonToAst] gives the root when [n] calls of the oracles have
    been made. *)
Definition expectedRootId (options : ConversionOptions) (existing : option Root) (n : nat)
  : NodeId :=
  if default true (preserveIds options)
  then match existing with
       | Some r => if truthyStr (root_id r) then root_id r else "root-1"
       | None => "root-1"
       end
  else idOf n.

Lemma rootIdFor_spec options (existing : option Root) n :
  fst (rootIdFor idOf options existing n) = expectedRootId options existing n.
Proof.
  unfold rootIdFor, expectedRootId. destruct (default true (preserveIds options)); [|reflexivity].
  destruct existing as [r|]; [|reflexivity]. simpl. unfold orStr. simpl.
  destruct (truthyStr (root_id r)); reflexivity.
Qed.

(** C8, as the code has it: a document whose content is missing, is not an
    array or is the empty array converts successfully to a root without
    children that carries the title, passage and speaker of [existingRoot]
    (and its id, by default); the warning is attached when the content is
    missing or not an array, and not for the empty array. *)
Theorem degenerate_document_spec (doc : TipTapDocument) (options : ConversionOptions)
    (existing : option Root) (n : nat) :
  Degenerate (doc_content doc) ->
  let r := fst (toAst doc options existing n) in
  success r = true /\ error r = None
  /\ (exists root,
        data r = Some root
        /\ root_children root = []
        /\ root_id root = expectedRootId options existing n
        /\ title root = existing ≫= title
        /\ biblePassage root = existing ≫= biblePassage
        /\ speaker root = existing ≫= speaker)
  /\ warnings r = match doc_content doc with
                  | NotAnArray _ => Some ["Document content was empty or invalid"]
                  | NodeArray _ => None
                  end.
Proof.
  intros Hd. pose proof (rootIdFor_spec options existing n) as Hid.
  unfold tipTapJsonToAst, tipTapJsonToAstBody. destruct (doc_content doc) as [v|nodes].
  - unfold lift, bind, ret, createTimestamp.
    destruct (rootIdFor idOf options existing n) as [rid n1]. simpl in *.
    repeat split. eexists. repeat split. exact Hid.
  - simpl in Hd. subst nodes. unfold lift, bindE, bind, ret, createTimestamp. simpl.
    destruct (rootIdFor idOf options existing n) as [rid n1]. simpl in *.
    repeat split. eexists. repeat split. exact Hid.
Qed.


(** *** When the conversion throws *)

Section TipTapInduction.
Variable P : TipTapNode -> Prop.
Hypothesis Hleaf : forall ty a tx ms, P (TT ty a None tx ms).
Hypothesis Hnode : forall ty a cs tx ms, Forall P cs -> P (TT ty a (Some cs) tx ms).

Fixpoint tiptap_induction (x : TipTapNode) : P x :=
  let all := fix all (l : list TipTapNode) : Forall P l :=
    match l with
    | [] => @List.Forall_nil _ P
    | y :: l' => @List.Forall_cons _ P y l' (tiptap_induction y) (all l')
    end in
  match x with
  | TT ty a None tx ms => Hleaf ty a tx ms
  | TT ty a (Some cs) tx ms => Hnode ty a cs tx ms (all cs)
  end.
End TipTapInduction.

(** The message of the one error the reverse direction can throw. *)
Definition throwMessage : string := "reference.match is not a function".

(** The attributes on which [convertTipTapBlockquote] throws: no truthy
    [book], and a [reference] that is truthy and not a string (a number
    other than 0, or [true]). *)
Definition illTypedReference (attrs : gmap string JValue) : bool :=
  negb (truthy (get attrs "book"))
  && match get attrs "reference" with
     | JNum q => negb (Qeq_bool q 0)
     | JBool b => b
     | _ => false
     end.

(** The nodes whose conversion throws: a blockquote with such attributes,
    or a paragraph or heading with such a node in its content. *)
Fixpoint throws (node : TipTapNode) : bool :=
  match node with
  | TT type attrs content _ _ =>
      if String.eqb type "paragraph" || String.eqb type "heading" then
        match content with Some cs => existsb throws cs | None => false end
      else if String.eqb type "blockquote" then illTypedReference (default ∅ attrs)
      else false
  end.

(** A call that throws when [b] holds and returns otherwise. *)
Definition Outcome {A} (b : bool) (r : Exc A) : Prop :=
  if b then r = Threw throwMessage else exists x, r = Ok x.

Lemma quoteMetadata_outcome (attrs : gmap string JValue) :
  Outcome (illTypedReference attrs) (quoteMetadata attrs).
Proof.
  unfold Outcome, illTypedReference, quoteMetadata, orValue.
  destruct (truthy (get attrs "book")); [eexists; reflexivity|]. cbn [negb andb].
  destruct (get attrs "reference") as [| |b|q|s]; cbn [truthy extractBookCall].
  - eexists; reflexivity.
  - eexists; reflexivity.
  - destruct b; [reflexivity | eexists; reflexivity].
  - destruct (Qeq_bool q 0); [eexists; reflexivity | reflexivity].
  - destruct (truthyStr s); eexists; reflexivity.
Qed.

Lemma collectE_cons {A B} (f : A -> Gen (Exc (option B))) (x : A) (l : list A) (n : nat) :
  collectE f (x :: l) n
  = match f x n with
    | (Ok r, n1) =>
        match collectE f l n1 with
        | (Ok rs, n2) => (Ok (match r with Some y => y :: rs | None => rs end), n2)
        | (Threw message, n2) => (Threw message, n2)
        end
    | (Threw message, n1) => (Threw message, n1)
    end.
Proof.
  cbn [collectE]. unfold bindE, ret. destruct (f x n) as [[r|m] n1]; [|reflexivity].
  destruct (collectE f l n1) as [[rs|m] n2]; reflexivity.
Qed.

Lemma collectE_outcome (o : ConversionOptions) (cs : list TipTapNode) :
  Forall (fun c => forall n, Outcome (throws c) (fst (convert o c n))) cs ->
  forall n, Outcome (existsb throws cs) (fst (collectE (convert o) cs n)).
Proof.
  induction 1 as [|c cs Hc _ IH]; intros n; [eexists; reflexivity|].
  rewrite collectE_cons. cbn [existsb]. specialize (Hc n). unfold Outcome in *.
  destruct (convert o c n) as [[r|m] n1]; cbn [fst] in *.
  - destruct (throws c); [discriminate|]. cbn [orb]. specialize (IH n1).
    destruct (collectE (convert o) cs n1) as [[rs|m] n2]; cbn [fst] in *.
    + destruct (existsb throws cs); [discriminate | eexists; reflexivity].
    + destruct (existsb throws cs); [exact IH | destruct IH; discriminate].
  - destruct (throws c); cbn [orb]; [congruence | destruct Hc; discriminate].
Qed.

(** [convertTipTapToNode], case by case. *)
Lemma convert_unfold (o : ConversionOptions) ty a content tx ms (n : nat) :
  convert o (TT ty a content tx ms) n
  = if String.eqb ty "paragraph" then
      match (match content with Some l => collectE (convert o) l n | None => (Ok [], n) end) with
      | (Ok cs, n1) =>
          let r2 := orEmptyText idOf timeOf cs n1 in
          let r3 := idFrom idOf (flag (preserveIds o)) (getOpt a "nodeId") (snd r2) in
          (Ok (Some (RawParagraph (fst r3) 1 (timeOf (snd r3)) (fst r2))), S (snd r3))
      | (Threw message, n1) => (Threw message, n1)
      end
    else if String.eqb ty "blockquote" then
      let r1 := convertQuoteChildren idOf timeOf content n in
      match quoteMetadata (default ∅ a) with
      | Ok md =>
          let r2 := idFrom idOf (flag (preserveIds o)) (get (default ∅ a) "nodeId") (snd r1) in
          (Ok (Some (RawQuoteBlock (fst r2) 1 (timeOf (snd r2)) md (fst r1))), S (snd r2))
      | Threw message => (Threw message, snd r1)
      end
    else if String.eqb ty "heading" then
      match (match content with Some l => collectE (convert o) l n | None => (Ok [], n) end) with
      | (Ok cs, n1) =>
          let r2 := orEmptyText idOf timeOf cs n1 in
          let r3 := idFrom idOf (flag (preserveIds o)) (getOpt a "nodeId") (snd r2) in
          (Ok (Some (RawHeading (fst r3) 1 (timeOf (snd r3))
                       (orValue (getOpt a "level") (JNum 1)) (fst r2))), S (snd r3))
      | (Threw message, n1) => (Threw message, n1)
      end
    else if String.eqb ty "text" then
      (Ok (Some (fst (convertTipTapText idOf timeOf o (TT ty a content tx ms) n))),
       snd (convertTipTapText idOf timeOf o (TT ty a content tx ms) n))
    else (Ok None, n).
Proof.
  cbn [convertTipTapToNode].
  destruct (String.eqb ty "paragraph").
  { unfold bindE, lift, bind, ret, createTimestamp.
    destruct (match content with
              | Some l => collectE (convert o) l
              | None => fun n => (Ok [], n)
              end n) as [r n1] eqn:E.
    assert (E' : match content with Some l => collectE (convert o) l n | None => (Ok [], n) end
                 = (r, n1)) by (destruct content; exact E).
    rewrite E'. destruct r as [cs|m]; [|reflexivity]. cbn zeta.
    destruct (orEmptyText idOf timeOf cs n1) as [children n2]. cbn [fst snd].
    destruct (idFrom idOf (flag (preserveIds o)) (getOpt a "nodeId") n2) as [i n3]. reflexivity. }
  destruct (String.eqb ty "blockquote").
  { unfold convertTipTapBlockquote, bindE, bind, ret, createTimestamp. cbn [tt_attrs tt_content].
    cbn zeta.
    destruct (convertQuoteChildren idOf timeOf content n) as [cs n1]. cbn [fst snd].
    destruct (quoteMetadata (default ∅ a)) as [md|m]; [|reflexivity].
    destruct (idFrom idOf (flag (preserveIds o)) (get (default ∅ a) "nodeId") n1) as [i n2].
    reflexivity. }
  destruct (String.eqb ty "heading").
  { unfold bindE, lift, bind, ret, createTimestamp.
    destruct (match content with
              | Some l => collectE (convert o) l
              | None => fun n => (Ok [], n)
              end n) as [r n1] eqn:E.
    assert (E' : match content with Some l => collectE (convert o) l n | None => (Ok [], n) end
                 = (r, n1)) by (destruct content; exact E).
    rewrite E'. destruct r as [cs|m]; [|reflexivity]. cbn zeta.
    destruct (orEmptyText idOf timeOf cs n1) as [children n2]. cbn [fst snd].
    destruct (idFrom idOf (flag (preserveIds o)) (getOpt a "nodeId") n2) as [i n3]. reflexivity. }
  destruct (String.eqb ty "text"); [|reflexivity].
  unfold lift, bind, ret. destruct (convertTipTapText idOf timeOf o (TT ty a content tx ms) n).
  reflexivity.
Qed.

Lemma convert_outcome (o : ConversionOptions) (node : TipTapNode) (n : nat) :
  Outcome (throws node) (fst (convert o node n)).
Proof.
  revert n.
  assert (Hgen : forall ty a content tx ms,
            match content with
            | Some cs => Forall (fun c => forall n, Outcome (throws c) (fst (convert o c n))) cs
            | None => True
            end ->
            forall n, Outcome (throws (TT ty a content tx ms)) (fst (convert o (TT ty a content tx ms) n))).
  { intros ty a content tx ms IH n. rewrite convert_unfold. cbn [throws].
    assert (Hc : Outcome (match content with Some cs => existsb throws cs | None => false end)
                   (fst (match content with
                         | Some l => collectE (convert o) l n
                         | None => (Ok [], n)
                         end))).
    { destruct content as [cs|]; [exact (collectE_outcome o cs IH n) | eexists; reflexivity]. }
    destruct (String.eqb ty "paragraph"); cbn [orb].
    { unfold Outcome in *.
      destruct (match content with Some l => collectE (convert o) l n | None => (Ok [], n) end)
        as [[cs|m] n1]; cbn [fst] in *.
      - destruct (match content with Some cs0 => existsb throws cs0 | None => false end);
          [discriminate | eexists; reflexivity].
      - destruct (match content with Some cs0 => existsb throws cs0 | None => false end);
          [congruence | destruct Hc; discriminate]. }
    destruct (String.eqb ty "blockquote") eqn:Eb.
    { assert (Eh : String.eqb ty "heading" = false).
      { apply String.eqb_eq in Eb. subst ty. reflexivity. }
      rewrite Eh. pose proof (quoteMetadata_outcome (default ∅ a)) as Hq. unfold Outcome in *.
      destruct (quoteMetadata (default ∅ a)) as [md|m]; cbn [fst].
      - destruct (illTypedReference (default ∅ a)); [discriminate | eexists; reflexivity].
      - destruct (illTypedReference (default ∅ a)); [congruence | destruct Hq; discriminate]. }
    destruct (String.eqb ty "heading").
    { unfold Outcome in *.
      destruct (match content with Some l => collectE (convert o) l n | None => (Ok [], n) end)
        as [[cs|m] n1]; cbn [fst] in *.
      - destruct (match content with Some cs0 => existsb throws cs0 | None => false end);
          [discriminate | eexists; reflexivity].
      - destruct (match content with Some cs0 => existsb throws cs0 | None => false end);
          [congruence | destruct Hc; discriminate]. }
    destruct (String.eqb ty "text"); eexists; reflexivity. }
  induction node as [ty a tx ms|ty a cs tx ms IH] using tiptap_induction.
  - apply Hgen. exact I.
  - apply Hgen. exact IH.
Qed.

(** *** The title heading *)

(** A level-1 heading with the centre alignment [astToTipTapJson] gives the
    title. *)
Definition centeredH1 (node : TipTapNode) : bool :=
  String.eqb (tt_type node) "heading"
  && strictEqNum (getOpt (tt_attrs node) "level") 1
  && strictEqStr (getOpt (tt_attrs node) "textAlign") "center".

Definition isHeadingNode (x : Raw) : Prop :=
  match x with RawHeading _ _ _ _ _ => True | _ => False end.

Definition startState : @LoopState Timestamp := mkLoop [] None None None true.

(** The title the loop finds in a document. *)
Definition titleOf (nodes : list TipTapNode) : option string :=
  match nodes with
  | first :: _ => if centeredH1 first then Some (extractText first) else None
  | [] => None
  end.

(** The prefixes by which the loop recognises a metadata paragraph. *)
Definition hasMetadataPrefix (text : string) : bool :=
  startsWith text "Primary Reference:" || startsWith text "Primary References:"
  || startsWith text "References from the Sermon:" || startsWith text "Tags:"
  || startsWith text "Speaker:".

(** The nodes the loop hands to [convertTipTapToNode]: all but the title
    heading (a centred level-1 heading that comes first), the metadata
    paragraphs and the rules. *)
Definition reaches (first : bool) (node : TipTapNode) : bool :=
  negb (first && centeredH1 node)
  && negb (String.eqb (tt_type node) "paragraph" && hasMetadataPrefix (extractText node))
  && negb (String.eqb (tt_type node) "horizontalRule").

Fixpoint loopThrows (first : bool) (nodes : list TipTapNode) : bool :=
  match nodes with
  | [] => false
  | node :: rest => (reaches first node && throws node) || loopThrows false rest
  end.

(** The documents on which [tipTapJsonToAst] fails. *)
Definition docThrows (nodes : list TipTapNode) : bool := loopThrows true nodes.

Lemma isTitleHeading_spec (st : @LoopState Timestamp) node :
  isTitleHeading st node
  = centeredH1 node && isFirstNode st && negb (truthyOptStr (ls_title st)).
Proof.
  unfold isTitleHeading, centeredH1.
  destruct (String.eqb (tt_type node) "heading"), (strictEqNum _ 1), (strictEqStr _ "center"),
    (isFirstNode st), (truthyOptStr (ls_title st)); reflexivity.
Qed.

Lemma metadataParagraph_spec (st : @LoopState Timestamp) (text : string) :
  match metadataParagraph st text with
  | Some st' => hasMetadataPrefix text = true /\ ls_children st' = ls_children st
                /\ ls_title st' = ls_title st /\ isFirstNode st' = false
  | None => hasMetadataPrefix text = false
  end.
Proof.
  unfold metadataParagraph, hasMetadataPrefix.
  destruct (startsWith text "Primary Reference:"), (startsWith text "Primary References:"),
    (startsWith text "References from the Sermon:"), (startsWith text "Tags:"),
    (startsWith text "Speaker:"); cbn; repeat split.
Qed.

(** One round of the loop, case by case. *)
Lemma loopBody_unfold o (st : LoopState) node n :
  let first := isFirstNode st && negb (truthyOptStr (ls_title st)) in
  if first && centeredH1 node then
    loopBody idOf timeOf o st node n
    = (Ok (mkLoop (ls_children st) (Some (extractText node)) (ls_biblePassage st)
             (ls_speaker st) false), n)
  else if reaches first node then
    loopBody idOf timeOf o st node n
    = match convert o node n with
      | (Ok converted, n1) =>
          (Ok (mkLoop (ls_children st ++ match converted with Some c => [c] | None => [] end)
                 (ls_title st) (ls_biblePassage st) (ls_speaker st) false), n1)
      | (Threw message, n1) => (Threw message, n1)
      end
  else
    exists st', loopBody idOf timeOf o st node n = (Ok st', n)
                /\ ls_children st' = ls_children st /\ ls_title st' = ls_title st
                /\ isFirstNode st' = false.
Proof.
  cbn zeta. unfold loopBody, reaches. rewrite isTitleHeading_spec.
  replace (centeredH1 node && isFirstNode st && negb (truthyOptStr (ls_title st)))
    with (isFirstNode st && negb (truthyOptStr (ls_title st)) && centeredH1 node)
    by (destruct (centeredH1 node), (isFirstNode st), (truthyOptStr (ls_title st)); reflexivity).
  destruct (isFirstNode st && negb (truthyOptStr (ls_title st)) && centeredH1 node);
    [reflexivity|]. cbn [negb andb].
  destruct (String.eqb (tt_type node) "paragraph") eqn:Ep.
  - pose proof (metadataParagraph_spec st (extractText node)) as Hm.
    destruct (metadataParagraph st (extractText node)) as [st'|].
    + destruct Hm as (-> & H1 & H2 & H3). cbn [negb andb]. exists st'. repeat split; assumption.
    + rewrite Hm. cbn [negb andb].
      assert (Eh : String.eqb (tt_type node) "horizontalRule" = false).
      { apply String.eqb_eq in Ep. rewrite Ep. reflexivity. }
      rewrite Eh. cbn [negb]. unfold bindE, ret.
      destruct (convertTipTapToNode idOf timeOf o node n) as [[[c|]|m] n1];
        rewrite ?app_nil_r; reflexivity.
  - cbn [negb andb]. destruct (String.eqb (tt_type node) "horizontalRule").
    + cbn [negb]. eexists. repeat split.
    + cbn [negb]. unfold bindE, ret.
      destruct (convertTipTapToNode idOf timeOf o node n) as [[[c|]|m] n1];
        rewrite ?app_nil_r; reflexivity.
Qed.

Lemma loopBody_ok o (st st' : LoopState) node n n' :
  loopBody idOf timeOf o st node n = (Ok st', n') ->
  isFirstNode st' = false
  /\ ls_children st `prefix_of` ls_children st'
  /\ (isFirstNode st = false -> ls_title st' = ls_title st).
Proof.
  intros H. pose proof (loopBody_unfold o st node n) as U. cbn zeta in U.
  destruct (isFirstNode st && negb (truthyOptStr (ls_title st)) && centeredH1 node) eqn:Ea.
  - rewrite U in H. injection H as <- <-. cbn. split; [reflexivity|]. split; [reflexivity|].
    intros Hf. rewrite Hf in Ea. discriminate Ea.
  - destruct (reaches _ node).
    + rewrite U in H. destruct (convert o node n) as [[c|m] n1]; [|discriminate].
      injection H as <- <-. cbn. split; [reflexivity|]. split; [|reflexivity].
      apply prefix_app_r. reflexivity.
    + destruct U as (st1 & E & Hc & Ht & Hf). rewrite E in H. injection H as <- <-.
      split; [exact Hf|]. split; [rewrite Hc; reflexivity | intros _; exact Ht].
Qed.

Lemma loop_cons o (st : LoopState) node rest n :
  runLoop o st (node :: rest) n
  = match loopBody idOf timeOf o st node n with
    | (Ok st', n') => runLoop o st' rest n'
    | (Threw message, n') => (Threw message, n')
    end.
Proof. cbn [loop]. unfold bindE. destruct (loopBody idOf timeOf o st node n) as [[st'|m] n']; reflexivity. Qed.

Lemma loop_app o (st : LoopState) l1 l2 n :
  runLoop o st (l1 ++ l2) n
  = match runLoop o st l1 n with
    | (Ok st1, n1) => runLoop o st1 l2 n1
    | (Threw message, n1) => (Threw message, n1)
    end.
Proof.
  revert st n. induction l1 as [|x l1 IH]; intros st n; [reflexivity|].
  cbn [app]. rewrite !loop_cons.
  destruct (loopBody idOf timeOf o st x n) as [[st'|m] n']; [apply IH | reflexivity].
Qed.

Lemma loop_ok o l : forall (st st' : LoopState) n n',
  runLoop o st l n = (Ok st', n') ->
  (l ≠ [] -> isFirstNode st' = false)
  /\ ls_children st `prefix_of` ls_children st'
  /\ (isFirstNode st = false -> ls_title st' = ls_title st).
Proof.
  induction l as [|x l IH]; intros st st' n n' H.
  - injection H as <- <-. split; [congruence|]. split; [reflexivity | intros _; reflexivity].
  - rewrite loop_cons in H.
    destruct (loopBody idOf timeOf o st x n) as [[st1|m] n1] eqn:E; [|discriminate].
    destruct (loopBody_ok o st st1 x n n1 E) as (F1 & P1 & T1).
    destruct (IH st1 st' n1 n' H) as (F2 & P2 & T2).
    split; [|split].
    + intros _. destruct l as [|y l]; [injection H as <- <-; exact F1 | apply F2; discriminate].
    + etrans; eassumption.
    + intros Hf. rewrite (T2 F1). apply T1, Hf.
Qed.

(** The loop throws exactly on the documents of [loopThrows]. *)
Lemma loop_outcome o (nodes : list TipTapNode) : forall (st : LoopState) (n : nat),
  Outcome (loopThrows (isFirstNode st && negb (truthyOptStr (ls_title st))) nodes)
    (fst (runLoop o st nodes n)).
Proof.
  induction nodes as [|node rest IH]; intros st n; [eexists; reflexivity|].
  rewrite loop_cons. cbn [loopThrows].
  pose proof (loopBody_unfold o st node n) as U. cbn zeta in U.
  set (first := isFirstNode st && negb (truthyOptStr (ls_title st))) in *.
  assert (Hnext : forall st1 n1, isFirstNode st1 = false ->
            Outcome (loopThrows false rest) (fst (runLoop o st1 rest n1))).
  { intros st1 n1 Hf. specialize (IH st1 n1). rewrite Hf in IH. exact IH. }
  destruct (first && centeredH1 node) eqn:Ea.
  - rewrite U. unfold reaches. rewrite Ea. cbn [negb andb orb]. apply Hnext. reflexivity.
  - destruct (reaches first node) eqn:Er.
    + rewrite U. cbn [andb]. pose proof (convert_outcome o node n) as Hc. unfold Outcome in Hc.
      destruct (convert o node n) as [[c|m] n1]; cbn [fst] in *.
      * destruct (throws node); [discriminate|]. cbn [orb]. apply Hnext. reflexivity.
      * destruct (throws node); [|destruct Hc; discriminate]. cbn [orb]. unfold Outcome.
        congruence.
    + destruct U as (st1 & E & _ & _ & Hf). rewrite E. cbn [andb orb]. apply Hnext, Hf.
Qed.

(** The title the loop ends with. *)
Lemma loop_title o nodes (st : LoopState) n n' :
  runLoop o startState nodes n = (Ok st, n') ->
  truthyOptStr (ls_title st) = truthyOptStr (titleOf nodes)
  /\ (truthyOptStr (titleOf nodes) = true -> ls_title st = titleOf nodes).
Proof.
  destruct nodes as [|first rest]; [intros [= <- <-]; split; reflexivity|].
  rewrite loop_cons. intros H.
  destruct (loopBody idOf timeOf o startState first n) as [[st1|m] n1] eqn:E; [|discriminate].
  destruct (loopBody_ok o startState st1 first n n1 E) as (F1 & _ & _).
  destruct (loop_ok o rest st1 st n1 n' H) as (_ & _ & T). rewrite (T F1).
  assert (Hb : ls_title st1 = if centeredH1 first then Some (extractText first) else None).
  { pose proof (loopBody_unfold o startState first n) as U. cbn zeta in U.
    change (isFirstNode startState && negb (truthyOptStr (ls_title startState))) with true in U.
    cbn [andb] in U. destruct (centeredH1 first).
    - rewrite U in E. injection E as <- _. reflexivity.
    - destruct (reaches true first).
      + rewrite U in E. destruct (convert o first n) as [[c|m] n2]; [|discriminate].
        injection E as <- _. reflexivity.
      + destruct U as (st2 & E2 & _ & Ht & _). rewrite E2 in E. injection E as <- _. exact Ht. }
  rewrite Hb. split; [reflexivity | intros _; reflexivity].
Qed.

(** The result of [tipTapJsonToAst] on a content array, in terms of the loop. *)
Lemma toAst_array o (existing : option Root) nodes n :
  match runLoop o startState nodes n with
  | (Ok st, n1) =>
      exists t,
        fst (toAst (mkDoc (NodeArray nodes)) o existing n)
        = mkConversionResult true
            (Some (mkRoot (expectedRootId o existing n1) 1 t
                     (orStr (ls_title st) (existing ≫= title))
                     (orStr (ls_biblePassage st) (existing ≫= biblePassage))
                     (orStr (ls_speaker st) (existing ≫= speaker))
                     None (ls_children st)))
            None None
  | (Threw message, _) =>
      fst (toAst (mkDoc (NodeArray nodes)) o existing n)
      = mkConversionResult false None (Some message) None
  end.
Proof.
  unfold tipTapJsonToAst, tipTapJsonToAstBody, bindE, lift, bind, ret, createTimestamp.
  cbn [doc_content]. fold startState.
  destruct (loop idOf timeOf o startState nodes n) as [[st|m] n1]; [|reflexivity].
  pose proof (rootIdFor_spec o existing n1) as Hid.
  destruct (rootIdFor idOf o existing n1) as [rid n2]. cbn [fst snd] in *. subst rid.
  eexists. reflexivity.
Qed.

(** A heading is converted to a heading node, unless a node in it throws. *)
Lemma convert_heading o node n :
  tt_type node = "heading" ->
  match fst (convert o node n) with
  | Ok r => exists i t level cs, r = Some (RawHeading i 1 t level cs)
  | Threw _ => throws node = true
  end.
Proof.
  intros Ht. pose proof (convert_outcome o node n) as Ho. unfold Outcome in Ho.
  destruct node as [type attrs content text marks]. cbn [tt_type] in Ht. subst type.
  rewrite convert_unfold in *. cbn [String.eqb Ascii.eqb Bool.eqb] in *. cbv iota in *.
  destruct (match content with
            | Some l => collectE (convert o) l n
            | None => (Ok [], n)
            end) as [[cs|m] n1]; cbn [fst] in *.
  - eauto.
  - destruct (throws (TT "heading" attrs content text marks)); [reflexivity|].
    destruct Ho; discriminate.
Qed.

Lemma extractText_leaves (ty : string) (attrs : option (gmap string JValue)) (texts : list string) :
  extractText (TT ty attrs (Some (map (fun s => textLeaf s None) texts)) None None)
  = String.concat "" texts.
Proof.
  cbn [extractText truthyOptStr]. rewrite map_map. unfold join. f_equal.
  induction texts as [|s texts IH]; [reflexivity|]. cbn [map]. rewrite IH. f_equal.
  unfold textLeaf. cbn [extractText]. destruct s; reflexivity.
Qed.

(** C9: [tipTapJsonToAst] fails when a node it converts throws, and
    otherwise succeeds with a root for which the following holds.  The first
    node of the document becomes the title exactly when it is a level-1
    heading with [textAlign = 'center'] (an empty text leaves the earlier
    title in place); it then adds no child.  Any other heading, a later one
    or a first one that is not a centred level-1 heading, is converted to a
    heading node among the root's children and leaves the title alone.  The
    title taken from a heading is the text of its text leaves, one after the
    other. *)
Theorem title_absorption_spec (o : ConversionOptions) (existing : option Root)
    (nodes : list TipTapNode) (n : nat) :
  let r := fst (toAst (mkDoc (NodeArray nodes)) o existing n) in
  (if docThrows nodes
   then r = mkConversionResult false None (Some throwMessage) None
   else exists root,
     data r = Some root /\ success r = true
     /\ title root = orStr (titleOf nodes) (existing ≫= title)
     /\ (forall first rest, nodes = first :: rest -> centeredH1 first = true ->
           exists st,
             fst (runLoop o (mkLoop [] (Some (extractText first)) None None false) rest n) = Ok st
             /\ root_children root = ls_children st)
     /\ (forall before h after, nodes = (before ++ h :: after)%list -> tt_type h = "heading" ->
           before ≠ [] \/ centeredH1 h = false ->
           exists st hn later,
             fst (runLoop o startState before n) = Ok st
             /\ fst (convert o h (snd (runLoop o startState before n))) = Ok (Some hn)
             /\ isHeadingNode hn
             /\ root_children root = (ls_children st ++ hn :: later)%list))
  /\ (forall (st : LoopState) node m, tt_type node = "heading" ->
        let absorbed := centeredH1 node && isFirstNode st && negb (truthyOptStr (ls_title st)) in
        match fst (loopBody idOf timeOf o st node m) with
        | Ok st' =>
            (ls_children st' = ls_children st <-> absorbed = true)
            /\ ls_title st' = (if absorbed then Some (extractText node) else ls_title st)
        | Threw _ => absorbed = false /\ throws node = true
        end)
  /\ (forall ty attrs texts,
        extractText (TT ty attrs (Some (map (fun s => textLeaf s None) texts)) None None)
        = String.concat "" texts).
Proof.
  cbn zeta. split; [|split; [|apply extractText_leaves]].
  - pose proof (loop_outcome o nodes startState n) as Ho.
    change (isFirstNode startState && negb (truthyOptStr (ls_title startState))) with true in Ho.
    fold (docThrows nodes) in Ho. unfold Outcome in Ho.
    pose proof (toAst_array o existing nodes n) as Hr.
    destruct (runLoop o startState nodes n) as [[st|msg] n1] eqn:Erun; cbn [fst] in Ho.
    2:{ destruct (docThrows nodes); [|destruct Ho; discriminate].
        injection Ho as ->. exact Hr. }
    destruct (docThrows nodes); [discriminate|]. destruct Hr as [t Hr]. rewrite Hr.
    eexists. split; [reflexivity|]. split; [reflexivity|]. cbn [title root_children].
    split; [|split].
    + destruct (loop_title o nodes st n n1 Erun) as [Htr Heq]. unfold orStr. rewrite Htr.
      destruct (truthyOptStr (titleOf nodes)) eqn:E; [apply Heq; reflexivity | reflexivity].
    + intros first rest -> Hc. rewrite loop_cons in Erun.
      pose proof (loopBody_unfold o startState first n) as U. cbn zeta in U.
      change (isFirstNode startState && negb (truthyOptStr (ls_title startState))) with true in U.
      rewrite Hc in U. cbn [andb] in U. rewrite U in Erun. cbn [startState ls_children
        ls_biblePassage ls_speaker] in Erun. rewrite Erun. exists st. split; reflexivity.
    + intros before h after -> Ht Hnot. rewrite loop_app in Erun.
      destruct (runLoop o startState before n) as [[st1|msg] n1'] eqn:Eb; [|discriminate].
      cbn [fst snd]. rewrite loop_cons in Erun.
      destruct (loopBody idOf timeOf o st1 h n1') as [[st2|msg] n2] eqn:Eh; [|discriminate].
      pose proof (loopBody_unfold o st1 h n1') as U. cbn zeta in U.
      assert (Hc : isFirstNode st1 && negb (truthyOptStr (ls_title st1)) && centeredH1 h = false).
      { destruct Hnot as [Hne|Hc].
        - destruct (loop_ok o before startState st1 n n1' Eb) as (F & _ & _).
          rewrite (F Hne). reflexivity.
        - rewrite Hc. apply andb_false_r. }
      rewrite Hc in U.
      assert (Hr' : reaches (isFirstNode st1 && negb (truthyOptStr (ls_title st1))) h = true).
      { unfold reaches. rewrite Hc, Ht. reflexivity. }
      rewrite Hr' in U. rewrite U in Eh.
      pose proof (convert_heading o h n1' Ht) as Hh.
      destruct (convert o h n1') as [[c|msg] n3]; [|discriminate]. cbn [fst] in Hh.
      destruct Hh as (i & t' & level & cs & ->). injection Eh as <- <-.
      destruct (loop_ok o after _ st n3 n1 Erun) as (_ & [later Hl] & _).
      cbn [ls_children] in Hl.
      exists st1, (RawHeading i 1 t' level cs), later. cbn [fst snd].
      split; [reflexivity|]. split; [reflexivity|]. split; [exact I|].
      rewrite Hl, <- app_assoc. reflexivity.
  - intros st node m Ht.
    pose proof (loopBody_unfold o st node m) as U. cbn zeta in U.
    replace (centeredH1 node && isFirstNode st && negb (truthyOptStr (ls_title st)))
      with (isFirstNode st && negb (truthyOptStr (ls_title st)) && centeredH1 node)
      by (destruct (centeredH1 node), (isFirstNode st), (truthyOptStr (ls_title st)); reflexivity).
    destruct (isFirstNode st && negb (truthyOptStr (ls_title st)) && centeredH1 node) eqn:Ea.
    + rewrite U. cbn. split; [split; reflexivity | reflexivity].
    + assert (Hr' : reaches (isFirstNode st && negb (truthyOptStr (ls_title st))) node = true).
      { unfold reaches. rewrite Ea, Ht. reflexivity. }
      rewrite Hr' in U. rewrite U.
      pose proof (convert_heading o node m Ht) as Hh.
      destruct (convert o node m) as [[c|msg] n1]; cbn [fst] in *.
      * destruct Hh as (i & t' & level & cs & ->). cbn [ls_children ls_title].
        split; [|reflexivity]. split; [|discriminate].
        intros E. apply (f_equal length) in E. rewrite length_app in E. cbn in E. lia.
      * split; [reflexivity | exact Hh].
Qed.

(** *** The round trip *)

Section NodeInduction.
Variable P : Node -> Prop.
Hypothesis Hparagraph : forall i v t cs, Forall P cs -> P (ParagraphNode i v t cs).
Hypothesis Hheading : forall i v t l cs, Forall P cs -> P (HeadingNode i v t l cs).
Hypothesis Hquote : forall i v t md cs, Forall P cs -> P (QuoteBlockNode i v t md cs).
Hypothesis Htext : forall i v t c ms, P (TextNode i v t c ms).
Hypothesis Hinterjection : forall i v t c m, P (InterjectionNode i v t c m).

Fixpoint node_induction (x : Node) : P x :=
  let all := fix all (l : list Node) : Forall P l :=
    match l with
    | [] => @List.Forall_nil _ P
    | y :: l' => @List.Forall_cons _ P y l' (node_induction y) (all l')
    end in
  match x with
  | ParagraphNode i v t cs => Hparagraph i v t cs (all cs)
  | HeadingNode i v t l cs => Hheading i v t l cs (all cs)
  | QuoteBlockNode i v t md cs => Hquote i v t md cs (all cs)
  | TextNode i v t c ms => Htext i v t c ms
  | InterjectionNode i v t c m => Hinterjection i v t c m
  end.
End NodeInduction.

Definition isLeaf (x : Node) : bool :=
  match x with TextNode _ _ _ _ _ | InterjectionNode _ _ _ _ _ => true | _ => false end.

(** A tree as the model's types intend it: structural nodes have a non-empty
    id, and the children of a quote block are text and interjection nodes. *)
Fixpoint wellFormed (x : Node) : bool :=
  match x with
  | ParagraphNode i _ _ cs | HeadingNode i _ _ _ cs => truthyStr i && forallb wellFormed cs
  | QuoteBlockNode i _ _ _ cs => truthyStr i && forallb isLeaf cs
  | TextNode _ _ _ _ _ | InterjectionNode _ _ _ _ _ => true
  end.

Definition validRoot (root : Root) : bool :=
  truthyStr (root_id root) && forallb wellFormed (root_children root).

Definition readsAsMetadata (x : Node) : bool :=
  match x with
  | ParagraphNode _ _ _ _ => hasMetadataPrefix (plainText x)
  | _ => false
  end.

Definition isEmptyText (x : Node) : bool :=
  match x with TextNode _ _ _ c _ => negb (truthyStr c) | _ => false end.

(** A root for which [astToTipTapJson] has nothing to emit but its
    placeholder paragraph. *)
Definition emitsNothing (root : Root) : bool :=
  negb (truthyOptStr (title root)) && negb (truthyOptStr (biblePassage root))
  && forallb isEmptyText (root_children root).

Definition rootText (root : Root) : string := join "" (map plainText (root_children root)).
Definition rootStructuralIds (root : Root) : list NodeId :=
  flat_map structuralIds (root_children root).

(** The same on the root [tipTapJsonToAst] returns. *)
Definition rawRootText (root : @RawRootNode Timestamp) : string :=
  join "" (map rawPlainText (root_children root)).
Definition rawRootStructuralIds (root : @RawRootNode Timestamp) : list JValue :=
  flat_map rawStructuralIds (root_children root).

Lemma append_empty_r (s : string) : s +:+ "" = s.
Proof.
  induction s as [|a s IH]; [reflexivity|].
  change (String a (s +:+ "") = String a s). rewrite IH. reflexivity.
Qed.

Lemma append_assoc (a b c : string) : (a +:+ b) +:+ c = a +:+ (b +:+ c).
Proof.
  induction a as [|x a IH]; [reflexivity|].
  change (String x ((a +:+ b) +:+ c) = String x (a +:+ (b +:+ c))). rewrite IH. reflexivity.
Qed.

Lemma join_cons (x : string) (l : list string) : join "" (x :: l) = x +:+ join "" l.
Proof.
  unfold join. destruct l as [|y l]; simpl; [symmetry; apply append_empty_r | reflexivity].
Qed.

Lemma join_app (l1 l2 : list string) : join "" (l1 ++ l2) = join "" l1 +:+ join "" l2.
Proof.
  induction l1 as [|x l1 IH]; [reflexivity|].
  change ((x :: l1) ++ l2)%list with (x :: (l1 ++ l2))%list.
  rewrite !join_cons, IH, append_assoc. reflexivity.
Qed.

Lemma flat_map_app' {A B} (f : A -> list B) (l1 l2 : list A) :
  flat_map f (l1 ++ l2) = (flat_map f l1 ++ flat_map f l2)%list.
Proof. apply flat_map_app. Qed.

Lemma collect_cons {A B} (f : A -> Gen (option B)) (x : A) (l : list A) (n : nat) :
  collect f (x :: l) n
  = (match fst (f x n) with
     | Some y => y :: fst (collect f l (snd (f x n)))
     | None => fst (collect f l (snd (f x n)))
     end, snd (collect f l (snd (f x n)))).
Proof.
  simpl. unfold bind, ret. destruct (f x n) as [r n1]. simpl.
  destruct (collect f l n1) as [rs n2]. reflexivity.
Qed.

Lemma omap_cons {A B} (f : A -> option B) (x : A) (l : list A) :
  omap f (x :: l) = match f x with Some y => y :: omap f l | None => omap f l end.
Proof. reflexivity. Qed.

Lemma get_lookup (m : gmap string JValue) (k : string) (v : JValue) :
  m !! k = Some v -> get m k = v.
Proof. intros H. unfold get. rewrite H. reflexivity. Qed.

(** The [reference] attribute [convertQuoteToTipTap] writes is a string,
    when it writes one: the way back does not throw on it. *)
Lemma quoteAttrs_well_typed (o : ConversionOptions) (i : NodeId) (md : QuoteMetadata) :
  illTypedReference (quoteAttrs o i md) = false.
Proof.
  unfold illTypedReference.
  assert (H : get (quoteAttrs o i md) "reference" = JUndefined
              \/ exists s, get (quoteAttrs o i md) "reference" = JStr s).
  { unfold quoteAttrs, get.
    destruct (flag (preserveIds o)), (flag (includeMetadata o)), (reference md) as [r|],
      (detection md) as [d|];
      repeat first [rewrite lookup_insert_eq | rewrite lookup_insert_ne by done
                   | rewrite lookup_empty];
      cbn [default from_option id]; eauto. }
  destruct H as [->|[s ->]]; apply andb_false_r.
Qed.

Lemma default_quoteAttrs (o : ConversionOptions) (i : NodeId) (md : QuoteMetadata) :
  default ∅ (if (0 <? size (quoteAttrs o i md))%nat then Some (quoteAttrs o i md) else None)
  = quoteAttrs o i md.
Proof.
  destruct (Nat.ltb_spec 0 (size (quoteAttrs o i md))) as [_|Hz]; [reflexivity|].
  cbn. symmetry. apply map_size_empty_iff. lia.
Qed.

(** What [astToTipTapJson] emits does not make the way back throw. *)
Lemma forward_never_throws (o : ConversionOptions) (x : Node) (e : TipTapNode) :
  convertNodeToTipTap o x = Some e -> throws e = false.
Proof.
  revert e.
  assert (Hall : forall cs : list Node,
            Forall (fun x => forall e, convertNodeToTipTap o x = Some e -> throws e = false) cs ->
            existsb throws (omap (convertNodeToTipTap o) cs) = false).
  { induction 1 as [|y cs Hy _ IH]; [reflexivity|]. rewrite omap_cons.
    destruct (convertNodeToTipTap o y) as [e|] eqn:E; [|exact IH].
    cbn [existsb]. rewrite (Hy e eq_refl), IH. reflexivity. }
  induction x as [i v t cs IH|i v t l cs IH|i v t md cs IH|i v t c ms|i v t c m]
    using node_induction; intros e; cbn [convertNodeToTipTap].
  - intros [= <-]. cbn [throws String.eqb Ascii.eqb Bool.eqb orb]. exact (Hall cs IH).
  - intros [= <-]. cbn [throws String.eqb Ascii.eqb Bool.eqb orb]. exact (Hall cs IH).
  - intros [= <-]. cbn zeta. cbn [throws String.eqb Ascii.eqb Bool.eqb orb].
    rewrite default_quoteAttrs. apply quoteAttrs_well_typed.
  - destruct (truthyStr c); [|discriminate]. intros [= <-]. reflexivity.
  - destruct (flag (includeInterjections o)); [|discriminate]. intros [= <-]. reflexivity.
Qed.

Section Options.
(** The caller's options: [preserveIds: true] spelled out, interjections not
    switched off.  [fw] is what [astToTipTapJson] makes of them. *)
Variable o : ConversionOptions.
Hypothesis Hpreserve : preserveIds o = Some true.
Hypothesis Hinterjections : default true (includeInterjections o) = true.

Definition fw : ConversionOptions :=
  mkOptions (Some true) (Some (default true (includeMetadata o))) (Some true).

Abbreviation forward := (@convertNodeToTipTap Timestamp fw).

Lemma flag_preserve : flag (preserveIds o) = true.
Proof. rewrite Hpreserve. reflexivity. Qed.

(** What the two directions keep of a node. *)
Definition Kept (x : Node) (x' : Raw) : Prop :=
  rawStructuralIds x' = map JStr (structuralIds x) /\ rawPlainText x' = plainText x.

Definition KeptAll (cs : list Node) (cs' : list Raw) : Prop :=
  flat_map rawStructuralIds cs' = map JStr (flat_map structuralIds cs)
  /\ join "" (map rawPlainText cs') = join "" (map plainText cs).

(** Two lists of built nodes with the same ids and text. *)
Definition Same (cs1 cs2 : list Raw) : Prop :=
  flat_map rawStructuralIds cs2 = flat_map rawStructuralIds cs1
  /\ join "" (map rawPlainText cs2) = join "" (map rawPlainText cs1).

Lemma orEmptyText_same (cs : list Raw) (n : nat) :
  Same cs (fst (orEmptyText idOf timeOf cs n)).
Proof. destruct cs; split; reflexivity. Qed.

Lemma idFrom_preserved (i : NodeId) (n : nat) :
  truthyStr i = true -> idFrom idOf true (JStr i) n = (JStr i, n).
Proof. intros H. unfold idFrom. cbn [andb truthy]. rewrite H. reflexivity. Qed.

(** A text leaf comes back as a text or an interjection node with the same
    text, in a paragraph as in a quote. *)
Lemma convert_leaf (s : string) (ms : option (list Mark)) (n : nat) :
  exists x', fst (convert o (textLeaf s ms) n) = Ok (Some x')
             /\ rawStructuralIds x' = [] /\ rawPlainText x' = s.
Proof.
  unfold textLeaf. rewrite convert_unfold. cbn [String.eqb Ascii.eqb Bool.eqb fst].
  unfold convertTipTapText, convertTipTapInterjection. cbn [tt_marks tt_text tt_attrs].
  destruct (hasInterjectionMark ms).
  - unfold bind, ret, createTimestamp.
    destruct (idFrom idOf true _ n) as [i n1]. simpl.
    destruct (idFrom idOf true _ (S n1)) as [m n2]. simpl.
    eexists. repeat split.
  - unfold bind, ret, createTimestamp.
    destruct (idFrom idOf (flag (preserveIds o)) _ n) as [i n1]. simpl.
    eexists. repeat split.
Qed.

Lemma convertQuoteLeaf_leaf (s : string) (ms : option (list Mark)) (n : nat) :
  exists x', fst (convertQuoteLeaf idOf timeOf (textLeaf s ms) n) = Some x'
             /\ rawStructuralIds x' = [] /\ rawPlainText x' = s.
Proof.
  unfold textLeaf, convertQuoteLeaf. simpl.
  destruct (hasInterjectionMark ms).
  - unfold bind, ret, createTimestamp.
    destruct (idFrom idOf true _ n) as [i n1]. simpl.
    destruct (idFrom idOf true _ (S n1)) as [m n2]. simpl.
    eexists. repeat split.
  - eexists. repeat split.
Qed.

(** The forward image of a leaf. *)
Lemma forward_leaf (x : Node) :
  isLeaf x = true ->
  match forward x with
  | Some emitted => exists ms, emitted = textLeaf (plainText x) ms
  | None => plainText x = ""
  end.
Proof.
  destruct x as [| | |i v t c ms|i v t c m]; try discriminate; intros _; simpl.
  - destruct c; simpl; [reflexivity|]. eexists. reflexivity.
  - eexists. reflexivity.
Qed.

Lemma leaf_no_ids (x : Node) : isLeaf x = true -> structuralIds x = [].
Proof. destruct x; try discriminate; reflexivity. Qed.

Lemma convertQuoteParagraph_wrapped (s : string) (ms : option (list Mark)) (n : nat) :
  convertQuoteParagraph idOf timeOf (wrapForQuote (textLeaf s ms)) n
  = (match fst (convertQuoteLeaf idOf timeOf (textLeaf s ms) n) with
     | Some y => Some [y]
     | None => Some []
     end, snd (convertQuoteLeaf idOf timeOf (textLeaf s ms) n)).
Proof.
  unfold convertQuoteParagraph, wrapForQuote, textLeaf. simpl. unfold bind, ret. simpl.
  match goal with |- context [convertQuoteLeaf idOf timeOf ?x n] =>
    destruct (convertQuoteLeaf idOf timeOf x n) as [[y|] n1] end; reflexivity.
Qed.

(** The children of a quote block. *)
Lemma quote_children_kept (cs : list Node) :
  forallb isLeaf cs = true ->
  forall n, KeptAll cs
              (fst (convertQuoteChildren idOf timeOf
                      (Some match map wrapForQuote (omap forward cs) with
                            | [] => [TT "paragraph" None (Some []) None None]
                            | _ => map wrapForQuote (omap forward cs)
                            end) n)).
Proof.
  intros Hl.
  assert (Hgen : forall n,
             KeptAll cs (concat (fst (collect (convertQuoteParagraph idOf timeOf)
                                        (map wrapForQuote (omap forward cs)) n)))).
  { induction cs as [|x cs IH]; intros n; [split; reflexivity|].
    simpl in Hl. apply andb_true_iff in Hl as [Hx Hcs]. specialize (IH Hcs).
    rewrite omap_cons. pose proof (forward_leaf x Hx) as Hf.
    pose proof (leaf_no_ids x Hx) as Hids.
    destruct (forward x) as [emitted|].
    - destruct Hf as [ms ->]. rewrite map_cons, collect_cons.
      rewrite convertQuoteParagraph_wrapped. cbn [fst snd].
      destruct (convertQuoteLeaf_leaf (plainText x) ms n) as (x' & Hx' & Hi' & Ht').
      rewrite Hx'.
      destruct (IH (snd (convertQuoteLeaf idOf timeOf (textLeaf (plainText x) ms) n)))
        as [IHi IHt].
      split.
      + cbn [concat app flat_map]. rewrite Hi', Hids. exact IHi.
      + cbn [concat app map]. rewrite !join_cons, Ht'. f_equal. exact IHt.
    - destruct (IH n) as [IHi IHt]. split.
      + cbn [flat_map]. rewrite Hids. exact IHi.
      + cbn [map]. rewrite join_cons, Hf. exact IHt. }
  intros n. unfold convertQuoteChildren. specialize (Hgen n).
  destruct (map wrapForQuote (omap forward cs)) as [|c content].
  - exact Hgen.
  - unfold bind, ret.
    destruct (collect (convertQuoteParagraph idOf timeOf) (c :: content) n) as [rs n1].
    exact Hgen.
Qed.

Definition RoundTrips (x : Node) : Prop :=
  wellFormed x = true ->
  match forward x with
  | Some emitted => forall n, exists x', fst (convert o emitted n) = Ok (Some x') /\ Kept x x'
  | None => structuralIds x = [] /\ plainText x = ""
  end.

Lemma children_kept (cs : list Node) :
  Forall RoundTrips cs -> forallb wellFormed cs = true ->
  forall n, exists cs', fst (collectE (convert o) (omap forward cs) n) = Ok cs' /\ KeptAll cs cs'.
Proof.
  induction 1 as [|x cs Hx _ IH]; intros Hwf n; [exists []; repeat split|].
  simpl in Hwf. apply andb_true_iff in Hwf as [Hwx Hwcs].
  specialize (Hx Hwx). specialize (IH Hwcs). rewrite omap_cons.
  destruct (forward x) as [emitted|].
  - rewrite collectE_cons. destruct (Hx n) as (x' & Hc & Hi & Ht).
    destruct (convert o emitted n) as [r n1]. cbn [fst] in Hc. subst r.
    destruct (IH n1) as (cs' & Hcs & IHi & IHt).
    destruct (collectE (convert o) (omap forward cs) n1) as [r n2]. cbn [fst] in Hcs. subst r.
    exists (x' :: cs'). split; [reflexivity|]. split.
    + cbn [flat_map]. rewrite Hi, IHi, map_app. reflexivity.
    + cbn [map]. rewrite !join_cons, Ht, IHt. reflexivity.
  - destruct Hx as [Hi Ht]. destruct (IH n) as (cs' & Hcs & IHi & IHt).
    exists cs'. split; [exact Hcs|]. split.
    + cbn [flat_map]. rewrite Hi. exact IHi.
    + cbn [map]. rewrite join_cons, Ht. exact IHt.
Qed.

Lemma quoteAttrs_nodeId (i : NodeId) (md : QuoteMetadata) :
  get (quoteAttrs fw i md) "nodeId" = JStr i.
Proof.
  apply get_lookup. unfold quoteAttrs. simpl.
  destruct (reference md), (detection md), (default true (includeMetadata o)); simpl;
    rewrite ?lookup_insert_ne by done; apply lookup_insert_eq.
Qed.

Lemma kept_structural (i : NodeId) (cs : list Node) (cs1 cs2 : list Raw) :
  KeptAll cs cs1 -> Same cs1 cs2 ->
  JStr i :: flat_map rawStructuralIds cs2 = map JStr (i :: flat_map structuralIds cs)
  /\ join "" (map rawPlainText cs2) = join "" (map plainText cs).
Proof. intros [A1 A2] [B1 B2]. cbn [map]. split; congruence. Qed.

Lemma node_round_trip (x : Node) : RoundTrips x.
Proof.
  induction x as [i v t cs IH|i v t l cs IH|i v t md cs _|i v t c ms|i v t c m]
    using node_induction; intros Hwf.
  - simpl in Hwf. apply andb_true_iff in Hwf as [Hi Hcs].
    change (forward (ParagraphNode i v t cs))
      with (Some (TT "paragraph" (Some {["nodeId" := JStr i]}) (Some (omap forward cs))
                    None None)).
    intros n. rewrite convert_unfold. cbn [String.eqb Ascii.eqb Bool.eqb].
    destruct (children_kept cs IH Hcs n) as (cs' & Hc & Hk).
    destruct (collectE (convert o) (omap forward cs) n) as [r n1]. cbn [fst] in Hc. subst r.
    cbn zeta. rewrite flag_preserve. unfold getOpt.
    rewrite (get_lookup _ _ (JStr i)) by apply lookup_singleton_eq.
    rewrite idFrom_preserved by exact Hi. cbn [fst snd].
    eexists. split; [reflexivity|].
    apply (kept_structural i cs cs' _ Hk), orEmptyText_same.
  - simpl in Hwf. apply andb_true_iff in Hwf as [Hi Hcs].
    change (forward (HeadingNode i v t l cs))
      with (Some (TT "heading" (Some (<["nodeId" := JStr i]> {["level" := JNum l]}))
                    (Some (omap forward cs)) None None)).
    intros n. rewrite convert_unfold. cbn [String.eqb Ascii.eqb Bool.eqb].
    destruct (children_kept cs IH Hcs n) as (cs' & Hc & Hk).
    destruct (collectE (convert o) (omap forward cs) n) as [r n1]. cbn [fst] in Hc. subst r.
    cbn zeta. rewrite flag_preserve. unfold getOpt.
    rewrite (get_lookup _ "nodeId" (JStr i)) by apply lookup_insert_eq.
    rewrite idFrom_preserved by exact Hi. cbn [fst snd].
    eexists. split; [reflexivity|].
    apply (kept_structural i cs cs' _ Hk), orEmptyText_same.
  - simpl in Hwf. apply andb_true_iff in Hwf as [Hi Hcs].
    change (forward (QuoteBlockNode i v t md cs))
      with (Some (TT "blockquote"
                    (if (0 <? size (quoteAttrs fw i md))%nat
                     then Some (quoteAttrs fw i md) else None)
                    (Some match map wrapForQuote (omap forward cs) with
                          | [] => [TT "paragraph" None (Some []) None None]
                          | _ => map wrapForQuote (omap forward cs)
                          end) None None)).
    intros n. rewrite convert_unfold. cbn [String.eqb Ascii.eqb Bool.eqb]. cbn zeta.
    rewrite default_quoteAttrs.
    pose proof (quoteMetadata_outcome (quoteAttrs fw i md)) as Hq.
    rewrite quoteAttrs_well_typed in Hq. destruct Hq as [md' ->].
    rewrite flag_preserve, quoteAttrs_nodeId, idFrom_preserved by exact Hi. cbn [fst snd].
    eexists. split; [reflexivity|].
    pose proof (quote_children_kept cs Hcs n) as [K1 K2].
    split; [cbn [rawStructuralIds structuralIds map]; rewrite K1; reflexivity | exact K2].
  - pose proof (forward_leaf (TextNode i v t c ms) eq_refl) as Hf.
    destruct (forward (TextNode i v t c ms)) as [emitted|].
    + destruct Hf as [ms' ->]. intros n.
      destruct (convert_leaf c ms' n) as (x' & Hx' & Hi' & Ht').
      exists x'. split; [exact Hx' | split; [exact Hi' | exact Ht']].
    + split; [reflexivity | exact Hf].
  - pose proof (forward_leaf (InterjectionNode i v t c m) eq_refl) as Hf.
    destruct (forward (InterjectionNode i v t c m)) as [emitted|].
    + destruct Hf as [ms' ->]. intros n.
      destruct (convert_leaf c ms' n) as (x' & Hx' & Hi' & Ht').
      exists x'. split; [exact Hx' | split; [exact Hi' | exact Ht']].
    + split; [reflexivity | exact Hf].
Qed.

(** The text the loop reads off an emitted node is the text of the node it
    came from. *)
Lemma extractText_wrap (e : TipTapNode) : extractText (wrapForQuote e) = extractText e.
Proof.
  unfold wrapForQuote. destruct (String.eqb (tt_type e) "text"); [|reflexivity].
  destruct e as [ty a c tx m]. simpl. unfold join. simpl. reflexivity.
Qed.

Definition TextAgrees (x : Node) : Prop :=
  match forward x with
  | Some emitted => extractText emitted = plainText x
  | None => plainText x = ""
  end.

Lemma extractText_children (cs : list Node) :
  Forall TextAgrees cs ->
  join "" (map extractText (omap forward cs)) = join "" (map plainText cs).
Proof.
  induction 1 as [|x cs Hx _ IH]; [reflexivity|].
  rewrite omap_cons. unfold TextAgrees in Hx. destruct (forward x) as [emitted|].
  - cbn [map]. rewrite !join_cons, Hx, IH. reflexivity.
  - cbn [map]. rewrite join_cons, Hx, IH. reflexivity.
Qed.

Lemma extractText_quote_content (cs : list Node) :
  Forall TextAgrees cs ->
  join "" (map extractText (match map wrapForQuote (omap forward cs) with
                              | [] => [TT "paragraph" None (Some []) None None]
                              | _ => map wrapForQuote (omap forward cs)
                              end))
  = join "" (map plainText cs).
Proof.
  intros H. rewrite <- (extractText_children cs H).
  assert (E : map extractText (map wrapForQuote (omap forward cs))
              = map extractText (omap forward cs)).
  { rewrite map_map. apply map_ext. intros e. apply extractText_wrap. }
  destruct (omap forward cs) as [|e es]; [reflexivity|].
  cbn [map] in *. rewrite E. reflexivity.
Qed.

Lemma extractText_forward (x : Node) : TextAgrees x.
Proof.
  induction x as [i v t cs IH|i v t l cs IH|i v t md cs IH|i v t c ms|i v t c m]
    using node_induction; unfold TextAgrees.
  - change (forward (ParagraphNode i v t cs))
      with (Some (TT "paragraph" (Some {["nodeId" := JStr i]}) (Some (omap forward cs))
                    None None)).
    exact (extractText_children cs IH).
  - change (forward (HeadingNode i v t l cs))
      with (Some (TT "heading" (Some (<["nodeId" := JStr i]> {["level" := JNum l]}))
                    (Some (omap forward cs)) None None)).
    exact (extractText_children cs IH).
  - change (forward (QuoteBlockNode i v t md cs))
      with (Some (TT "blockquote"
                    (if (0 <? size (quoteAttrs fw i md))%nat
                     then Some (quoteAttrs fw i md) else None)
                    (Some match map wrapForQuote (omap forward cs) with
                          | [] => [TT "paragraph" None (Some []) None None]
                          | _ => map wrapForQuote (omap forward cs)
                          end) None None)).
    exact (extractText_quote_content cs IH).
  - simpl. destruct c; reflexivity.
  - simpl. destruct c; reflexivity.
Qed.

(** No emitted node is taken for the title, a metadata paragraph (unless its
    text reads as one) or a rule. *)
Lemma emitted_reaches (x : Node) (e : TipTapNode) (first : bool) :
  forward x = Some e -> readsAsMetadata x = false -> reaches first e = true.
Proof.
  intros Hf Hm. pose proof (extractText_forward x) as Ht. unfold TextAgrees in Ht.
  rewrite Hf in Ht. unfold reaches.
  destruct x as [i v t cs|i v t l cs|i v t md cs|i v t c ms|i v t c m].
  - injection Hf as <-. cbn [readsAsMetadata] in Hm. rewrite Ht, Hm.
    rewrite andb_false_r. reflexivity.
  - injection Hf as <-.
    assert (Hc : centeredH1 (TT "heading" (Some (<["nodeId" := JStr i]> {["level" := JNum l]}))
                              (Some (omap forward cs)) None None) = false).
    { unfold centeredH1, getOpt. cbn [tt_attrs].
      apply andb_false_iff. right. unfold get.
      rewrite lookup_insert_ne by done. rewrite lookup_singleton_ne by done. reflexivity. }
    rewrite Hc, andb_false_r. reflexivity.
  - injection Hf as <-. rewrite andb_false_r. reflexivity.
  - simpl in Hf. destruct (truthyStr c); [|discriminate]. injection Hf as <-.
    rewrite andb_false_r. reflexivity.
  - injection Hf as <-. rewrite andb_false_r. reflexivity.
Qed.

Lemma loopBody_emitted (x : Node) (e : TipTapNode) (st : LoopState) (n : nat) :
  forward x = Some e -> readsAsMetadata x = false ->
  exists converted,
    fst (convert o e n) = Ok converted
    /\ loopBody idOf timeOf o st e n
       = (Ok (mkLoop (ls_children st ++ match converted with Some c => [c] | None => [] end)
                (ls_title st) (ls_biblePassage st) (ls_speaker st) false),
          snd (convert o e n)).
Proof.
  intros Hf Hm. pose proof (loopBody_unfold o st e n) as U. cbn zeta in U.
  pose proof (emitted_reaches x e (isFirstNode st && negb (truthyOptStr (ls_title st))) Hf Hm)
    as Hr.
  rewrite Hr in U.
  assert (Ha : isFirstNode st && negb (truthyOptStr (ls_title st)) && centeredH1 e = false).
  { unfold reaches in Hr. apply andb_true_iff in Hr as [Hr _]. apply andb_true_iff in Hr as [Hr _].
    apply negb_true_iff, Hr. }
  rewrite Ha in U. rewrite U.
  pose proof (convert_outcome o e n) as Ho. rewrite (forward_never_throws fw x e Hf) in Ho.
  destruct Ho as [converted Hc].
  destruct (convert o e n) as [r n1]. cbn [fst snd] in *. subst r.
  exists converted. split; reflexivity.
Qed.

Lemma loop_emitted (cs : list Node) : forall (st : LoopState) (n : nat),
  existsb readsAsMetadata cs = false ->
  exists new b,
    fst (collectE (convert o) (omap forward cs) n) = Ok new
    /\ runLoop o st (omap forward cs) n
       = (Ok (mkLoop (ls_children st ++ new) (ls_title st) (ls_biblePassage st) (ls_speaker st) b),
          snd (collectE (convert o) (omap forward cs) n)).
Proof.
  induction cs as [|x cs IH]; intros st n Hm.
  - exists [], (isFirstNode st). split; [reflexivity|]. cbn. unfold ret. rewrite app_nil_r.
    destruct st; reflexivity.
  - simpl in Hm. apply orb_false_iff in Hm as [Hx Hcs]. rewrite omap_cons.
    destruct (forward x) as [e|] eqn:Hf; [|apply IH, Hcs].
    rewrite loop_cons, collectE_cons.
    destruct (loopBody_emitted x e st n Hf Hx) as (converted & Hc & Hb). rewrite Hb.
    destruct (convert o e n) as [r n1]. cbn [fst snd] in *. subst r.
    destruct (IH (mkLoop (ls_children st ++ match converted with
                                            | Some c => [c] | None => [] end)
                    (ls_title st) (ls_biblePassage st) (ls_speaker st) false) n1 Hcs)
      as (new & b & Hn & Hl).
    rewrite Hl. destruct (collectE (convert o) (omap forward cs) n1) as [r n2].
    cbn [fst snd] in *. subst r.
    exists (match converted with Some c => c :: new | None => new end), b.
    split; [reflexivity|]. cbn [ls_children ls_title ls_biblePassage ls_speaker].
    rewrite <- app_assoc. destruct converted; reflexivity.
Qed.

(** The nodes [astToTipTapJson] puts in front of the children. *)
Definition titleNodes (root : Root) : list TipTapNode :=
  match title root with
  | Some t =>
      if truthyStr t
      then [TT "heading" (Some (<["textAlign" := JStr "center"]> {["level" := JNum 1]}))
              (Some [textLeaf t None]) None None]
      else []
  | None => []
  end.

Definition passageNodes (root : Root) : list TipTapNode :=
  match biblePassage root with
  | Some p =>
      if truthyStr p
      then [TT "paragraph" None
              (Some [textLeaf "Primary Reference: " (Some [mkMark "bold" None]); textLeaf p None])
              None None]
      else []
  | None => []
  end.

Definition placeholder : TipTapNode := TT "paragraph" None (Some []) None None.

Definition emittedContent (root : Root) : list TipTapNode :=
  (titleNodes root ++ passageNodes root ++ omap forward (root_children root))%list.

Lemma astToTipTapJson_eq (root : Root) :
  astToTipTapJson root o
  = mkConversionResult true
      (Some (mkDoc (NodeArray match emittedContent root with
                              | [] => [placeholder]
                              | _ => emittedContent root
                              end))) None None.
Proof. unfold astToTipTapJson. rewrite Hpreserve, Hinterjections. reflexivity. Qed.

Lemma forward_none (x : Node) : forward x = None <-> isEmptyText x = true.
Proof.
  destruct x as [i v t cs|i v t l cs|i v t md cs|i v t c ms|i v t c m]; simpl;
    try (split; discriminate).
  destruct (truthyStr c); simpl; split; (reflexivity || discriminate).
Qed.

Lemma emitted_nil (cs : list Node) : omap forward cs = [] <-> forallb isEmptyText cs = true.
Proof.
  induction cs as [|x cs IH]; [split; reflexivity|].
  rewrite omap_cons. simpl. rewrite andb_true_iff, <- IH, <- forward_none.
  destruct (forward x); split; try discriminate; try tauto.
  intros [H _]. discriminate H.
Qed.

Lemma emitsNothing_spec (root : Root) : emitsNothing root = true <-> emittedContent root = [].
Proof.
  unfold emitsNothing, emittedContent, titleNodes, passageNodes.
  rewrite !andb_true_iff, <- emitted_nil.
  destruct (title root) as [t|], (biblePassage root) as [p|]; simpl;
    try destruct (truthyStr t); try destruct (truthyStr p); simpl;
    split; try discriminate; try tauto; intros [[A B] C]; discriminate.
Qed.

(** The loop over the title and passage nodes adds no child and calls no
    oracle. *)
Lemma loop_header (root : Root) (n : nat) :
  exists st, runLoop o startState (titleNodes root ++ passageNodes root) n = (Ok st, n)
             /\ ls_children st = [].
Proof.
  unfold titleNodes, passageNodes.
  destruct (title root) as [t|], (biblePassage root) as [p|];
    try destruct (truthyStr t); try destruct (truthyStr p);
    eexists; (split; [lazy; reflexivity | reflexivity]).
Qed.

Lemma loop_placeholder (n : nat) :
  exists n',
    runLoop o startState [placeholder] n
    = (Ok (mkLoop [RawParagraph (JStr (idOf (S (S n)))) 1 (timeOf (S (S (S n))))
                     [RawText (JStr (idOf n)) 1 (timeOf (S n)) "" None]]
             None None None false), n').
Proof.
  rewrite loop_cons. pose proof (loopBody_unfold o startState placeholder n) as U.
  cbn zeta in U.
  change (isFirstNode startState && negb (truthyOptStr (ls_title startState))
          && centeredH1 placeholder) with false in U.
  change (reaches (isFirstNode startState && negb (truthyOptStr (ls_title startState)))
            placeholder) with true in U.
  cbv iota in U. rewrite U. unfold placeholder. rewrite convert_unfold.
  cbn [String.eqb Ascii.eqb Bool.eqb collectE]. unfold ret. cbn zeta.
  rewrite flag_preserve. eexists. reflexivity.
Qed.

(** With [preserveIds: true] passed and interjections not switched off, a
    root with a non-empty id, whose structural nodes have non-empty ids and
    whose quote blocks hold text and interjection nodes, and none of whose
    top-level paragraphs reads as a metadata line (text starting with
    "Primary Reference:", "Primary References:", "References from the
    Sermon:", "Tags:" or "Speaker:"), goes through [astToTipTapJson] and back
    successfully with its root id, with the ids of its paragraphs, headings
    and quote blocks in document order, and with its text; the one addition
    is the placeholder paragraph, with a fresh id, that a root with nothing
    to emit comes back with. *)
Lemma round_trip_preserving (root : Root) (n : nat) :
  validRoot root = true ->
  existsb readsAsMetadata (root_children root) = false ->
  exists root',
    fst (roundTrip idOf timeOf root o n) = mkConversionResult true (Some root') None None
    /\ root_id root' = root_id root
    /\ rawRootText root' = rootText root
    /\ rawRootStructuralIds root'
       = if emitsNothing root then [JStr (idOf (S (S n)))]
         else map JStr (rootStructuralIds root).
Proof.
  intros Hv Hm. apply andb_true_iff in Hv as [Hid Hwf].
  unfold roundTrip. rewrite astToTipTapJson_eq. cbn [data].
  assert (Hall : Forall RoundTrips (root_children root)).
  { apply Forall_forall. intros x _. apply node_round_trip. }
  pose proof (fun m => children_kept (root_children root) Hall Hwf m) as Hkept.
  destruct (emitsNothing root) eqn:En.
  - pose proof (proj1 (emitsNothing_spec root) En) as Hnil. rewrite Hnil.
    pose proof (toAst_array o (Some root) [placeholder] n) as Hr.
    destruct (loop_placeholder n) as [n' Hp]. rewrite Hp in Hr. destruct Hr as [t Hr].
    rewrite Hr. eexists. split; [reflexivity|]. cbn [root_id root_children].
    unfold rawRootText, rawRootStructuralIds, rootText. cbn [root_children ls_children].
    split; [|split; [|reflexivity]].
    + unfold expectedRootId. rewrite Hpreserve. simpl. rewrite Hid. reflexivity.
    + unfold emittedContent in Hnil.
      apply app_eq_nil in Hnil as [_ Hnil]. apply app_eq_nil in Hnil as [_ Hnil].
      destruct (Hkept n) as (cs' & Hc & _ & Ht). rewrite Hnil in Hc. cbn in Hc.
      injection Hc as <-. cbn in Ht. rewrite <- Ht. reflexivity.
  - assert (Hne : emittedContent root ≠ []).
    { intros E. apply emitsNothing_spec in E. congruence. }
    assert (Hc : match emittedContent root with
                 | [] => [placeholder]
                 | _ => emittedContent root
                 end = emittedContent root).
    { destruct (emittedContent root); [congruence | reflexivity]. }
    rewrite Hc.
    pose proof (toAst_array o (Some root) (emittedContent root) n) as Hr.
    destruct (Hkept n) as (cs' & Hcs & Hi & Ht).
    assert (Hch : exists st n', runLoop o startState (emittedContent root) n = (Ok st, n')
                                /\ ls_children st = cs').
    { unfold emittedContent. rewrite app_assoc, loop_app.
      destruct (loop_header root n) as (st & Hst & Hnil). rewrite Hst.
      destruct (loop_emitted (root_children root) st n Hm) as (new & b & Hn & Hl).
      rewrite Hl. eexists _, _. split; [reflexivity|]. cbn [ls_children].
      rewrite Hnil. rewrite Hcs in Hn. injection Hn as <-. reflexivity. }
    destruct Hch as (st & n' & Hrun & Hch). rewrite Hrun in Hr. destruct Hr as [t Hr].
    rewrite Hr. eexists. split; [reflexivity|]. cbn [root_id root_children].
    unfold rawRootText, rawRootStructuralIds, rootText, rootStructuralIds.
    cbn [root_children]. rewrite Hch.
    split; [|split; [exact Ht | exact Hi]].
    unfold expectedRootId. rewrite Hpreserve. simpl. rewrite Hid. reflexivity.
Qed.

End Options.

(** *** The round trip with default options *)

Lemma loopThrows_le (nodes : list TipTapNode) (first : bool) :
  existsb throws nodes = false -> loopThrows first nodes = false.
Proof.
  revert first. induction nodes as [|x l IH]; intros first H; [reflexivity|].
  cbn [existsb loopThrows] in *. apply orb_false_iff in H as [Hx Hl].
  rewrite Hx, andb_false_r. apply IH, Hl.
Qed.

(** [astToTipTapJson] succeeds, and what it emits does not make the way
    back throw. *)
Lemma astToTipTapJson_content (root : Root) (options : ConversionOptions) :
  exists content,
    astToTipTapJson root options
    = mkConversionResult true (Some (mkDoc (NodeArray content))) None None
    /\ docThrows content = false.
Proof.
  unfold astToTipTapJson. cbn zeta. set (o := mkOptions _ _ _).
  assert (Hc : existsb throws (omap (convertNodeToTipTap o) (root_children root)) = false).
  { induction (root_children root) as [|x l IH]; [reflexivity|]. rewrite omap_cons.
    destruct (convertNodeToTipTap o x) as [e|] eqn:E; [|exact IH].
    cbn [existsb]. rewrite (forward_never_throws o x e E), IH. reflexivity. }
  eexists. split; [reflexivity|]. apply loopThrows_le.
  destruct (title root) as [t|], (biblePassage root) as [p|];
    try (destruct (truthyStr t) eqn:Et); try (destruct (truthyStr p) eqn:Ep);
    cbn [app];
    try (cbn; rewrite ?Et, ?Ep; exact Hc);
    (destruct (omap (convertNodeToTipTap o) (root_children root)) as [|e es];
     [reflexivity | exact Hc]).
Qed.

Definition helloRoot (t0 : Timestamp) : Root :=
  mkRoot "root-9" 1 t0 None None None None
    [ParagraphNode "para-1" 1 t0 [TextNode "text-1" 1 t0 "Hello" None]].

End Spec.

(** The claim on degenerate documents: the conversion always attaches a
    warning. *)
Definition DegenerateWarns : Prop :=
  forall (idOf : nat -> NodeId) (timeOf : nat -> nat) (doc : TipTapDocument)
         (options : ConversionOptions) (existing : option (@DocumentRootNode nat)) (n : nat),
    Degenerate (doc_content doc) ->
    is_Some (warnings (fst (tipTapJsonToAst idOf timeOf doc options existing n))).

Definition sampleIds (n : nat) : NodeId := "node-" +:+ String.concat "" (replicate n "i").

Definition knownRoot : @DocumentRootNode nat :=
  mkRoot "root-7" 3 0%nat (Some "Grace") (Some "John 3:16") (Some "Paul") None
    [ParagraphNode "para-1" 1 0%nat [TextNode "text-1" 1 0%nat "Hello" None]].

Lemma degenerate_document_spec_witness :
  Degenerate (NotAnArray JUndefined)
  /\ let r := fst (tipTapJsonToAst sampleIds (fun n => n) (mkDoc (NotAnArray JUndefined))
                     defaultOptions (Some knownRoot) 0%nat) in
     success r = true /\ error r = None
     /\ (exists root,
           data r = Some root
           /\ root_children root = []
           /\ root_id root = "root-7"
           /\ title root = Some "Grace"
           /\ biblePassage root = Some "John 3:16"
           /\ speaker root = Some "Paul")
     /\ warnings r = Some ["Document content was empty or invalid"].
Proof.
  split; [exact I|].
  exact (degenerate_document_spec sampleIds (fun n => n) (mkDoc (NotAnArray JUndefined))
           defaultOptions (Some knownRoot) 0%nat I).
Defined.

(** C8 as stated fails for the empty array: it is an array, the guard lets
    it through, the loop runs over nothing, and no warning is attached. *)
Lemma empty_array_no_warning : ~ DegenerateWarns.
Proof.
  intros H.
  specialize (H sampleIds (fun n => n) (mkDoc (NodeArray [])) defaultOptions (Some knownRoot)
                0%nat eq_refl).
  vm_compute in H. destruct H as [x Hx]. discriminate Hx.
Qed.

(** A document as the editor hands it back: the title heading with two text
    leaves, a second centred level-1 heading, and a level-1 heading that is
    not centred. *)
Definition titledContent : list TipTapNode :=
  [TT "heading" (Some (<["textAlign" := JStr "center"]> {["level" := JNum 1]}))
      (Some [textLeaf "Amazing " None; textLeaf "Grace" (Some [mkMark "italic" None])])
      None None;
   TT "heading" (Some (<["textAlign" := JStr "center"]> {["level" := JNum 1]}))
      (Some [textLeaf "Part one" None]) None None;
   TT "heading" (Some {["level" := JNum 1]}) (Some [textLeaf "Not centred" None]) None None].

Lemma title_absorption_spec_witness :
  exists root,
    data (fst (tipTapJsonToAst sampleIds (fun n => n) (mkDoc (NodeArray titledContent))
                 defaultOptions None 0%nat)) = Some root
    /\ title root = Some "Amazing Grace"
    /\ root_children root
       = [RawHeading (JStr "node-ii") 1 3%nat (JNum 1)
            [RawText (JStr "node-") 1 1%nat "Part one" None];
          RawHeading (JStr "node-iiiiii") 1 7%nat (JNum 1)
            [RawText (JStr "node-iiii") 1 5%nat "Not centred" None]].
Proof.
  destruct (title_absorption_spec sampleIds (fun n => n) defaultOptions None titledContent 0%nat)
    as [H _].
  change (docThrows titledContent) with false in H. cbv iota in H.
  destruct H as (root & Hd & _ & Ht & _).
  exists root. split; [exact Hd|]. split; [exact Ht|].
  vm_compute in Hd. injection Hd as <-. reflexivity.
Defined.

(** A sermon with a title, a passage, a heading, a paragraph with an
    interjection, a quote and an empty paragraph. *)
Definition sermonRoot : @DocumentRootNode nat :=
  mkRoot "root-7" 3 0%nat (Some "Grace") (Some "John 3:16") (Some "Paul") None
    [HeadingNode "head-1" 2 0%nat 1 [TextNode "t1" 1 0%nat "Introduction" None];
     ParagraphNode "para-1" 1 0%nat
       [TextNode "t2" 1 0%nat "He said " (Some [mkMark "bold" None]);
        InterjectionNode "i1" 1 0%nat "amen" "m1";
        TextNode "t3" 1 0%nat "" None];
     QuoteBlockNode "quote-1" 1 0%nat
       (mkMetadata
          (Some (mkReference "John" 3 (Some 16%Q) None "John 3:16" "John 3:16"))
          (Some (mkDetection (9 # 10) "high" "KJV" false "" false)) [] false)
       [TextNode "t4" 1 0%nat "For God so loved the world" None;
        InterjectionNode "i2" 1 0%nat "hallelujah" "m2"];
     ParagraphNode "para-2" 1 0%nat []].

Definition preserving : ConversionOptions := mkOptions (Some true) None None.

(** The sermon through the editor and back, with [preserveIds: true]. *)
Example round_trip_preserving_sermon :
  exists root',
    fst (roundTrip sampleIds (fun n => n) sermonRoot preserving 0%nat)
    = mkConversionResult true (Some root') None None
    /\ root_id root' = "root-7"
    /\ rawRootText root' = "IntroductionHe said amenFor God so loved the worldhallelujah"
    /\ rawRootStructuralIds root'
       = [JStr "head-1"; JStr "para-1"; JStr "quote-1"; JStr "para-2"].
Proof.
  exact (round_trip_preserving sampleIds (fun n => n) preserving eq_refl eq_refl sermonRoot 0%nat
           eq_refl eq_refl).
Qed.

End ConverterSpec.

(** ** The provider: persistence, selectors, and what an action may touch *)
Module QuoteReviewProviderSpec.
Import QuoteReview QuoteReviewProvider.

Lemma append_inj_l (p a b : string) : p +:+ a = p +:+ b -> a = b.
Proof.
  induction p as [|c p IH]; intros H.
  - exact H.
  - change (String c (p +:+ a) = String c (p +:+ b)) in H. injection H as H. exact (IH H).
Qed.

(** The review slice after loading what was persisted from [saved] into
    [current]. *)
Definition restored (saved current : QuoteReviewContextState) : QuoteReviewContextState :=
  withReview current
    (mkQuoteReviewState (isReviewModeActive (review current)) (focusedQuoteId (review current))
       (reviewedQuoteIds (review saved)) (panelOpen (review saved)) (panelWidth (review saved))
       (bannerDismissed (review saved))).

(** Persisting a state under a document id and loading that id gives back
    the panel flag, the panel width, the reviewed ids and the banner flag of
    the persisted state, and leaves the focus, the review-mode flag and every
    other slice of the loading state alone: loading into the state that was
    persisted changes nothing.  What is stored under another document id is
    not affected, and a key that is missing or does not parse loads
    nothing. *)
Theorem persist_load_round_trip (prefix : string) (saved current : QuoteReviewContextState)
    (docId : string) (localStorage : gmap string Stored) (now : Z) :
  let stored := persistState prefix saved docId localStorage in
  dispatchAll current (map (pair now) (loadPersistedState prefix docId stored))
  = restored saved current
  /\ dispatchAll saved (map (pair now) (loadPersistedState prefix docId stored)) = saved
  /\ (forall other, other ≠ docId ->
        loadPersistedState prefix other stored = loadPersistedState prefix other localStorage)
  /\ (forall other, localStorage !! storageKey prefix other = None
                    \/ localStorage !! storageKey prefix other = Some Unparsable ->
        loadPersistedState prefix other localStorage = []).
Proof.
  cbn zeta.
  assert (Hload : loadPersistedState prefix docId (persistState prefix saved docId localStorage)
                  = [LOAD_PERSISTED_STATE
                       (mkPersisted (panelOpen (review saved)) (panelWidth (review saved))
                          (elements (reviewedQuoteIds (review saved)))
                          (bannerDismissed (review saved)))]).
  { unfold loadPersistedState, persistState. rewrite lookup_insert_eq. reflexivity. }
  assert (Hany : forall c, dispatchAll c
                   (map (pair now) (loadPersistedState prefix docId
                                      (persistState prefix saved docId localStorage)))
                 = restored saved c).
  { intros c. rewrite Hload. unfold dispatchAll, restored. simpl.
    rewrite (list_to_set_elements_L (reviewedQuoteIds (review saved))). reflexivity. }
  split; [apply Hany|]. split.
  - rewrite Hany. destruct saved as [qs [] be bd cr ie pf]. reflexivity.
  - split.
    + intros other Hne. unfold loadPersistedState, persistState.
      rewrite lookup_insert_ne; [reflexivity|].
      intros E. apply Hne. symmetry. exact (append_inj_l _ _ _ E).
    + intros other [H|H]; unfold loadPersistedState; rewrite H; reflexivity.
Qed.

(** The ids marked as reviewed are only ever taken away by loading a
    persisted state or by a reset: after any other action a reviewed id is
    still reviewed, and MARK_QUOTE_REVIEWED adds its payload.  In particular
    removing a quote leaves its id in the reviewed set, and marking changes no
    quote of the list (their [isReviewed] field is a flag of its own). *)
Theorem reviewed_ids_only_grow (now : Z) (s : QuoteReviewContextState) (a : QuoteReviewAction)
    (q : NodeId) :
  a ≠ RESET_STATE -> (forall p, a ≠ LOAD_PERSISTED_STATE p) ->
  (isQuoteReviewed s q = true -> isQuoteReviewed (quoteReviewReducer now s a) q = true)
  /\ isQuoteReviewed (quoteReviewReducer now s (MARK_QUOTE_REVIEWED q)) q = true
  /\ quotes (quoteReviewReducer now s (MARK_QUOTE_REVIEWED q)) = quotes s.
Proof.
  intros Hr Hl. split; [|split; [|reflexivity]].
  - unfold isQuoteReviewed. intros H. apply bool_decide_eq_true in H. apply bool_decide_eq_true.
    destruct a; simpl; try exact H; try (exfalso; apply Hr; reflexivity).
    + set_solver.
    + exfalso. eapply Hl. reflexivity.
  - unfold isQuoteReviewed. apply bool_decide_eq_true. simpl. set_solver.
Qed.

Definition reviewedThenRemoved : QuoteReviewContextState :=
  dispatchAll initialState
    [(0, ADD_QUOTE QuoteReviewSpec.sampleQuote); (0, MARK_QUOTE_REVIEWED "q1")].

Lemma reviewed_ids_only_grow_witness :
  REMOVE_QUOTE "q1" ≠ RESET_STATE
  /\ (forall p, REMOVE_QUOTE "q1" ≠ LOAD_PERSISTED_STATE p)
  /\ isQuoteReviewed reviewedThenRemoved "q1" = true
  /\ isQuoteReviewed (quoteReviewReducer 0 reviewedThenRemoved (REMOVE_QUOTE "q1")) "q1" = true.
Proof.
  assert (H1 : REMOVE_QUOTE "q1" ≠ RESET_STATE) by discriminate.
  assert (H2 : forall p, REMOVE_QUOTE "q1" ≠ LOAD_PERSISTED_STATE p) by (intros p; discriminate).
  assert (H3 : isQuoteReviewed reviewedThenRemoved "q1" = true) by (vm_compute; reflexivity).
  split; [exact H1|]. split; [exact H2|]. split; [exact H3|].
  exact (proj1 (reviewed_ids_only_grow 0 reviewedThenRemoved (REMOVE_QUOTE "q1") "q1" H1 H2) H3).
Defined.

End QuoteReviewProviderSpec.

Module ReducerSpec.
Import QuoteReview QuoteReviewSpec.

(** The slices of the context state. *)
Inductive Slice : Type :=
| SQuotes | SReview | SBoundaryEdit | SBoundaryDrag | SCreation | SInterjectionEdit | SPanelFilter.

(** The slices an action is named after. *)
Definition sliceOf (a : QuoteReviewAction) : list Slice :=
  match a with
  | SET_QUOTES _ | ADD_QUOTE _ | UPDATE_QUOTE _ _ => [SQuotes]
  | REMOVE_QUOTE _ => [SQuotes; SReview]
  | SET_REVIEW_MODE_ACTIVE _ | SET_FOCUSED_QUOTE _ | MARK_QUOTE_REVIEWED _ | TOGGLE_PANEL
  | SET_PANEL_OPEN _ | SET_PANEL_WIDTH _ | DISMISS_BANNER | LOAD_PERSISTED_STATE _ => [SReview]
  | ENTER_BOUNDARY_EDIT_MODE _ | EXIT_BOUNDARY_EDIT_MODE | UPDATE_BOUNDARY_PREVIEW _ _
  | COMMIT_BOUNDARY_CHANGE => [SBoundaryEdit]
  | START_BOUNDARY_DRAG _ _ _ | UPDATE_BOUNDARY_DRAG _ _ _ | END_BOUNDARY_DRAG
  | CANCEL_BOUNDARY_DRAG => [SBoundaryDrag]
  | START_QUOTE_CREATION _ _ _ | UPDATE_REFERENCE_INPUT _ | SET_LOOKUP_RESULT _
  | SET_IS_LOOKING_UP _ | SET_IS_NON_BIBLICAL _ | CANCEL_QUOTE_CREATION
  | CONFIRM_QUOTE_CREATION => [SCreation]
  | ENTER_INTERJECTION_EDIT_MODE _ | EXIT_INTERJECTION_EDIT_MODE
  | SET_PENDING_INTERJECTION_CANDIDATES _ | CONFIRM_INTERJECTION_CANDIDATE _
  | REJECT_INTERJECTION_CANDIDATE _ | SET_INTERJECTION_SELECTION _ _ => [SInterjectionEdit]
  | SET_FILTER_MODE _ | SET_SELECTED_BOOK _ | SET_SEARCH_QUERY _ => [SPanelFilter]
  | RESET_STATE =>
      [SQuotes; SReview; SBoundaryEdit; SBoundaryDrag; SCreation; SInterjectionEdit; SPanelFilter]
  end.

Definition touches (a : QuoteReviewAction) (sl : Slice) : bool :=
  existsb (fun x => match x, sl with
                    | SQuotes, SQuotes | SReview, SReview | SBoundaryEdit, SBoundaryEdit
                    | SBoundaryDrag, SBoundaryDrag | SCreation, SCreation
                    | SInterjectionEdit, SInterjectionEdit | SPanelFilter, SPanelFilter => true
                    | _, _ => false
                    end) (sliceOf a).

(** An action changes no slice but its own: the quote-list actions leave the
    modes alone (removing a quote that is being edited or dragged ends
    neither), no mode action touches the quote list, and only REMOVE_QUOTE
    and RESET_STATE reach across slices. *)
Theorem action_frame (now : Z) (s : QuoteReviewContextState) (a : QuoteReviewAction) :
  let s' := quoteReviewReducer now s a in
  (touches a SQuotes = false -> quotes s' = quotes s)
  /\ (touches a SReview = false -> review s' = review s)
  /\ (touches a SBoundaryEdit = false -> boundaryEdit s' = boundaryEdit s)
  /\ (touches a SBoundaryDrag = false -> boundaryDrag s' = boundaryDrag s)
  /\ (touches a SCreation = false -> creation s' = creation s)
  /\ (touches a SInterjectionEdit = false -> interjectionEdit s' = interjectionEdit s)
  /\ (touches a SPanelFilter = false -> panelFilter s' = panelFilter s).
Proof.
  destruct a; cbn; repeat split; intros H; first [reflexivity | discriminate H].
Qed.

(** The quote list under ADD, REMOVE and UPDATE.  Adding appends, whatever
    ids the list holds; removing the id just added, when the list did not
    hold it and the focus is elsewhere, gives the state back.  An update keeps
    the length of the list and, when the updates carry no [id], the ids in
    their order; it applies the updates to every entry of that id and to no
    other. *)
Theorem quote_list_operations (now : Z) (s : QuoteReviewContextState) (q : QuoteReviewItem)
    (x : NodeId) (u : QuoteReviewItemPatch) :
  let added := quoteReviewReducer now s (ADD_QUOTE q) in
  let updated := quoteReviewReducer now s (UPDATE_QUOTE x u) in
  quotes added = (quotes s ++ [q])%list
  /\ (absent (id q) s -> focusedQuoteId (review s) ≠ Some (id q) ->
      quoteReviewReducer now added (REMOVE_QUOTE (id q)) = s)
  /\ length (quotes updated) = length (quotes s)
  /\ (p_id u = None -> map id (quotes updated) = map id (quotes s))
  /\ (forall i y, quotes s !! i = Some y ->
        quotes updated !! i = Some (if decide (id y = x) then applyPatch y u else y)).
Proof.
  cbn zeta. split; [reflexivity|]. split; [|split; [|split]].
  - intros Habs Hf. unfold quoteReviewReducer. cbn [quotes withQuotes review boundaryEdit
      boundaryDrag creation interjectionEdit panelFilter].
    rewrite List.filter_app, (filter_remove_absent _ _ Habs). cbn [List.filter].
    rewrite String.eqb_refl. cbn [negb]. rewrite app_nil_r, focusIs_spec.
    rewrite bool_decide_eq_false_2 by exact Hf.
    destruct s as [qs [] be bd cr ie pf]. reflexivity.
  - cbn. apply length_map.
  - intros Hid. cbn. rewrite map_map. apply map_ext. intros y.
    destruct (String.eqb (id y) x); [|reflexivity]. unfold applyPatch. cbn. rewrite Hid. reflexivity.
  - intros i y Hy. cbn. change (map ?f ?l) with (f <$> l). rewrite list_lookup_fmap, Hy. cbn.
    destruct (String.eqb_spec (id y) x) as [E|E].
    + rewrite decide_True by exact E. reflexivity.
    + rewrite decide_False by exact E. reflexivity.
Qed.

(** CONFIRM_ and REJECT_INTERJECTION_CANDIDATE with an index outside the
    pending list (negative, or the length and beyond) return the state they
    were given.  Within the list they touch the two flags of that one
    candidate: confirming sets [confirmed] and clears [rejected], rejecting
    does the opposite, so whichever comes last wins and no candidate they
    mark is both. *)
Theorem candidate_marking (now : Z) (s : QuoteReviewContextState) (i : Z) :
  let cs := pendingCandidates (interjectionEdit s) in
  let confirm := quoteReviewReducer now s (CONFIRM_INTERJECTION_CANDIDATE i) in
  let reject := quoteReviewReducer now s (REJECT_INTERJECTION_CANDIDATE i) in
  (i < 0 \/ Z.of_nat (length cs) <= i -> confirm = s /\ reject = s)
  /\ (forall c, Js.index cs i = Some c ->
        Js.index (pendingCandidates (interjectionEdit confirm)) i
        = Some (mkCandidate (c_text c) (c_startOffset c) (c_endOffset c) true false
                  (confidence c) (context c))
        /\ Js.index (pendingCandidates (interjectionEdit reject)) i
           = Some (mkCandidate (c_text c) (c_startOffset c) (c_endOffset c) false true
                     (confidence c) (context c))
        /\ quoteReviewReducer now confirm (REJECT_INTERJECTION_CANDIDATE i) = reject
        /\ quoteReviewReducer now reject (CONFIRM_INTERJECTION_CANDIDATE i) = confirm)
  /\ length (pendingCandidates (interjectionEdit confirm)) = length cs
  /\ length (pendingCandidates (interjectionEdit reject)) = length cs.
Proof.
  cbn zeta.
  assert (Hout : i < 0 \/ Z.of_nat (length (pendingCandidates (interjectionEdit s))) <= i ->
                 Js.index (pendingCandidates (interjectionEdit s)) i = None).
  { intros [H|H]; unfold Js.index.
    - rewrite (proj2 (Z.leb_gt 0 i)) by lia. reflexivity.
    - destruct (0 <=? i); [|reflexivity]. apply lookup_ge_None. lia. }
  split; [|split; [|split]].
  - intros H. apply Hout in H. cbn. unfold markCandidate. rewrite H.
    destruct s as [qs r be bd cr [] pf]. split; reflexivity.
  - intros c Hc. cbn. unfold markCandidate. rewrite Hc.
    assert (Hi : 0 <= i /\ pendingCandidates (interjectionEdit s) !! Z.to_nat i = Some c).
    { unfold Js.index in Hc. destruct (Z.leb_spec 0 i); [split; [lia | exact Hc] | discriminate]. }
    destruct Hi as [Hi Hl]. pose proof (lookup_lt_Some _ _ _ Hl) as Hlt.
    assert (Hidx : forall d, Js.index (<[Z.to_nat i := d]> (pendingCandidates (interjectionEdit s))) i
                             = Some d).
    { intros d. unfold Js.index. rewrite (proj2 (Z.leb_le 0 i)) by lia.
      apply list_lookup_insert_eq. exact Hlt. }
    rewrite !Hidx. split; [reflexivity|]. split; [reflexivity|].
    cbn. rewrite !list_insert_insert_eq. split; reflexivity.
  - cbn. unfold markCandidate. destruct (Js.index _ i); [apply length_insert | reflexivity].
  - cbn. unfold markCandidate. destruct (Js.index _ i); [apply length_insert | reflexivity].
Qed.

End ReducerSpec.

(** ** Keyboard navigation *)
Module KeyboardNavigationSpec.
Import QuoteReview KeyboardNavigation.

(** Running what a callback dispatches through the reducer. *)
Definition run (now : Z) (f : QuoteReviewContextState -> list QuoteReviewAction)
    (s : QuoteReviewContextState) : QuoteReviewContextState :=
  dispatchAll s (map (pair now) (f s)).

Definition unreviewed (q : QuoteReviewItem) : bool := negb (isReviewed q).

Section Navigation.
Variable o : UseQuoteKeyboardNavigationOptions.
Local Abbreviation qs := (opt_quotes o).

Lemma findIndex_range {A} (p : A -> bool) (l : list A) :
  -1 <= findIndex p l < Z.of_nat (length l).
Proof.
  unfold findIndex. destruct (list_find _ l) as [[i x]|] eqn:E; [|lia].
  apply list_find_Some in E as (Hi & _). apply lookup_lt_Some in Hi. lia.
Qed.

Lemma getCurrentIndex_range s : -1 <= getCurrentIndex o s < Z.of_nat (length qs) \/ getCurrentIndex o s = -1.
Proof.
  unfold getCurrentIndex. destruct (focusedQuoteId s) as [f|]; [|right; reflexivity].
  destruct (Js.truthyStr f); [|right; reflexivity].
  left. apply findIndex_range.
Qed.

Lemma getCurrentIndex_bounds s : -1 <= getCurrentIndex o s /\ getCurrentIndex o s < Z.max 0 (Z.of_nat (length qs)).
Proof. destruct (getCurrentIndex_range s) as [H|H]; lia. Qed.

Lemma getQuoteAtIndex_nat (i : nat) : getQuoteAtIndex o (Z.of_nat i) = qs !! i.
Proof.
  unfold getQuoteAtIndex, quotesLength, quotes, Js.index.
  destruct (Z.ltb_spec (Z.of_nat i) 0); [lia|]. cbn [orb].
  destruct (Z.leb_spec (Z.of_nat (length qs)) (Z.of_nat i)).
  - symmetry. apply lookup_ge_None. lia.
  - rewrite (proj2 (Z.leb_le 0 (Z.of_nat i))) by lia. rewrite Nat2Z.id. reflexivity.
Qed.

Lemma getQuoteAtIndex_neg (i : Z) : i < 0 -> getQuoteAtIndex o i = None.
Proof. intros H. unfold getQuoteAtIndex. rewrite (proj2 (Z.ltb_lt i 0)) by lia. reflexivity. Qed.

Lemma focusOn_elem (x : option QuoteReviewItem) (a : QuoteReviewAction) :
  a ∈ focusOn x -> exists q, x = Some q /\ a = SET_FOCUSED_QUOTE (Some (id q)).
Proof.
  destruct x as [q|]; cbn; intros H.
  - apply list_elem_of_singleton in H. eauto.
  - apply elem_of_nil in H. destruct H.
Qed.

Lemma getQuoteAtIndex_elem (i : Z) (q : QuoteReviewItem) : getQuoteAtIndex o i = Some q -> q ∈ qs.
Proof.
  intros H. destruct (Z.ltb_spec i 0) as [Hn|Hn]; [rewrite getQuoteAtIndex_neg in H by lia; discriminate|].
  rewrite <- (Z2Nat.id i) in H by lia. rewrite getQuoteAtIndex_nat in H.
  eapply list_elem_of_lookup_2, H.
Qed.

(** The focused quote is at index [i] of a list whose ids are distinct. *)
Lemma getCurrentIndex_at s (i : nat) (q : QuoteReviewItem) :
  NoDup (map id qs) -> id q ≠ "" -> qs !! i = Some q -> focusedQuoteId s = Some (id q) ->
  getCurrentIndex o s = Z.of_nat i.
Proof.
  intros Hnd Hne Hi Hf. unfold getCurrentIndex. rewrite Hf.
  destruct (id q) as [|c r] eqn:Eid; [congruence|]. cbn [Js.truthyStr]. rewrite <- Eid.
  unfold findIndex, quotes.
  assert (E : list_find (fun x => String.eqb (id x) (id q) = true) qs = Some (i, q)).
  { apply list_find_Some. split; [exact Hi|]. split; [apply String.eqb_refl|].
    intros j y Hj Hlt Hy. apply String.eqb_eq in Hy.
    assert (j = i); [|lia].
    eapply NoDup_lookup; [exact Hnd| |].
    - change (map id qs) with (id <$> qs). rewrite list_lookup_fmap, Hj. reflexivity.
    - change (map id qs) with (id <$> qs). rewrite list_lookup_fmap, Hi. cbn. congruence. }
  rewrite E. reflexivity.
Qed.

Lemma run_focus now (f : QuoteReviewContextState -> list QuoteReviewAction) s x :
  f s = [SET_FOCUSED_QUOTE x] ->
  run now f s = QuoteReviewSpec.setFocus s x.
Proof. intros H. unfold run. rewrite H. reflexivity. Qed.

Lemma navigateNext_at s (i : nat) (q : QuoteReviewItem) :
  NoDup (map id qs) -> id q ≠ "" -> qs !! i = Some q -> focusedQuoteId s = Some (id q) ->
  navigateNext o s = focusOn (qs !! ((i + 1) mod length qs)%nat).
Proof.
  intros Hnd Hne Hi Hf. unfold navigateNext.
  rewrite (getCurrentIndex_at s i q Hnd Hne Hi Hf). unfold quotesLength, quotes.
  pose proof (lookup_lt_Some _ _ _ Hi) as Hlt.
  destruct (Z.ltb_spec (Z.of_nat i) (Z.of_nat (length qs) - 1)) as [H|H].
  - rewrite Nat.mod_small by lia.
    replace (Z.of_nat i + 1) with (Z.of_nat (i + 1)) by lia. rewrite getQuoteAtIndex_nat. reflexivity.
  - replace (i + 1)%nat with (length qs) by lia. rewrite Nat.Div0.mod_same.
    change 0 with (Z.of_nat 0). rewrite getQuoteAtIndex_nat. reflexivity.
Qed.

Lemma navigatePrevious_at s (i : nat) (q : QuoteReviewItem) :
  NoDup (map id qs) -> id q ≠ "" -> qs !! i = Some q -> focusedQuoteId s = Some (id q) ->
  navigatePrevious o s = focusOn (qs !! ((i + (length qs - 1)) mod length qs)%nat).
Proof.
  intros Hnd Hne Hi Hf. unfold navigatePrevious.
  rewrite (getCurrentIndex_at s i q Hnd Hne Hi Hf). unfold quotesLength, quotes.
  pose proof (lookup_lt_Some _ _ _ Hi) as Hlt.
  destruct (Z.ltb_spec 0 (Z.of_nat i)) as [H|H].
  - replace (i + (length qs - 1))%nat with ((i - 1) + 1 * length qs)%nat by lia.
    rewrite Nat.Div0.mod_add, Nat.mod_small by lia.
    replace (Z.of_nat i - 1) with (Z.of_nat (i - 1)) by lia. rewrite getQuoteAtIndex_nat. reflexivity.
  - assert (i = 0%nat) by lia. subst i. rewrite Nat.add_0_l, Nat.mod_small by lia.
    replace (Z.of_nat (length qs) - 1) with (Z.of_nat (length qs - 1)) by lia.
    rewrite getQuoteAtIndex_nat. reflexivity.
Qed.

End Navigation.

(** With distinct, non-empty ids and the focus on the quote at index [i],
    [navigateNext] moves the focus to index [i + 1] and from the last quote to
    the first, [navigatePrevious] to index [i - 1] and from the first to the
    last; [k] steps forward reach index [(i + k) mod n], so every quote is
    reached, and a step back after a step forward (or the other way round)
    gives the state back. *)
Theorem navigation_cycles (o : UseQuoteKeyboardNavigationOptions) (now : Z)
    (s : QuoteReviewContextState) (i : nat) (q : QuoteReviewItem) :
  NoDup (map id (opt_quotes o)) ->
  Forall (fun x => id x ≠ "") (opt_quotes o) ->
  opt_quotes o !! i = Some q ->
  QuoteReview.focusedQuoteId (review s) = Some (id q) ->
  let n := length (opt_quotes o) in
  (forall k, exists q',
      opt_quotes o !! ((i + k) mod n)%nat = Some q'
      /\ Nat.iter k (run now (navigateNext o)) s = QuoteReviewSpec.setFocus s (Some (id q')))
  /\ (exists q',
        opt_quotes o !! ((i + (n - 1)) mod n)%nat = Some q'
        /\ run now (navigatePrevious o) s = QuoteReviewSpec.setFocus s (Some (id q')))
  /\ run now (navigatePrevious o) (run now (navigateNext o) s) = s
  /\ run now (navigateNext o) (run now (navigatePrevious o) s) = s.
Proof.
  intros Hnd Hne Hi Hf n.
  pose proof (lookup_lt_Some _ _ _ Hi) as Hlt. fold n in Hlt.
  assert (Hat : forall j, (j < n)%nat -> exists y, opt_quotes o !! j = Some y /\ id y ≠ "").
  { intros j Hj. destruct (lookup_lt_is_Some_2 (opt_quotes o) j Hj) as [y Hy].
    exists y. split; [exact Hy|]. rewrite Forall_forall in Hne.
    eapply Hne, list_elem_of_lookup_2, Hy. }
  assert (Hnext : forall st j y, opt_quotes o !! j = Some y ->
            QuoteReview.focusedQuoteId (review st) = Some (id y) ->
            exists y', opt_quotes o !! ((j + 1) mod n)%nat = Some y'
                       /\ run now (navigateNext o) st = QuoteReviewSpec.setFocus st (Some (id y'))).
  { intros st j y Hj Hfj.
    pose proof (lookup_lt_Some _ _ _ Hj) as Hjl. fold n in Hjl.
    destruct (Hat ((j + 1) mod n)%nat) as (y' & Hy' & _); [apply Nat.mod_upper_bound; lia|].
    exists y'. split; [exact Hy'|]. apply run_focus.
    assert (id y ≠ "") by (rewrite Forall_forall in Hne; eapply Hne, list_elem_of_lookup_2, Hj).
    rewrite (navigateNext_at o st j y Hnd H Hj Hfj). fold n. rewrite Hy'. reflexivity. }
  assert (Hprev : forall st j y, opt_quotes o !! j = Some y ->
            QuoteReview.focusedQuoteId (review st) = Some (id y) ->
            exists y', opt_quotes o !! ((j + (n - 1)) mod n)%nat = Some y'
                       /\ run now (navigatePrevious o) st = QuoteReviewSpec.setFocus st (Some (id y'))).
  { intros st j y Hj Hfj.
    pose proof (lookup_lt_Some _ _ _ Hj) as Hjl. fold n in Hjl.
    destruct (Hat ((j + (n - 1)) mod n)%nat) as (y' & Hy' & _); [apply Nat.mod_upper_bound; lia|].
    exists y'. split; [exact Hy'|]. apply run_focus.
    assert (id y ≠ "") by (rewrite Forall_forall in Hne; eapply Hne, list_elem_of_lookup_2, Hj).
    rewrite (navigatePrevious_at o st j y Hnd H Hj Hfj). fold n. rewrite Hy'. reflexivity. }
  assert (Hset : forall st x y, QuoteReviewSpec.setFocus (QuoteReviewSpec.setFocus st x) y
                                = QuoteReviewSpec.setFocus st y) by reflexivity.
  assert (Hback : QuoteReviewSpec.setFocus s (Some (id q)) = s).
  { rewrite <- Hf. apply QuoteReviewSpec.setFocus_same. }
  split; [|split; [|split]].
  - induction k as [|k IH].
    + exists q. rewrite Nat.add_0_r, Nat.mod_small by lia. split; [exact Hi|].
      cbn. symmetry. exact Hback.
    + destruct IH as (y & Hy & Hs). rewrite Nat.iter_succ, Hs.
      destruct (Hnext (QuoteReviewSpec.setFocus s (Some (id y))) _ y Hy eq_refl) as (y' & Hy' & Hr).
      exists y'. split.
      * rewrite <- Hy'. f_equal. rewrite Nat.Div0.add_mod_idemp_l. f_equal. lia.
      * rewrite Hr. apply Hset.
  - exact (Hprev s i q Hi Hf).
  - destruct (Hnext s i q Hi Hf) as (y & Hy & ->).
    destruct (Hprev (QuoteReviewSpec.setFocus s (Some (id y))) _ y Hy eq_refl) as (z & Hz & ->).
    rewrite Hset. rewrite <- Hback at 2. do 2 f_equal.
    assert (E : (((i + 1) mod n + (n - 1)) mod n = i)%nat).
    { rewrite Nat.Div0.add_mod_idemp_l. replace (i + 1 + (n - 1))%nat with (i + 1 * n)%nat by lia.
      rewrite Nat.Div0.mod_add. apply Nat.mod_small. lia. }
    rewrite E in Hz. congruence.
  - destruct (Hprev s i q Hi Hf) as (y & Hy & ->).
    destruct (Hnext (QuoteReviewSpec.setFocus s (Some (id y))) _ y Hy eq_refl) as (z & Hz & ->).
    rewrite Hset. rewrite <- Hback at 2. do 2 f_equal.
    assert (E : (((i + (n - 1)) mod n + 1) mod n = i)%nat).
    { rewrite Nat.Div0.add_mod_idemp_l. replace (i + (n - 1) + 1)%nat with (i + 1 * n)%nat by lia.
      rewrite Nat.Div0.mod_add. apply Nat.mod_small. lia. }
    rewrite E in Hz. congruence.
Qed.


Section Edges.
Variable o : UseQuoteKeyboardNavigationOptions.
Local Abbreviation qs := (opt_quotes o).

Lemma getQuoteAtIndex_0 : getQuoteAtIndex o 0 = head qs.
Proof. change 0 with (Z.of_nat 0). rewrite getQuoteAtIndex_nat. symmetry. apply head_lookup. Qed.

Lemma getQuoteAtIndex_last : getQuoteAtIndex o (quotesLength o - 1) = last qs.
Proof.
  unfold quotesLength, quotes. destruct (opt_quotes o) as [|x l] eqn:E.
  - rewrite getQuoteAtIndex_neg by (cbn; lia). reflexivity.
  - rewrite <- E. replace (Z.of_nat (length qs) - 1) with (Z.of_nat (length qs - 1))
      by (rewrite E; cbn [length]; lia).
    rewrite getQuoteAtIndex_nat, last_lookup. f_equal. lia.
Qed.

Lemma getCurrentIndex_unlisted s :
  (forall q, q ∈ qs -> focusedQuoteId s ≠ Some (id q)) -> getCurrentIndex o s = -1.
Proof.
  intros H. unfold getCurrentIndex. destruct (focusedQuoteId s) as [f|] eqn:Ef; [|reflexivity].
  destruct (Js.truthyStr f); [|reflexivity]. unfold findIndex, quotes.
  destruct (list_find _ qs) as [[i x]|] eqn:E; [|reflexivity].
  apply list_find_Some in E as (Hi & Hx & _). apply String.eqb_eq in Hx.
  exfalso. apply (H x); [eapply list_elem_of_lookup_2, Hi | congruence].
Qed.

(** The two loops of [navigateNextUnverified] as one search of the rotated
    list. *)
Lemma firstUnreviewed_find (from rounds : nat) :
  firstUnreviewed o (Z.of_nat from) rounds = List.find unreviewed (take rounds (drop from qs)).
Proof.
  revert from. induction rounds as [|r IH]; intros from; [reflexivity|].
  cbn [firstUnreviewed]. unfold Js.index, quotes.
  rewrite (proj2 (Z.leb_le 0 (Z.of_nat from))) by lia. rewrite Nat2Z.id.
  replace (Z.of_nat from + 1) with (Z.of_nat (S from)) by lia. rewrite IH.
  destruct (qs !! from) as [x|] eqn:E.
  - rewrite (drop_S _ _ _ E). cbn [take List.find]. unfold unreviewed at 2.
    destruct (negb (isReviewed x)); reflexivity.
  - rewrite (drop_ge qs from), (drop_ge qs (S from)); [rewrite !take_nil; reflexivity| |];
      apply lookup_ge_None in E; lia.
Qed.

Lemma find_app' {A} (p : A -> bool) (l1 l2 : list A) :
  List.find p (l1 ++ l2) = match List.find p l1 with Some x => Some x | None => List.find p l2 end.
Proof. induction l1 as [|x l IH]; cbn; [reflexivity|]. destruct (p x); [reflexivity | exact IH]. Qed.

Lemma find_elem {A} (p : A -> bool) (l : list A) (x : A) :
  List.find p l = Some x -> x ∈ l /\ p x = true.
Proof.
  induction l as [|y l IH]; cbn; [discriminate|]. destruct (p y) eqn:E.
  - intros [= <-]. split; [left | exact E].
  - intros H. destruct (IH H). split; [right; assumption | assumption].
Qed.

Lemma navigateNextUnverified_eq s :
  navigateNextUnverified o s
  = focusOn (List.find unreviewed
               (drop (Z.to_nat (getCurrentIndex o s + 1)) qs
                ++ take (Z.to_nat (getCurrentIndex o s + 1)) qs)).
Proof.
  unfold navigateNextUnverified.
  pose proof (getCurrentIndex_bounds o s) as [Hlo Hhi].
  set (cur := getCurrentIndex o s) in *.
  assert (E1 : firstUnreviewed o (cur + 1) (Z.to_nat (quotesLength o - (cur + 1)))
               = List.find unreviewed (drop (Z.to_nat (cur + 1)) qs)).
  { rewrite <- (Z2Nat.id (cur + 1)) at 1 by lia. rewrite firstUnreviewed_find.
    rewrite take_ge; [reflexivity|]. rewrite length_drop. unfold quotesLength, quotes. lia. }
  assert (E2 : firstUnreviewed o 0 (Z.to_nat (cur + 1))
               = List.find unreviewed (take (Z.to_nat (cur + 1)) qs)).
  { change 0 with (Z.of_nat 0). rewrite firstUnreviewed_find. reflexivity. }
  rewrite E1, E2, find_app'.
  destruct (List.find unreviewed (drop _ qs)); [reflexivity|].
  destruct (List.find unreviewed (take _ qs)); reflexivity.
Qed.

End Edges.

(** Navigation never leaves the list and never guesses: every navigation
    callback dispatches at most one SET_FOCUSED_QUOTE, for the id of a quote
    of the list, and nothing when the list is empty.  Without a focus, or
    with the focus on an id the list does not hold, [navigateNext] goes to
    the first quote and [navigatePrevious] to the last. *)
Theorem navigation_stays_in_list (o : UseQuoteKeyboardNavigationOptions)
    (s : QuoteReviewContextState) :
  let lands (acts : list QuoteReviewAction) :=
    exists x, acts = focusOn x /\ forall q, x = Some q -> q ∈ opt_quotes o in
  lands (navigateNext o s) /\ lands (navigatePrevious o s)
  /\ lands (navigateNextUnverified o s)
  /\ navigateFirst o = focusOn (head (opt_quotes o))
  /\ navigateLast o = focusOn (last (opt_quotes o))
  /\ ((forall q, q ∈ opt_quotes o -> QuoteReview.focusedQuoteId (review s) ≠ Some (id q)) ->
      navigateNext o s = focusOn (head (opt_quotes o))
      /\ navigatePrevious o s = focusOn (last (opt_quotes o))).
Proof.
  cbn zeta. split; [|split; [|split; [|split; [|split]]]].
  - eexists. split; [reflexivity|]. apply getQuoteAtIndex_elem.
  - eexists. split; [reflexivity|]. apply getQuoteAtIndex_elem.
  - eexists. split; [apply navigateNextUnverified_eq|].
    intros q H. apply find_elem in H as [H _].
    rewrite <- (take_drop (Z.to_nat (getCurrentIndex o s + 1)) (opt_quotes o)).
    apply elem_of_app in H as [H|H]; apply elem_of_app; [right | left]; exact H.
  - unfold navigateFirst. rewrite getQuoteAtIndex_0. reflexivity.
  - unfold navigateLast. rewrite getQuoteAtIndex_last. reflexivity.
  - intros H. pose proof (getCurrentIndex_unlisted o s H) as Hc.
    unfold navigateNext, navigatePrevious. rewrite Hc.
    change (0 <? -1) with false. cbv iota. rewrite getQuoteAtIndex_last.
    split; [|reflexivity].
    destruct (Z.ltb_spec (-1) (quotesLength o - 1)).
    + change (-1 + 1) with 0. rewrite getQuoteAtIndex_0. reflexivity.
    + rewrite getQuoteAtIndex_0. reflexivity.
Qed.

(** [navigateNextUnverified] goes to the first quote that is not reviewed,
    searching from the one after the focus to the end and then from the start
    up to the focus; it dispatches nothing when every quote is reviewed, and
    otherwise always lands on a quote that is not.  (The flag it reads is the
    quote's own [isReviewed].) *)
Theorem next_unverified_spec (o : UseQuoteKeyboardNavigationOptions)
    (s : QuoteReviewContextState) :
  let k := Z.to_nat (getCurrentIndex o s + 1) in
  navigateNextUnverified o s
  = focusOn (List.find unreviewed (drop k (opt_quotes o) ++ take k (opt_quotes o)))
  /\ (Forall (fun q => isReviewed q = true) (opt_quotes o) -> navigateNextUnverified o s = [])
  /\ ((exists q, q ∈ opt_quotes o /\ isReviewed q = false) ->
      exists q, q ∈ opt_quotes o /\ isReviewed q = false
                /\ navigateNextUnverified o s = [SET_FOCUSED_QUOTE (Some (id q))]).
Proof.
  cbn zeta. split; [apply navigateNextUnverified_eq|]. rewrite navigateNextUnverified_eq.
  set (k := Z.to_nat (getCurrentIndex o s + 1)).
  assert (Hperm : forall q, q ∈ (drop k (opt_quotes o) ++ take k (opt_quotes o))%list
                            <-> q ∈ opt_quotes o).
  { intros q. rewrite <- (take_drop k (opt_quotes o)) at 3. rewrite !elem_of_app. tauto. }
  split.
  - intros Hall. destruct (List.find _ _) as [q|] eqn:E; [|reflexivity].
    apply find_elem in E as [Hq Hu]. apply Hperm in Hq.
    rewrite Forall_forall in Hall. unfold unreviewed in Hu. rewrite (Hall q Hq) in Hu. discriminate.
  - intros (q & Hq & Hr). destruct (List.find _ _) as [y|] eqn:E.
    + apply find_elem in E as [Hy Hu]. apply Hperm in Hy. exists y.
      split; [exact Hy|]. split; [|reflexivity]. unfold unreviewed in Hu.
      destruct (isReviewed y); [discriminate | reflexivity].
    + exfalso. apply Hperm in Hq. apply list_elem_of_In in Hq.
      pose proof (List.find_none _ _ E q Hq) as Hn. unfold unreviewed in Hn. rewrite Hr in Hn.
      discriminate.
Qed.


(** *** Toggling the verified flag *)

(** A quote with its [isReviewed] flag set. *)
Definition withReviewed (q : QuoteReviewItem) (b : bool) : QuoteReviewItem :=
  mkQuoteReviewItem (id q) (text q) (reference q) (isNonBiblical q) b (interjections q)
    (startOffset q) (endOffset q) (paragraphId q).

(** The hook as it is rendered for a state: its [quotes] option is the list of
    the state. *)
Definition renderedFor (o : UseQuoteKeyboardNavigationOptions) (s : QuoteReviewContextState)
  : UseQuoteKeyboardNavigationOptions :=
  mkOptions (QuoteReview.quotes s) (enabled o) (onEditBoundaries o) (onDelete o) (onLookupVerse o).

Lemma update_unique (l : list QuoteReviewItem) (i : nat) (q : QuoteReviewItem)
    (u : QuoteReviewItemPatch) :
  NoDup (map id l) -> l !! i = Some q ->
  map (fun y => if String.eqb (id y) (id q) then applyPatch y u else y) l
  = <[i := applyPatch q u]> l.
Proof.
  intros Hnd Hi. apply list_eq. intros j.
  change (map ?f l) with (f <$> l). rewrite list_lookup_fmap.
  destruct (decide (j = i)) as [->|Hne].
  - rewrite Hi, list_lookup_insert_eq by (eapply lookup_lt_Some, Hi). cbn.
    rewrite String.eqb_refl. reflexivity.
  - rewrite list_lookup_insert_ne by congruence.
    destruct (l !! j) as [y|] eqn:Hj; [|reflexivity]. cbn.
    destruct (String.eqb_spec (id y) (id q)) as [E|E]; [|reflexivity].
    exfalso. apply Hne. eapply NoDup_lookup; [exact Hnd| |];
      change (map id l) with (id <$> l); rewrite list_lookup_fmap.
    + rewrite Hj. reflexivity.
    + rewrite Hi. cbn. congruence.
Qed.

Lemma find_unique (l : list QuoteReviewItem) (i : nat) (q : QuoteReviewItem) :
  NoDup (map id l) -> l !! i = Some q ->
  List.find (fun y => String.eqb (id y) (id q)) l = Some q.
Proof.
  revert i. induction l as [|y l IH]; intros i Hnd Hi; [discriminate|].
  cbn [List.find]. destruct i as [|i]; cbn in Hi.
  - injection Hi as ->. rewrite String.eqb_refl. reflexivity.
  - cbn [map] in Hnd. apply NoDup_cons in Hnd as [Hy Hnd].
    destruct (String.eqb_spec (id y) (id q)) as [E|E]; [|exact (IH i Hnd Hi)].
    exfalso. apply Hy. rewrite E. change (map id l) with (id <$> l).
    apply list_elem_of_fmap. exists q. split; [reflexivity | eapply list_elem_of_lookup_2, Hi].
Qed.

Lemma toggleVerify_step (o : UseQuoteKeyboardNavigationOptions) (now : Z)
    (s : QuoteReviewContextState) (i : nat) (q : QuoteReviewItem) :
  NoDup (map id (QuoteReview.quotes s)) -> id q ≠ "" ->
  QuoteReview.quotes s !! i = Some q ->
  QuoteReview.focusedQuoteId (review s) = Some (id q) ->
  run now (toggleVerify (renderedFor o s)) s
  = withQuotes s (<[i := withReviewed q (negb (isReviewed q))]> (QuoteReview.quotes s)).
Proof.
  intros Hnd Hne Hi Hf. unfold run, toggleVerify, focusedQuote, focusedQuoteId, quotes.
  rewrite Hf. cbn [renderedFor opt_quotes].
  destruct (id q) as [|c r] eqn:Eid; [congruence|]. cbn [Js.truthyStr]. rewrite <- Eid.
  rewrite (find_unique _ i q Hnd Hi). cbn [map dispatchAll fold_left quoteReviewReducer].
  rewrite (update_unique _ i q _ Hnd Hi). reflexivity.
Qed.

(** With distinct, non-empty ids and the focus on a quote of the list,
    [toggleVerify] flips the [isReviewed] flag of that quote and changes
    nothing else: no other quote, no other field, and not the set of reviewed
    ids the context keeps beside the list.  Toggling twice gives the state
    back. *)
Theorem toggle_verify_spec (o : UseQuoteKeyboardNavigationOptions) (now : Z)
    (s : QuoteReviewContextState) (i : nat) (q : QuoteReviewItem) :
  NoDup (map id (QuoteReview.quotes s)) ->
  id q ≠ "" ->
  QuoteReview.quotes s !! i = Some q ->
  QuoteReview.focusedQuoteId (review s) = Some (id q) ->
  let s' := run now (toggleVerify (renderedFor o s)) s in
  QuoteReview.quotes s' = <[i := withReviewed q (negb (isReviewed q))]> (QuoteReview.quotes s)
  /\ review s' = review s
  /\ boundaryEdit s' = boundaryEdit s /\ boundaryDrag s' = boundaryDrag s
  /\ creation s' = creation s /\ interjectionEdit s' = interjectionEdit s
  /\ panelFilter s' = panelFilter s
  /\ run now (toggleVerify (renderedFor o s')) s' = s.
Proof.
  intros Hnd Hne Hi Hf. cbn zeta. rewrite (toggleVerify_step o now s i q Hnd Hne Hi Hf).
  repeat (split; [reflexivity|]).
  set (q' := withReviewed q (negb (isReviewed q))).
  set (s' := withQuotes s (<[i := q']> (QuoteReview.quotes s))).
  pose proof (lookup_lt_Some _ _ _ Hi) as Hlt.
  assert (Hi' : QuoteReview.quotes s' !! i = Some q') by (apply list_lookup_insert_eq; exact Hlt).
  assert (Hnd' : NoDup (map id (QuoteReview.quotes s'))).
  { cbn. change (map id ?l) with (id <$> l). rewrite list_fmap_insert. cbn.
    rewrite list_insert_id; [exact Hnd|]. rewrite list_lookup_fmap, Hi. reflexivity. }
  rewrite (toggleVerify_step o now s' i q' Hnd' Hne Hi' Hf).
  cbn. rewrite list_insert_insert_eq. rewrite negb_involutive.
  replace (withReviewed q' (isReviewed q)) with q by (destruct q; reflexivity).
  rewrite list_insert_id by exact Hi. destruct s; reflexivity.
Qed.

(** *** Escape *)

Definition escape (now : Z) (s : QuoteReviewContextState) : QuoteReviewContextState :=
  dispatchAll s (map (pair now) (fst (handleEscape s))).

(** Escape leaves one mode at a time, in a fixed order: a boundary drag is
    cancelled first, then boundary editing is left, then interjection
    editing; the key counts as handled exactly when one of the three was
    active.  Three presses leave every mode, after which Escape is not handled
    any more.  It never touches the quote list, the review slice, the
    creation form or the filter. *)
Theorem escape_exits_one_mode (now : Z) (s : QuoteReviewContextState) :
  snd (handleEscape s)
  = isDragging (boundaryDrag s) || be_isActive (boundaryEdit s)
    || ie_isActive (interjectionEdit s)
  /\ (isDragging (boundaryDrag s) = true ->
      escape now s = withBoundaryDrag s initialBoundaryDragState)
  /\ (isDragging (boundaryDrag s) = false -> be_isActive (boundaryEdit s) = true ->
      escape now s = withBoundaryEdit s initialBoundaryEditState)
  /\ (isDragging (boundaryDrag s) = false -> be_isActive (boundaryEdit s) = false ->
      ie_isActive (interjectionEdit s) = true ->
      escape now s = withInterjectionEdit s initialInterjectionEditState)
  /\ (snd (handleEscape s) = false -> escape now s = s)
  /\ handleEscape (escape now (escape now (escape now s))) = ([], false)
  /\ QuoteReview.quotes (escape now s) = QuoteReview.quotes s
  /\ review (escape now s) = review s
  /\ creation (escape now s) = creation s
  /\ panelFilter (escape now s) = panelFilter s.
Proof.
  unfold escape, handleEscape.
  destruct s as [qs r [a1 a2 a3 a4 a5] [d1 d2 d3 d4 d5 d6 d7] cr [e1 e2 e3 e4 e5] pf].
  cbn. destruct d1, a1, e1; cbn; repeat split; intros; try reflexivity; try discriminate.
Qed.

(** *** The key handler *)

Ltac key_cases ev :=
  repeat match goal with
         | |- context [String.eqb (key ev) ?k] =>
             destruct (String.eqb_spec (key ev) k) as [?Hk|?Hk]; cbn [orb andb]
         end.

(** Membership in a list written out. *)
Ltac mem_inv H :=
  repeat (apply elem_of_cons in H as [H|H]; [try discriminate H|]);
  try (apply elem_of_nil in H; destruct H).

Ltac split_if H :=
  match type of H with
  | context [if ?c then _ else _] => destruct c eqn:?
  end.

Lemma truthy_focus (f : option NodeId) (x : NodeId) :
  Js.truthyOptStr f = true /\ default "" f = x <-> f = Some x /\ x ≠ "".
Proof.
  destruct f as [[|c r]|]; cbn; split; intros [H1 H2]; try discriminate; try congruence.
  - subst x. split; [reflexivity | discriminate].
  - injection H1 as <-. split; reflexivity.
Qed.

Lemma delete_arm (c1 c3 : bool) (f : option NodeId) (x : NodeId) :
  Delete x ∈ (if c1 && Js.truthyOptStr f && c3
              then [PreventDefault; Delete (default "" f)] else [])
  <-> c1 = true /\ f = Some x /\ x ≠ "" /\ c3 = true.
Proof.
  destruct c1, c3; cbn [andb]; rewrite ?andb_false_r, ?andb_true_r;
    try (split; [intros H; inversion H | intros (? & ? & ? & ?); discriminate]).
  destruct (Js.truthyOptStr f) eqn:E.
  - split.
    + intros H. mem_inv H. injection H as ->.
      destruct (proj1 (truthy_focus f _) (conj E eq_refl)) as [? ?]. auto.
    + intros (_ & Hf & Hx & _). destruct (proj2 (truthy_focus f x) (conj Hf Hx)) as [_ <-].
      apply elem_of_cons. right. apply elem_of_cons. left. reflexivity.
  - split; [intros H; inversion H|].
    intros (_ & Hf & Hx & _). destruct (proj2 (truthy_focus f x) (conj Hf Hx)) as [Ht _].
    congruence.
Qed.

Lemma dispatch_prevented (acts : list QuoteReviewAction) (a : QuoteReviewAction) :
  Dispatch a ∈ prevented acts -> a ∈ acts.
Proof.
  intros H. unfold prevented in H. apply elem_of_cons in H as [H|H]; [discriminate|].
  change (map Dispatch acts) with (Dispatch <$> acts) in H.
  apply list_elem_of_fmap in H as (b & [= ->] & Hb). exact Hb.
Qed.

Lemma delete_prevented (acts : list QuoteReviewAction) (x : NodeId) : Delete x ∉ prevented acts.
Proof.
  intros H. unfold prevented in H. apply elem_of_cons in H as [H|H]; [discriminate|].
  change (map Dispatch acts) with (Dispatch <$> acts) in H.
  apply list_elem_of_fmap in H as (b & Hb & _). discriminate.
Qed.

Lemma lookup_arm_calls (q : option QuoteReviewItem) (e : Effect) :
  e ∈ PreventDefault ::
      match q with
      | Some quote =>
          match reference quote with
          | Some r => if Js.truthyStr r then [LookupVerse r] else []
          | None => []
          end
      | None => []
      end ->
  e = PreventDefault \/ exists r, e = LookupVerse r.
Proof.
  intros H. apply elem_of_cons in H as [H|H]; [left; exact H|]. right.
  destruct q as [quote|]; [|inversion H]. destruct (reference quote) as [r|]; [|inversion H].
  destruct (Js.truthyStr r); [|inversion H]. apply list_elem_of_singleton in H. eauto.
Qed.

Lemma escape_arm (s : QuoteReviewContextState) (e : Effect) :
  e ∈ (let '(acts, handled) := handleEscape s in
       (map Dispatch acts ++ if handled then [PreventDefault] else [])%list) ->
  e = PreventDefault \/ e = Dispatch CANCEL_BOUNDARY_DRAG \/ e = Dispatch EXIT_BOUNDARY_EDIT_MODE
  \/ e = Dispatch EXIT_INTERJECTION_EDIT_MODE.
Proof.
  unfold handleEscape.
  destruct (isDragging (boundaryDrag s)), (be_isActive (boundaryEdit s)),
    (ie_isActive (interjectionEdit s)); cbn; intros H; mem_inv H; auto.
Qed.

(** The handler does nothing while the hook is disabled.  It calls [onDelete]
    only for Delete or Backspace pressed with a modifier or Shift while a
    quote is focused, and then with the focused id.  While Meta or Control is
    held no key but Escape dispatches anything.  Whatever it dispatches
    leaves the list of quotes in place: a focus change, an update of the
    [isReviewed] flag, or leaving a mode; a quote is never removed by the
    handler itself. *)
Theorem key_guards (o : UseQuoteKeyboardNavigationOptions) (isMac : bool)
    (s : QuoteReviewContextState) (ev : KeyboardEvent) :
  (enabled o = Some false -> handleKeyDown o isMac s ev = [])
  /\ (forall x, Delete x ∈ handleKeyDown o isMac s ev <->
        default true (enabled o) = true
        /\ (key ev = "Delete" \/ key ev = "Backspace")
        /\ metaKey ev || ctrlKey ev || shiftKey ev = true
        /\ QuoteReview.focusedQuoteId (review s) = Some x /\ x ≠ ""
        /\ onDelete o = true)
  /\ (metaKey ev || ctrlKey ev = true -> key ev ≠ "Escape" ->
      forall a, Dispatch a ∉ handleKeyDown o isMac s ev)
  /\ (forall a, Dispatch a ∈ handleKeyDown o isMac s ev ->
        (exists x, a = SET_FOCUSED_QUOTE x)
        \/ (exists x b, a = UPDATE_QUOTE x (reviewedPatch b))
        \/ a = CANCEL_BOUNDARY_DRAG \/ a = EXIT_BOUNDARY_EDIT_MODE
        \/ a = EXIT_INTERJECTION_EDIT_MODE).
Proof.
  assert (Hland : forall x a, a ∈ focusOn x -> exists y, a = SET_FOCUSED_QUOTE y).
  { intros x a H. apply focusOn_elem in H as (q & _ & ->). eauto. }
  assert (Htog : forall a, a ∈ toggleVerify o s -> exists x b, a = UPDATE_QUOTE x (reviewedPatch b)).
  { intros a H. unfold toggleVerify in H. destruct (focusedQuoteId s) as [f|]; [|inversion H].
    destruct (Js.truthyStr f); [|inversion H]. destruct (focusedQuote o s); [|inversion H].
    apply list_elem_of_singleton in H. eauto. }
  split; [|split; [|split]].
  - intros H. unfold handleKeyDown. rewrite H. reflexivity.
  - intros x. unfold handleKeyDown, keyIs.
    destruct (default true (enabled o)); cbn [negb];
      [|split; [intros H; inversion H | intros (H & _); discriminate]].
    key_cases ev;
      try (rewrite delete_arm; unfold focusedQuoteId; intuition congruence);
      (split; [intros H | intros (_ & [Hd|Hd] & _); congruence]);
      try (split_if H; [|inversion H]);
      try (exfalso; eapply delete_prevented, H);
      try (exfalso; mem_inv H; fail).
    + apply lookup_arm_calls in H as [H|[r H]]; discriminate.
    + apply escape_arm in H as [H|[H|[H|H]]]; discriminate.
  - intros Hmod Hesc a. unfold handleKeyDown, keyIs.
    destruct (default true (enabled o)); cbn [negb]; [|intros H; inversion H].
    rewrite Hmod. cbn [negb andb].
    key_cases ev; try congruence; intros H; try (inversion H; fail);
      try (split_if H; [|inversion H]); try (mem_inv H; fail).
    apply lookup_arm_calls in H as [H|[r H]]; discriminate.
  - intros a. unfold handleKeyDown, keyIs.
    destruct (default true (enabled o)); cbn [negb]; [|intros H; inversion H].
    key_cases ev; intros H; try (inversion H; fail);
      try (split_if H; [|inversion H]); try (mem_inv H; fail);
      try (apply dispatch_prevented in H).
    all: try (left; first [eapply Hland, H
                          | rewrite navigateNextUnverified_eq in H; eapply Hland, H]).
    all: try (right; left; eapply Htog, H).
    + apply lookup_arm_calls in H as [H|[r H]]; discriminate.
    + apply escape_arm in H as [H|[H|[H|H]]]; try discriminate; injection H as ->; auto.
Qed.


(** *** Three quotes, the second one focused *)

Definition quoteOf (i r : string) (reviewed : bool) : QuoteReviewItem :=
  mkQuoteReviewItem i "text" (Some r) false reviewed None None None None.

Definition threeQuotes : list QuoteReviewItem :=
  [quoteOf "q1" "John 3:16" true; quoteOf "q2" "Romans 8:28" false; quoteOf "q3" "Psalm 23:1" true].

Definition navOptions : UseQuoteKeyboardNavigationOptions :=
  mkOptions threeQuotes None false false false.

Definition secondFocused : QuoteReviewContextState :=
  dispatchAll initialState [(0, SET_QUOTES threeQuotes); (0, SET_FOCUSED_QUOTE (Some "q2"))].

Lemma navigation_cycles_witness :
  NoDup (map id (opt_quotes navOptions))
  /\ Forall (fun x => id x ≠ "") (opt_quotes navOptions)
  /\ opt_quotes navOptions !! 1%nat = Some (quoteOf "q2" "Romans 8:28" false)
  /\ QuoteReview.focusedQuoteId (review secondFocused) = Some "q2"
  /\ Nat.iter 2 (run 0 (navigateNext navOptions)) secondFocused
     = QuoteReviewSpec.setFocus secondFocused (Some "q1")
  /\ run 0 (navigatePrevious navOptions) (run 0 (navigateNext navOptions) secondFocused)
     = secondFocused.
Proof.
  assert (H1 : NoDup (map id (opt_quotes navOptions)))
    by (apply (bool_decide_unpack _); vm_compute; exact I).
  assert (H2 : Forall (fun x => id x ≠ "") (opt_quotes navOptions))
    by (repeat constructor; discriminate).
  assert (H3 : opt_quotes navOptions !! 1%nat = Some (quoteOf "q2" "Romans 8:28" false))
    by reflexivity.
  assert (H4 : QuoteReview.focusedQuoteId (review secondFocused) = Some "q2") by reflexivity.
  split; [exact H1|]. split; [exact H2|]. split; [exact H3|]. split; [exact H4|].
  pose proof (navigation_cycles navOptions 0 secondFocused 1 _ H1 H2 H3 H4) as (Hk & _ & Hb & _).
  split; [|exact Hb].
  destruct (Hk 2%nat) as (q' & Hq & Hs). cbn in Hq. injection Hq as <-. exact Hs.
Defined.

Lemma toggle_verify_spec_witness :
  NoDup (map id (QuoteReview.quotes secondFocused))
  /\ id (quoteOf "q2" "Romans 8:28" false) ≠ ""
  /\ QuoteReview.quotes secondFocused !! 1%nat = Some (quoteOf "q2" "Romans 8:28" false)
  /\ QuoteReview.focusedQuoteId (review secondFocused) = Some "q2"
  /\ QuoteReview.quotes (run 0 (toggleVerify (renderedFor navOptions secondFocused)) secondFocused)
     = [quoteOf "q1" "John 3:16" true; quoteOf "q2" "Romans 8:28" true;
        quoteOf "q3" "Psalm 23:1" true].
Proof.
  assert (H1 : NoDup (map id (QuoteReview.quotes secondFocused)))
    by (apply (bool_decide_unpack _); vm_compute; exact I).
  assert (H2 : id (quoteOf "q2" "Romans 8:28" false) ≠ "") by discriminate.
  assert (H3 : QuoteReview.quotes secondFocused !! 1%nat = Some (quoteOf "q2" "Romans 8:28" false))
    by reflexivity.
  assert (H4 : QuoteReview.focusedQuoteId (review secondFocused) = Some "q2") by reflexivity.
  split; [exact H1|]. split; [exact H2|]. split; [exact H3|]. split; [exact H4|].
  exact (proj1 (toggle_verify_spec navOptions 0 secondFocused 1 _ H1 H2 H3 H4)).
Defined.

End KeyboardNavigationSpec.

(** ** Creating a quote *)
Module QuoteCreationFlowSpec.
Import QuoteReview QuoteCreation QuoteCreationFlow.

Lemma valid_not_blank (input : string) :
  valid (parseReference input) = true -> Js.truthyStr (Js.trim input) = true.
Proof.
  unfold parseReference. destruct (Js.trim input) as [|c r]; [|reflexivity].
  vm_compute. discriminate.
Qed.

Section Flow.
Variable o : UseQuoteCreationOptions.
Variable now : Z.

(** Typing: one [updateReference] per input. *)
Definition typeAll (h : Hook) (inputs : list string) : Hook :=
  fold_left (updateReference now) inputs h.

(** What the lookup service answers, as the hook records it. *)
Definition recorded (outcome : LookupOutcome) : BibleLookupResult :=
  match outcome with
  | Resolved r => r
  | Rejected msg => failure (default "Lookup failed" msg)
  end.

Lemma updateReference_eq (h : Hook) (input : string) :
  updateReference now h input
  = mkHook (withCreation (ctx h)
              (mkCreation (isCreating (creation (ctx h))) (selectedText (creation (ctx h)))
                 (selectedRange (creation (ctx h))) input None (isLookingUp (creation (ctx h)))
                 (cr_isNonBiblical (creation (ctx h))) (spannedParagraphIds (creation (ctx h)))))
      (if valid (parseReference input) then Some input else None)
      (calls h).
Proof.
  unfold updateReference, QuoteCreation.updateReference. cbn.
  destruct (valid (parseReference input)) eqn:E.
  - rewrite (valid_not_blank input E). reflexivity.
  - rewrite andb_false_r. reflexivity.
Qed.

Lemma lookupTimerFires_valid (h : Hook) (input : string) (lookup : string -> LookupOutcome) :
  onLookupVerse o = Some lookup -> lookupTimerRef h = Some input ->
  valid (parseReference input) = true ->
  lookupTimerFires o now h
  = mkHook (withCreation (ctx h)
              (mkCreation (isCreating (creation (ctx h))) (selectedText (creation (ctx h)))
                 (selectedRange (creation (ctx h))) (referenceInput (creation (ctx h)))
                 (Some (recorded (lookup input))) false
                 (cr_isNonBiblical (creation (ctx h))) (spannedParagraphIds (creation (ctx h)))))
      None (calls h ++ [LookupVerse input]).
Proof.
  intros Ho Ht Hv. unfold lookupTimerFires, QuoteCreation.lookupTimerFires, performLookup.
  rewrite Ho, Ht, Hv. reflexivity.
Qed.

Lemma lookupTimerFires_none (h : Hook) :
  lookupTimerRef h = None -> lookupTimerFires o now h = h.
Proof.
  intros Ht. unfold lookupTimerFires, QuoteCreation.lookupTimerFires. rewrite Ht.
  cbn. destruct h; cbn in *. congruence.
Qed.

End Flow.

(** Typing a reference is debounced.  However many inputs are typed before
    the delay passes, the lookup service is not called while typing; when the
    delay passes it is called at most once, with the last input, and only if
    that input parses as a reference.  The form then shows the last input,
    with the answer of the service (a rejected promise as a failure carrying
    its message) and the busy flag off; for a last input that does not parse
    no result is shown and none is asked for.  A timer fires once. *)
Theorem typing_debounce (o : UseQuoteCreationOptions) (now : Z) (h : Hook)
    (inputs : list string) (last : string) :
  let typed := typeAll now h (inputs ++ [last]) in
  let settled := lookupTimerFires o now typed in
  calls typed = calls h
  /\ referenceInput (creation (ctx typed)) = last
  /\ lookupResult (creation (ctx typed)) = None
  /\ lookupTimerRef typed = (if valid (parseReference last) then Some last else None)
  /\ calls settled
     = (calls h ++ match onLookupVerse o with
                   | Some _ => if valid (parseReference last) then [LookupVerse last] else []
                   | None => []
                   end)%list
  /\ referenceInput (creation (ctx settled)) = last
  /\ (forall lookup, onLookupVerse o = Some lookup ->
        lookupResult (creation (ctx settled))
        = (if valid (parseReference last) then Some (recorded (lookup last)) else None)
        /\ (valid (parseReference last) = true -> isLookingUp (creation (ctx settled)) = false))
  /\ lookupTimerFires o now settled = settled.
Proof.
  cbn zeta. unfold typeAll. rewrite fold_left_app. cbn [fold_left].
  set (h0 := fold_left (updateReference now) inputs h).
  assert (Hc : calls h0 = calls h).
  { subst h0. revert h. induction inputs as [|x l IH]; intros h; [reflexivity|].
    cbn [fold_left]. rewrite IH, updateReference_eq. reflexivity. }
  rewrite updateReference_eq. cbn [calls ctx lookupTimerRef creation withCreation referenceInput
    lookupResult].
  split; [exact Hc|]. split; [reflexivity|]. split; [reflexivity|]. split; [reflexivity|].
  destruct (valid (parseReference last)) eqn:Hv; cbv iota.
  - destruct (onLookupVerse o) as [lookup|] eqn:Ho.
    + erewrite lookupTimerFires_valid; [|exact Ho|reflexivity|exact Hv]. cbn.
      rewrite Hc. split; [reflexivity|]. split; [reflexivity|]. split.
      * intros lk [= <-]. split; reflexivity.
      * apply lookupTimerFires_none. reflexivity.
    + unfold lookupTimerFires, QuoteCreation.lookupTimerFires, performLookup. rewrite Ho. cbn.
      rewrite Hc, app_nil_r. split; [reflexivity|]. split; [reflexivity|].
      split; [intros lk Hl; discriminate | reflexivity].
  - unfold lookupTimerFires, QuoteCreation.lookupTimerFires. cbn.
    rewrite Hc. destruct (onLookupVerse o); rewrite app_nil_r;
      (split; [reflexivity|]); (split; [reflexivity|]);
      (split; [intros lk Hl; split; [reflexivity | discriminate] | reflexivity]).
Qed.

(** [confirm] does nothing unless a creation is in progress.  Otherwise it
    appends one quote to the list, whatever the list holds, and resets the
    creation form; the quote carries the selected text and range, is not
    reviewed, and has no reference when marked non-biblical, else the
    normalized reference of the lookup result when there is a non-empty one,
    else the reference as typed.  [onParagraphMerge] is called first, when the
    selection spans more than one paragraph, then [onQuoteCreated].  The
    pending lookup timer is left alone. *)
Theorem confirm_spec (o : UseQuoteCreationOptions) (now : Z) (quoteId : NodeId) (h : Hook) :
  let cr := creation (ctx h) in
  let h' := confirm o now quoteId h in
  (isCreating cr = false -> h' = h)
  /\ (isCreating cr = true ->
      quotes (ctx h') = (quotes (ctx h) ++ [newQuote quoteId cr])%list
      /\ creation (ctx h') = initialCreationState
      /\ review (ctx h') = review (ctx h)
      /\ boundaryEdit (ctx h') = boundaryEdit (ctx h)
      /\ boundaryDrag (ctx h') = boundaryDrag (ctx h)
      /\ interjectionEdit (ctx h') = interjectionEdit (ctx h)
      /\ panelFilter (ctx h') = panelFilter (ctx h)
      /\ lookupTimerRef h' = lookupTimerRef h
      /\ calls h'
         = (calls h
            ++ (if (1 <? length (spannedParagraphIds cr))%nat && onParagraphMerge o
                then [ParagraphMerge (spannedParagraphIds cr)] else [])
            ++ (if onQuoteCreated o then [QuoteCreated (newQuote quoteId cr)] else []))%list)
  /\ isReviewed (newQuote quoteId cr) = false
  /\ text (newQuote quoteId cr) = selectedText cr
  /\ (cr_isNonBiblical cr = true -> reference (newQuote quoteId cr) = None)
  /\ (cr_isNonBiblical cr = false ->
      forall r, lookupResult cr ≫= lr_normalizedReference = Some r -> r ≠ "" ->
                reference (newQuote quoteId cr) = Some r)
  /\ (cr_isNonBiblical cr = false ->
      lookupResult cr ≫= lr_normalizedReference = None
      \/ lookupResult cr ≫= lr_normalizedReference = Some "" ->
      reference (newQuote quoteId cr) = Some (referenceInput cr)).
Proof.
  cbn zeta. unfold confirm. split; [|split].
  - intros H. rewrite H. reflexivity.
  - intros H. rewrite H. cbn. rewrite <- app_assoc. repeat split; reflexivity.
  - split; [reflexivity|]. split; [reflexivity|]. unfold newQuote, referenceFor. cbn.
    split; [intros ->; reflexivity|]. split.
    + intros -> r -> Hr. destruct r; [congruence | reflexivity].
    + intros -> [->| ->]; reflexivity.
Qed.

(** [cancel] clears the lookup timer, [confirm] does not.  After [cancel] the
    delay passing changes nothing and calls nothing.  After [confirm], a
    lookup that was still pending is made all the same, and its answer lands
    in the form that has just been reset: the form is no longer creating, yet
    holds a lookup result. *)
Theorem pending_lookup_after_cancel_and_confirm (o : UseQuoteCreationOptions) (now : Z)
    (quoteId : NodeId) (h : Hook) (input : string) (lookup : string -> LookupOutcome) :
  onLookupVerse o = Some lookup ->
  lookupTimerRef h = Some input ->
  valid (parseReference input) = true ->
  isCreating (creation (ctx h)) = true ->
  lookupTimerFires o now (cancel now h) = cancel now h
  /\ creation (ctx (cancel now h)) = initialCreationState
  /\ calls (cancel now h) = calls h
  /\ (let h' := lookupTimerFires o now (confirm o now quoteId h) in
      isCreating (creation (ctx h')) = false
      /\ lookupResult (creation (ctx h')) = Some (recorded (lookup input))
      /\ LookupVerse input ∈ calls h').
Proof.
  intros Ho Ht Hv Hc. split; [|split; [|split]].
  - apply lookupTimerFires_none. reflexivity.
  - reflexivity.
  - reflexivity.
  - cbn zeta.
    assert (Ht' : lookupTimerRef (confirm o now quoteId h) = Some input).
    { unfold confirm. rewrite Hc. cbn. exact Ht. }
    rewrite (lookupTimerFires_valid o now _ input lookup Ho Ht' Hv). cbn.
    split; [|split; [reflexivity|]].
    + unfold confirm. rewrite Hc. reflexivity.
    + apply elem_of_app. right. apply list_elem_of_singleton. reflexivity.
Qed.

(** The form with "John 3:16" typed into it, the timer still pending. *)
Definition johnTyped : Hook :=
  updateReference 0
    (startCreation 0 (mkHook initialState None []) "For God so loved the world"
       (Some (mkSelectedRange "p1" 4 "p1" 30)) ["p1"])
    "John 3:16".

Definition found (reference : string) : LookupOutcome :=
  Resolved (mkLookupResult true (Some "For God so loved the world") (Some "John 3:16")
              (Some "John") (Some 3) (Some (Some 16)) (Some None) (Some "KJV") None).

Definition lookupOptions : UseQuoteCreationOptions := mkOptions (Some found) true true.

Lemma pending_lookup_after_cancel_and_confirm_witness :
  onLookupVerse lookupOptions = Some found
  /\ lookupTimerRef johnTyped = Some "John 3:16"
  /\ valid (parseReference "John 3:16") = true
  /\ isCreating (creation (ctx johnTyped)) = true
  /\ lookupTimerFires lookupOptions 0 (cancel 0 johnTyped) = cancel 0 johnTyped
  /\ (let h' := lookupTimerFires lookupOptions 0 (confirm lookupOptions 0 "quote_1" johnTyped) in
      isCreating (creation (ctx h')) = false
      /\ lookupResult (creation (ctx h')) = Some (recorded (found "John 3:16"))
      /\ LookupVerse "John 3:16" ∈ calls h').
Proof.
  assert (H1 : onLookupVerse lookupOptions = Some found) by reflexivity.
  assert (H2 : lookupTimerRef johnTyped = Some "John 3:16") by (vm_compute; reflexivity).
  assert (H3 : valid (parseReference "John 3:16") = true) by (vm_compute; reflexivity).
  assert (H4 : isCreating (creation (ctx johnTyped)) = true) by (vm_compute; reflexivity).
  split; [exact H1|]. split; [exact H2|]. split; [exact H3|]. split; [exact H4|].
  pose proof (pending_lookup_after_cancel_and_confirm lookupOptions 0 "quote_1" johnTyped
                "John 3:16" found H1 H2 H3 H4) as (P1 & _ & _ & P2).
  split; [exact P1 | exact P2].
Defined.

End QuoteCreationFlowSpec.

(** ** Where a match lies in the input *)
Module RegexPositions.
Import Regex RegexSpec.

Lemma append_nil_r (s : string) : s +:+ "" = s.
Proof. induction s as [|a s IH]; [reflexivity|]. change (String a (s +:+ "") = String a s). now rewrite IH. Qed.

Lemma append_assoc' (a b c : string) : (a +:+ b) +:+ c = a +:+ (b +:+ c).
Proof.
  induction a as [|x a IH]; [reflexivity|].
  change (String x ((a +:+ b) +:+ c) = String x (a +:+ (b +:+ c))). now rewrite IH.
Qed.

Lemma length_append (a b : string) : String.length (a +:+ b) = (String.length a + String.length b)%nat.
Proof.
  induction a as [|x a IH]; [reflexivity|].
  change (S (String.length (a +:+ b)) = S (String.length a + String.length b)). now rewrite IH.
Qed.

Lemma lastCharFrom_app (p : option ascii) (a b : string) :
  lastCharFrom p (a +:+ b) = lastCharFrom (lastCharFrom p a) b.
Proof.
  revert p. induction a as [|x a IH]; intros p; [reflexivity|].
  change (lastCharFrom (Some x) (a +:+ b) = lastCharFrom (lastCharFrom (Some x) a) b). apply IH.
Qed.

(** What a match consumes is a prefix of the input it started on. *)
Lemma Matches_prefix r p s p' s' :
  Matches r p s p' s' -> exists w, s = w +:+ s' /\ p' = lastCharFrom p w.
Proof.
  induction 1 as
    [ prev s | cls prev a s Hc
    | r1 r2 p0 s0 p1 s1 p2 s2 _ (w1 & E1 & L1) _ (w2 & E2 & L2)
    | r1 r2 p0 s0 p1 s1 _ IH | r1 r2 p0 s0 p1 s1 _ IH
    | r p0 s0 p1 s1 _ IH | r p0 s0 | r p0 s0
    | r p0 s0 p1 s1 p2 s2 _ (w1 & E1 & L1) _ (w2 & E2 & L2)
    | n r p0 s0 p1 s1 _ IH | s | prev | prev s Hb ];
    try exact IH; try (exists EmptyString; split; reflexivity).
  - exists (String a EmptyString). split; reflexivity.
  - exists (w1 +:+ w2). subst. rewrite append_assoc', lastCharFrom_app. split; reflexivity.
  - exists (w1 +:+ w2). subst. rewrite append_assoc', lastCharFrom_app. split; reflexivity.
Qed.

Lemma substring_prefix (w s : string) :
  String.substring 0 (String.length w) (w +:+ s) = w.
Proof.
  induction w as [|a w IH]; [destruct s; reflexivity|].
  change (String a (String.substring 0 (String.length w) (w +:+ s)) = String a w). now rewrite IH.
Qed.

Lemma consumed_app (w s : string) : consumed (w +:+ s) s = w.
Proof.
  unfold consumed. rewrite length_append.
  replace (String.length w + String.length s - String.length s)%nat with (String.length w) by lia.
  apply substring_prefix.
Qed.

(** The least number of characters a pattern consumes. *)
Fixpoint minLength (r : Regex) : nat :=
  match r with
  | Class _ => 1
  | Seq r1 r2 => minLength r1 + minLength r2
  | Alt r1 r2 => Nat.min (minLength r1) (minLength r2)
  | Group _ r1 => minLength r1
  | Empty | Opt _ | Star _ | Bol | Eol | WordBoundary => 0
  end.

Lemma Matches_minLength r p s p' s' :
  Matches r p s p' s' -> (minLength r + String.length s' <= String.length s)%nat.
Proof.
  induction 1; cbn [minLength String.length] in *; lia.
Qed.

(** A match found at a position: the input from there on starts with the
    matched text, which the pattern consumes. *)
Lemma matchHere_Some r p s idx m :
  matchHere r p s idx = Some m ->
  index m = idx
  /\ exists p' rest, s = matched m +:+ rest /\ Matches r p s p' rest.
Proof.
  unfold matchHere. intros H.
  destruct (run r p s noCaptures (fun _ s' c => Some (s', c))) as [[rest c]|] eqn:E; [|discriminate].
  injection H as <-. cbn [index matched]. split; [reflexivity|].
  apply run_sound in E as (p' & s' & c' & M & [= -> ->]).
  destruct (Matches_prefix _ _ _ _ _ M) as (w & -> & _).
  exists p', rest. rewrite consumed_app. split; [reflexivity | exact M].
Qed.

Lemma search_Some r s : forall p idx m,
  search r p s idx = Some m ->
  exists before p' rest,
    s = before +:+ (matched m +:+ rest)
    /\ index m = (idx + String.length before)%nat
    /\ Matches r (lastCharFrom p before) (matched m +:+ rest) p' rest.
Proof.
  induction s as [|a s IH]; intros p idx m H; cbn [search] in H.
  - destruct (matchHere r p EmptyString idx) as [m'|] eqn:E; [|discriminate].
    injection H as ->. apply matchHere_Some in E as (Hi & p' & rest & Hs & M).
    exists EmptyString, p', rest. cbn. rewrite <- Hs. split; [reflexivity|]. split; [lia | exact M].
  - destruct (matchHere r p (String a s) idx) as [m'|] eqn:E.
    + injection H as ->. apply matchHere_Some in E as (Hi & p' & rest & Hs & M).
      exists EmptyString, p', rest. cbn. rewrite <- Hs. split; [reflexivity|]. split; [lia | exact M].
    + apply IH in H as (before & p' & rest & Hs & Hi & M).
      exists (String a before), p', rest. cbn. split; [rewrite Hs; reflexivity|].
      split; [lia | exact M].
Qed.

Lemma advance_app (w s : string) (p : option ascii) :
  advance (String.length w) p (w +:+ s) = (lastCharFrom p w, s).
Proof.
  revert p. induction w as [|a w IH]; intros p.
  - cbn. destruct s; reflexivity.
  - change (advance (String.length w) (Some a) (w +:+ s) = (lastCharFrom (Some a) w, s)). apply IH.
Qed.

(** A match of the input, with its place: the text before it has [index m]
    characters. *)
Definition LiesIn (text : string) (m : MatchResult) : Prop :=
  exists before after,
    text = before +:+ (matched m +:+ after) /\ index m = String.length before.

(** The matches [execAll] returns lie in the input, each one after the end of
    the one before, and each at least as long as the pattern's least
    length. *)
Lemma execAll_spec r fuel : forall p s idx done,
  String.length done = idx ->
  let ms := execAll fuel r p s idx in
  Forall (LiesIn (done +:+ s)) ms
  /\ Forall (fun m => (minLength r <= String.length (matched m))%nat) ms
  /\ Forall (fun m => (idx <= index m)%nat) ms
  /\ StronglySorted (fun a b => (index a + String.length (matched a) <= index b)%nat) ms.
Proof.
  induction fuel as [|fuel IH]; intros p s idx done Hd; cbn zeta; cbn [execAll].
  - repeat split; constructor.
  - destruct (search r p s idx) as [m|] eqn:E; [|repeat split; constructor].
    apply search_Some in E as (before & p' & rest & Hs & Hi & M).
    set (skip := (index m - idx + String.length (matched m))%nat).
    assert (Hskip : skip = String.length (before +:+ matched m)).
    { unfold skip. rewrite length_append. lia. }
    assert (Hadv : advance skip p s = (lastCharFrom p (before +:+ matched m), rest)).
    { rewrite Hskip, Hs, <- append_assoc'. apply advance_app. }
    rewrite Hadv.
    specialize (IH (lastCharFrom p (before +:+ matched m)) rest (idx + skip)%nat
                  (done +:+ (before +:+ matched m))).
    destruct IH as (I1 & I2 & I3 & I4).
    { rewrite length_append, Hd, Hskip. reflexivity. }
    assert (Hwhole : done +:+ s = (done +:+ (before +:+ matched m)) +:+ rest).
    { rewrite Hs, !append_assoc'. reflexivity. }
    split; [|split; [|split]].
    + constructor.
      * exists (done +:+ before), rest. rewrite Hs, append_assoc', length_append. split; [reflexivity | lia].
      * rewrite Hwhole. exact I1.
    + constructor; [|exact I2].
      pose proof (Matches_minLength _ _ _ _ _ M) as Hm. rewrite length_append in Hm. lia.
    + constructor; [lia|]. eapply Forall_impl; [exact I3|]. cbn. intros x Hx. lia.
    + constructor; [exact I4|]. eapply Forall_impl; [exact I3|]. cbn. intros x Hx.
      rewrite Hskip, length_append in Hx. lia.
Qed.

Lemma matchAll_spec r text :
  Forall (LiesIn text) (matchAll r text)
  /\ Forall (fun m => (minLength r <= String.length (matched m))%nat) (matchAll r text)
  /\ StronglySorted (fun a b => (index a + String.length (matched a) <= index b)%nat)
       (matchAll r text).
Proof.
  destruct (execAll_spec r (S (String.length text)) None text 0 EmptyString eq_refl)
    as (H1 & H2 & _ & H4).
  split; [exact H1|]. split; [exact H2 | exact H4].
Qed.

End RegexPositions.

(** ** Detecting interjections *)
Module InterjectionDetectionSpec.
Import Regex RegexSpec RegexPositions QuoteReview InterjectionDetection JsSpec.

Lemma substring_skip (before s : string) (n : nat) :
  String.substring (String.length before) n (before +:+ s) = String.substring 0 n s.
Proof.
  induction before as [|a b IH]; [reflexivity|].
  change (String.substring (String.length b) n (b +:+ s) = String.substring 0 n s). exact IH.
Qed.

(** A match as [findMatches] records it: its offsets delimit, in the text,
    exactly the matched characters, of which there is at least one. *)
Definition WellPlaced (text : string) (m : InterjectionMatch) : Prop :=
  0 <= m_startOffset m /\ m_startOffset m < m_endOffset m
  /\ m_endOffset m <= Z.of_nat (String.length text)
  /\ m_text m
     = String.substring (Z.to_nat (m_startOffset m))
         (Z.to_nat (m_endOffset m - m_startOffset m)) text
  /\ exists p, p ∈ INTERJECTION_PATTERNS
               /\ m_confidence m = pt_confidence p /\ m_context m = pt_context p
               /\ m_pattern m = source p.

Lemma patterns_consume :
  Forall (fun p => (1 <= minLength (pattern p))%nat) INTERJECTION_PATTERNS.
Proof. repeat constructor. Qed.

Lemma toMatch_placed (text : string) (p : Pattern) (m : MatchResult) :
  p ∈ INTERJECTION_PATTERNS -> LiesIn text m ->
  (minLength (pattern p) <= String.length (matched m))%nat ->
  WellPlaced text (toMatch p m).
Proof.
  intros Hp (before & after & Ht & Hi) Hm.
  pose proof patterns_consume as Hc. rewrite Forall_forall in Hc. specialize (Hc p Hp).
  unfold WellPlaced, toMatch. cbn.
  split; [lia|]. split; [lia|]. split.
  - rewrite Ht, Hi, !length_append. lia.
  - split; [|exists p; repeat split; exact Hp].
    rewrite Nat2Z.id. replace (Z.to_nat _) with (String.length (matched m)) by lia.
    rewrite Ht, Hi, substring_skip, substring_prefix. reflexivity.
Qed.

(** Every match the patterns produce, before the overlap filter. *)
Definition allMatches (text : string) : list InterjectionMatch :=
  flat_map (fun p => map (toMatch p) (matchAll (pattern p) text)) INTERJECTION_PATTERNS.

Lemma allMatches_placed (text : string) : Forall (WellPlaced text) (allMatches text).
Proof.
  unfold allMatches. apply Forall_forall. intros m Hm.
  apply list_elem_of_In, in_flat_map in Hm as (p & Hp & Hm).
  apply list_elem_of_In in Hp. apply in_map_iff in Hm as (x & <- & Hx).
  apply list_elem_of_In in Hx.
  destruct (matchAll_spec (pattern p) text) as (H1 & H2 & _).
  rewrite Forall_forall in H1, H2. apply toMatch_placed; auto.
Qed.

(** The kept matches form a chain: each ends where the next begins or
    before. *)
Definition Chain (l : list InterjectionMatch) : Prop :=
  StronglySorted (fun a b => m_endOffset a <= m_startOffset b) l.

Definition NonEmpty (m : InterjectionMatch) : Prop := m_startOffset m < m_endOffset m.

Lemma Chain_snoc (l : list InterjectionMatch) (m : InterjectionMatch) :
  Chain l -> Forall (fun f => m_endOffset f <= m_startOffset m) l -> Chain (l ++ [m]).
Proof.
  unfold Chain. induction 1 as [|x l Hs IH Hx]; intros Hall; cbn.
  - repeat constructor.
  - apply Forall_cons in Hall as [Hxm Hall]. constructor; [exact (IH Hall)|].
    apply Forall_app. split; [exact Hx | repeat constructor; exact Hxm].
Qed.

Lemma Chain_app_inv (l1 l2 : list InterjectionMatch) :
  Chain (l1 ++ l2) ->
  Chain l1 /\ Chain l2
  /\ forall a b, a ∈ l1 -> b ∈ l2 -> m_endOffset a <= m_startOffset b.
Proof.
  unfold Chain. induction l1 as [|x l1 IH]; cbn; intros H.
  - split; [constructor|]. split; [exact H|]. intros a b Ha. inversion Ha.
  - apply StronglySorted_inv in H as [Hs Hx]. destruct (IH Hs) as (I1 & I2 & I3).
    apply Forall_app in Hx as [Hx1 Hx2].
    split; [constructor; assumption|]. split; [exact I2|].
    intros a b Ha Hb. apply elem_of_cons in Ha as [->|Ha]; [|exact (I3 a b Ha Hb)].
    rewrite Forall_forall in Hx2. exact (Hx2 b Hb).
Qed.

(** One round of the overlap filter keeps the chain, for a new match that
    starts no earlier than the kept ones. *)
Lemma keepMatch_chain (filtered : list InterjectionMatch) (m : InterjectionMatch) :
  Chain filtered -> Forall NonEmpty filtered -> NonEmpty m ->
  Forall (fun f => m_startOffset f <= m_startOffset m) filtered ->
  Chain (keepMatch filtered m) /\ Forall NonEmpty (keepMatch filtered m)
  /\ Forall (fun f => m_startOffset f <= m_startOffset m) (keepMatch filtered m)
  /\ forall x, x ∈ keepMatch filtered m -> x ∈ filtered \/ x = m.
Proof.
  intros Hch Hne Hm Hle. unfold keepMatch.
  destruct (list_find _ filtered) as [[i f]|] eqn:E.
  - apply list_find_Some in E as (Hi & Hov & _).
    destruct (negb (Qle_bool (m_confidence m) (m_confidence f)));
      [|split; [exact Hch|]; split; [exact Hne|]; split; [exact Hle|]; intros x Hx; left; exact Hx].
    (* the overlapped match is the last one kept *)
    assert (Hf : f ∈ filtered) by (eapply list_elem_of_lookup_2, Hi).
    pose proof (take_drop_middle _ _ _ Hi) as Hsplit.
    assert (Hlast : drop (S i) filtered = []).
    { destruct (drop (S i) filtered) as [|g rest] eqn:Ed; [reflexivity|]. exfalso.
      rewrite <- Hsplit in Hch. apply Chain_app_inv in Hch as (_ & Hch & _).
      apply StronglySorted_inv in Hch as [_ Hfg]. apply Forall_cons in Hfg as [Hfg _].
      assert (Hg : g ∈ filtered).
      { rewrite <- Hsplit. apply elem_of_app. right. right. left. }
      rewrite Forall_forall in Hle. pose proof (Hle g Hg) as Hgm.
      unfold overlaps in Hov. unfold NonEmpty in Hm.
      apply orb_true_iff in Hov as [Hov|Hov]; apply andb_true_iff in Hov as [H1 H2]; lia. }
    assert (Hins : <[i := m]> filtered = (take i filtered ++ [m])%list).
    { rewrite <- Hsplit at 1. rewrite Hlast.
      rewrite insert_app_r_alt by (rewrite length_take; lia).
      rewrite length_take. replace (i - i `min` length filtered)%nat with 0%nat;
        [reflexivity|]. apply lookup_lt_Some in Hi. lia. }
    rewrite Hins.
    assert (Hpre : forall x, x ∈ take i filtered -> x ∈ filtered).
    { intros x Hx. rewrite <- (take_drop i filtered). apply elem_of_app. left. exact Hx. }
    rewrite <- Hsplit in Hch. apply Chain_app_inv in Hch as (Hc1 & _ & Hc3).
    split; [|split; [|split]].
    + apply Chain_snoc; [exact Hc1|]. apply Forall_forall. intros x Hx.
      assert (m_endOffset x <= m_startOffset f) by (apply Hc3; [exact Hx | left]).
      rewrite Forall_forall in Hle. specialize (Hle f Hf). lia.
    + apply Forall_app. split; [|repeat constructor; exact Hm].
      apply Forall_forall. intros x Hx. rewrite Forall_forall in Hne. apply Hne, Hpre, Hx.
    + apply Forall_app. split; [|repeat constructor; lia].
      apply Forall_forall. intros x Hx. rewrite Forall_forall in Hle. apply Hle, Hpre, Hx.
    + intros x Hx. apply elem_of_app in Hx as [Hx|Hx]; [left; apply Hpre, Hx|].
      right. apply list_elem_of_singleton in Hx. exact Hx.
  - pose proof (proj1 (list_find_None _ _) E) as Hno.
    assert (Hend : Forall (fun f => m_endOffset f <= m_startOffset m) filtered).
    { apply Forall_forall. intros f Hf.
      rewrite Forall_forall in Hno, Hle. specialize (Hno f Hf). specialize (Hle f Hf).
      unfold overlaps in Hno. apply not_true_is_false in Hno.
      apply orb_false_iff in Hno as [H1 _]. apply andb_false_iff in H1 as [H1|H1]; lia. }
    split; [apply Chain_snoc; assumption|]. split.
    + apply Forall_app. split; [exact Hne | repeat constructor; exact Hm].
    + split.
      * apply Forall_app. split; [exact Hle | repeat constructor; lia].
      * intros x Hx. apply elem_of_app in Hx as [Hx|Hx]; [left; exact Hx|].
        right. apply list_elem_of_singleton in Hx. exact Hx.
Qed.

Lemma fold_keepMatch_chain (l acc : list InterjectionMatch) :
  Ascending m_startOffset l -> Forall NonEmpty l ->
  Chain acc -> Forall NonEmpty acc ->
  (forall f x, f ∈ acc -> x ∈ l -> m_startOffset f <= m_startOffset x) ->
  Chain (fold_left keepMatch l acc)
  /\ forall x, x ∈ fold_left keepMatch l acc -> x ∈ acc \/ x ∈ l.
Proof.
  revert acc. induction l as [|m l IH]; intros acc Hasc Hne Hch Hna Hle; cbn [fold_left].
  - split; [exact Hch | intros x Hx; left; exact Hx].
  - apply StronglySorted_inv in Hasc as [Hasc Hm]. apply Forall_cons in Hne as [Hnm Hne].
    assert (Hle' : Forall (fun f => m_startOffset f <= m_startOffset m) acc).
    { apply Forall_forall. intros f Hf. apply Hle; [exact Hf | left]. }
    destruct (keepMatch_chain acc m Hch Hna Hnm Hle') as (K1 & K2 & K3 & K4).
    destruct (IH (keepMatch acc m) Hasc Hne K1 K2) as [I1 I2].
    { intros f x Hf Hx. rewrite Forall_forall in K3, Hm. specialize (K3 f Hf). specialize (Hm x Hx).
      lia. }
    split; [exact I1|]. intros x Hx. destruct (I2 x Hx) as [H|H].
    + destruct (K4 x H) as [H'| ->]; [left; exact H' | right; left].
    + right. right. exact H.
Qed.

Lemma findMatches_chain (text : string) :
  Chain (findMatches text) /\ Forall (WellPlaced text) (findMatches text).
Proof.
  unfold findMatches. fold (allMatches text).
  pose proof (allMatches_placed text) as Hall.
  assert (Hsorted : Forall (WellPlaced text) (Js.sortBy m_startOffset (allMatches text))).
  { rewrite sortBy_perm. exact Hall. }
  destruct (fold_keepMatch_chain (Js.sortBy m_startOffset (allMatches text)) [])
    as [H1 H2].
  - apply sortBy_ascending.
  - eapply Forall_impl; [exact Hsorted|]. intros m (_ & H & _). exact H.
  - constructor.
  - constructor.
  - intros f x Hf. inversion Hf.
  - split; [exact H1|]. apply Forall_forall. intros x Hx.
    destruct (H2 x Hx) as [H|H]; [inversion H|].
    rewrite Forall_forall in Hsorted. exact (Hsorted x H).
Qed.


(** The matches [findMatches] returns are in text order and do not overlap:
    each ends where the next begins or before.  Each lies in the text: its
    offsets delimit at least one character, [text] holds the characters
    between them as they are written, and its confidence, context and source
    are those of one of the patterns. *)
Theorem findMatches_sorted_disjoint (text : string) :
  StronglySorted (fun a b => m_endOffset a <= m_startOffset b) (findMatches text)
  /\ Forall (fun m =>
               0 <= m_startOffset m /\ m_startOffset m < m_endOffset m
               /\ m_endOffset m <= Z.of_nat (String.length text)
               /\ m_text m
                  = String.substring (Z.to_nat (m_startOffset m))
                      (Z.to_nat (m_endOffset m - m_startOffset m)) text
               /\ exists p, p ∈ INTERJECTION_PATTERNS
                            /\ m_confidence m = pt_confidence p
                            /\ m_context m = pt_context p
                            /\ m_pattern m = source p)
       (findMatches text).
Proof. exact (findMatches_chain text). Qed.

Lemma StronglySorted_sublist {A} (R : A -> A -> Prop) (l1 l2 : list A) :
  sublist l1 l2 -> StronglySorted R l2 -> StronglySorted R l1.
Proof.
  induction 1 as [|x l1 l2 Hs IH|x l1 l2 Hs IH]; intros H.
  - constructor.
  - apply StronglySorted_inv in H as [H Hx]. constructor; [exact (IH H)|].
    apply Forall_forall. intros y Hy. rewrite Forall_forall in Hx. apply Hx.
    eapply elem_of_sublist; eassumption.
  - apply StronglySorted_inv in H as [H _]. exact (IH H).
Qed.

Lemma StronglySorted_map {A B} (f : A -> B) (R1 : A -> A -> Prop) (R2 : B -> B -> Prop)
    (l : list A) :
  (forall x y, R1 x y -> R2 (f x) (f y)) -> StronglySorted R1 l -> StronglySorted R2 (map f l).
Proof.
  intros H. induction 1 as [|x l Hs IH Hx]; cbn; constructor; [exact IH|].
  apply Forall_forall. intros y Hy. apply list_elem_of_In, in_map_iff in Hy as (z & <- & Hz).
  apply H. rewrite Forall_forall in Hx. apply Hx, list_elem_of_In, Hz.
Qed.

Lemma filter_sublist' {A} (f : A -> bool) (l : list A) : sublist (List.filter f l) l.
Proof. induction l as [|x l IH]; cbn; [constructor|]. destruct (f x); constructor; exact IH. Qed.

Lemma filter_filter_sublist {A} (f g : A -> bool) (l : list A) :
  (forall x, f x = true -> g x = true) -> sublist (List.filter f l) (List.filter g l).
Proof.
  intros H. induction l as [|x l IH]; cbn; [constructor|].
  destruct (f x) eqn:E.
  - rewrite (H x E). constructor. exact IH.
  - destruct (g x); [constructor|]; exact IH.
Qed.

Lemma map_sublist' {A B} (f : A -> B) (l1 l2 : list A) :
  sublist l1 l2 -> sublist (map f l1) (map f l2).
Proof. induction 1; cbn; constructor; assumption. Qed.

(** The candidates keep the order and the offsets of the matches. *)
Lemma detect_ordered (o : UseInterjectionDetectionOptions) (text : string) :
  StronglySorted (fun a b => c_endOffset a <= c_startOffset b) (detectInterjections o text)
  /\ Forall (fun c =>
               0 <= c_startOffset c /\ c_startOffset c < c_endOffset c
               /\ c_endOffset c <= Z.of_nat (String.length text)
               /\ c_text c
                  = String.substring (Z.to_nat (c_startOffset c))
                      (Z.to_nat (c_endOffset c - c_startOffset c)) text
               /\ Qle (effectiveThreshold o) (confidence c))
       (detectInterjections o text).
Proof.
  destruct (findMatches_chain text) as [Hch Hpl]. split.
  - unfold detectInterjections.
    apply (StronglySorted_map _ (fun a b => m_endOffset a <= m_startOffset b)).
    + intros x y H. exact H.
    + eapply StronglySorted_sublist; [apply filter_sublist' | exact Hch].
  - unfold detectInterjections. apply Forall_forall. intros c Hc.
    apply list_elem_of_In, in_map_iff in Hc as (m & <- & Hm).
    apply filter_In in Hm as [Hm Hq]. apply list_elem_of_In in Hm.
    rewrite Forall_forall in Hpl. destruct (Hpl m Hm) as (H1 & H2 & H3 & H4 & _).
    cbn. repeat (split; [assumption|]). apply Qle_bool_iff. exact Hq.
Qed.

(** The candidates offered for a text are in text order and do not overlap,
    lie in the text, and have at least the effective confidence.  The
    threshold only filters: a higher one returns a sublist of what a lower
    one returns, [getHighConfidenceMatches] is detection with
    [highConfidenceOnly] set, and [hasLikelyInterjections] says whether
    detection at the hook's [threshold], leaving [highConfidenceOnly] aside,
    finds anything. *)
Theorem detection_spec (o : UseInterjectionDetectionOptions) (text : string) :
  StronglySorted (fun a b => c_endOffset a <= c_startOffset b) (detectInterjections o text)
  /\ Forall (fun c =>
               0 <= c_startOffset c /\ c_startOffset c < c_endOffset c
               /\ c_endOffset c <= Z.of_nat (String.length text)
               /\ c_text c
                  = String.substring (Z.to_nat (c_startOffset c))
                      (Z.to_nat (c_endOffset c - c_startOffset c)) text
               /\ Qle (effectiveThreshold o) (confidence c))
       (detectInterjections o text)
  /\ (forall o', Qle (effectiveThreshold o) (effectiveThreshold o') ->
        sublist (detectInterjections o' text) (detectInterjections o text))
  /\ getHighConfidenceMatches text
     = detectInterjections (mkOptions (threshold o) (Some true)) text
  /\ (hasLikelyInterjections o text = true
      <-> detectInterjections (mkOptions (threshold o) (Some false)) text ≠ []).
Proof.
  destruct (detect_ordered o text) as [Hsorted Hplaced].
  split; [exact Hsorted|]. split; [exact Hplaced|]. split; [|split].
  - intros o' Hle. unfold detectInterjections. apply map_sublist', filter_filter_sublist.
    intros m Hm. unfold atLeast in *. apply Qle_bool_iff. apply Qle_bool_iff in Hm.
    eapply Qle_trans; eassumption.
  - reflexivity.
  - unfold hasLikelyInterjections, detectInterjections, effectiveThreshold.
    generalize (findMatches text). intros found. cbn.
    split.
    + intros H E. apply existsb_exists in H as (m & Hm & Hq).
      apply map_eq_nil in E.
      assert (Hin : In m (List.filter (atLeast (default AUTO_DETECT_THRESHOLD (threshold o)))
                            found)) by (apply filter_In; split; assumption).
      rewrite E in Hin. destruct Hin.
    + intros H. destruct (List.filter _ found) as [|m l] eqn:E; [exfalso; apply H; reflexivity|].
      assert (Hin : In m (List.filter (atLeast (default AUTO_DETECT_THRESHOLD (threshold o)))
                            found)) by (rewrite E; left; reflexivity).
      apply filter_In in Hin as [Hm Hq]. apply existsb_exists. exists m. split; assumption.
Qed.

(** *** The pending list while a quote is edited *)

(** The states the hook's callbacks lead to. *)
Inductive Reachable (o : UseInterjectionDetectionOptions) : QuoteReviewContextState -> Prop :=
| R_initial : Reachable o initialState
| R_startEditing s now quoteId text :
    Reachable o s -> Reachable o (dispatchAll s (map (pair now) (startEditing o quoteId text)))
| R_confirm s now i :
    Reachable o s -> Reachable o (dispatchAll s (map (pair now) (confirmInterjection i)))
| R_reject s now i :
    Reachable o s -> Reachable o (dispatchAll s (map (pair now) (rejectInterjection i)))
| R_mark s now text startOffset endOffset :
    Reachable o s ->
    Reachable o (dispatchAll s (map (pair now)
                                  (markSelectionAsInterjection s text startOffset endOffset)))
| R_exit s now :
    Reachable o s -> Reachable o (dispatchAll s (map (pair now) exitEditing)).

Definition ByStart (l : list InterjectionCandidate) : Prop :=
  StronglySorted (fun a b => c_startOffset a <= c_startOffset b) l.

Definition OneVerdict (c : InterjectionCandidate) : Prop :=
  confirmed c && rejected c = false.

Lemma markCandidate_keeps conf rej (i : Z) (cs : list InterjectionCandidate) :
  conf && rej = false ->
  ByStart cs -> Forall OneVerdict cs ->
  ByStart (markCandidate conf rej i cs) /\ Forall OneVerdict (markCandidate conf rej i cs).
Proof.
  intros Hv Hs Ho. unfold markCandidate. destruct (Js.index cs i) as [c|] eqn:E; [|split; assumption].
  unfold Js.index in E. destruct (0 <=? i); [|discriminate].
  set (c' := mkCandidate _ _ _ _ _ _ _).
  pose proof (take_drop_middle _ _ _ E) as Hsplit.
  assert (Hins : <[Z.to_nat i := c']> cs = (take (Z.to_nat i) cs ++ c' :: drop (S (Z.to_nat i)) cs)%list).
  { rewrite <- Hsplit at 1. rewrite insert_app_r_alt by (rewrite length_take; lia).
    rewrite length_take. apply lookup_lt_Some in E.
    replace (Z.to_nat i - Z.to_nat i `min` length cs)%nat with 0%nat by lia. reflexivity. }
  rewrite Hins. rewrite <- Hsplit in Hs, Ho. split.
  - unfold ByStart in *. clear -Hs. induction (take (Z.to_nat i) cs) as [|x l IH]; cbn in *.
    + apply StronglySorted_inv in Hs as [H1 H2]. constructor; assumption.
    + apply StronglySorted_inv in Hs as [H1 H2]. constructor; [exact (IH H1)|].
      apply Forall_app in H2 as [H2 H3]. apply Forall_cons in H3 as [H3 H4].
      apply Forall_app. split; [exact H2|]. constructor; assumption.
  - apply Forall_app in Ho as [H1 H2]. apply Forall_cons in H2 as [_ H2].
    apply Forall_app. split; [exact H1|]. constructor; [exact Hv | exact H2].
Qed.

Lemma insert_by_start (cs : list InterjectionCandidate) (c : InterjectionCandidate) :
  ByStart cs ->
  ByStart (take (insertIndex cs (c_startOffset c)) cs
           ++ c :: drop (insertIndex cs (c_startOffset c)) cs).
Proof.
  unfold ByStart, insertIndex. intros Hs.
  destruct (list_find _ cs) as [[i x]|] eqn:E.
  - apply list_find_Some in E as (Hi & Hx & Hbefore).
    pose proof (take_drop_middle _ _ _ Hi) as Hsplit.
    rewrite (drop_S _ _ _ Hi). rewrite <- Hsplit in Hs.
    assert (Hpre : Forall (fun a => c_startOffset a <= c_startOffset c) (take i cs)).
    { apply Forall_forall. intros a Ha. apply elem_of_take in Ha as (j & Hj & Hlt).
      specialize (Hbefore j a Hj Hlt). lia. }
    clear Hsplit Hbefore Hi. induction (take i cs) as [|a l IH]; cbn in *.
    + constructor; [exact Hs|]. apply StronglySorted_inv in Hs as [_ Hall].
      constructor; [lia|]. eapply Forall_impl; [exact Hall|]. cbn. intros y Hy. lia.
    + apply StronglySorted_inv in Hs as [H1 H2]. apply Forall_cons in Hpre as [Ha Hpre].
      constructor; [exact (IH H1 Hpre)|].
      apply Forall_app in H2 as [H2 H3]. apply Forall_app. split; [exact H2|].
      constructor; assumption.
  - pose proof (proj1 (list_find_None _ _) E) as Hno.
    rewrite firstn_all, drop_all.
    assert (Hall : Forall (fun a => c_startOffset a <= c_startOffset c) cs).
    { eapply Forall_impl; [exact Hno|]. cbn. intros a Ha. lia. }
    clear E Hno. induction Hs as [|a l Hs IH Ha]; cbn.
    + repeat constructor.
    + apply Forall_cons in Hall as [Hac Hall]. constructor; [exact (IH Hall)|].
      apply Forall_app. split; [exact Ha | repeat constructor; exact Hac].
Qed.

(** In every state the hook's callbacks lead to, the pending candidates are
    in order of their start offsets, and none is both confirmed and
    rejected. *)
Theorem pending_candidates_invariant (o : UseInterjectionDetectionOptions)
    (s : QuoteReviewContextState) :
  Reachable o s ->
  StronglySorted (fun a b => c_startOffset a <= c_startOffset b)
    (pendingCandidates (interjectionEdit s))
  /\ Forall (fun c => confirmed c && rejected c = false) (pendingCandidates (interjectionEdit s)).
Proof.
  induction 1 as [|s now q text _ _|s now i _ [I1 I2]|s now i _ [I1 I2]
                 |s now text a b _ [I1 I2]|s now _ _].
  - split; constructor.
  - change (pendingCandidates (interjectionEdit
              (dispatchAll s (map (pair now) (startEditing o q text)))))
      with (detectInterjections o text).
    destruct (detect_ordered o text) as (Hs & Hp).
    assert (Hv : Forall (fun c => confirmed c && rejected c = false) (detectInterjections o text)).
    { apply Forall_forall. intros c Hc.
      destruct (InterjectionSpec.detect_unconfirmed o text c Hc) as [-> _]. reflexivity. }
    generalize dependent (detectInterjections o text). intros cs Hs Hp Hv.
    split; [|exact Hv]. clear Hv.
    + induction Hs as [|x l Hs IH Hx]; [constructor|].
      apply Forall_cons in Hp as [Hpx Hp]. constructor; [exact (IH Hp)|].
      eapply Forall_impl; [exact Hx|]. cbn. intros y Hy. lia.
  - change (pendingCandidates (interjectionEdit
              (dispatchAll s (map (pair now) (confirmInterjection i)))))
      with (markCandidate true false i (pendingCandidates (interjectionEdit s))).
    apply markCandidate_keeps; [reflexivity | exact I1 | exact I2].
  - change (pendingCandidates (interjectionEdit
              (dispatchAll s (map (pair now) (rejectInterjection i)))))
      with (markCandidate false true i (pendingCandidates (interjectionEdit s))).
    apply markCandidate_keeps; [reflexivity | exact I1 | exact I2].
  - set (c := mkCandidate text a b true false 1 (Some "Manually marked")).
    change (pendingCandidates (interjectionEdit
              (dispatchAll s (map (pair now) (markSelectionAsInterjection s text a b)))))
      with (take (insertIndex (pendingCandidates (interjectionEdit s)) (c_startOffset c))
              (pendingCandidates (interjectionEdit s))
            ++ c :: drop (insertIndex (pendingCandidates (interjectionEdit s)) (c_startOffset c))
                      (pendingCandidates (interjectionEdit s)))%list.
    split.
    + exact (insert_by_start _ c I1).
    + rewrite <- (take_drop (insertIndex (pendingCandidates (interjectionEdit s)) a)) in I2.
      apply Forall_app in I2 as [H1 H2]. apply Forall_app. split; [exact H1|].
      constructor; [reflexivity | exact H2].
  - split; constructor.
Qed.


(** Editing "oh amen" with the threshold lowered to 0.3: both words are
    pending; the first is then rejected and "amen" confirmed, and a selection
    in front is marked by hand. *)
Definition lowThreshold : UseInterjectionDetectionOptions := mkOptions (Some (3 # 10)) None.

Definition reviewedOhAmen : QuoteReviewContextState :=
  let s1 := dispatchAll initialState (map (pair 0) (startEditing lowThreshold "q1" "so oh amen")) in
  let s2 := dispatchAll s1 (map (pair 0) (rejectInterjection 0)) in
  let s3 := dispatchAll s2 (map (pair 0) (confirmInterjection 1)) in
  dispatchAll s3 (map (pair 0) (markSelectionAsInterjection s3 "so" 0 2)).

Lemma pending_candidates_invariant_witness :
  Reachable lowThreshold reviewedOhAmen
  /\ pendingCandidates (interjectionEdit reviewedOhAmen)
     = [mkCandidate "so" 0 2 true false 1 (Some "Manually marked");
        mkCandidate "oh" 3 5 false true (40 # 100) (Some "Exclamation");
        mkCandidate "amen" 6 10 true false (95 # 100) (Some "Common affirmation")]
  /\ StronglySorted (fun a b => c_startOffset a <= c_startOffset b)
       (pendingCandidates (interjectionEdit reviewedOhAmen)).
Proof.
  assert (H : Reachable lowThreshold reviewedOhAmen).
  { unfold reviewedOhAmen. cbv zeta.
    apply R_mark, R_confirm, R_reject, R_startEditing, R_initial. }
  split; [exact H|]. split; [vm_compute; reflexivity|].
  exact (proj1 (pending_candidates_invariant lowThreshold reviewedOhAmen H)).
Defined.

End InterjectionDetectionSpec.

(** ** What the converter builds, whatever the editor hands it *)
Module ConverterInvariants.
Import Js Converter.

Section Backward.
Context {Timestamp : Type}.
Variable idOf : nat -> NodeId.
Variable timeOf : nat -> Timestamp.

Local Abbreviation Raw := (@RawNode Timestamp).
Local Abbreviation Root := (@DocumentRootNode Timestamp).
Local Abbreviation convert := (convertTipTapToNode idOf timeOf).
Local Abbreviation toAst := (tipTapJsonToAst idOf timeOf).

Definition version (x : Raw) : Z :=
  match x with
  | RawParagraph _ v _ _ | RawHeading _ v _ _ _ | RawQuoteBlock _ v _ _ _
  | RawText _ v _ _ _ | RawInterjection _ v _ _ _ => v
  end.

Definition isRawLeaf (x : Raw) : bool :=
  match x with RawText _ _ _ _ _ | RawInterjection _ _ _ _ _ => true | _ => false end.

(** A text or interjection node at version 1. *)
Definition newLeaf (x : Raw) : bool := isRawLeaf x && (version x =? 1).

(** The shape of a converted tree: every node is at version 1, a paragraph
    or heading has at least one child, and a quote block holds text and
    interjection nodes only and carries a reference and a detection record
    and no interjection ids. *)
Fixpoint wellBuilt (x : Raw) : bool :=
  match x with
  | RawParagraph _ v _ cs | RawHeading _ v _ _ cs =>
      (v =? 1) && match cs with [] => false | _ => true end && forallb wellBuilt cs
  | RawQuoteBlock _ v _ md cs =>
      (v =? 1) && forallb newLeaf cs
      && match raw_reference md, raw_detection md, raw_interjections md with
         | Some _, Some _, [] => true
         | _, _, _ => false
         end
  | RawText _ v _ _ _ | RawInterjection _ v _ _ _ => v =? 1
  end.

(** Ids that come from calls number [n] to [n'] (exclusive) of the id
    oracle, no call twice. *)
Definition Fresh (n n' : nat) (ids : list JValue) : Prop :=
  exists ks, ids = map (fun k => JStr (idOf k)) ks /\ NoDup ks
             /\ Forall (fun k => (n <= k < n')%nat) ks.

Lemma Fresh_nil n n' : Fresh n n' [].
Proof. exists []. split; [reflexivity|]. split; constructor. Qed.

Lemma Fresh_weaken a b a' b' ids :
  Fresh a b ids -> (a' <= a)%nat -> (b <= b')%nat -> Fresh a' b' ids.
Proof.
  intros (ks & E & Hn & Hr) Ha Hb. exists ks. split; [exact E|]. split; [exact Hn|].
  eapply Forall_impl; [exact Hr|]. cbn. intros k Hk. lia.
Qed.

Lemma Fresh_app a b c l1 l2 :
  Fresh a b l1 -> Fresh b c l2 -> (a <= b)%nat -> (b <= c)%nat -> Fresh a c (l1 ++ l2).
Proof.
  intros (k1 & E1 & N1 & R1) (k2 & E2 & N2 & R2) Hab Hbc.
  exists (k1 ++ k2)%list. split; [rewrite map_app; congruence|]. split.
  - apply NoDup_app. split; [exact N1|]. split; [|exact N2].
    intros k H1 H2. rewrite Forall_forall in R1, R2. specialize (R1 k H1). specialize (R2 k H2).
    cbn in R1, R2. lia.
  - apply Forall_app. split; [eapply Forall_impl; [exact R1|] | eapply Forall_impl; [exact R2|]];
      cbn; intros k Hk; lia.
Qed.

Lemma Fresh_cons a b c k l :
  Fresh a b l -> (a <= b)%nat -> (b <= k < c)%nat -> Fresh a c (JStr (idOf k) :: l).
Proof.
  intros (ks & E & N & R) Hab Hk. exists (k :: ks). split; [cbn; congruence|]. split.
  - constructor; [|exact N]. intros H. rewrite Forall_forall in R. specialize (R k H). cbn in R. lia.
  - constructor; [lia|]. eapply Forall_impl; [exact R|]. cbn. intros j Hj. lia.
Qed.

(** [collect] threads the counter and gathers what each step built. *)
Lemma collect_forall {A B} (f : A -> Gen (option B)) (Q : B -> Prop) (l : list A) :
  Forall (fun x => forall n, (n <= snd (f x n))%nat /\ forall y, fst (f x n) = Some y -> Q y) l ->
  forall n, (n <= snd (collect f l n))%nat /\ Forall Q (fst (collect f l n)).
Proof.
  induction 1 as [|x l Hx _ IH]; intros n; [split; [cbn; lia | constructor]|].
  rewrite ConverterSpec.collect_cons. cbn [fst snd].
  destruct (Hx n) as [Hn Hy]. destruct (IH (snd (f x n))) as [Hm Hall].
  split; [lia|]. destruct (fst (f x n)) as [y|]; [constructor; [apply Hy; reflexivity | exact Hall] | exact Hall].
Qed.

Lemma idFrom_counter (c : bool) (v : JValue) (n : nat) :
  (n <= snd (idFrom idOf c v n) <= S n)%nat
  /\ (c = false -> idFrom idOf c v n = (JStr (idOf n), S n)).
Proof.
  unfold idFrom. destruct c; [|split; [cbn; lia | reflexivity]].
  cbn [andb]. destruct (truthy v); cbn; split; try lia; discriminate.
Qed.

Lemma convertQuoteLeaf_step (textNode : TipTapNode) (n : nat) :
  (n <= snd (convertQuoteLeaf idOf timeOf textNode n))%nat
  /\ forall y, fst (convertQuoteLeaf idOf timeOf textNode n) = Some y -> newLeaf y = true.
Proof.
  unfold convertQuoteLeaf. destruct (String.eqb (tt_type textNode) "text"); [|split; [cbn; lia | discriminate]].
  destruct (hasInterjectionMark (tt_marks textNode)).
  - unfold bind, ret, createTimestamp.
    destruct (idFrom_counter true (get (default ∅ (interjectionAttrs (tt_marks textNode))) "nodeId") n)
      as [H1 _].
    destruct (idFrom idOf true _ n) as [i n1]. cbn [fst snd] in *.
    destruct (idFrom_counter true (get (default ∅ (interjectionAttrs (tt_marks textNode))) "metadataId")
                (S n1)) as [H2 _].
    destruct (idFrom idOf true _ (S n1)) as [m n2]. cbn [fst snd] in *.
    split; [lia|]. intros y [= <-]. reflexivity.
  - cbn. split; [lia|]. intros y [= <-]. reflexivity.
Qed.

Lemma convertQuoteChildren_step (content : option (list TipTapNode)) (n : nat) :
  (n <= snd (convertQuoteChildren idOf timeOf content n))%nat
  /\ forallb newLeaf (fst (convertQuoteChildren idOf timeOf content n)) = true.
Proof.
  unfold convertQuoteChildren. destruct content as [cs|]; [|split; [cbn; lia | reflexivity]].
  unfold bind, ret.
  destruct (collect_forall (convertQuoteParagraph idOf timeOf)
              (fun ls => forallb newLeaf ls = true) cs) with (n := n) as [Hn Hall].
  { apply Forall_forall. intros child _ m. unfold convertQuoteParagraph.
    destruct (tt_content child) as [leaves|]; [|split; [cbn; lia | discriminate]].
    destruct (String.eqb (tt_type child) "paragraph"); [|split; [cbn; lia | discriminate]].
    unfold bind, ret.
    destruct (collect_forall (convertQuoteLeaf idOf timeOf) (fun y => newLeaf y = true) leaves)
      with (n := m) as [Hm Hl].
    { apply Forall_forall. intros leaf _ k. apply convertQuoteLeaf_step. }
    destruct (collect (convertQuoteLeaf idOf timeOf) leaves m) as [ls m1]. cbn [fst snd] in *.
    split; [exact Hm|]. intros y [= <-]. apply forallb_forall. intros x Hx.
    rewrite Forall_forall in Hl. apply Hl, list_elem_of_In, Hx. }
  destruct (collect (convertQuoteParagraph idOf timeOf) cs n) as [rs n1]. cbn [fst snd] in *.
  split; [exact Hn|]. apply forallb_forall. intros x Hx. apply in_concat in Hx as (ls & Hls & Hx).
  rewrite Forall_forall in Hall. specialize (Hall ls (proj2 (list_elem_of_In _ _) Hls)).
  rewrite forallb_forall in Hall. exact (Hall x Hx).
Qed.

Lemma newLeaf_no_ids (cs : list Raw) :
  forallb newLeaf cs = true -> flat_map rawStructuralIds cs = [].
Proof.
  induction cs as [|x cs IH]; [reflexivity|]. cbn [forallb flat_map]. intros H.
  apply andb_true_iff in H as [Hx Hcs]. rewrite (IH Hcs), app_nil_r.
  unfold newLeaf in Hx. apply andb_true_iff in Hx as [Hx _]. destruct x; try discriminate; reflexivity.
Qed.

(** What the nodes a call built look like, when the call, started after [n]
    calls of the oracles, returned them after [n']. *)
Definition Built (o : ConversionOptions) (n n' : nat) (new : list Raw) : Prop :=
  (n <= n')%nat
  /\ forallb wellBuilt new = true
  /\ (flag (preserveIds o) = false -> Fresh n n' (flat_map rawStructuralIds new)).

(** What one conversion step yields, from call number [n] on. *)
Definition Step (o : ConversionOptions) (node : TipTapNode) : Prop :=
  forall n,
    match convert o node n with
    | (Ok r, n') => Built o n n' (match r with Some x => [x] | None => [] end)
    | (Threw _, _) => True
    end.

Lemma Built_nil (o : ConversionOptions) (n : nat) : Built o n n [].
Proof. split; [lia|]. split; [reflexivity|]. intros _. apply Fresh_nil. Qed.

Lemma Built_app (o : ConversionOptions) (a b c : nat) (l1 l2 : list Raw) :
  Built o a b l1 -> Built o b c l2 -> Built o a c (l1 ++ l2).
Proof.
  intros (H1 & W1 & F1) (H2 & W2 & F2). split; [lia|].
  split; [rewrite forallb_app, W1, W2; reflexivity|].
  intros Hp. rewrite flat_map_app. eapply Fresh_app; [exact (F1 Hp) | exact (F2 Hp) | lia | lia].
Qed.

Lemma collectE_step (o : ConversionOptions) (cs : list TipTapNode) :
  Forall (Step o) cs ->
  forall n,
    match collectE (convert o) cs n with
    | (Ok rs, n') => Built o n n' rs
    | (Threw _, _) => True
    end.
Proof.
  induction 1 as [|x l Hx _ IH]; intros n; [apply Built_nil|].
  rewrite ConverterSpec.collectE_cons. specialize (Hx n).
  destruct (convert o x n) as [[r|m] n1]; [|exact I].
  specialize (IH n1). destruct (collectE (convert o) l n1) as [[rs|m] n2]; [|exact I].
  pose proof (Built_app o n n1 n2 _ rs Hx IH) as H. destruct r; exact H.
Qed.

Lemma orEmptyText_step (cs : list Raw) (n : nat) :
  forallb wellBuilt cs = true ->
  (n <= snd (orEmptyText idOf timeOf cs n))%nat
  /\ forallb wellBuilt (fst (orEmptyText idOf timeOf cs n)) = true
  /\ fst (orEmptyText idOf timeOf cs n) ≠ []
  /\ flat_map rawStructuralIds (fst (orEmptyText idOf timeOf cs n)) = flat_map rawStructuralIds cs.
Proof.
  intros H. destruct cs as [|c cs]; cbn.
  - split; [lia|]. split; [reflexivity|]. split; [discriminate | reflexivity].
  - split; [lia|]. split; [exact H|]. split; [discriminate | reflexivity].
Qed.

Lemma structural_step (o : ConversionOptions) (attrs : option (gmap string JValue))
    (children : list Raw) (n0 n1 : nat)
    (mk : JValue -> Timestamp -> list Raw -> Raw) :
  (forall i t cs, wellBuilt (mk i t cs)
                  = match cs with [] => false | _ => true end && forallb wellBuilt cs) ->
  (forall i t cs, rawStructuralIds (mk i t cs) = i :: flat_map rawStructuralIds cs) ->
  Built o n0 n1 children ->
  let r2 := orEmptyText idOf timeOf children n1 in
  let r3 := idFrom idOf (flag (preserveIds o)) (getOpt attrs "nodeId") (snd r2) in
  Built o n0 (S (snd r3)) [mk (fst r3) (timeOf (snd r3)) (fst r2)].
Proof.
  intros Hw Hs (Hle & Hwc & Hfc). cbn zeta.
  destruct (orEmptyText_step children n1 Hwc) as (H1 & H2 & H3 & H4).
  destruct (idFrom_counter (flag (preserveIds o)) (getOpt attrs "nodeId")
              (snd (orEmptyText idOf timeOf children n1))) as [H5 H6].
  split; [lia|]. split.
  - cbn [forallb]. rewrite Hw, H2.
    destruct (fst (orEmptyText idOf timeOf children n1)); [congruence | reflexivity].
  - intros Hp. cbn [flat_map]. rewrite app_nil_r, Hs, H4, (H6 Hp). cbn [fst snd].
    eapply Fresh_cons; [exact (Hfc Hp) | lia | lia].
Qed.

Lemma convertTipTapText_step (o : ConversionOptions) (node : TipTapNode) (n : nat) :
  (n <= snd (convertTipTapText idOf timeOf o node n))%nat
  /\ newLeaf (fst (convertTipTapText idOf timeOf o node n)) = true.
Proof.
  unfold convertTipTapText, convertTipTapInterjection.
  destruct (hasInterjectionMark (tt_marks node)); unfold bind, ret, createTimestamp.
  - destruct (idFrom_counter true (get (default ∅ (interjectionAttrs (tt_marks node))) "nodeId") n)
      as [H1 _].
    destruct (idFrom idOf true _ n) as [i n1]. cbn [fst snd] in *.
    destruct (idFrom_counter true (get (default ∅ (interjectionAttrs (tt_marks node))) "metadataId")
                (S n1)) as [H2 _].
    destruct (idFrom idOf true _ (S n1)) as [m n2]. cbn [fst snd] in *.
    split; [lia | reflexivity].
  - destruct (idFrom_counter (flag (preserveIds o)) (getOpt (tt_attrs node) "nodeId") n) as [H1 _].
    destruct (idFrom idOf (flag (preserveIds o)) _ n) as [i n1]. cbn [fst snd] in *.
    split; [lia | reflexivity].
Qed.

Lemma quoteMetadata_shape (attrs : gmap string JValue) (md : RawMetadata) :
  quoteMetadata attrs = Ok md ->
  match raw_reference md, raw_detection md, raw_interjections md with
  | Some _, Some _, [] => true
  | _, _, _ => false
  end = true.
Proof.
  unfold quoteMetadata.
  destruct (if truthy (get attrs "book") then _ else _) as [b|m]; [|discriminate].
  intros [= <-]. reflexivity.
Qed.

Lemma convert_step (o : ConversionOptions) (node : TipTapNode) : Step o node.
Proof.
  assert (Hcontent : forall content,
            match content with Some cs => Forall (Step o) cs | None => True end ->
            forall n,
              match (match content with
                     | Some l => collectE (convert o) l n
                     | None => (Ok [], n)
                     end) with
              | (Ok rs, n') => Built o n n' rs
              | (Threw _, _) => True
              end).
  { intros [cs|] H n; [exact (collectE_step o cs H n) | apply Built_nil]. }
  assert (Hgen : forall ty a content tx ms,
            match content with Some cs => Forall (Step o) cs | None => True end ->
            Step o (TT ty a content tx ms)).
  { intros ty a content tx ms IH n. rewrite (ConverterSpec.convert_unfold idOf timeOf).
    destruct (String.eqb ty "paragraph").
    { pose proof (Hcontent content IH n) as Hc.
      destruct (match content with Some l => collectE (convert o) l n | None => (Ok [], n) end)
        as [[cs|m] n1]; [|exact I].
      exact (structural_step o a cs n n1 (fun i t cs => RawParagraph i 1 t cs)
               (fun _ _ _ => eq_refl) (fun _ _ _ => eq_refl) Hc). }
    destruct (String.eqb ty "blockquote").
    { destruct (convertQuoteChildren_step content n) as [H1 H2]. cbn zeta.
      destruct (quoteMetadata (default ∅ a)) as [md|m] eqn:Eq; [|exact I].
      destruct (idFrom_counter (flag (preserveIds o)) (get (default ∅ a) "nodeId")
                  (snd (convertQuoteChildren idOf timeOf content n))) as [H3 H4].
      split; [lia|]. split.
      - cbn [forallb wellBuilt]. rewrite H2, (quoteMetadata_shape _ _ Eq). reflexivity.
      - intros Hp. cbn [flat_map rawStructuralIds].
        rewrite (newLeaf_no_ids _ H2), (H4 Hp). cbn [fst snd app].
        eapply Fresh_cons; [apply (Fresh_nil n n) | lia | lia]. }
    destruct (String.eqb ty "heading").
    { pose proof (Hcontent content IH n) as Hc.
      destruct (match content with Some l => collectE (convert o) l n | None => (Ok [], n) end)
        as [[cs|m] n1]; [|exact I].
      exact (structural_step o a cs n n1
               (fun i t cs => RawHeading i 1 t (orValue (getOpt a "level") (JNum 1)) cs)
               (fun _ _ _ => eq_refl) (fun _ _ _ => eq_refl) Hc). }
    destruct (String.eqb ty "text").
    { destruct (convertTipTapText_step o (TT ty a content tx ms) n) as [H1 H2].
      split; [exact H1|].
      unfold newLeaf in H2. apply andb_true_iff in H2 as [Hl Hv].
      destruct (fst (convertTipTapText idOf timeOf o (TT ty a content tx ms) n));
        try discriminate;
        (split; [cbn in Hv |- *; rewrite Hv; reflexivity | intros _; apply Fresh_nil]). }
    apply Built_nil. }
  induction node as [ty a tx ms|ty a cs tx ms IH] using ConverterSpec.tiptap_induction.
  - apply Hgen. exact I.
  - apply Hgen. exact IH.
Qed.

(** One round of the loop adds converted nodes to the children, or nothing. *)
Lemma loopBody_step (o : ConversionOptions) (st : LoopState) (node : TipTapNode) (n : nat) :
  match loopBody idOf timeOf o st node n with
  | (Ok st', n') => exists new, ls_children st' = (ls_children st ++ new)%list /\ Built o n n' new
  | (Threw _, _) => True
  end.
Proof.
  pose proof (ConverterSpec.loopBody_unfold idOf timeOf o st node n) as U. cbn zeta in U.
  destruct (isFirstNode st && negb (truthyOptStr (ls_title st)) && ConverterSpec.centeredH1 node).
  - rewrite U. exists []. rewrite app_nil_r. split; [reflexivity | apply Built_nil].
  - destruct (ConverterSpec.reaches _ node).
    + rewrite U. pose proof (convert_step o node n) as Hs.
      destruct (convert o node n) as [[c|m] n1]; [|exact I].
      eexists. split; [reflexivity | exact Hs].
    + destruct U as (st' & -> & Hc & _). exists []. rewrite app_nil_r.
      split; [exact Hc | apply Built_nil].
Qed.

Lemma loop_step (o : ConversionOptions) (nodes : list TipTapNode) :
  forall (st : LoopState) (n : nat),
    match loop idOf timeOf o st nodes n with
    | (Ok st', n') => exists new, ls_children st' = (ls_children st ++ new)%list /\ Built o n n' new
    | (Threw _, _) => True
    end.
Proof.
  induction nodes as [|node rest IH]; intros st n.
  - exists []. rewrite app_nil_r. split; [reflexivity | apply Built_nil].
  - rewrite (ConverterSpec.loop_cons idOf timeOf).
    pose proof (loopBody_step o st node n) as H1.
    destruct (loopBody idOf timeOf o st node n) as [[st1|m] n1]; [|exact I].
    destruct H1 as (new1 & E1 & B1). specialize (IH st1 n1).
    destruct (loop idOf timeOf o st1 rest n1) as [[st2|m] n2]; [|exact I].
    destruct IH as (new2 & E2 & B2). exists (new1 ++ new2)%list.
    split; [rewrite E2, E1, app_assoc; reflexivity | exact (Built_app o n n1 n2 _ _ B1 B2)].
Qed.

(** The outcome of [tipTapJsonToAst] on a content array: it fails on the
    documents of [docThrows], and otherwise returns a root whose children
    are what the loop built. *)
Lemma toAst_outcome (o : ConversionOptions) (existing : option Root) (nodes : list TipTapNode)
    (n : nat) :
  let r := fst (toAst (mkDoc (NodeArray nodes)) o existing n) in
  if ConverterSpec.docThrows nodes
  then r = mkConversionResult false None (Some ConverterSpec.throwMessage) None
  else exists root n1,
    r = mkConversionResult true (Some root) None None
    /\ root_version root = 1 /\ tags root = None
    /\ root_id root = fst (rootIdFor idOf o existing n1)
    /\ Built o n n1 (root_children root).
Proof.
  cbn zeta.
  pose proof (ConverterSpec.loop_outcome idOf timeOf o nodes ConverterSpec.startState n) as Ho.
  change (isFirstNode ConverterSpec.startState
          && negb (truthyOptStr (ls_title ConverterSpec.startState))) with true in Ho.
  fold (ConverterSpec.docThrows nodes) in Ho. unfold ConverterSpec.Outcome in Ho.
  pose proof (loop_step o nodes ConverterSpec.startState n) as Hs.
  unfold tipTapJsonToAst, tipTapJsonToAstBody, bindE, lift, bind, ret, createTimestamp.
  cbn [doc_content]. fold (@ConverterSpec.startState Timestamp).
  destruct (loop idOf timeOf o ConverterSpec.startState nodes n) as [[st|m] n1]; cbn [fst] in *.
  - destruct (ConverterSpec.docThrows nodes); [discriminate|].
    destruct Hs as (new & E & B). cbn [ConverterSpec.startState ls_children app] in E.
    destruct (rootIdFor idOf o existing n1) as [rid n2] eqn:Er. cbn [fst].
    eexists _, n1. split; [reflexivity|]. cbn [root_version tags root_id root_children].
    rewrite Er, E. repeat split; try reflexivity; apply B.
  - destruct (ConverterSpec.docThrows nodes); [|destruct Ho; discriminate].
    injection Ho as ->. reflexivity.
Qed.

(** The editor documents on which [tipTapJsonToAst] fails. *)
Definition fails (doc : TipTapDocument) : bool :=
  match doc_content doc with
  | NodeArray nodes => ConverterSpec.docThrows nodes
  | NotAnArray _ => false
  end.

(** The conversion fails with [success: false] and the message of the
    [TypeError] exactly when a blockquote it converts carries a truthy
    [reference] that is not a string and no truthy [book].  On every other
    editor document, however it is built, it succeeds, and the tree it
    returns is sound: the root and every node are at version 1, the root has
    no tags, no paragraph or heading is left without a child, and a quote
    block holds text and interjection nodes only, with a reference and a
    detection record, and lists no interjections. *)
Theorem converted_tree_shape (doc : TipTapDocument) (o : ConversionOptions)
    (existing : option Root) (n : nat) :
  let r := fst (toAst doc o existing n) in
  if fails doc
  then r = mkConversionResult false None (Some "reference.match is not a function") None
  else exists root,
    data r = Some root
    /\ success r = true
    /\ error r = None
    /\ root_version root = 1
    /\ tags root = None
    /\ forallb wellBuilt (root_children root) = true.
Proof.
  cbn zeta. destruct doc as [[v|nodes]]; unfold fails; cbn [doc_content].
  - unfold tipTapJsonToAst, tipTapJsonToAstBody, lift, bind, ret, createTimestamp.
    cbn [doc_content].
    destruct (rootIdFor idOf o existing n) as [rid n1]. cbn. eexists. repeat split.
  - pose proof (toAst_outcome o existing nodes n) as H. cbn zeta in H.
    destruct (ConverterSpec.docThrows nodes); [exact H|].
    destruct H as (root & n1 & -> & Hv & Ht & _ & _ & W & _).
    exists root. repeat (split; [first [assumption | reflexivity]|]). exact W.
Qed.

(** Unless [preserveIds] is [true], every paragraph, heading and quote block
    of a result carries a newly generated id, each from a call of the id
    generator of its own, whatever [nodeId] the editor node had; with the
    option left out the root keeps its id, with [preserveIds: false] it gets
    one more generated id.  So a generator that never repeats itself gives
    ids that are pairwise distinct.  (There is no result when the conversion
    fails, which it does on the documents of [docThrows].) *)
Theorem ids_generated_unless_preserved (o : ConversionOptions) (existing : option Root)
    (nodes : list TipTapNode) (n : nat) :
  flag (preserveIds o) = false ->
  let r := fst (toAst (mkDoc (NodeArray nodes)) o existing n) in
  if ConverterSpec.docThrows nodes then success r = false /\ data r = None
  else exists root ks,
    data r = Some root
    /\ flat_map rawStructuralIds (root_children root) = map (fun k => JStr (idOf k)) ks
    /\ NoDup ks
    /\ Forall (fun k => (n <= k)%nat) ks
    /\ (preserveIds o = Some false ->
        exists k, root_id root = idOf k /\ (k ∉ ks) /\ (n <= k)%nat)
    /\ (preserveIds o = None ->
        root_id root = default "root-1" (orStr (root_id <$> existing) None))
    /\ ((forall j k, idOf j = idOf k -> j = k) ->
        NoDup (flat_map rawStructuralIds (root_children root))).
Proof.
  intros Hp. pose proof (toAst_outcome o existing nodes n) as H. cbn zeta in *.
  destruct (ConverterSpec.docThrows nodes); [rewrite H; split; reflexivity|].
  destruct H as (root & n1 & -> & _ & _ & Hid & Hn & _ & F).
  destruct (F Hp) as (ks & Eks & Nks & Rks).
  exists root, ks. split; [reflexivity|].
  split; [exact Eks|]. split; [exact Nks|].
  split; [eapply Forall_impl; [exact Rks|]; cbn; intros k Hk; lia|].
  split; [|split].
  - intros Ho. exists n1.
    split; [rewrite Hid; unfold rootIdFor; rewrite Ho; reflexivity|]. split; [|exact Hn].
    intros Hin. rewrite Forall_forall in Rks. specialize (Rks _ Hin). cbn in Rks. lia.
  - intros Ho. rewrite Hid. unfold rootIdFor. rewrite Ho. reflexivity.
  - intros Hinj. rewrite Eks. apply NoDup_fmap_2; [|exact Nks].
    intros j k [= E]. apply Hinj, E.
Qed.

(** C1, where the code departs from it.  With default options the round
    trip of any document succeeds, but every paragraph, heading and quote
    block of the result carries an id that [createNodeId] returned during
    the conversion, each from a call of its own: none is the id the node
    had.  [tipTapJsonToAst] gives [preserveIds] its default ([true]) for the
    root id only and hands the [options] object as it is to the node
    conversions, which read [options.preserveIds] ([undefined]) and take the
    other branch.  For the document with the one paragraph ['para-1']: the
    root id and the text come back and the paragraph's id is a generated
    one; with [preserveIds: true] spelled out it is ['para-1']. *)
Theorem round_trip_default_options_drops_id (root : Root) (t0 : Timestamp) (n : nat) :
  (exists root' ks,
     fst (roundTrip idOf timeOf root defaultOptions n)
     = mkConversionResult true (Some root') None None
     /\ flat_map rawStructuralIds (root_children root') = map (fun k => JStr (idOf k)) ks
     /\ NoDup ks
     /\ Forall (fun k => (n <= k)%nat) ks)
  /\ fst (roundTrip idOf timeOf (ConverterSpec.helloRoot t0) defaultOptions n)
     = mkConversionResult true
         (Some (mkRoot "root-9" 1 (timeOf (S (S (S (S n))))) None None None None
                  [RawParagraph (JStr (idOf (S (S n)))) 1 (timeOf (S (S (S n))))
                     [RawText (JStr (idOf n)) 1 (timeOf (S n)) "Hello" None]]))
         None None
  /\ fst (roundTrip idOf timeOf (ConverterSpec.helloRoot t0) (mkOptions (Some true) None None) n)
     = mkConversionResult true
         (Some (mkRoot "root-9" 1 (timeOf (S (S (S n)))) None None None None
                  [RawParagraph (JStr "para-1") 1 (timeOf (S (S n)))
                     [RawText (JStr (idOf n)) 1 (timeOf (S n)) "Hello" None]]))
         None None.
Proof.
  split; [|split; vm_compute; reflexivity].
  unfold roundTrip.
  destruct (ConverterSpec.astToTipTapJson_content root defaultOptions) as (content & -> & Hc).
  cbn [data]. pose proof (toAst_outcome defaultOptions (Some root) content n) as H.
  cbn zeta in H. rewrite Hc in H. destruct H as (root' & n1 & -> & _ & _ & _ & Hn & _ & F).
  destruct (F eq_refl) as (ks & Eks & Nks & Rks).
  exists root', ks. split; [reflexivity|]. split; [exact Eks|]. split; [exact Nks|].
  eapply Forall_impl; [exact Rks|]. cbn. intros k Hk. lia.
Qed.

End Backward.

(** What the editor hands back after an edit: the nodes still carry the
    [nodeId]s they were given. *)
Definition editedContent : list TipTapNode :=
  [TT "paragraph" (Some {["nodeId" := JStr "para-1"]})
      (Some [TT "text" None None (Some "Hello") None]) None None;
   TT "blockquote" (Some {["nodeId" := JStr "quote-1"]})
      (Some [TT "paragraph" None (Some [TT "text" None None (Some "Jesus wept.") None]) None None])
      None None;
   TT "heading" (Some {["nodeId" := JStr "para-1"]}) None None None].

Lemma ids_generated_unless_preserved_witness :
  flag (preserveIds defaultOptions) = false
  /\ exists root ks,
       data (fst (tipTapJsonToAst ConverterSpec.sampleIds (fun n => n)
                    (mkDoc (NodeArray editedContent)) defaultOptions None 0%nat)) = Some root
       /\ flat_map rawStructuralIds (root_children root)
          = map (fun k => JStr (ConverterSpec.sampleIds k)) ks
       /\ NoDup ks
       /\ Forall (fun k => (0 <= k)%nat) ks
       /\ (preserveIds defaultOptions = Some false ->
           exists k, root_id root = ConverterSpec.sampleIds k /\ (k ∉ ks) /\ (0 <= k)%nat)
       /\ (preserveIds defaultOptions = None ->
           root_id root
           = default "root-1" (orStr (root_id <$> (None : option (@DocumentRootNode nat))) None))
       /\ ((forall j k, ConverterSpec.sampleIds j = ConverterSpec.sampleIds k -> j = k) ->
           NoDup (flat_map rawStructuralIds (root_children root))).
Proof.
  split; [reflexivity|].
  exact (ids_generated_unless_preserved ConverterSpec.sampleIds (fun n => n) defaultOptions None
           editedContent 0%nat eq_refl).
Defined.

(** A blockquote whose [reference] attribute is a number, with no [book]. *)
Definition numberedQuote : list TipTapNode :=
  [TT "paragraph" None (Some [TT "text" None None (Some "Hello") None]) None None;
   TT "blockquote" (Some {["reference" := JNum 5]})
      (Some [TT "paragraph" None (Some [TT "text" None None (Some "Jesus wept.") None]) None None])
      None None].

Lemma converted_tree_shape_witness :
  fst (tipTapJsonToAst ConverterSpec.sampleIds (fun n => n) (mkDoc (NodeArray numberedQuote))
         defaultOptions None 0%nat)
  = mkConversionResult false None (Some "reference.match is not a function") None
  /\ exists root,
       data (fst (tipTapJsonToAst ConverterSpec.sampleIds (fun n => n)
                    (mkDoc (NodeArray editedContent)) defaultOptions None 0%nat)) = Some root
       /\ forallb wellBuilt (root_children root) = true.
Proof.
  split.
  - exact (converted_tree_shape ConverterSpec.sampleIds (fun n => n)
             (mkDoc (NodeArray numberedQuote)) defaultOptions None 0%nat).
  - destruct (converted_tree_shape ConverterSpec.sampleIds (fun n => n)
                (mkDoc (NodeArray editedContent)) defaultOptions None 0%nat)
      as (root & Hd & _ & _ & _ & _ & Hw).
    exists root. split; [exact Hd | exact Hw].
Defined.

End ConverterInvariants.

(** ** Merging paragraphs: order of the ids, and who gets to call the callback *)
Module ParagraphMergeFlowSpec.
Import ParagraphMerge JsSpec.

Section SortedOnce.
Context {A : Type} (key : A -> Z).

(** With keys that differ there is one ascending arrangement. *)
Lemma ascending_unique (l1 l2 : list A) :
  Ascending key l1 -> Ascending key l2 -> l1 ≡ₚ l2 -> NoDup (map key l1) -> l1 = l2.
Proof.
  revert l2. induction l1 as [|x l1 IH]; intros l2 H1 H2 Hp Hn.
  - apply Permutation_nil in Hp. congruence.
  - destruct l2 as [|y l2]; [symmetry in Hp; apply Permutation_nil in Hp; discriminate|].
    assert (Hxy : x = y).
    { assert (Hx : x ∈ y :: l2) by (rewrite <- Hp; left).
      assert (Hy : y ∈ x :: l1) by (rewrite Hp; left).
      apply elem_of_cons in Hy as [Hy|Hy]; [congruence|].
      apply elem_of_cons in Hx as [Hx|Hx]; [exact Hx|].
      exfalso.
      pose proof (ascending_head_least key (x :: l1) x H1 eq_refl y (proj2 (elem_of_cons _ _ _) (or_intror Hy))).
      pose proof (ascending_head_least key (y :: l2) y H2 eq_refl x (proj2 (elem_of_cons _ _ _) (or_intror Hx))).
      cbn [map] in Hn. apply NoDup_cons in Hn as [Hn _]. apply Hn.
      replace (key x) with (key y) by lia. apply list_elem_of_fmap. exists y. split; [reflexivity | exact Hy]. }
    subst y. f_equal. apply IH.
    + apply StronglySorted_inv in H1 as [H1 _]. exact H1.
    + apply StronglySorted_inv in H2 as [H2 _]. exact H2.
    + eapply Permutation_cons_inv. exact Hp.
    + cbn [map] in Hn. apply NoDup_cons in Hn as [_ Hn]. exact Hn.
Qed.

Lemma sortBy_permuted (l1 l2 : list A) :
  l1 ≡ₚ l2 -> NoDup (map key l1) -> Js.sortBy key l1 = Js.sortBy key l2.
Proof.
  intros Hp Hn. apply ascending_unique.
  - apply sortBy_ascending.
  - apply sortBy_ascending.
  - rewrite !sortBy_perm. exact Hp.
  - assert (Hm : map key (Js.sortBy key l1) ≡ₚ map key l1)
      by apply Permutation_map, sortBy_perm.
    rewrite Hm. exact Hn.
Qed.
End SortedOnce.

Lemma omap_perm {A B} (f : A -> option B) (l1 l2 : list A) :
  l1 ≡ₚ l2 -> omap f l1 ≡ₚ omap f l2.
Proof.
  induction 1 as [|x l1 l2 _ IH|x y l|l1 l2 l3 _ IH1 _ IH2].
  - reflexivity.
  - cbn. destruct (f x); [constructor; exact IH | exact IH].
  - cbn. destruct (f x), (f y); try reflexivity. apply Permutation_swap.
  - etransitivity; eassumption.
Qed.

(** The preview without the ids it was asked for. *)
Definition outcome (p : MergePreview) : string * Z * Z * bool :=
  (mergedText p, mp_startOffset p, mp_endOffset p, requiresConfirmation p).

(** The paragraphs that [ids] resolve to start at different offsets. *)
Definition DistinctStarts (get : NodeId -> option ParagraphInfo) (ids : list NodeId) : Prop :=
  NoDup (map startOffset (omap get ids)).

(** The order in which the ids are handed over does not matter when the
    paragraphs start at different offsets: for the same ids in another
    order [calculateMergedContent] gives the same text and [previewMerge]
    the same text, offsets and flag, or no preview in both cases; only
    [paragraphIds] keeps the order given.  Where there is a preview its
    text is the one [calculateMergedContent] gives. *)
Theorem merge_ignores_id_order (o : UseParagraphMergeOptions) (get : NodeId -> option ParagraphInfo)
    (ids ids' : list NodeId) :
  getParagraphInfo o = Some get ->
  ids ≡ₚ ids' ->
  DistinctStarts get ids ->
  calculateMergedContent o ids = calculateMergedContent o ids'
  /\ outcome <$> previewMerge o ids = outcome <$> previewMerge o ids'
  /\ paragraphIds <$> previewMerge o ids = (fun _ => ids) <$> previewMerge o ids'
  /\ (forall p, previewMerge o ids = Some p -> mergedText p = calculateMergedContent o ids).
Proof.
  intros Hg Hp Hd.
  assert (Hr : resolve get ids = resolve get ids').
  { unfold resolve. apply sortBy_permuted; [apply omap_perm, Hp | exact Hd]. }
  assert (Hl : length ids = length ids') by (apply Permutation_length, Hp).
  split; [|split; [|split]].
  - unfold calculateMergedContent. rewrite Hg.
    destruct ids as [|i ids]; [apply Permutation_nil in Hp; subst; reflexivity|].
    destruct ids' as [|i' ids']; [discriminate|]. rewrite Hr. reflexivity.
  - unfold previewMerge. rewrite Hg, <- Hl, <- Hr.
    destruct (length ids <? 2)%nat; [reflexivity|].
    destruct (length (resolve get ids) <? 2)%nat; reflexivity.
  - unfold previewMerge. rewrite Hg, <- Hl, <- Hr.
    destruct (length ids <? 2)%nat; [reflexivity|].
    destruct (length (resolve get ids) <? 2)%nat; reflexivity.
  - intros p. unfold previewMerge, calculateMergedContent. rewrite Hg.
    destruct (Nat.ltb_spec (length ids) 2) as [|Hge]; [discriminate|].
    destruct (length (resolve get ids) <? 2)%nat; [discriminate|].
    intros [= <-]. destruct ids; [cbn in Hge; lia | reflexivity].
Qed.

Definition mockOptions : UseParagraphMergeOptions :=
  mkOptions (Some ParagraphMergeSpec.mockParagraphs) None.

Lemma merge_ignores_id_order_witness :
  getParagraphInfo mockOptions = Some ParagraphMergeSpec.mockParagraphs
  /\ ["para-2"; "para-1"] ≡ₚ ["para-1"; "para-2"]
  /\ DistinctStarts ParagraphMergeSpec.mockParagraphs ["para-2"; "para-1"]
  /\ calculateMergedContent mockOptions ["para-2"; "para-1"]
     = calculateMergedContent mockOptions ["para-1"; "para-2"]
  /\ outcome <$> previewMerge mockOptions ["para-2"; "para-1"]
     = outcome <$> previewMerge mockOptions ["para-1"; "para-2"]
  /\ paragraphIds <$> previewMerge mockOptions ["para-2"; "para-1"]
     = (fun _ => ["para-2"; "para-1"]) <$> previewMerge mockOptions ["para-1"; "para-2"]
  /\ (forall p, previewMerge mockOptions ["para-2"; "para-1"] = Some p ->
        mergedText p = calculateMergedContent mockOptions ["para-2"; "para-1"]).
Proof.
  assert (Hp : ["para-2"; "para-1"] ≡ₚ ["para-1"; "para-2"]) by apply Permutation_swap.
  assert (Hd : DistinctStarts ParagraphMergeSpec.mockParagraphs ["para-2"; "para-1"]).
  { unfold DistinctStarts. apply (bool_decide_unpack _). vm_compute. reflexivity. }
  split; [reflexivity|]. split; [exact Hp|]. split; [exact Hd|].
  exact (merge_ignores_id_order mockOptions ParagraphMergeSpec.mockParagraphs
           ["para-2"; "para-1"] ["para-1"; "para-2"] eq_refl Hp Hd).
Defined.

(** *** The confirmation protocol *)

(** What the component does with the hook. *)
Inductive Op : Type :=
| Request (ids : list NodeId)
| Confirm
| Cancel.

Definition step (o : UseParagraphMergeOptions) (hasCallback : bool) (st : MergeState) (op : Op)
  : MergeState :=
  match op with
  | Request ids => requestMerge o hasCallback st ids
  | Confirm => confirmMerge hasCallback st
  | Cancel => cancelMerge st
  end.

Definition run (o : UseParagraphMergeOptions) (hasCallback : bool) (ops : list Op) : MergeState :=
  fold_left (step o hasCallback) ops (mkMergeState None []).

(** The previews of the requests among [ops], in order. *)
Definition requested (o : UseParagraphMergeOptions) (ops : list Op) : list MergePreview :=
  omap (fun op => match op with Request ids => previewMerge o ids | _ => None end) ops.

#[local] Instance op_eq_dec : EqDecision Op.
Proof. solve_decision. Defined.

Definition confirms (ops : list Op) : nat :=
  length (filter (fun op => op = Confirm) ops).

Lemma run_snoc o cb ops op : run o cb (ops ++ [op]) = step o cb (run o cb ops) op.
Proof. unfold run. rewrite fold_left_app. reflexivity. Qed.

Lemma requested_snoc o ops op :
  requested o (ops ++ [op])
  = (requested o ops
     ++ match op with
        | Request ids => option_list (previewMerge o ids)
        | _ => []
        end)%list.
Proof.
  unfold requested. rewrite omap_app. f_equal. cbn.
  destruct op as [ids| |]; [destruct (previewMerge o ids)|..]; reflexivity.
Qed.

Lemma confirms_snoc ops op :
  confirms (ops ++ [op]) = (confirms ops + if decide (op = Confirm) then 1 else 0)%nat.
Proof.
  unfold confirms. rewrite filter_app, length_app. f_equal.
  rewrite filter_cons, filter_nil. destruct (decide (op = Confirm)); reflexivity.
Qed.

Lemma previewMerge_flag o ids p :
  previewMerge o ids = Some p -> requiresConfirmation p = negb (default false (autoConfirm o)).
Proof.
  unfold previewMerge. destruct (getParagraphInfo o) as [get|]; [|discriminate].
  destruct (length ids <? 2)%nat; [discriminate|].
  destruct (length (resolve get ids) <? 2)%nat; [discriminate|]. intros [= <-]. reflexivity.
Qed.

(** With [autoConfirm] nothing is ever pending and every preview goes
    straight to the callback. *)
Lemma run_auto (o : UseParagraphMergeOptions) (cb : bool) (ops : list Op) :
  default false (autoConfirm o) = true ->
  pendingMerge (run o cb ops) = None
  /\ confirmedCalls (run o cb ops) = if cb then requested o ops else [].
Proof.
  intros Ha. induction ops as [|op ops [IHp IHc]] using rev_ind; [destruct cb; split; reflexivity|].
  rewrite run_snoc, requested_snoc. destruct op as [ids| |]; cbn [step].
  - unfold requestMerge. rewrite Ha. destruct (previewMerge o ids) as [p|]; cbn [option_list].
    + destruct cb; cbn [pendingMerge confirmedCalls]; split; try assumption.
      rewrite IHc. reflexivity.
    + rewrite app_nil_r. split; assumption.
  - unfold confirmMerge. rewrite IHp, app_nil_r. split; assumption.
  - cbn. rewrite app_nil_r. split; [reflexivity | exact IHc].
Qed.

(** Without it: the calls so far took their previews, in order, from an
    initial part of the requests, and what is pending is the last request
    after that. *)
Lemma run_manual (o : UseParagraphMergeOptions) (cb : bool) (ops : list Op) :
  default false (autoConfirm o) = false ->
  (length (confirmedCalls (run o cb ops)) <= confirms ops)%nat
  /\ exists r1 r2,
       requested o ops = (r1 ++ r2)%list
       /\ sublist (confirmedCalls (run o cb ops)) r1
       /\ forall p, pendingMerge (run o cb ops) = Some p -> last r2 = Some p.
Proof.
  intros Ha. induction ops as [|op ops (IHn & r1 & r2 & E & Hs & Hp)] using rev_ind.
  { split; [cbn; lia|]. exists [], []. split; [reflexivity|]. split; [constructor | discriminate]. }
  rewrite run_snoc, requested_snoc, confirms_snoc. destruct op as [ids| |]; cbn [step].
  - rewrite decide_False by discriminate. rewrite Nat.add_0_r.
    unfold requestMerge. rewrite Ha. destruct (previewMerge o ids) as [p|]; cbn [option_list].
    + cbn [pendingMerge confirmedCalls]. split; [exact IHn|].
      exists r1, (r2 ++ [p])%list. split; [rewrite E, app_assoc; reflexivity|].
      split; [exact Hs|]. intros q [= <-]. apply last_snoc.
    + rewrite app_nil_r. split; [exact IHn|]. exists r1, r2. repeat split; assumption.
  - rewrite decide_True by reflexivity. rewrite app_nil_r. unfold confirmMerge.
    destruct (pendingMerge (run o cb ops)) as [p|] eqn:Ep.
    + cbn [pendingMerge confirmedCalls]. split.
      { destruct cb; [rewrite length_app; cbn; lia | lia]. }
      exists (r1 ++ r2)%list, []. split; [rewrite app_nil_r; exact E|].
      split; [|discriminate]. specialize (Hp p eq_refl).
      apply last_Some in Hp as [r2' ->]. destruct cb.
      * rewrite app_assoc. apply sublist_app; [|reflexivity].
        etransitivity; [exact Hs|]. apply sublist_inserts_r. reflexivity.
      * etransitivity; [exact Hs|]. apply sublist_inserts_r. reflexivity.
    + split; [lia|]. exists r1, r2. split; [exact E|]. split; [exact Hs|].
      rewrite Ep. discriminate.
  - rewrite decide_False by discriminate. rewrite Nat.add_0_r, app_nil_r. cbn.
    split; [exact IHn|]. exists r1, r2. split; [exact E|]. split; [exact Hs | discriminate].
Qed.

Lemma run_no_callback (o : UseParagraphMergeOptions) (ops : list Op) :
  confirmedCalls (run o false ops) = [].
Proof.
  induction ops as [|op ops IH] using rev_ind; [reflexivity|].
  rewrite run_snoc. destruct op as [ids| |]; cbn [step].
  - unfold requestMerge. destruct (previewMerge o ids); [|exact IH].
    destruct (default false (autoConfirm o)); exact IH.
  - unfold confirmMerge. destruct (pendingMerge (run o false ops)); exact IH.
  - exact IH.
Qed.

(** Whatever the component does with the hook (requests, confirmations and
    cancellations in any order), [onMergeConfirmed] only ever receives
    previews of merges that were requested, each request at most once and in
    the order of the requests; a merge that is pending is one of the
    requested ones and asks for confirmation.  Without a callback nothing is
    called.  With [autoConfirm] nothing is ever pending and every request
    that has a preview is handed over at once; without it there are no more
    calls than confirmations.  A request that has no preview changes
    nothing, so an earlier pending merge stays, and cancelling before
    confirming means no call. *)
Theorem merge_confirmation_protocol (o : UseParagraphMergeOptions) (cb : bool) (ops : list Op) :
  let st := run o cb ops in
  sublist (confirmedCalls st) (requested o ops)
  /\ (forall p, pendingMerge st = Some p -> p ∈ requested o ops /\ requiresConfirmation p = true)
  /\ (cb = false -> confirmedCalls st = [])
  /\ (default false (autoConfirm o) = true ->
      pendingMerge st = None /\ (cb = true -> confirmedCalls st = requested o ops))
  /\ (default false (autoConfirm o) = false ->
      (length (confirmedCalls st) <= confirms ops)%nat)
  /\ (forall ids, previewMerge o ids = None -> run o cb (ops ++ [Request ids]) = st)
  /\ confirmedCalls (run o cb (ops ++ [Cancel; Confirm])) = confirmedCalls st.
Proof.
  cbn zeta.
  assert (Hreq : forall p, p ∈ requested o ops ->
                   requiresConfirmation p = negb (default false (autoConfirm o))).
  { intros p Hp. unfold requested in Hp. apply list_elem_of_omap in Hp as (op & _ & Hop).
    destruct op as [ids| |]; try discriminate. eapply previewMerge_flag, Hop. }
  destruct (default false (autoConfirm o)) eqn:Ha.
  - destruct (run_auto o cb ops Ha) as [Hp Hc].
    split; [rewrite Hc; destruct cb; [reflexivity | apply sublist_nil_l]|].
    split; [rewrite Hp; discriminate|].
    split; [intros ->; exact Hc|].
    split; [intros _; split; [exact Hp | intros ->; exact Hc]|].
    split; [discriminate|].
    split.
    + intros ids Hi. rewrite run_snoc. cbn. unfold requestMerge. rewrite Hi. reflexivity.
    + change [Cancel; Confirm] with ([Cancel] ++ [Confirm])%list.
      rewrite app_assoc, !run_snoc. reflexivity.
  - destruct (run_manual o cb ops Ha) as (Hn & r1 & r2 & E & Hs & Hp).
    split; [rewrite E; etransitivity; [exact Hs|]; apply sublist_inserts_r; reflexivity|].
    split.
    { intros p Hpe. assert (Hin : p ∈ requested o ops).
      { rewrite E. apply elem_of_app. right. specialize (Hp p Hpe).
        apply last_Some in Hp as [r2' ->]. apply elem_of_app. right. left. }
      split; [exact Hin|]. rewrite (Hreq p Hin). reflexivity. }
    split; [intros ->; apply run_no_callback|].
    split; [discriminate|].
    split; [intros _; exact Hn|].
    split.
    + intros ids Hi. rewrite run_snoc. cbn. unfold requestMerge. rewrite Hi. reflexivity.
    + change [Cancel; Confirm] with ([Cancel] ++ [Confirm])%list.
      rewrite app_assoc, !run_snoc. reflexivity.
Qed.

End ParagraphMergeFlowSpec.

(** ** History items: what can be restored *)
Module HistoryItemsSpec.
Import Js HistoryItems.

Section Restore.
Context {DocumentState Other SermonOther Html : Type}.
Variable compactSerialize : DocumentState -> SerializeOptions -> string.
Variable compactDeserialize : string -> DeserializeResult DocumentState.

Local Abbreviation Item := (HistoryItem DocumentState Other SermonOther).
Local Abbreviation restore := (@restoreFromHistoryItem DocumentState Other SermonOther compactDeserialize).

Lemma restore_serialized (item : Item) (json : string) :
  documentStateJson item = Some json -> truthyStr json = true ->
  restore item
  = match ds_success (compactDeserialize json), ds_state (compactDeserialize json) with
    | true, Some s => mkRestoreResult true (Some s) None (Some false)
    | _, _ =>
        mkRestoreResult false None
          (Some (if truthyOptStr (ds_error (compactDeserialize json))
                 then default "" (ds_error (compactDeserialize json))
                 else "Failed to deserialize document state"))
          (Some false)
    end.
Proof.
  intros E Ht. unfold restoreFromHistoryItem. rewrite E, Ht. unfold orStr.
  destruct (ds_success (compactDeserialize json)), (ds_state (compactDeserialize json));
    try reflexivity;
    destruct (ds_error (compactDeserialize json)) as [e|]; cbn; try reflexivity;
    destruct (truthyStr e); reflexivity.
Qed.

(** A history item is restored from its serialized state when it has one,
    and only otherwise from the state the pipeline left in
    [sermonDocument]: a serialized state that does not deserialize makes the
    restore fail although [hasDocumentState] says the item has a state.  A
    restore succeeds only for items [hasDocumentState] accepts, and then
    hands out a state and no error; a failure hands out no state and an
    error message that is not empty; no result is marked legacy.  Saving a
    state writes the serialized form over the old one and leaves the rest
    of the item alone, so a restore after a save depends on the saved state
    only.  [migrateHistoryItem] never looks at its converter. *)
Theorem restore_spec (item : Item) :
  let r := restore item in
  isLegacy r = Some false
  /\ (success r = true -> hasDocumentState item = true /\ is_Some (state r) /\ error r = None)
  /\ (success r = false -> state r = None /\ exists e, error r = Some e /\ e ≠ "")
  /\ (hasDocumentState item = false ->
      r = mkRestoreResult false None (Some "No document state available in history item")
            (Some false))
  /\ (truthyOptStr (documentStateJson item) = false ->
      state r = pipelineState item /\ success r = bool_decide (is_Some (pipelineState item)))
  /\ (forall json, documentStateJson item = Some json -> truthyStr json = true ->
      let d := compactDeserialize json in
      (success r = true <-> ds_success d = true /\ is_Some (ds_state d))
      /\ (success r = true -> state r = ds_state d))
  /\ (forall st options,
      let saved := updateHistoryItemState compactSerialize item st options in
      let json := compactSerialize st
                    (mkSerializeOptions (default true (includeEventLog options))
                       (default 100 (maxEvents options))) in
      documentStateJson saved = Some json
      /\ sermonDocument saved = sermonDocument item
      /\ otherFields saved = otherFields item
      /\ createHistoryItemWithState compactSerialize item (Some st) options = saved
      /\ createHistoryItemWithState compactSerialize item None options
         = mkHistoryItem None (sermonDocument item) (otherFields item)
      /\ (truthyStr json = true ->
          forall other : Item,
            restore saved
            = restore (updateHistoryItemState compactSerialize other st options)))
  /\ hasNewFormatState item = hasDocumentState item
  /\ (forall convert : Html -> option DocumentState,
      migrateHistoryItem item convert = if hasDocumentState item then Some item else None).
Proof.
  cbn zeta.
  assert (Hplain : truthyOptStr (documentStateJson item) = false ->
            restore item
            = match pipelineState item with
              | Some s => mkRestoreResult true (Some s) None (Some false)
              | None => mkRestoreResult false None
                          (Some "No document state available in history item") (Some false)
              end).
  { unfold restoreFromHistoryItem. destruct (documentStateJson item) as [json|]; [|reflexivity].
    cbn. intros ->. reflexivity. }
  destruct (truthyOptStr (documentStateJson item)) eqn:Ht.
  - destruct (documentStateJson item) as [json|] eqn:Ej; [|discriminate]. cbn in Ht.
    pose proof (restore_serialized item json Ej Ht) as Hr.
    unfold hasDocumentState, hasNewFormatState, migrateHistoryItem, hasNewFormatState.
    rewrite Ej. cbn [truthyOptStr]. rewrite Ht. cbn [orb].
    assert (Hne : forall oe,
              (if truthyOptStr oe then default "" oe else "Failed to deserialize document state")
              ≠ "").
    { intros [[|c e]|]; cbn; discriminate. }
    assert (Hsave : forall st options (other : Item),
              truthyStr (compactSerialize st
                           (mkSerializeOptions (default true (includeEventLog options))
                              (default 100 (maxEvents options)))) = true ->
              restore (updateHistoryItemState compactSerialize item st options)
              = restore (updateHistoryItemState compactSerialize other st options)).
    { intros st options other Hj.
      rewrite (restore_serialized (updateHistoryItemState compactSerialize item st options)
                 _ eq_refl Hj),
        (restore_serialized (updateHistoryItemState compactSerialize other st options)
           _ eq_refl Hj).
      reflexivity. }
    split; [rewrite Hr; destruct (compactDeserialize json) as [[] [s|] oe]; reflexivity|].
    split.
    { rewrite Hr. destruct (compactDeserialize json) as [[] [s|] oe]; cbn; try discriminate.
      intros _. split; [reflexivity|]. split; [eexists; reflexivity | reflexivity]. }
    split.
    { rewrite Hr. destruct (compactDeserialize json) as [[] [s|] oe]; cbn; try discriminate;
        (intros _; split; [reflexivity|]; eexists; split; [reflexivity | apply Hne]). }
    split; [discriminate|]. split; [discriminate|].
    split.
    { intros json' [= <-] _. rewrite Hr.
      destruct (compactDeserialize json) as [[] [s|] oe]; cbn; repeat split;
        try discriminate; try (intros [? [? ?]]; discriminate); try (intros [? ?]; discriminate);
        eauto. }
    split.
    { intros st options. repeat (split; [reflexivity|]). intros Hj other. apply Hsave, Hj. }
    split; reflexivity.
  - specialize (Hplain eq_refl).
    unfold hasDocumentState, hasNewFormatState, migrateHistoryItem, hasNewFormatState.
    rewrite Ht, Hplain. cbn [orb].
    assert (Hsave : forall st options (other : Item),
              truthyStr (compactSerialize st
                           (mkSerializeOptions (default true (includeEventLog options))
                              (default 100 (maxEvents options)))) = true ->
              restore (updateHistoryItemState compactSerialize item st options)
              = restore (updateHistoryItemState compactSerialize other st options)).
    { intros st options other Hj.
      rewrite (restore_serialized (updateHistoryItemState compactSerialize item st options)
                 _ eq_refl Hj),
        (restore_serialized (updateHistoryItemState compactSerialize other st options)
           _ eq_refl Hj).
      reflexivity. }
    assert (Hsome : forall s : DocumentState, bool_decide (is_Some (Some s)) = true)
      by (intros s; apply bool_decide_eq_true; eexists; reflexivity).
    assert (Hnone : bool_decide (is_Some (@None DocumentState)) = false)
      by (apply bool_decide_eq_false; intros [? ?]; discriminate).
    split; [destruct (pipelineState item); reflexivity|].
    split.
    { destruct (pipelineState item) as [s|]; cbn [success state error]; [|discriminate].
      intros _. split; [apply Hsome|]. split; [eexists; reflexivity | reflexivity]. }
    split.
    { destruct (pipelineState item) as [s|]; cbn [success state error]; [discriminate|].
      intros _. split; [reflexivity|]. eexists. split; [reflexivity | discriminate]. }
    split.
    { destruct (pipelineState item) as [s|]; [|reflexivity].
      rewrite Hsome. discriminate. }
    split.
    { intros _. destruct (pipelineState item) as [s|]; cbn [success state error].
      - rewrite Hsome. split; reflexivity.
      - rewrite Hnone. split; reflexivity. }
    split.
    { intros json Ej Hj. rewrite Ej in Ht. cbn in Ht. congruence. }
    split.
    { intros st options. repeat (split; [reflexivity|]). intros Hj other. apply Hsave, Hj. }
    split; reflexivity.
Qed.

End Restore.

End HistoryItemsSpec.

(** ** HTML: what escaping guarantees *)
Module HtmlSpec.
Import Js Converter Html.

(** How often [c] occurs in [s]. *)
Fixpoint countChar (c : ascii) (s : string) : nat :=
  match s with
  | EmptyString => 0
  | String d rest => (if Ascii.eqb d c then 1 else 0) + countChar c rest
  end.

(** The characters [escapeHtml] replaces. *)
Definition special (c : ascii) : bool :=
  Ascii.eqb c "&" || Ascii.eqb c "<" || Ascii.eqb c ">" || Ascii.eqb c (ascii_of_nat 34)
  || Ascii.eqb c "'".

(** The characters that open or close a tag or an attribute value. *)
Definition markup (c : ascii) : bool :=
  Ascii.eqb c "<" || Ascii.eqb c ">" || Ascii.eqb c (ascii_of_nat 34) || Ascii.eqb c "'".

(** Reading the five entities back. *)
Fixpoint unescapeHtml (s : string) : string :=
  match s with
  | EmptyString => ""
  | String c rest =>
      if Ascii.eqb c "&" then
        match rest with
        | String "a" (String "m" (String "p" (String ";" r))) => String "&" (unescapeHtml r)
        | String "l" (String "t" (String ";" r)) => String "<" (unescapeHtml r)
        | String "g" (String "t" (String ";" r)) => String ">" (unescapeHtml r)
        | String "q" (String "u" (String "o" (String "t" (String ";" r)))) =>
            String (ascii_of_nat 34) (unescapeHtml r)
        | String "#" (String "0" (String "3" (String "9" (String ";" r)))) =>
            String "'" (unescapeHtml r)
        | _ => String c (unescapeHtml rest)
        end
      else String c (unescapeHtml rest)
  end.

Lemma countChar_append (c : ascii) (a b : string) :
  countChar c (a +:+ b) = (countChar c a + countChar c b)%nat.
Proof.
  induction a as [|d a IH]; [reflexivity|].
  change (((if Ascii.eqb d c then 1 else 0) + countChar c (a +:+ b))%nat
          = ((if Ascii.eqb d c then 1 else 0) + countChar c a + countChar c b)%nat).
  rewrite IH. lia.
Qed.

Lemma countChar_includes (c : ascii) (s : string) :
  countChar c s = 0%nat <-> includesChar s c = false.
Proof.
  induction s as [|d s IH]; [split; reflexivity|]. cbn.
  destruct (Ascii.eqb d c); cbn; [split; discriminate | exact IH].
Qed.

(** One character: what its replacement looks like. *)
Lemma escapeChar_cases (c : ascii) :
  (special c = false /\ escapeChar c = String c "")
  \/ (c = "&"%char /\ escapeChar c = "&amp;")
  \/ (c = "<"%char /\ escapeChar c = "&lt;")
  \/ (c = ">"%char /\ escapeChar c = "&gt;")
  \/ (c = ascii_of_nat 34 /\ escapeChar c = "&quot;")
  \/ (c = "'"%char /\ escapeChar c = "&#039;").
Proof.
  unfold escapeChar, special.
  destruct (Ascii.eqb_spec c "&") as [->|_]; [tauto|].
  destruct (Ascii.eqb_spec c "<") as [->|_]; [tauto|].
  destruct (Ascii.eqb_spec c ">") as [->|_]; [tauto|].
  destruct (Ascii.eqb_spec c (ascii_of_nat 34)) as [->|_]; [tauto|].
  destruct (Ascii.eqb_spec c "'") as [->|_]; [tauto|].
  left. split; reflexivity.
Qed.

Lemma markup_special (c : ascii) : markup c = true -> special c = true.
Proof.
  unfold markup, special. destruct (Ascii.eqb c "&"), (Ascii.eqb c "<"), (Ascii.eqb c ">"),
    (Ascii.eqb c (ascii_of_nat 34)), (Ascii.eqb c "'"); cbn; congruence.
Qed.

Lemma countChar_escapeChar (c d : ascii) : markup c = true -> countChar c (escapeChar d) = 0%nat.
Proof.
  intros Hc.
  assert (Hne : forall e, markup e = false -> Ascii.eqb e c = false).
  { intros e He. destruct (Ascii.eqb_spec e c) as [->|]; congruence. }
  destruct (escapeChar_cases d) as [[Hd ->]|[[-> ->]|[[-> ->]|[[-> ->]|[[-> ->]|[-> ->]]]]]];
    cbn [countChar]; rewrite ?Hne by reflexivity; try reflexivity.
  destruct (Ascii.eqb_spec d c) as [->|]; [|reflexivity].
  apply markup_special in Hc. congruence.
Qed.

Lemma countChar_escapeHtml (c : ascii) (s : string) :
  markup c = true -> countChar c (escapeHtml s) = 0%nat.
Proof.
  intros Hc. induction s as [|d s IH]; [reflexivity|].
  cbn [escapeHtml]. rewrite countChar_append, IH, countChar_escapeChar by exact Hc. reflexivity.
Qed.

Lemma unescape_escapeChar (d : ascii) (s : string) :
  unescapeHtml (escapeChar d +:+ s) = String d (unescapeHtml s).
Proof.
  destruct (escapeChar_cases d) as [[Hd ->]|[[-> ->]|[[-> ->]|[[-> ->]|[[-> ->]|[-> ->]]]]]];
    try reflexivity.
  change (String d "" +:+ s) with (String d s). cbn [unescapeHtml].
  unfold special in Hd. destruct (Ascii.eqb d "&"); [discriminate | reflexivity].
Qed.

Lemma escapeHtml_append (a b : string) : escapeHtml (a +:+ b) = escapeHtml a +:+ escapeHtml b.
Proof.
  induction a as [|d a IH]; [reflexivity|].
  change (escapeChar d +:+ escapeHtml (a +:+ b) = (escapeChar d +:+ escapeHtml a) +:+ escapeHtml b).
  rewrite IH, ConverterSpec.append_assoc. reflexivity.
Qed.

Lemma length_append' (a b : string) :
  String.length (a +:+ b) = (String.length a + String.length b)%nat.
Proof.
  induction a as [|d a IH]; [reflexivity|].
  change (S (String.length (a +:+ b)) = S (String.length a + String.length b)). rewrite IH.
  reflexivity.
Qed.

(** [escapeHtml] leaves none of the characters that could open or close a
    tag or an attribute value, replaces nothing but the five characters of
    its table, and loses nothing: reading the entities back gives the text,
    so two texts with the same escaped form are the same.  It works
    character by character (the escaped form of a concatenation is the
    concatenation of the escaped forms) and makes the text at most six times
    as long. *)
Theorem escapeHtml_spec (text : string) :
  (forall c, markup c = true -> includesChar (escapeHtml text) c = false)
  /\ unescapeHtml (escapeHtml text) = text
  /\ (forall other, escapeHtml text = escapeHtml other -> text = other)
  /\ (escapeHtml text = text <-> forall c, special c = true -> includesChar text c = false)
  /\ (forall rest, escapeHtml (text +:+ rest) = escapeHtml text +:+ escapeHtml rest)
  /\ (String.length text <= String.length (escapeHtml text) <= 6 * String.length text)%nat.
Proof.
  assert (Hback : forall s, unescapeHtml (escapeHtml s) = s).
  { induction s as [|d s IH]; [reflexivity|]. cbn [escapeHtml].
    rewrite unescape_escapeChar, IH. reflexivity. }
  split; [intros c Hc; apply countChar_includes, countChar_escapeHtml, Hc|].
  split; [apply Hback|].
  split; [intros other H; rewrite <- (Hback text), H; apply Hback|].
  assert (Hlen : forall s,
            (String.length s <= String.length (escapeHtml s) <= 6 * String.length s)%nat).
  { induction s as [|d s IH]; [cbn; lia|]. cbn [escapeHtml]. rewrite length_append'.
    cbn [String.length].
    destruct (escapeChar_cases d) as [[_ ->]|[[_ ->]|[[_ ->]|[[_ ->]|[[_ ->]|[_ ->]]]]]];
      cbn [String.length]; lia. }
  split; [|split; [intros rest; apply escapeHtml_append | apply Hlen]].
  induction text as [|d s IH]; [split; [intros _ c _; reflexivity | reflexivity]|].
  cbn [escapeHtml includesChar].
  destruct (escapeChar_cases d) as [[Hd ->]|Hs].
  - change (String d "" +:+ escapeHtml s) with (String d (escapeHtml s)). split.
    + intros [= E] c Hc. apply IH with (c := c) in E; [|exact Hc]. rewrite E, orb_false_r.
      destruct (Ascii.eqb_spec d c) as [->|]; congruence.
    + intros H. f_equal. apply IH. intros c Hc. specialize (H c Hc).
      apply orb_false_iff in H as [_ H]. exact H.
  - split.
    + intros E. exfalso. apply (f_equal String.length) in E.
      rewrite length_append' in E. cbn [String.length] in E. specialize (Hlen s).
      destruct Hs as [[-> R]|[[-> R]|[[-> R]|[[-> R]|[-> R]]]]]; rewrite R in E;
        cbn [String.length] in E; lia.
    + intros H. exfalso.
      assert (Hd : special d = true)
        by (destruct Hs as [[-> _]|[[-> _]|[[-> _]|[[-> _]|[-> _]]]]]; reflexivity).
      specialize (H d Hd). rewrite Ascii.eqb_refl in H. discriminate.
Qed.

Section Markup.
Context {Timestamp : Type}.
Variable numberToString : Q -> string.

Local Abbreviation Node := (@DocumentNode Timestamp).
Local Abbreviation toHtml := (@nodeToHtml Timestamp numberToString).

Definition sum (l : list nat) : nat := foldr Nat.add 0%nat l.

(** The tags [nodeToHtml] writes for a tree, opening and closing. *)
Fixpoint tags (node : Node) : nat :=
  match node with
  | ParagraphNode _ _ _ cs | HeadingNode _ _ _ _ cs | QuoteBlockNode _ _ _ _ cs =>
      2 + sum (map tags cs)
  | TextNode _ _ _ _ _ => 0
  | InterjectionNode _ _ _ _ _ => 2
  end.

(** The attributes it writes. *)
Fixpoint attributes (node : Node) : nat :=
  match node with
  | ParagraphNode _ _ _ cs | HeadingNode _ _ _ _ cs => sum (map attributes cs)
  | QuoteBlockNode _ _ _ _ cs => 3 + sum (map attributes cs)
  | TextNode _ _ _ _ _ => 0
  | InterjectionNode _ _ _ _ _ => 2
  end.

Definition plain (s : string) : bool :=
  negb (includesChar s "<") && negb (includesChar s ">")
  && negb (includesChar s (ascii_of_nat 34)).

(** The ids that go into the HTML as they are (those of quote blocks and
    interjections), and the heading levels, hold no [<], [>] or double
    quote. *)
Fixpoint plainIds (node : Node) : bool :=
  match node with
  | ParagraphNode _ _ _ cs => forallb plainIds cs
  | HeadingNode _ _ _ level cs => plain (numberToString level) && forallb plainIds cs
  | QuoteBlockNode id _ _ _ cs => plain id && forallb plainIds cs
  | TextNode _ _ _ _ _ => true
  | InterjectionNode id _ _ _ _ => plain id
  end.

Definition headerTags (root : @DocumentRootNode Timestamp) : nat :=
  (if truthyOptStr (title root) then 2 else 0)
  + (if truthyOptStr (biblePassage root) then 4 else 0)
  + (if truthyOptStr (title root) || truthyOptStr (biblePassage root) then 1 else 0).

Lemma sum_cons (x : nat) (l : list nat) : sum (x :: l) = (x + sum l)%nat.
Proof. reflexivity. Qed.

Lemma countChar_join (c : ascii) (l : list string) :
  countChar c (join "" l) = sum (map (countChar c) l).
Proof.
  induction l as [|s l IH]; [reflexivity|].
  cbn [map]. rewrite ConverterSpec.join_cons, countChar_append, IH, sum_cons. reflexivity.
Qed.

Lemma plain_counts (s : string) :
  plain s = true ->
  countChar "<" s = 0%nat /\ countChar ">" s = 0%nat /\ countChar (ascii_of_nat 34) s = 0%nat.
Proof.
  unfold plain. intros H. apply andb_true_iff in H as [H H3]. apply andb_true_iff in H as [H1 H2].
  apply negb_true_iff in H1, H2, H3. repeat split; apply countChar_includes; assumption.
Qed.

Lemma sum_map_ext {A} (f g : A -> nat) (l : list A) :
  Forall (fun x => f x = g x) l -> sum (map f l) = sum (map g l).
Proof.
  induction 1 as [|x l Hx _ IH]; [reflexivity|].
  cbn [map]. rewrite !sum_cons, Hx, IH. reflexivity.
Qed.

Lemma sum_map_scale {A} (k : nat) (f g : A -> nat) (l : list A) :
  Forall (fun x => f x = (k * g x)%nat) l -> sum (map f l) = (k * sum (map g l))%nat.
Proof.
  induction 1 as [|x l Hx _ IH]; [cbn; lia|].
  cbn [map]. rewrite !sum_cons, Hx, IH. lia.
Qed.

Definition Counted (node : Node) : Prop :=
  plainIds node = true ->
  countChar "<" (toHtml node) = tags node
  /\ countChar ">" (toHtml node) = tags node
  /\ countChar (ascii_of_nat 34) (toHtml node) = (2 * attributes node)%nat.

Lemma children_counted (cs : list Node) :
  Forall Counted cs -> forallb plainIds cs = true ->
  countChar "<" (join "" (map toHtml cs)) = sum (map tags cs)
  /\ countChar ">" (join "" (map toHtml cs)) = sum (map tags cs)
  /\ countChar (ascii_of_nat 34) (join "" (map toHtml cs)) = (2 * sum (map attributes cs))%nat.
Proof.
  intros Hall Hp. rewrite !countChar_join, !map_map.
  assert (H : Forall (fun x => countChar "<" (toHtml x) = tags x
                               /\ countChar ">" (toHtml x) = tags x
                               /\ countChar (ascii_of_nat 34) (toHtml x)
                                  = (2 * attributes x)%nat) cs).
  { rewrite forallb_forall in Hp. rewrite Forall_forall in Hall. apply Forall_forall.
    intros x Hx. apply Hall; [exact Hx|]. apply Hp, list_elem_of_In, Hx. }
  split; [|split].
  - apply sum_map_ext. eapply Forall_impl; [exact H|]. cbn. tauto.
  - apply sum_map_ext. eapply Forall_impl; [exact H|]. cbn. tauto.
  - apply sum_map_scale. eapply Forall_impl; [exact H|]. cbn. tauto.
Qed.

(** Counting in the literal parts of the HTML. *)
Ltac count_literals :=
  repeat match goal with
         | |- context [countChar ?c ?s] =>
             let v := eval vm_compute in (countChar c s) in
             change (countChar c s) with v
         end.

Lemma node_counted (node : Node) : Counted node.
Proof.
  induction node as [i v t cs IH|i v t l cs IH|i v t md cs IH|i v t c ms|i v t c m]
    using ConverterSpec.node_induction; intros Hp; cbn [plainIds] in Hp.
  - destruct (children_counted cs IH Hp) as (C1 & C2 & C3).
    cbn [nodeToHtml tags attributes]. rewrite !countChar_append, C1, C2, C3.
    repeat split; count_literals; lia.
  - apply andb_true_iff in Hp as [Hl Hp]. destruct (plain_counts _ Hl) as (L1 & L2 & L3).
    destruct (children_counted cs IH Hp) as (C1 & C2 & C3).
    cbn [nodeToHtml tags attributes]. rewrite !countChar_append, C1, C2, C3, L1, L2, L3.
    repeat split; count_literals; lia.
  - apply andb_true_iff in Hp as [Hi Hp]. destruct (plain_counts _ Hi) as (I1 & I2 & I3).
    destruct (children_counted cs IH Hp) as (C1 & C2 & C3).
    cbn [nodeToHtml tags attributes]. cbn zeta.
    rewrite !countChar_append, C1, C2, C3, I1, I2, I3, !countChar_escapeHtml by reflexivity.
    repeat split; count_literals; lia.
  - cbn [nodeToHtml tags attributes]. rewrite !countChar_escapeHtml by reflexivity.
    repeat split.
  - destruct (plain_counts _ Hp) as (I1 & I2 & I3).
    cbn [nodeToHtml tags attributes].
    rewrite !countChar_append, I1, I2, I3, !countChar_escapeHtml by reflexivity.
    repeat split; count_literals; lia.
Qed.

(** In the HTML of a document the characters [<] and [>] occur in tags only
    and the double quote around attribute values only, whatever the title,
    the passage, the references and the texts contain: there are as many of
    each as the tree has tags and attributes.  This needs the ids of quote
    blocks and interjections and the printed heading levels to hold none of
    the three characters, for these go into the HTML as they are. *)
Theorem html_markup_spec (root : @DocumentRootNode Timestamp) :
  forallb plainIds (root_children root) = true ->
  let html := astToHtml numberToString root in
  countChar "<" html = (headerTags root + sum (map tags (root_children root)))%nat
  /\ countChar ">" html = (headerTags root + sum (map tags (root_children root)))%nat
  /\ countChar (ascii_of_nat 34) html
     = (2 * ((if truthyOptStr (title root) then 1 else 0)
             + sum (map attributes (root_children root))))%nat.
Proof.
  intros Hp.
  destruct (children_counted (root_children root)) as (C1 & C2 & C3);
    [apply Forall_forall; intros x _; apply node_counted | exact Hp |].
  cbn zeta. unfold astToHtml, headerTags.
  destruct (truthyOptStr (title root)), (truthyOptStr (biblePassage root)); cbn [orb];
    try destruct (includesChar (default "" (biblePassage root)) ";");
    rewrite !countChar_append, C1, C2, C3, ?countChar_escapeHtml by reflexivity;
    repeat split; count_literals; lia.
Qed.

End Markup.

(** Heading levels as the template literal prints them, for the levels
    in use. *)
Definition printLevel (q : Q) : string :=
  if Qeq_bool q 1 then "1" else if Qeq_bool q 2 then "2" else if Qeq_bool q 3 then "3"
  else if Qeq_bool q 4 then "4" else if Qeq_bool q 5 then "5" else "6".

(** A document whose texts are full of markup. *)
Definition markupRoot : @DocumentRootNode nat :=
  mkRoot "root-7" 1 0%nat (Some "Grace & <Truth>") (Some "John 3:16; Romans 5:8") None None
    [HeadingNode "head-1" 1 0%nat 2 [TextNode "t1" 1 0%nat "1 < 2" None];
     ParagraphNode "para-1" 1 0%nat
       [TextNode "t2" 1 0%nat "<script>alert('x')</script>" None;
        InterjectionNode "i1" 1 0%nat "a>b" "m1"];
     QuoteBlockNode "quote-1" 1 0%nat
       (mkMetadata (Some (mkReference "John" 3 (Some 16%Q) None "John 3:16" "John <3>:16"))
          None [] false)
       [TextNode "t3" 1 0%nat "For God so loved the world" None]].

Lemma html_markup_spec_witness :
  forallb (plainIds printLevel) (root_children markupRoot) = true
  /\ let html := astToHtml printLevel markupRoot in
     countChar "<" html = (headerTags markupRoot + sum (map tags (root_children markupRoot)))%nat
     /\ countChar ">" html
        = (headerTags markupRoot + sum (map tags (root_children markupRoot)))%nat
     /\ countChar (ascii_of_nat 34) html
        = (2 * ((if truthyOptStr (title markupRoot) then 1 else 0)
                + sum (map attributes (root_children markupRoot))))%nat.
Proof.
  split; [reflexivity|].
  exact (html_markup_spec printLevel markupRoot eq_refl).
Defined.

End HtmlSpec.

(** ** What the round trip does to title, passage and speaker *)
Module HeaderRoundTrip.
Import Js Regex Converter.

(** The white space a string starts with. *)
Fixpoint leading (s : string) : string :=
  match s with
  | EmptyString => ""
  | String c s' => if isWhiteSpace c then String c (leading s') else ""
  end.

Lemma leading_trimStart (s : string) : leading s +:+ trimStart s = s.
Proof.
  induction s as [|c s IH]; [reflexivity|]. cbn [leading trimStart].
  destruct (isWhiteSpace c); [|reflexivity].
  change (String c (leading s +:+ trimStart s) = String c s). rewrite IH. reflexivity.
Qed.

Lemma trimStart_length (s : string) : (String.length (trimStart s) <= String.length s)%nat.
Proof.
  induction s as [|c s IH]; [reflexivity|]. cbn [trimStart].
  destruct (isWhiteSpace c); cbn [String.length]; lia.
Qed.

(** [\s*] at the end of a pattern takes all the white space there is. *)
Lemma starLoop_spaces (fuel : nat) : forall (prev : option ascii) (s : string) (c : Captures),
  (String.length s <= fuel)%nat ->
  starLoop (run (Class isWhiteSpace)) (fun _ s' c' => Some (s', c')) fuel prev s c
  = Some (trimStart s, c).
Proof.
  induction fuel as [|fuel IH]; intros prev s c Hlen.
  - destruct s; [reflexivity | cbn in Hlen; lia].
  - cbn [starLoop run]. destruct s as [|a s]; [reflexivity|].
    cbn [trimStart]. destruct (isWhiteSpace a); [|reflexivity].
    cbn [String.length] in *.
    destruct (Nat.ltb_spec (String.length s) (S (String.length s))) as [_|]; [|lia].
    rewrite IH by lia. reflexivity.
Qed.

Lemma substring_none (s : string) : String.substring 0 0 s = "".
Proof. destruct s; reflexivity. Qed.

Lemma substring_all (s : string) : String.substring 0 (String.length s) s = s.
Proof.
  induction s as [|a s IH]; [reflexivity|].
  change (String a (String.substring 0 (String.length s) s) = String a s). rewrite IH. reflexivity.
Qed.

(** The passage line reads back as the passage without the white space it
    starts with. *)
Lemma passage_prefix_removed (p : string) :
  removeFirst primaryReferencePrefix ("Primary Reference: " +:+ p) = trimStart p.
Proof.
  assert (Hrun : matchHere primaryReferencePrefix None ("Primary Reference: " +:+ p) 0
                 = Some (mkMatch 0 (consumed ("Primary Reference: " +:+ p) (trimStart p))
                           noCaptures)).
  { unfold matchHere.
    assert (E : run primaryReferencePrefix None ("Primary Reference: " +:+ p) noCaptures
                  (fun _ s' c => Some (s', c))
                = starLoop (run (Class isWhiteSpace)) (fun _ s' c' => Some (s', c'))
                    (String.length (String " " p)) (Some ":"%char) (String " " p) noCaptures)
      by reflexivity.
    rewrite E, starLoop_spaces by lia. reflexivity. }
  assert (Hs : matchString primaryReferencePrefix ("Primary Reference: " +:+ p)
               = Some (mkMatch 0 (consumed ("Primary Reference: " +:+ p) (trimStart p))
                         noCaptures)).
  { unfold matchString.
    change (search primaryReferencePrefix None ("Primary Reference: " +:+ p) 0)
      with (match matchHere primaryReferencePrefix None ("Primary Reference: " +:+ p) 0 with
            | Some m => Some m
            | None => search primaryReferencePrefix (Some "P"%char)
                        ("rimary Reference: " +:+ p) 1
            end).
    rewrite Hrun. reflexivity. }
  unfold removeFirst. rewrite Hs. cbn [index matched].
  assert (Et : "Primary Reference: " +:+ p
               = ("Primary Reference: " +:+ leading p) +:+ trimStart p)
    by (rewrite ConverterSpec.append_assoc, leading_trimStart; reflexivity).
  rewrite Et, RegexPositions.consumed_app, substring_none, Nat.add_0_l,
    InterjectionDetectionSpec.substring_skip, RegexPositions.length_append.
  replace (String.length ("Primary Reference: " +:+ leading p) + String.length (trimStart p)
           - String.length ("Primary Reference: " +:+ leading p))%nat
    with (String.length (trimStart p)) by lia.
  apply substring_all.
Qed.

Section Header.
Context {Timestamp : Type}.
Variable idOf : nat -> NodeId.
Variable timeOf : nat -> Timestamp.
Variable o : ConversionOptions.
Hypothesis Hpreserve : preserveIds o = Some true.
Hypothesis Hinterjections : default true (includeInterjections o) = true.

Local Abbreviation Root := (@DocumentRootNode Timestamp).
Local Abbreviation runLoop := (loop idOf timeOf).

(** What the loop has found after the title and passage nodes. *)
Definition headerState (root : Root) (first : bool) : @LoopState Timestamp :=
  mkLoop []
    (if truthyOptStr (title root) then title root else None)
    (if truthyOptStr (biblePassage root) then trimStart <$> biblePassage root else None)
    None first.

Lemma loop_header_state (root : Root) (n : nat) :
  exists first,
    runLoop o ConverterSpec.startState
      (ConverterSpec.titleNodes root ++ ConverterSpec.passageNodes root) n
    = (Ok (headerState root first), n).
Proof.
  assert (Hp : forall (st : LoopState) p, truthyStr p = true ->
            loopBody idOf timeOf o st
              (TT "paragraph" None
                 (Some [textLeaf "Primary Reference: " (Some [mkMark "bold" None]); textLeaf p None])
                 None None) n
            = (Ok (mkLoop (ls_children st) (ls_title st) (Some (trimStart p)) (ls_speaker st)
                     false), n)).
  { intros st p Ht. destruct p as [|c p]; [discriminate|].
    rewrite <- (passage_prefix_removed (String c p)). reflexivity. }
  unfold ConverterSpec.titleNodes, ConverterSpec.passageNodes, headerState.
  destruct (title root) as [t|], (biblePassage root) as [p|]; cbn [truthyOptStr];
    try destruct (truthyStr t) eqn:Et; try destruct (truthyStr p) eqn:Ep; cbn [app].
  all: try (eexists; reflexivity).
  all: rewrite (ConverterSpec.loop_cons idOf timeOf).
  all: try (destruct t as [|c t]; [discriminate|]).
  all: try (change (loopBody idOf timeOf o ConverterSpec.startState
                      (TT "heading" (Some (<["textAlign" := JStr "center"]> {["level" := JNum 1]}))
                         (Some [textLeaf (String c t) None]) None None) n)
              with (Ok (mkLoop (@nil (@RawNode Timestamp)) (Some (String c t)) None None false),
                    n)).
  all: cbv iota beta.
  all: try (eexists; reflexivity).
  all: try rewrite (ConverterSpec.loop_cons idOf timeOf).
  all: rewrite Hp by exact Ep.
  all: eexists; reflexivity.
Qed.

(** The passage after the round trip. *)
Definition passageRead (passage : option string) : option string :=
  match passage with
  | Some p => Some (if truthyStr (trimStart p) then trimStart p else p)
  | None => None
  end.

(** Through the editor and back (with [preserveIds: true], interjections
    not switched off, and no paragraph that reads as a metadata line), a
    document keeps its title and its speaker, and its passage up to the
    white space the passage starts with: the passage is written behind
    [Primary Reference: ] and read back by cutting that prefix and the white
    space after it, so a passage with leading white space comes back
    without it (unless it is white space only). *)
Theorem header_round_trip (root : Root) (n : nat) :
  existsb ConverterSpec.readsAsMetadata (root_children root) = false ->
  exists root',
    data (fst (roundTrip idOf timeOf root o n)) = Some root'
    /\ title root' = title root
    /\ speaker root' = speaker root
    /\ biblePassage root' = passageRead (biblePassage root)
    /\ (forall p, biblePassage root = Some p -> leading p = "" -> biblePassage root' = Some p).
Proof.
  intros Hm. unfold roundTrip.
  rewrite (ConverterSpec.astToTipTapJson_eq o Hpreserve Hinterjections). cbn [data].
  assert (Hfields : forall st : @LoopState Timestamp,
            ls_title st = (if truthyOptStr (title root) then title root else None) ->
            ls_biblePassage st
            = (if truthyOptStr (biblePassage root) then trimStart <$> biblePassage root else None) ->
            ls_speaker st = None ->
            orStr (ls_title st) (Some root ≫= title) = title root
            /\ orStr (ls_speaker st) (Some root ≫= speaker) = speaker root
            /\ orStr (ls_biblePassage st) (Some root ≫= biblePassage)
               = passageRead (biblePassage root)).
  { intros st -> -> ->. cbn [mbind option_bind]. unfold orStr, passageRead.
    destruct (title root) as [t|], (biblePassage root) as [p|]; cbn [truthyOptStr fmap option_fmap option_map];
      try destruct (truthyStr t) eqn:Et; try destruct (truthyStr p) eqn:Ep;
      cbn [truthyOptStr]; rewrite ?Et, ?Ep; repeat split;
      try (destruct (truthyStr (trimStart p)) eqn:E; reflexivity);
      try (destruct p; [reflexivity | discriminate]).  }
  assert (Hlead : forall passage' : option string,
            passage' = passageRead (biblePassage root) ->
            forall p, biblePassage root = Some p -> leading p = "" -> passage' = Some p).
  { intros passage' E p Hp Hl. rewrite E, Hp. unfold passageRead.
    assert (Ht : trimStart p = p) by (rewrite <- (leading_trimStart p) at 2; rewrite Hl; reflexivity).
    rewrite Ht. destruct (truthyStr p); reflexivity. }
  destruct (ConverterSpec.emittedContent o root) as [|e es] eqn:Ee.
  - (* nothing to emit: the placeholder *)
    pose proof (ConverterSpec.toAst_array idOf timeOf o (Some root) [ConverterSpec.placeholder] n)
      as Hr.
    destruct (ConverterSpec.loop_placeholder idOf timeOf o Hpreserve n) as [n' Hl].
    rewrite Hl in Hr. destruct Hr as [t Hr]. rewrite Hr. cbn [data]. eexists.
    split; [reflexivity|]. cbn [title speaker biblePassage ls_title ls_speaker ls_biblePassage].
    unfold ConverterSpec.emittedContent in Ee.
    apply app_eq_nil in Ee as [Et Ee]. apply app_eq_nil in Ee as [Ep _].
    assert (Ht' : truthyOptStr (title root) = false).
    { unfold ConverterSpec.titleNodes in Et. destruct (title root) as [t'|]; [|reflexivity].
      cbn. destruct (truthyStr t'); [discriminate | reflexivity]. }
    assert (Hp' : truthyOptStr (biblePassage root) = false).
    { unfold ConverterSpec.passageNodes in Ep. destruct (biblePassage root) as [p'|]; [|reflexivity].
      cbn. destruct (truthyStr p'); [discriminate | reflexivity]. }
    destruct (Hfields (mkLoop [] None None None false)) as (F1 & F2 & F3);
      [rewrite Ht'; reflexivity | rewrite Hp'; reflexivity | reflexivity |].
    cbn [ls_title ls_speaker ls_biblePassage] in *.
    split; [exact F1|]. split; [exact F2|]. split; [exact F3|].
    apply Hlead. exact F3.
  - rewrite <- Ee.
    pose proof (ConverterSpec.toAst_array idOf timeOf o (Some root)
                  (ConverterSpec.emittedContent o root) n) as Hr.
    assert (Hst : exists new b m,
              runLoop o ConverterSpec.startState (ConverterSpec.emittedContent o root) n
              = (Ok (mkLoop new
                       (if truthyOptStr (title root) then title root else None)
                       (if truthyOptStr (biblePassage root)
                        then trimStart <$> biblePassage root else None)
                       None b), m)).
    { unfold ConverterSpec.emittedContent. rewrite app_assoc, ConverterSpec.loop_app.
      destruct (loop_header_state root n) as [first Hh]. rewrite Hh.
      destruct (ConverterSpec.loop_emitted idOf timeOf o (root_children root)
                  (headerState root first) n Hm) as (new & b & _ & Hb).
      rewrite Hb. eexists _, _, _. reflexivity. }
    destruct Hst as (new & b & m & Hst). rewrite Hst in Hr. destruct Hr as [t Hr].
    rewrite Hr. cbn [data]. eexists. split; [reflexivity|].
    cbn [title speaker biblePassage].
    destruct (Hfields (mkLoop new
                         (if truthyOptStr (title root) then title root else None)
                         (if truthyOptStr (biblePassage root)
                          then trimStart <$> biblePassage root else None)
                         None b) eq_refl eq_refl eq_refl) as (F1 & F2 & F3).
    cbn [ls_title ls_speaker ls_biblePassage] in *.
    split; [exact F1|]. split; [exact F2|]. split; [exact F3|].
    apply Hlead. exact F3.
Qed.

End Header.

(** A passage typed with two blanks in front. *)
Definition indentedRoot : @DocumentRootNode nat :=
  mkRoot "root-7" 1 0%nat (Some "Grace") (Some "  John 3:16") (Some "Paul") None
    [ParagraphNode "para-1" 1 0%nat [TextNode "t1" 1 0%nat "In the beginning" None]].

Lemma header_round_trip_witness :
  preserveIds ConverterSpec.preserving = Some true
  /\ default true (includeInterjections ConverterSpec.preserving) = true
  /\ existsb ConverterSpec.readsAsMetadata (root_children indentedRoot) = false
  /\ exists root',
       data (fst (roundTrip ConverterSpec.sampleIds (fun n => n) indentedRoot
                    ConverterSpec.preserving 0%nat)) = Some root'
       /\ title root' = title indentedRoot
       /\ speaker root' = speaker indentedRoot
       /\ biblePassage root' = passageRead (biblePassage indentedRoot)
       /\ (forall p, biblePassage indentedRoot = Some p -> leading p = "" ->
             biblePassage root' = Some p).
Proof.
  split; [reflexivity|]. split; [reflexivity|]. split; [reflexivity|].
  exact (header_round_trip ConverterSpec.sampleIds (fun n => n) ConverterSpec.preserving
           eq_refl eq_refl indentedRoot 0%nat eq_refl).
Defined.

(** A passage behind a no-break space comes back without it. *)
Example no_break_space_passage :
  data (fst (roundTrip ConverterSpec.sampleIds (fun n => n)
               (mkRoot "root-7" 1 0%nat None (Some (JsSpec.nbsp +:+ "John 3:16")) None None
                  [ParagraphNode "para-1" 1 0%nat [TextNode "t1" 1 0%nat "In the beginning" None]])
               ConverterSpec.preserving 0%nat)) ≫= biblePassage
  = Some "John 3:16".
Proof. vm_compute. reflexivity. Qed.

End HeaderRoundTrip.

(** ** What the editor tree looks like, and what a quote keeps *)
Module ConverterForward.
Import Js Converter.

Section Forward.
Context {Timestamp : Type}.
Variable idOf : nat -> NodeId.
Variable timeOf : nat -> Timestamp.

Local Abbreviation Node := (@DocumentNode Timestamp).
Local Abbreviation Root := (@DocumentRootNode Timestamp).

Definition isTextLeaf (x : TipTapNode) : bool := String.eqb (tt_type x) "text".

(** A tree the editor accepts: a text node has a text that is not empty (or
    is an interjection) and no content; any other node is a paragraph, a
    heading or a blockquote with a content array, and the content of a
    blockquote is not empty and holds no bare text node. *)
Fixpoint editorReady (x : TipTapNode) : bool :=
  match x with
  | TT ty _ content tx ms =>
      if String.eqb ty "text" then
        (truthyOptStr tx || hasInterjectionMark ms)
        && match content with None => true | Some _ => false end
      else
        (String.eqb ty "paragraph" || String.eqb ty "heading" || String.eqb ty "blockquote")
        && match content with
           | Some cs =>
               forallb editorReady cs
               && (negb (String.eqb ty "blockquote")
                   || (match cs with [] => false | _ => true end
                       && forallb (fun c => negb (isTextLeaf c)) cs))
           | None => false
           end
  end.

Lemma omap_forall {A B} (f : A -> option B) (P : A -> Prop) (Q : B -> Prop) (l : list A) :
  Forall P l -> (forall x y, P x -> f x = Some y -> Q y) -> Forall Q (omap f l).
Proof.
  intros Hall Hf. induction Hall as [|x l Hx _ IH]; [constructor|].
  rewrite ConverterSpec.omap_cons.
  destruct (f x) as [y|] eqn:E; [constructor; [eapply Hf; eassumption | exact IH] | exact IH].
Qed.

Lemma forallb_Forall {A} (p : A -> bool) (l : list A) :
  forallb p l = true <-> Forall (fun x => p x = true) l.
Proof.
  rewrite forallb_forall, Forall_forall. split; intros H x Hx; apply H.
  - apply list_elem_of_In, Hx.
  - apply list_elem_of_In, Hx.
Qed.

Definition Ready (o : ConversionOptions) (x : Node) : Prop :=
  forall e, convertNodeToTipTap o x = Some e -> editorReady e = true.

Lemma children_ready (o : ConversionOptions) (cs : list Node) :
  Forall (Ready o) cs -> forallb editorReady (omap (convertNodeToTipTap o) cs) = true.
Proof.
  intros H. apply forallb_Forall.
  apply (omap_forall _ (Ready o) _ cs H). intros x y Hx Hy. exact (Hx y Hy).
Qed.

Lemma wrapForQuote_ready (e : TipTapNode) :
  editorReady e = true ->
  editorReady (wrapForQuote e) = true /\ isTextLeaf (wrapForQuote e) = false.
Proof.
  intros He. unfold wrapForQuote, isTextLeaf.
  destruct (String.eqb (tt_type e) "text") eqn:Et.
  - split; [|reflexivity]. cbn. rewrite He. reflexivity.
  - split; [exact He | exact Et].
Qed.

Lemma node_ready (o : ConversionOptions) (x : Node) : Ready o x.
Proof.
  induction x as [i v t cs IH|i v t l cs IH|i v t md cs IH|i v t c ms|i v t c m]
    using ConverterSpec.node_induction; intros e; cbn [convertNodeToTipTap].
  - intros [= <-]. cbn. rewrite (children_ready o cs IH). reflexivity.
  - intros [= <-]. cbn. rewrite (children_ready o cs IH). reflexivity.
  - intros [= <-]. cbn zeta.
    pose proof (children_ready o cs IH) as Hcs. apply forallb_Forall in Hcs.
    assert (Hw : Forall (fun e => editorReady e = true /\ isTextLeaf e = false)
                   (map wrapForQuote (omap (convertNodeToTipTap o) cs))).
    { apply Forall_map. eapply Forall_impl; [exact Hcs|]. intros e' He'.
      apply wrapForQuote_ready, He'. }
    destruct (map wrapForQuote (omap (convertNodeToTipTap o) cs)) as [|w ws]; [reflexivity|].
    cbn [editorReady String.eqb Ascii.eqb Bool.eqb orb andb negb].
    apply andb_true_iff. split.
    + apply forallb_Forall. eapply Forall_impl; [exact Hw|]. cbn. tauto.
    + apply forallb_Forall. eapply Forall_impl; [exact Hw|]. cbn. intros e' [_ ->]. reflexivity.
  - destruct (truthyStr c) eqn:Ec; [|discriminate]. intros [= <-]. cbn. rewrite Ec. reflexivity.
  - destruct (flag (includeInterjections o)); [|discriminate]. intros [= <-].
    destruct c; reflexivity.
Qed.

(** Whatever the document and the options, [astToTipTapJson] succeeds with
    a tree the editor accepts: the content is not empty, every node is a
    paragraph, a heading, a blockquote or a text node, no text node has an
    empty text unless it is an interjection (an interjection is passed on
    with the content it has), and a blockquote has content and no bare text
    node in it. *)
Theorem editor_tree_spec (root : Root) (options : ConversionOptions) :
  exists content,
    astToTipTapJson root options
    = mkConversionResult true (Some (mkDoc (NodeArray content))) None None
    /\ content ≠ []
    /\ forallb editorReady content = true.
Proof.
  unfold astToTipTapJson. cbn zeta.
  set (o := mkOptions _ _ _).
  assert (Hc : forallb editorReady (omap (convertNodeToTipTap o) (root_children root)) = true).
  { apply children_ready, Forall_forall. intros x _. apply node_ready. }
  eexists. split; [reflexivity|].
  destruct (title root) as [t|], (biblePassage root) as [p|];
    try (destruct (truthyStr t) eqn:Et); try (destruct (truthyStr p) eqn:Ep);
    cbn [app];
    try (split; [discriminate|]; cbn; rewrite ?Et, ?Ep, Hc; reflexivity);
    (destruct (omap (convertNodeToTipTap o) (root_children root)) as [|e es];
     [split; [discriminate | reflexivity] | split; [discriminate | exact Hc]]).
Qed.

(** *** Quote metadata *)

Definition orText (s fallback : string) : string := if truthyStr s then s else fallback.

(** No reference, no detection. *)
Definition noMetadata : QuoteMetadata := mkMetadata None None [] false.

(** What is left of a quote's metadata after the editor. *)
Definition readBack (md : QuoteMetadata) : QuoteMetadata :=
  let refString :=
    match reference md with
    | Some r => orText (normalizedReference r) "Unknown"
    | None => "Unknown"
    end in
  {| reference :=
       Some match reference md with
            | Some r =>
                {| book := orText (book r) (extractBook refString);
                   chapter := if Qeq_bool (chapter r) 0 then 0%Q else chapter r;
                   verseStart := match verseStart r with
                                 | Some q => if Qeq_bool q 0 then None else Some q
                                 | None => None
                                 end;
                   verseEnd := verseEnd r;
                   originalText := orText (originalText r) refString;
                   normalizedReference := refString |}
            | None => mkReference (extractBook "Unknown") 0 None None "Unknown" "Unknown"
            end;
     detection :=
       Some match detection md with
            | Some d =>
                mkDetection (if Qeq_bool (confidence d) 0 then 1 # 2 else confidence d)
                  "medium" (orText (translation d) "KJV") false "" false
            | None => mkDetection (1 # 2) "medium" "KJV" false "" false
            end;
     interjections := [];
     userVerified := userVerified md |}.

Ltac lookups :=
  unfold get;
  repeat first [rewrite lookup_insert_eq | rewrite lookup_insert_ne by done | rewrite lookup_empty];
  cbn [default from_option id].

Lemma quoteMetadata_quoteAttrs (o : ConversionOptions) (i : NodeId) (md : QuoteMetadata) :
  quoteMetadata (quoteAttrs o i md)
  = Ok (rawMetadata (readBack (if flag (includeMetadata o) then md else noMetadata))).
Proof.
  destruct md as [r d ints uv].
  unfold quoteAttrs, quoteMetadata, readBack, rawMetadata, rawReference, rawDetection. cbn zeta.
  destruct (flag (includeMetadata o)), (flag (preserveIds o)),
    r as [[bk ch vs ve ot nr]|], d as [[cf cl tr ta vt pm]|], uv;
    cbn [reference detection userVerified interjections noMetadata book chapter verseStart verseEnd
         originalText normalizedReference confidence translation confidenceLevel
         translationAutoDetected verseText isPartialMatch fmap option_fmap option_map];
    lookups; unfold orValue, nullish, optNum, orText;
    repeat (cbn [truthy negb extractBookCall default from_option id];
            match goal with
            | |- context [truthyStr ?s] => destruct (truthyStr s) eqn:?
            | |- context [Qeq_bool ?q 0] => destruct (Qeq_bool q 0) eqn:?
            | |- context [match ?v with Some _ => _ | None => _ end] =>
                match type of v with option Q => destruct v end
            end);
    cbn [truthy negb extractBookCall default from_option id]; reflexivity.
Qed.

Lemma orText_again (s fallback : string) :
  orText (orText s fallback) fallback = orText s fallback.
Proof.
  unfold orText. destruct (truthyStr s) eqn:Es; [rewrite Es; reflexivity|].
  destruct (truthyStr fallback); reflexivity.
Qed.

Lemma readBack_again (md : QuoteMetadata) : readBack (readBack md) = readBack md.
Proof.
  unfold readBack.
  destruct (reference md) as [[bk ch vs ve ot nr]|], (detection md) as [[cf cl tr ta vt pm]|];
    cbn [reference detection userVerified interjections book chapter verseStart verseEnd
         originalText normalizedReference confidence translation];
    rewrite ?orText_again; try reflexivity.
  all: try (destruct (Qeq_bool ch 0) eqn:Ech; rewrite ?Ech).
  all: try (destruct (Qeq_bool cf 0) eqn:Ecf; rewrite ?Ecf).
  all: try (destruct vs as [q|]; [destruct (Qeq_bool q 0) eqn:Eq; rewrite ?Eq|]).
  all: try reflexivity.
  all: unfold orText; destruct (truthyStr (extractBook "Unknown")); reflexivity.
Qed.

(** A quote block that goes to the editor and comes back has the metadata
    [readBack] describes, whatever the options of the way back: the
    reference, chapter, verses, translation and confidence that were written
    into the attributes come back ([userVerified] and [verseEnd] always; a
    text that is empty, a chapter, first verse or confidence that is 0 comes
    back as the default), while [confidenceLevel] is ['medium'], [verseText]
    is empty and the list of interjections is empty afterwards, and a quote
    without reference comes back with the reference ['Unknown'].  With
    [includeMetadata] off only the defaults come back.  A second round trip
    changes nothing more. *)
Theorem quote_metadata_round_trip (o back : ConversionOptions) (i : NodeId) (v : Z)
    (t : Timestamp) (md : QuoteMetadata) (cs : list Node) (n : nat) :
  exists e i' t' cs',
    convertNodeToTipTap o (QuoteBlockNode i v t md cs) = Some e
    /\ fst (convertTipTapToNode idOf timeOf back e n)
       = Ok (Some (RawQuoteBlock i' 1 t'
                     (rawMetadata (readBack (if flag (includeMetadata o) then md else noMetadata)))
                     cs'))
    /\ userVerified (readBack md) = userVerified md
    /\ interjections (readBack md) = []
    /\ (confidenceLevel <$> detection (readBack md)) = Some "medium"
    /\ (verseEnd <$> reference (readBack md)) = Some (reference md ≫= verseEnd)
    /\ readBack (readBack md) = readBack md.
Proof.
  cbn [convertNodeToTipTap]. cbn zeta.
  eexists _, _, _, _. split; [reflexivity|].
  split.
  - rewrite (ConverterSpec.convert_unfold idOf timeOf). cbn [String.eqb Ascii.eqb Bool.eqb].
    cbn zeta. rewrite ConverterSpec.default_quoteAttrs, quoteMetadata_quoteAttrs.
    cbn [fst]. reflexivity.
  - split; [reflexivity|]. split; [reflexivity|].
    split; [unfold readBack; cbn [detection]; destruct (detection md); reflexivity|].
    split; [unfold readBack; cbn [reference]; destruct (reference md); reflexivity|].
    apply readBack_again.
Qed.

End Forward.

End ConverterForward.

(** ** The commit timer of a boundary drag *)
Module BoundaryTimerSpec.
Import QuoteReview BoundaryMutation BoundaryMutationSpec.

(** A drag cancelled, before or after [endDrag], commits nothing: no
    callback has been called since the drag began, the drag state is the
    initial one, neither ref holds anything, and the delay passing changes
    nothing.  [endDrag] called again keeps the one pending commit, and the
    timer fires once.  [startDrag] does not clear a pending commit: a drag
    begun within the delay of the one before is ended when that commit
    fires.  [updateDrag] and [endDrag] do nothing while no drag is in
    progress. *)
Theorem commit_timer_lifecycle (options : UseBoundaryMutationOptions) (now : Z) (h0 : Hook)
    (q : NodeId) (e : Edge) (o0 : Z) (ups : list Update) :
  let h := dragging options now h0 q e o0 ups in
  (forall c, c = cancelDrag now h \/ c = cancelDrag now (endDrag h) ->
     effects c = effects h0
     /\ boundaryDrag (ctx c) = initialBoundaryDragState
     /\ commitTimerRef c = None /\ lastCommittedOffsetRef c = None
     /\ timerFires options now c = c)
  /\ endDrag (endDrag h) = endDrag h
  /\ commitTimerRef (endDrag h) = Some (mkPending q (finalOffset o0 ups) (Some e) o0)
  /\ timerFires options now (timerFires options now (endDrag h))
     = timerFires options now (endDrag h)
  /\ (forall q' e' o',
        let next := startDrag now (endDrag h) q' e' o' in
        isDragging (boundaryDrag (ctx next)) = true
        /\ isDragging (boundaryDrag (ctx (timerFires options now next))) = false)
  /\ (forall idle x mx my, dragActive (boundaryDrag (ctx idle)) = false ->
        updateDrag options now idle x mx my = idle /\ endDrag idle = idle).
Proof.
  cbn zeta. destruct (dragging_invariant options now h0 q e o0 ups) as [Ha He Ho Hc Hq Hl Hf].
  set (h := dragging options now h0 q e o0 ups) in *.
  assert (Hend : endDrag h
                 = mkHook (ctx h) (Some (mkPending q (finalOffset o0 ups) (Some e) o0))
                     (lastCommittedOffsetRef h) (effects h)).
  { unfold endDrag, dragActive. rewrite Ha, Hq, He, Ho, Hc. reflexivity. }
  split; [|split; [|split; [|split; [|split]]]].
  - intros c [-> | ->]; [|rewrite Hend]; unfold cancelDrag, dispatch; cbn;
      (split; [exact Hf|]); repeat split.
  - rewrite Hend. unfold endDrag, dragActive. cbn [ctx]. rewrite Ha, Hq, He, Ho, Hc. reflexivity.
  - rewrite Hend. reflexivity.
  - rewrite Hend. unfold timerFires at 2. cbn [commitTimerRef].
    match goal with
    | |- timerFires _ _ (mkHook ?c None ?l ?f) = _ => reflexivity
    end.
  - intros q' e' o'. cbn zeta. rewrite Hend. split; [reflexivity|].
    unfold startDrag, dispatch, timerFires. cbn [commitTimerRef ctx lastCommittedOffsetRef effects].
    destruct ((5 <? Z.abs (finalOffset o0 ups - o'))%Z && onBoundaryCommit options).
    + destruct (dragRange (Some e) o0 (finalOffset o0 ups)) as [s t].
      destruct (checkParagraphCrossing options s t) as [crosses paragraphs]. reflexivity.
    + reflexivity.
  - intros idle x mx my Hidle. unfold updateDrag, updateDragRange, endDrag. rewrite Hidle.
    split; reflexivity.
Qed.

End BoundaryTimerSpec.
